(* ===== verification/_CoqProject ===== *)
-Q . S2P
Prelude.v
Validation.v
Contract.v
ContractSpec.v
KernelApi.v
ResourceManager.v
Ledger.v
Ownership.v
LedgerSpec.v
LedgerExamples.v
Binding.v
CsvSpec.v
BindingSpec.v
Environment.v
Instance.v
InstanceSpec.v
World.v
AuthorityState.v
Events.v
EventsSpec.v
Authority.v
WorkerActions.v
EndpointActions.v
ProviderActions.v
AuthorityFrame.v
AuthoritySteps.v
AuthoritySpec.v
EndpointSpec.v
LeaseActionSpec.v
ProviderSpec.v
OperationSpec.v
AuthorityExamples.v
AuthorityFindings.v
RuntimeJournal.v
JournalSpec.v
JournalReplay.v
JournalExamples.v
Service.v
Supervisor.v
SupervisorSpec.v
SupervisorExamples.v
Messages.v
Wire.v
WireSpec.v
ServiceManager.v
ServiceManagerSpec.v
ServiceSessions.v
ServiceSessionsSpec.v
SessionExamples.v
RestartSpec.v
RestartExamples.v
Artifact.v
NodeMessages.v
Placement.v
Admission.v
Assignment.v
ArtifactSpec.v
PlacementSpec.v
PlacementChoice.v
AdmissionSpec.v
AssignmentSpec.v
ProjectionSpec.v
FabricExamples.v
