(* ===== verification/Prelude.v ===== *)
(** * Cyrene Platform: verification of the Kernel and the execution fabric

    The Cyrene Platform hosts workloads of several tenants on one machine.  A
    Kernel process owns the machine's resources: tenants acquire leases on
    them, run workers under a lease, publish endpoints of these workers and
    follow everything through event streams.  An execution fabric places work on
    remote nodes and hands it over as assignments under a lease.  Adapters report the hardware, a
    sandbox launches and kills processes, a journal file survives crashes.
    Correctness is about authority: a resource has one holder, a holder whose
    authority ended cannot act, nothing is handed on before cleanup is
    confirmed, and a restart neither forgets nor adopts anything.

    ** Parts and their files

    - Semantic contract ([contracts/rust/cy-kernel-contract/src]).
      [Validation]: limits and field validators of [validation.rs].
      [Contract]: the objects ([identity.rs], [resource.rs], [lease.rs],
      [worker.rs], [operation.rs], [endpoint.rs], [event.rs], [snapshot.rs],
      [revision.rs]) as records, their [validate] as functions into [result],
      their state machines and authorization decisions.
      [ContractSpec]: which pages and snapshots are accepted, lifecycles,
      grants.
    - Kernel API types ([kernel/crates/cy-kernel-api/src], [adapter.rs] of the
      contract): [KernelApi], [Binding]; [CsvSpec], [BindingSpec]: joined lists,
      what a merged binding holds.
    - Resource lease manager ([kernel/crates/cy-resource-manager/src/lib.rs]).
      [ResourceManager]: [State] is the mutex's content, one definition per
      method, the clock readings of a method are its [now] arguments.
      [Ledger]: the methods as one transition system ([op], [exec], [run]) and
      the history of a lease.  [Ownership]: exclusivity and the refinement of an
      abstract ownership map.  [LedgerSpec], [LedgerExamples]: each method on
      every branch, and runs.
    - Processes ([sandboxed_process.rs], [watchdog/instance_actor.rs]):
      [Instance], [InstanceSpec].
    - Kernel authority ([cy-kernel-daemon/src/authority.rs],
      [authority/authority_actions.rs], [authority/provider_actions.rs],
      [session.rs], [daemon.rs]).  [AuthorityState]: [AuthorityRuntime] with one
      field per map of the code and the action monad.  [Events]: the event
      streams.  [Authority], [WorkerActions], [EndpointActions],
      [ProviderActions]: one definition per action, port calls included.
      [AuthorityFrame]: step relations, the list of actions ([action],
      [perform]) and the rules that lift a relation over an action.
      [AuthoritySteps], [AuthoritySpec], [EndpointSpec], [LeaseActionSpec],
      [ProviderSpec], [OperationSpec], [EventsSpec]: the theorems.
      [AuthorityExamples], [AuthorityFindings]: runs.
    - Runtime journal ([runtime/cyrene-kernel/src/runtime_journal.rs]).
      [RuntimeJournal]: the file, recovery, replay, classification and the
      restart of [main.rs].  [JournalSpec], [JournalReplay]: the theorems.
      [JournalExamples]: a disk and a codec.  [RestartSpec],
      [RestartExamples]: the authority and the journal together, wired as [main.rs]
      wires them.
    - Wire boundary ([cy-kernel-daemon/src/convert], messages of
      [contracts/proto]).  [Messages]: the generated structs.  [Wire]: one
      definition per decoder and encoder, errors included.  [WireSpec]: round
      trips, call contexts, times, legacy requests.
    - Services ([cy-kernel-api/src/service.rs], [watchdog/supervisor.rs],
      [service_manager.rs]).  [Service]: policies and the back-off in binary64.
      [Supervisor]: [ServiceSupervisor] and its methods; [ServiceHost] is the
      class of timers and probe sockets.  [SupervisorSpec],
      [SupervisorExamples]: invariant, readiness, crash loops, failed stops.
      [ServiceManager], [ServiceManagerSpec]: the calls of clients, one step each.
      [ServiceSessions]: [start] cut at its awaits ([start_begin],
      [start_round]), a supervisor driven by the moves between them, and a
      session of concurrent clients with the lock of the table and the mutex of
      each supervisor.  [ServiceSessionsSpec], [SessionExamples]: the theorems over
      every interleaving, and runs.
    - Artifacts and the execution fabric ([cy-manifest/src/manifest/artifact.rs],
      [canonical.rs], [framework/crates/cy-execution-fabric/src], messages of
      [node_control.proto]).  [Artifact]: references and portable directories.
      [NodeMessages]: the generated structs.  [Placement]: [placement.rs] and
      [capability.rs].  [Admission]: [admission.rs], [node.rs], [enrollment.rs],
      [connectivity.rs], [provider.rs], [reconcile.rs].  [Assignment]:
      [assignment.rs].  [ArtifactSpec], [PlacementSpec], [PlacementChoice],
      [AdmissionSpec], [AssignmentSpec], [ProjectionSpec]: the theorems;
      [FabricExamples]: runs.
    - The outside world: [Environment] is the class of everything the
      Kernel calls and does not implement; [World] is an instance that executes.

    ** Conventions

    A Rust [Result] is [result E A]; a method on shared state is
    [STE S E A := S -> S * result E A], so that what was written before an early
    return stays written.  An unsigned integer is an [N] with saturation,
    checking or wrap-around written at the operation; a string is its UTF-8
    bytes.  [BTreeMap] and [HashMap] are [gmap]: the first is iterated in key
    order ([btree_iter]), the second in an order the environment chooses.  Code
    outside the repository is a class: [Environment] (clock, sandbox, adapters,
    resolver, channels), [JournalCodec] (serde_json), [JournalHost] (file
    system), [ServiceHost] (timers, probe sockets), [Metadata] (tonic),
    [ManifestHash] (serde_jcs, sha2).  Their laws are the documented behaviour of
    that code, and each has an instance that runs ([World], [JournalExamples],
    [FabricExamples]).

    ** What the theorems show

    - Ledger: exclusive ownership in every interleaving of calls with one cleanup
      confirmation per revocation, refinement of an ownership map, unique fence
      tokens above the floor, lifecycles that never go back, and success and
      failure of each call.
    - Authority, for every behaviour of the outside world and every sequence of
      actions: namespace ownership, valid event streams, grants
      backed by endpoints, operations and provider sessions that only move
      forward.  For single actions on every path: a lease is visible only after
      its durable record, a launch needs a durable intent, resources are freed
      only after confirmed cleanup, a lost worker is cut off fail-closed.
    - Events: replay resumes without loss or repetition; a store that fails
      degrades the stream instead of dropping events silently.
    - Journal: what was appended is what recovery reads, at whatever byte an
      append failed; epochs and fence tokens rise across restarts; a successful
      restart has closed every old process and touched no other.  With the
      authority on top: no lease of a later process ever carries a token that a
      lease active before the crash could pass for.
    - Wire: decoders invert encoders on exactly the valid objects; the three
      call-context decoders admit what the authority's own check admits; the
      principal of a worker is the connection's; times keep their value.
    - Services: state, events, endpoint, restart budget and generations of a
      supervisor agree at every moment of any calls; a service that never
      becomes ready ends in quarantine; readiness probing ends within a bound
      when a threshold is at most one and may last for ever otherwise; in every
      interleaving of clients a managed service keeps its first specification;
      a status call that waits for a probing service blocks all later starts.
    - Fabric: a target is eligible exactly when it meets a declarative
      specification, and a placement returns the preferred one of the eligible
      targets in whatever order they are listed; an assignment carries exactly the
      artifacts of its placement and is admitted, by the agent of its runtime
      generation only, until its first expiry; frames are accepted once and in
      order; a node keeps its identity; a directory is accepted exactly when it is a
      tree, also where names fold case.
    - Departures from the documentation are theorems about concrete runs
      ([AuthorityFindings], [LedgerExamples], [BindingSpec], [EventsSpec],
      [JournalReplay], [SupervisorSpec]).

    ** Bounds and fuel

    Loops of the modelled code are bounded by data (a list, a map, a vector of
    candidates) and their models recurse on that data, with one exception: the
    readiness loop of the service supervisor has no bound of its own.
    [probe_loop] runs it with fuel, [None] meaning that [start] has not returned;
    [readiness_probing_ends_iff] gives the fuel that suffices and shows when none
    does; the moves of [ServiceSessions] are its rounds and need none.  [trim]
    strips as often as the string has bytes, and each strip drops one.  Integer widths are those of the code.

    ** Not modelled

    Locks and task interleaving inside one authority action (actions are atomic
    steps, as the locks of the code make the ledger and the journal; the calls of
    service clients do interleave), a client that drops its call, the gRPC services
    around the authority and their background tasks, peer credentials, the
    transport of worker requests ([send_request] of the instance actor, which
    waits on channels), sandboxd and the hardware adapters (system calls), runtime maintenance (file system
    transactions), the node, runtime and package agents, the workspace control
    plane with its PostgreSQL storage, and the build tooling: their behaviour is
    that of the operating system, the network or the database they drive. *)
From stdpp Require Import base gmap strings list sorting pretty.
From Stdlib Require Import Ascii Lia ZifyBool ZifyN.

(** ** Results

    Rust's [Result<A, E>]; the error type comes first so that [result E] is a
    monad and the [?] operator is stdpp's [x ← e; k]. *)
Inductive result (E A : Type) : Type :=
| Ok (a : A)
| Err (e : E).
Arguments Ok {E A} a.
Arguments Err {E A} e.

#[export] Instance result_eq_dec `{EqDecision E, EqDecision A} : EqDecision (result E A).
Proof. solve_decision. Defined.

#[export] Instance result_ret {E} : MRet (result E) := fun _ a => Ok a.
#[export] Instance result_bind {E} : MBind (result E) :=
  fun _ _ f r => match r with Ok a => f a | Err e => Err e end.
#[export] Instance result_fmap {E} : FMap (result E) :=
  fun _ _ f r => match r with Ok a => Ok (f a) | Err e => Err e end.

(** [Result::map_err], [Option::ok_or_else], [Result::is_ok] and [is_err]. *)
Definition map_err {E E' A} (f : E -> E') (r : result E A) : result E' A :=
  match r with Ok a => Ok a | Err e => Err (f e) end.
Definition ok_or {E A} (e : E) (o : option A) : result E A :=
  match o with Some a => Ok a | None => Err e end.
Definition is_ok {E A} (r : result E A) : bool :=
  match r with Ok _ => true | Err _ => false end.
Definition is_err {E A} (r : result E A) : bool := negb (is_ok r).

(** An early [return Err(e)] taken when the test fails. *)
Definition ensure {E} (b : bool) (e : E) : result E unit :=
  if b then Ok tt else Err e.

(** [for x in xs { f(x)?; }] *)
Fixpoint try_for_each {E A} (f : A -> result E unit) (xs : list A) : result E unit :=
  match xs with
  | [] => Ok tt
  | x :: xs => _ ← f x; try_for_each f xs
  end.

(** ** State and errors

    A method on shared mutable state that may fail.  The state survives an
    error: what the code wrote before an early return stays written. *)
Definition STE (S E A : Type) : Type := S -> S * result E A.

Section STE.
Context {S E : Type}.

#[export] Instance ste_ret : MRet (STE S E) := fun _ a s => (s, Ok a).
#[export] Instance ste_bind : MBind (STE S E) :=
    fun _ _ f m s =>
      match m s with
      | (s', Ok a) => f a s'
      | (s', Err e) => (s', Err e)
      end.
#[export] Instance ste_fmap : FMap (STE S E) :=
    fun _ _ f m s => let '(s', r) := m s in (s', f <$> r).

Definition throw {A} (e : E) : STE S E A := fun s => (s, Err e).
Definition lift {A} (r : result E A) : STE S E A := fun s => (s, r).
Definition gets {A} (f : S -> A) : STE S E A := fun s => (s, Ok (f s)).
Definition modify (f : S -> S) : STE S E unit := fun s => (f s, Ok tt).
Definition require (b : bool) (e : E) : STE S E unit := lift (ensure b e).
  (** [let _ = m;]: the outcome is dropped, the effect is kept. *)
Definition attempt {A} (m : STE S E A) : STE S E (result E A) :=
    fun s => let '(s', r) := m s in (s', Ok r).

  (** [for x in xs { f(x)?; }] *)
Fixpoint for_each {A} (f : A -> STE S E unit) (xs : list A) : STE S E unit :=
    match xs with
    | [] => mret tt
    | x :: xs => _ ← f x; for_each f xs
    end.
End STE.

(** ** Machine integers

    An unsigned integer is an [N]; the wrap-around, saturation or check the
    source asks for is written out at the operation. *)
Definition u32_max : N := 4294967295.
Definition u64_max : N := 18446744073709551615.
Definition u64_saturating_add (a b : N) : N := N.min (a + b) u64_max.
Definition u64_checked_add (a b : N) : option N :=
  if (a + b <=? u64_max)%N then Some (a + b)%N else None.
Definition u64_wrapping_add (a b : N) : N := ((a + b) mod (u64_max + 1))%N.
Definition u32_saturating_add (a b : N) : N := N.min (a + b) u32_max.

(** [Option::is_some_and] *)
Definition is_some_and {A} (f : A -> bool) (o : option A) : bool :=
  match o with Some a => f a | None => false end.
(** [Option::map_or] *)
Definition map_or {A B} (d : B) (f : A -> B) (o : option A) : B :=
  match o with Some a => f a | None => d end.

(** ** Strings

    A Rust [String] is its UTF-8 bytes. *)
Definition bytes : string -> list ascii := String.list_ascii_of_string.
Definition of_bytes : list ascii -> string := String.string_of_list_ascii.
Definition byte_len (s : string) : N := N.of_nat (String.length s).
Definition byte_in (lo hi : N) (c : ascii) : bool :=
  ((lo <=? N_of_ascii c) && (N_of_ascii c <=? hi))%N.
Definition is_ascii_lowercase : ascii -> bool := byte_in 97 122.
Definition is_ascii_uppercase : ascii -> bool := byte_in 65 90.
Definition is_ascii_digit : ascii -> bool := byte_in 48 57.
Definition is_ascii_alphanumeric (c : ascii) : bool :=
  is_ascii_lowercase c || is_ascii_uppercase c || is_ascii_digit c.

(** [s.chars().any(char::is_control)]: the control characters are U+0000 to
    U+001F and U+007F (one byte) and U+0080 to U+009F (0xC2 and a byte). *)
Fixpoint has_control (bs : list ascii) : bool :=
  match bs with
  | [] => false
  | c :: rest =>
      byte_in 0 31 c || byte_in 127 127 c
      || (byte_in 194 194 c && is_some_and (byte_in 128 159) (head rest))
      || has_control rest
  end.

(** [str::to_ascii_lowercase] and [replace(from, to)] for single bytes. *)
Definition byte_to_lower (c : ascii) : ascii :=
  if is_ascii_uppercase c then ascii_of_N (N_of_ascii c + 32) else c.
Definition to_ascii_lowercase (s : string) : string :=
  of_bytes (byte_to_lower <$> bytes s).
Definition replace_byte (from to : ascii) (s : string) : string :=
  of_bytes ((fun c => if decide (c = from) then to else c) <$> bytes s).

(** ** Ordered maps

    A [BTreeMap] is a finite map whose iteration follows the [Ord] of its keys.
    [Ordered] is a derived Rust [Ord]: a total comparison that decides
    equality. *)
Class Ordered (K : Type) := {
  compare : K -> K -> comparison;
  compare_eq : forall x y, compare x y = Eq <-> x = y;
  compare_antisym : forall x y, compare y x = CompOpp (compare x y);
  compare_lt_trans : forall x y z, compare x y = Lt -> compare y z = Lt -> compare x z = Lt;
}.

#[export] Instance N_ordered : Ordered N.
Proof.
  refine {| compare := N.compare |}.
  - apply N.compare_eq_iff.
  - intros; apply N.compare_antisym.
  - intros x y z; rewrite !N.compare_lt_iff; lia.
Defined.

Lemma string_compare_lt_trans x y z :
  String.compare x y = Lt -> String.compare y z = Lt -> String.compare x z = Lt.
Proof.
  revert y z. induction x as [|a x IH]; intros [|b y] [|c z]; simpl; try done.
  unfold Ascii.compare.
  destruct (N.compare_spec (N_of_ascii a) (N_of_ascii b)) as [Hab|Hab|Hab];
    destruct (N.compare_spec (N_of_ascii b) (N_of_ascii c)) as [Hbc|Hbc|Hbc];
    intros H1 H2; try done.
  - rewrite Hab, Hbc, N.compare_refl; eauto.
  - by rewrite (proj2 (N.compare_lt_iff _ _)) by lia.
  - by rewrite (proj2 (N.compare_lt_iff _ _)) by lia.
  - by rewrite (proj2 (N.compare_lt_iff _ _)) by lia.
Qed.

Lemma string_compare_eq x y : String.compare x y = Eq <-> x = y.
Proof.
  split; [apply String.compare_eq_iff|intros ->].
  induction y as [|a y IH]; simpl; [done|].
  unfold Ascii.compare; by rewrite N.compare_refl.
Qed.

#[export] Instance string_ordered : Ordered string.
Proof.
  refine {| compare := String.compare |}.
  - apply string_compare_eq.
  - intros; apply String.compare_antisym.
  - apply string_compare_lt_trans.
Defined.

(** Derived [Ord] on a struct of two fields: lexicographic. *)
#[export] Instance prod_ordered {A B} `{Ordered A, Ordered B} : Ordered (A * B).
Proof.
  refine {| compare := fun '(a, b) '(a', b') =>
              match compare a a' with Eq => compare b b' | c => c end |}.
  - intros [a b] [a' b']. rewrite pair_equal_spec, <-(compare_eq a a'), <-(compare_eq b b').
    destruct (compare a a'), (compare b b'); intuition congruence.
  - intros [a b] [a' b']. rewrite (compare_antisym a a'), (compare_antisym b b').
    by destruct (compare a a'), (compare b b').
  - intros [a b] [a' b'] [a'' b''].
    destruct (compare a a') eqn:E1, (compare a' a'') eqn:E2; try done; intros H1 H2.
    + apply compare_eq in E1 as ->, E2 as ->.
      rewrite (proj2 (compare_eq a'' a'') eq_refl). eauto using compare_lt_trans.
    + apply compare_eq in E1 as ->. by rewrite E2.
    + apply compare_eq in E2 as <-. by rewrite E1.
    + by rewrite (compare_lt_trans a a' a'').
Defined.

Definition key_le {K} `{Ordered K} (x y : K) : Prop := compare x y <> Gt.
#[export] Instance key_le_dec {K} `{Ordered K} : RelDecision (key_le (K := K)).
Proof. intros x y. unfold key_le. solve_decision. Defined.

Section key_order.
Context {K : Type} `{Ordered K}.

#[export] Instance key_le_trans : Transitive (key_le (K := K)).
Proof.
  intros x y z. unfold key_le.
  destruct (compare x y) eqn:E1, (compare y z) eqn:E2; intros; try done.
  - apply compare_eq in E1 as ->. by rewrite E2.
  - apply compare_eq in E1 as ->. by rewrite E2.
  - apply compare_eq in E2 as <-. by rewrite E1.
  - by rewrite (compare_lt_trans x y z).
Qed.
#[export] Instance key_le_total : Total (key_le (K := K)).
Proof.
  intros x y. unfold key_le. rewrite (compare_antisym x y).
  destruct (compare x y); simpl; auto.
Qed.
#[export] Instance key_le_anti : AntiSymm (=) (key_le (K := K)).
Proof.
  intros x y. unfold key_le. rewrite (compare_antisym x y).
  pose proof (compare_eq x y) as E.
  destruct (compare x y); simpl; intros; [by apply E|done..].
Qed.
End key_order.

(** [m.iter()], [m.keys()] and [m.values()] of a [BTreeMap]. *)
Definition entry_le {K A} `{Ordered K} (p q : K * A) : Prop := key_le p.1 q.1.
#[export] Instance entry_le_dec {K A} `{Ordered K} : RelDecision (entry_le (K := K) (A := A)).
Proof. intros p q. unfold entry_le. apply _. Defined.
Definition btree_iter {K A} `{Countable K, Ordered K} (m : gmap K A) : list (K * A) :=
  merge_sort entry_le (map_to_list m).
Definition btree_keys {K A} `{Countable K, Ordered K} (m : gmap K A) : list K :=
  (btree_iter m).*1.
Definition btree_values {K A} `{Countable K, Ordered K} (m : gmap K A) : list A :=
  (btree_iter m).*2.
(** [BTreeSet::iter] *)
Definition bset_iter {K} `{Countable K, Ordered K} (s : gset K) : list K :=
  merge_sort key_le (elements s).

Section btree.
Context {K : Type} `{Countable K, Ordered K} {A : Type}.
Implicit Types m : gmap K A.

#[export] Instance entry_le_trans : Transitive (entry_le (K := K) (A := A)).
Proof. intros p q r. unfold entry_le. apply transitivity. Qed.
#[export] Instance entry_le_total : Total (entry_le (K := K) (A := A)).
Proof. intros p q. unfold entry_le. apply (total key_le). Qed.

Lemma elem_of_btree_iter m k a : (k, a) ∈ btree_iter m <-> m !! k = Some a.
Proof. unfold btree_iter. by rewrite merge_sort_Permutation, elem_of_map_to_list. Qed.
Lemma elem_of_btree_values m a : a ∈ btree_values m <-> exists k, m !! k = Some a.
Proof.
  unfold btree_values. rewrite list_elem_of_fmap. split.
  - intros ([k a'] & -> & Hin). exists k. by apply elem_of_btree_iter.
  - intros [k Hk]. exists (k, a). by rewrite elem_of_btree_iter.
Qed.
Lemma elem_of_btree_keys m k : k ∈ btree_keys m <-> is_Some (m !! k).
Proof.
  unfold btree_keys. rewrite list_elem_of_fmap. split.
  - intros ([k' a'] & -> & Hin%elem_of_btree_iter). eauto.
  - intros [a Ha]. exists (k, a). by rewrite elem_of_btree_iter.
Qed.
Lemma btree_keys_NoDup m : NoDup (btree_keys m).
Proof.
  unfold btree_keys, btree_iter. rewrite merge_sort_Permutation.
  apply NoDup_fst_map_to_list.
Qed.
Lemma btree_iter_sorted m : StronglySorted entry_le (btree_iter m).
Proof. apply StronglySorted_merge_sort; apply _. Qed.
Lemma length_btree_iter m : length (btree_iter m) = size m.
Proof.
  unfold btree_iter. by rewrite merge_sort_Permutation, length_map_to_list.
Qed.
End btree.

Lemma elem_of_bset_iter {K} `{Countable K, Ordered K} (s : gset K) k :
  k ∈ bset_iter s <-> k ∈ s.
Proof. unfold bset_iter. by rewrite merge_sort_Permutation, elem_of_elements. Qed.

(** [map.into_iter().map(|x| (key(x), x)).collect::<BTreeMap<_, _>>()]: a later
    element replaces an earlier one with the same key. *)
Definition collect_by {K A} `{Countable K} (key : A -> K) (xs : list A) : gmap K A :=
  foldl (fun m x => <[key x := x]> m) ∅ xs.

Lemma collect_by_key {K A} `{Countable K} (key : A -> K) (xs : list A) k a :
  collect_by key xs !! k = Some a -> key a = k /\ a ∈ xs.
Proof.
  unfold collect_by.
  cut (forall m : gmap K A, foldl (fun m x => <[key x := x]> m) m xs !! k = Some a ->
            m !! k = Some a \/ (key a = k /\ a ∈ xs)).
  { intros Hc Ha. destruct (Hc ∅ Ha) as [Hm|]; [|done].
    by rewrite lookup_empty in Hm. }
  induction xs as [|x xs IH]; intros m Hm; simpl in *; [by left|].
  destruct (IH _ Hm) as [Hx|[? ?]]; [|set_solver].
  destruct (decide (key x = k)) as [<-|Hne].
  - rewrite lookup_insert_eq in Hx. simplify_eq. set_solver.
  - rewrite lookup_insert_ne in Hx by done. by left.
Qed.

(** [let mut seen = BTreeSet::new(); for x in xs { check(x)?; if !seen.insert(key(x))
    { return Err(dup); } }] *)
Fixpoint for_unique {E A K} `{Countable K} (check : A -> result E unit) (key : A -> K)
    (dup : E) (seen : gset K) (xs : list A) : result E unit :=
  match xs with
  | [] => Ok tt
  | x :: xs =>
      _ ← check x;
      if decide (key x ∈ seen) then Err dup
      else for_unique check key dup ({[key x]} ∪ seen) xs
  end.

(** ** Generic lemmas *)
Lemma result_bind_Ok {E A B} (m : result E A) (f : A -> result E B) b :
  (m ≫= f) = Ok b <-> exists a, m = Ok a /\ f a = Ok b.
Proof. destruct m; simpl; naive_solver. Qed.

Lemma result_bind_unit {E} (m k : result E unit) :
  (_ ← m; k) = Ok tt <-> m = Ok tt /\ k = Ok tt.
Proof. destruct m as [[]|]; simpl; naive_solver. Qed.

Lemma ensure_Ok {E} b (e : E) u : ensure b e = Ok u <-> b = true.
Proof. destruct b, u; simpl; naive_solver. Qed.

Lemma try_for_each_Ok {E A} (f : A -> result E unit) xs u :
  try_for_each f xs = Ok u <-> Forall (fun x => f x = Ok tt) xs.
Proof.
  destruct u. induction xs as [|x xs IH]; simpl; [by split|].
  rewrite result_bind_Ok, Forall_cons, <-IH. split.
  - by intros ([] & ? & ?).
  - intros []; eauto.
Qed.

Lemma for_unique_Ok {E A K} `{Countable K} (check : A -> result E unit) (key : A -> K)
    dup seen xs u :
  for_unique check key dup seen xs = Ok u <->
  Forall (fun x => check x = Ok tt) xs /\ NoDup (key <$> xs) /\
  (forall x, x ∈ xs -> key x ∉ seen).
Proof.
  destruct u. revert seen. induction xs as [|x xs IH]; intros seen; simpl.
  { split; [intros _|done]. split_and!; [done|constructor|set_solver]. }
  rewrite result_bind_Ok, Forall_cons, NoDup_cons. split.
  - intros ([] & Hx & Hrest). case_decide as Hs; [done|].
    apply IH in Hrest as (Hall & Hnd & Hseen). split_and!; try done.
    + rewrite list_elem_of_fmap. intros (y & Hy & Hin).
      specialize (Hseen y Hin). set_solver.
    + set_solver.
  - intros ([Hx Hall] & [Hni Hnd] & Hseen). exists tt. split; [done|].
    rewrite decide_False by set_solver. apply IH. split_and!; try done.
    intros y Hy. rewrite list_elem_of_fmap in Hni. set_solver.
Qed.

Lemma filter_all {A} (P : A -> Prop) `{forall x, Decision (P x)} (l : list A) :
  (forall x, x ∈ l -> P x) -> filter P l = l.
Proof.
  induction l as [|x l IH]; intros Hall; [done|].
  rewrite filter_cons_True by set_solver. f_equal. apply IH. set_solver.
Qed.
Lemma elem_of_drop_weaken {A} n (l : list A) x : x ∈ drop n l -> x ∈ l.
Proof. intros Hx. rewrite <-(take_drop n l). apply elem_of_app. by right. Qed.
Lemma elem_of_take_weaken {A} n (l : list A) x : x ∈ take n l -> x ∈ l.
Proof. intros Hx. rewrite <-(take_drop n l). apply elem_of_app. by left. Qed.

(** Bounds of the fixed-width operations. *)
Lemma u64_saturating_add_le a b : (u64_saturating_add a b <= u64_max)%N.
Proof. unfold u64_saturating_add. lia. Qed.
Lemma u64_saturating_add_grows a :
  (a < u64_max)%N -> u64_saturating_add a 1 = (a + 1)%N.
Proof. unfold u64_saturating_add. lia. Qed.

(** ** Automation

    [proof_step] breaks one test, match or binding of a definition that is
    being executed symbolically; [run] repeats it. *)
Ltac destruct_match_goal :=
  match goal with
  | |- context [match ?x with _ => _ end] =>
      lazymatch x with
      | context [match _ with _ => _ end] => fail
      | _ => let E := fresh "E" in destruct x eqn:E
      end
  end.
Ltac destruct_match_hyp :=
  match goal with
  | H : context [match ?x with _ => _ end] |- _ =>
      lazymatch x with
      | context [match _ with _ => _ end] => fail
      | _ => let E := fresh "E" in destruct x eqn:E
      end
  end.
Ltac unfold_monads :=
  unfold mret, mbind, fmap, result_ret, result_bind, result_fmap, ste_ret, ste_bind, ste_fmap,
    throw, lift, gets, modify, require, attempt, ensure, ok_or, map_err in *; simpl in *.

Create HintDb cyrene.
Create Rewrite HintDb cyrene.
#[export] Hint Resolve u64_saturating_add_le : cyrene.
#[export] Hint Rewrite @result_bind_Ok @ensure_Ok @try_for_each_Ok @for_unique_Ok : cyrene.
#[global] Arguments N.leb : simpl never.
#[global] Arguments N.ltb : simpl never.
#[global] Arguments N.eqb : simpl never.
#[global] Arguments Nat.eqb : simpl never.
#[global] Arguments Nat.leb : simpl never.
#[global] Arguments N.max : simpl never.
#[global] Arguments u64_saturating_add : simpl never.
#[global] Arguments u64_max : simpl never.
