(* ===== verification/Validation.v ===== *)
(** * Contract validation primitives

    [contracts/rust/cy-kernel-contract/src/validation.rs]: the limits of the
    semantic contract, [ContractError] and the field validators every contract
    object shares, with the exact language each validator accepts. *)
From stdpp Require Import base gmap strings list sorting pretty.
From Stdlib Require Import Ascii Lia ZifyBool ZifyN.
From S2P Require Import Prelude.

Definition CONTRACT_ID : string := "cyrene.kernel.semantic".
Definition CONTRACT_MAJOR : N := 1.
Definition CONTRACT_MINOR : N := 0.
Definition MAX_ID_BYTES : N := 256.
Definition MAX_NAMESPACED_ID_BYTES : N := 128.
Definition MAX_CAPABILITIES : nat := 64.
Definition MAX_PROPERTIES : nat := 64.
Definition MAX_RESOURCES_PER_SNAPSHOT : N := 1024.
Definition MAX_RESOURCES_PER_LEASE : N := 256.
Definition MAX_WORKERS_PER_SNAPSHOT : N := 4096.
Definition MAX_ENDPOINTS_PER_SNAPSHOT : N := 4096.
Definition MAX_EXECUTION_REF_BYTES : N := 512.
Definition MAX_CONNECTION_REF_BYTES : N := 512.
Definition MAX_ERROR_MESSAGE_BYTES : N := 1024.
Definition MAX_EVENT_BODY_BYTES : N := 65536.
Definition MAX_EVENTS_PER_PAGE : nat := 256.
Definition MAX_TIMESTAMP_UNIX_MS : N := 253402300799999.

Record ContractError := contract_error {
  ce_reason_code : string;
  ce_message : string;
}.
#[export] Instance ContractError_eq_dec : EqDecision ContractError.
Proof. solve_decision. Defined.

(** [validate_text]: non-empty, bounded, free of control characters. *)
Definition validate_text (field value : string) (max_bytes : N) : result ContractError unit :=
  if bool_decide (value = "") || (max_bytes <? byte_len value)%N || has_control (bytes value)
  then Err (contract_error "TEXT_INVALID"
    (field +:+ " must be non-empty, bounded UTF-8 without control characters"))
  else Ok tt.

Definition is_separator (c : ascii) : bool :=
  bool_decide (c = "."%char) || bool_decide (c = "-"%char) || bool_decide (c = "_"%char).

(** The byte loop of [validate_namespaced_id]; [start] is [expect_segment_start]. *)
Fixpoint namespaced_loop (field : string) (start : bool) (bs : list ascii)
    : result ContractError bool :=
  match bs with
  | [] => Ok start
  | byte :: rest =>
      if is_separator byte then
        if start then
          Err (contract_error "NAMESPACED_ID_INVALID"
            (field +:+ " contains an empty identifier segment"))
        else namespaced_loop field true rest
      else if start then
        if negb (is_ascii_lowercase byte) then
          Err (contract_error "NAMESPACED_ID_INVALID"
            (field +:+ " segments must start with a lower-case letter"))
        else namespaced_loop field false rest
      else if negb (is_ascii_lowercase byte || is_ascii_digit byte) then
        Err (contract_error "NAMESPACED_ID_INVALID"
          (field +:+ " contains an unsupported character"))
      else namespaced_loop field false rest
  end.

Definition validate_namespaced_id (field value : string) : result ContractError unit :=
  _ ← validate_text field value MAX_NAMESPACED_ID_BYTES;
  expect_segment_start ← namespaced_loop field true (bytes value);
  if (expect_segment_start : bool) then
    Err (contract_error "NAMESPACED_ID_INVALID" (field +:+ " cannot end with a separator"))
  else Ok tt.

Definition validate_timestamp (field : string) (unix_ms : N) : result ContractError unit :=
  if ((unix_ms =? 0) || (MAX_TIMESTAMP_UNIX_MS <? unix_ms))%N then
    Err (contract_error "TIMESTAMP_INVALID"
      (field +:+ " must be a positive Protobuf-compatible Unix millisecond value"))
  else Ok tt.

Definition reason_code_byte (first : bool) (c : ascii) : bool :=
  if first then is_ascii_uppercase c
  else is_ascii_uppercase c || is_ascii_digit c || bool_decide (c = "_"%char).
Definition upper_snake (bs : list ascii) : bool :=
  match bs with
  | [] => true
  | c :: rest => reason_code_byte true c && forallb (reason_code_byte false) rest
  end.

Definition validate_reason_code (value : string) : result ContractError unit :=
  _ ← validate_text "reason code" value MAX_NAMESPACED_ID_BYTES;
  if negb (upper_snake (bytes value)) then
    Err (contract_error "REASON_CODE_INVALID" "reason code must use upper snake case")
  else Ok tt.

Definition validate_properties (properties : gmap string string) : result ContractError unit :=
  if (MAX_PROPERTIES <? size properties)%nat then
    Err (contract_error "PROPERTY_LIMIT_EXCEEDED" "object has too many properties")
  else
    try_for_each (fun '(key, value) =>
      _ ← validate_namespaced_id "property key" key;
      validate_text "property value" value MAX_ID_BYTES) (btree_iter properties).

(** ** The accepted languages *)

Definition segment_tail_byte (c : ascii) : bool := is_ascii_lowercase c || is_ascii_digit c.

(** A segment is a lower-case letter followed by lower-case letters and digits;
    a namespaced identifier is a non-empty sequence of segments joined by ['.'],
    ['-'] or ['_']. *)
Inductive segment : list ascii -> Prop :=
| segment_intro c rest :
    is_ascii_lowercase c = true -> Forall (fun b => segment_tail_byte b = true) rest ->
    segment (c :: rest).
Inductive namespaced : list ascii -> Prop :=
| namespaced_last s : segment s -> namespaced s
| namespaced_cons s sep rest :
    segment s -> is_separator sep = true -> namespaced rest -> namespaced (s ++ sep :: rest).

(** What may follow inside a segment. *)
Inductive segment_rest : list ascii -> Prop :=
| rest_end t : Forall (fun b => segment_tail_byte b = true) t -> segment_rest t
| rest_sep t sep rest :
    Forall (fun b => segment_tail_byte b = true) t -> is_separator sep = true ->
    namespaced rest -> segment_rest (t ++ sep :: rest).

Lemma namespaced_inv bs :
  namespaced bs <-> exists c rest, bs = c :: rest /\ is_ascii_lowercase c = true /\ segment_rest rest.
Proof.
  split.
  - intros [s [c rest Hc Hr]|s sep rest0 [c rest Hc Hr] Hsep Hn]; eexists c, _;
      (split; [reflexivity|]); split; try done; by constructor.
  - intros (c & rest & -> & Hc & [t Ht|t sep r Ht Hsep Hn]).
    + by constructor; constructor.
    + change (namespaced ((c :: t) ++ sep :: r)). by constructor; [constructor|..].
Qed.

Lemma separator_not_tail c : is_separator c = true -> segment_tail_byte c = false.
Proof.
  unfold is_separator. rewrite !orb_true_iff, !bool_decide_eq_true.
  by intros [[-> | ->]| ->].
Qed.
Lemma lowercase_not_separator c : is_ascii_lowercase c = true -> is_separator c = false.
Proof.
  intros Hl. destruct (is_separator c) eqn:E; [|done].
  apply separator_not_tail in E. unfold segment_tail_byte in E. by rewrite Hl in E.
Qed.

Lemma namespaced_loop_spec field bs :
  (namespaced_loop field true bs = Ok false <-> namespaced bs) /\
  (namespaced_loop field false bs = Ok false <-> segment_rest bs).
Proof.
  induction bs as [|c bs [IH1 IH2]]; simpl.
  { split; split; try done.
    - rewrite namespaced_inv. naive_solver.
    - intros _. by do 2 constructor. }
  rewrite namespaced_inv. destruct (is_separator c) eqn:Hs.
  - split; (split; [try done|]).
    + intros (c' & r & [= <- <-] & Hl & _). by rewrite lowercase_not_separator in Hs.
    + intros Hn%IH1. by apply (rest_sep []).
    + intros Hr. apply IH1. inversion Hr as [t Ht|t sep r Ht Hsep Hn Heq]; subst.
      * apply Forall_cons in Ht as [Hc _]. by rewrite separator_not_tail in Hc.
      * destruct t as [|c' t]; simplify_eq/=; [done|].
        apply Forall_cons in Ht as [Hc _]. by rewrite separator_not_tail in Hc.
  - split.
    + destruct (is_ascii_lowercase c) eqn:Hl; simpl; [rewrite IH2|]; split; try done.
      * intros Hr. by exists c, bs.
      * by intros (c' & r & [= <- <-] & _ & Hr).
      * intros (c' & r & [= <- <-] & Hc & _). congruence.
    + fold (segment_tail_byte c). destruct (segment_tail_byte c) eqn:Ht; simpl.
      * rewrite IH2. split.
        -- intros [t Hf|t sep r Hf Hsep Hn]; [by do 2 constructor|].
           apply (rest_sep (c :: t)); [by constructor|done..].
        -- inversion 1 as [t Hf|t sep r Hf Hsep Hn Heq]; subst.
           { apply Forall_cons in Hf as [_ ?]. by constructor. }
           destruct t as [|c' t]; simplify_eq/=; [by rewrite Hs in Hsep|].
           apply Forall_cons in Hf as [_ ?]. by constructor.
      * split; [done|]. inversion 1 as [t Hf|t sep r Hf Hsep Hn Heq]; subst.
        { apply Forall_cons in Hf as [Hc _]. by rewrite Ht in Hc. }
        destruct t as [|c' t]; simplify_eq/=; [by rewrite Hs in Hsep|].
        apply Forall_cons in Hf as [Hc _]. by rewrite Ht in Hc.
Qed.

(** Bytes of a namespaced identifier are printable ASCII. *)
Lemma plain_byte_not_control c :
  segment_tail_byte c || is_separator c = true ->
  byte_in 0 31 c = false /\ byte_in 127 127 c = false /\ byte_in 194 194 c = false.
Proof.
  unfold segment_tail_byte, is_ascii_lowercase, is_ascii_digit, is_separator, byte_in.
  rewrite !orb_true_iff, !andb_true_iff, !bool_decide_eq_true, !N.leb_le, !andb_false_iff, !N.leb_gt.
  intros [[H|H]|[[-> | ->]| ->]]; [lia|lia|compute; intuition congruence..].
Qed.
Lemma namespaced_bytes bs :
  namespaced bs -> Forall (fun c => segment_tail_byte c || is_separator c = true) bs.
Proof.
  assert (forall s, segment s -> Forall (fun c => segment_tail_byte c || is_separator c = true) s) as Hseg.
  { intros s [c rest Hc Hr]. constructor.
    - unfold segment_tail_byte. by rewrite Hc.
    - eapply Forall_impl; [exact Hr|]. by intros b ->. }
  induction 1 as [s Hs|s sep rest Hs Hsep Hn IH]; [auto|].
  apply Forall_app; split; [auto|]. constructor; [|done].
  rewrite Hsep. apply orb_true_r.
Qed.
Lemma plain_bytes_no_control bs :
  Forall (fun c => segment_tail_byte c || is_separator c = true) bs -> has_control bs = false.
Proof.
  induction 1 as [|c bs Hc Hbs IH]; simpl; [done|].
  apply plain_byte_not_control in Hc as (-> & -> & ->). by rewrite IH.
Qed.

Lemma namespaced_nonempty bs : namespaced bs -> bs <> [].
Proof. rewrite namespaced_inv. naive_solver. Qed.

Lemma validate_text_Ok field value max u :
  validate_text field value max = Ok u <->
  value <> "" /\ (byte_len value <= max)%N /\ has_control (bytes value) = false.
Proof.
  unfold validate_text. destruct u. rewrite <-N.ltb_ge.
  destruct (bool_decide_reflect (value = "")), (max <? byte_len value)%N,
    (has_control (bytes value)); simpl; naive_solver.
Qed.

(** [validate_namespaced_id] accepts exactly the identifiers made of
    segments [[a-z][a-z0-9]*] joined by ['.'], ['-'] or ['_'], of at most 128
    bytes. *)
Theorem validate_namespaced_id_language field value :
  validate_namespaced_id field value = Ok tt <->
  namespaced (bytes value) /\ (byte_len value <= MAX_NAMESPACED_ID_BYTES)%N.
Proof.
  unfold validate_namespaced_id. rewrite result_bind_Ok. setoid_rewrite result_bind_Ok.
  setoid_rewrite validate_text_Ok. split.
  - intros ([] & (_ & Hlen & _) & b & Hloop & Hb). destruct b; [done|].
    by apply namespaced_loop_spec in Hloop.
  - intros [Hn Hlen]. exists tt. split_and!.
    + intros ->. by apply namespaced_nonempty in Hn.
    + done.
    + by apply plain_bytes_no_control, namespaced_bytes.
    + exists false. split; [by apply namespaced_loop_spec|done].
Qed.

Lemma validate_timestamp_Ok field t u :
  validate_timestamp field t = Ok u <-> (0 < t <= MAX_TIMESTAMP_UNIX_MS)%N.
Proof.
  unfold validate_timestamp. destruct u.
  destruct (N.eqb_spec t 0), (N.ltb_spec MAX_TIMESTAMP_UNIX_MS t); simpl;
    split; intros; try done; lia.
Qed.

Lemma validate_properties_Ok ps u :
  validate_properties ps = Ok u <->
  (size ps <= MAX_PROPERTIES)%nat /\
  forall k v, ps !! k = Some v ->
    validate_namespaced_id "property key" k = Ok tt /\ validate_text "property value" v MAX_ID_BYTES = Ok tt.
Proof.
  unfold validate_properties. destruct (Nat.ltb_spec MAX_PROPERTIES (size ps)).
  { split; [done|]. intros []. lia. }
  rewrite try_for_each_Ok, Forall_forall. split.
  - intros Hall. split; [done|]. intros k v Hkv%elem_of_btree_iter%Hall.
    by apply result_bind_Ok in Hkv as ([] & ? & ?).
  - intros [_ Hall] [k v] Hkv%elem_of_btree_iter. destruct (Hall k v Hkv) as [-> ->]. done.
Qed.
#[export] Hint Rewrite validate_text_Ok validate_timestamp_Ok validate_properties_Ok : cyrene.
