(* ===== verification/Contract.v ===== *)
(** * Semantic contract objects

    [contracts/rust/cy-kernel-contract/src]: the identities, resources, leases,
    workers, operations, endpoints, events and snapshots of the Kernel semantic
    contract, their validators, their state machines and their authorization
    decisions. *)
From stdpp Require Import base gmap strings list sorting pretty.
From Stdlib Require Import Ascii Lia ZifyBool ZifyN.
From S2P Require Import Prelude Validation.

(** ** Identity ([identity.rs]) *)
Record Identity := mk_identity {
  ident_id : string;
  ident_generation : N;
}.
#[export] Instance Identity_eq_dec : EqDecision Identity.
Proof. solve_decision. Defined.
#[export] Program Instance Identity_countable : Countable Identity :=
  inj_countable' (fun i => (ident_id i, ident_generation i)) (fun p => mk_identity p.1 p.2) _.
Next Obligation. by intros []. Qed.
(** [#[derive(PartialOrd, Ord)]]: by [id], then by [generation]. *)
#[export] Program Instance Identity_ordered : Ordered Identity := {|
  compare i j := compare (ident_id i, ident_generation i) (ident_id j, ident_generation j);
|}.
Next Obligation. intros [] []. rewrite compare_eq. naive_solver. Qed.
Next Obligation. intros. apply compare_antisym. Qed.
Next Obligation. intros x y z. apply compare_lt_trans. Qed.

Definition Identity_validate (i : Identity) : result ContractError unit :=
  _ ← validate_text "identity id" (ident_id i) MAX_ID_BYTES;
  if (ident_generation i =? 0)%N then
    Err (contract_error "GENERATION_INVALID" "identity generation must be non-zero")
  else Ok tt.

Record Principal := mk_principal { principal_identity : Identity }.
#[export] Instance Principal_eq_dec : EqDecision Principal.
Proof. solve_decision. Defined.
Definition Principal_validate (p : Principal) : result ContractError unit :=
  Identity_validate (principal_identity p).

(** ** Capabilities, quantities and resources ([resource.rs]) *)
Record Capability := mk_capability {
  cap_id : string;
  cap_revision : N;
  cap_properties : gmap string string;
}.
#[export] Instance Capability_eq_dec : EqDecision Capability.
Proof. solve_decision. Defined.

Definition Capability_validate (c : Capability) : result ContractError unit :=
  _ ← validate_namespaced_id "capability id" (cap_id c);
  _ ← ensure (negb (cap_revision c =? 0)%N)
        (contract_error "CAPABILITY_REVISION_INVALID" "capability revision must be non-zero");
  validate_properties (cap_properties c).

(** [validate_capabilities] of [validation.rs]. *)
Definition validate_capabilities (caps : list Capability) : result ContractError unit :=
  _ ← ensure (length caps <=? MAX_CAPABILITIES)%nat
        (contract_error "CAPABILITY_LIMIT_EXCEEDED" "object has too many capabilities");
  for_unique Capability_validate cap_id
    (contract_error "CAPABILITY_DUPLICATE" "object contains a duplicate capability id") ∅ caps.

Record CapabilityRequirement := mk_requirement {
  req_id : string;
  req_minimum_revision : N;
  req_required_properties : gmap string string;
}.
#[export] Instance CapabilityRequirement_eq_dec : EqDecision CapabilityRequirement.
Proof. solve_decision. Defined.

Definition CapabilityRequirement_matches (r : CapabilityRequirement) (c : Capability) : bool :=
  bool_decide (req_id r = cap_id c)
  && (req_minimum_revision r <=? cap_revision c)%N
  && forallb (fun '(key, value) =>
       is_some_and (fun actual => bool_decide (actual = value)) (cap_properties c !! key))
       (btree_iter (req_required_properties r)).

Definition CapabilityRequirement_validate (r : CapabilityRequirement) : result ContractError unit :=
  _ ← validate_namespaced_id "capability requirement id" (req_id r);
  _ ← ensure (negb (req_minimum_revision r =? 0)%N)
        (contract_error "CAPABILITY_REVISION_INVALID"
           "minimum capability revision must be non-zero");
  validate_properties (req_required_properties r).

Record Quantity := mk_quantity {
  qty_value : N;
  qty_unit : string;
}.
#[export] Instance Quantity_eq_dec : EqDecision Quantity.
Proof. solve_decision. Defined.

Definition Quantity_satisfies (q minimum : Quantity) : bool :=
  bool_decide (qty_unit q = qty_unit minimum) && (qty_value minimum <=? qty_value q)%N.
Definition Quantity_validate (q : Quantity) : result ContractError unit :=
  validate_namespaced_id "quantity unit" (qty_unit q).

(** The loop [for (key, quantity) in &map] three validators share. *)
Definition validate_quantities (field : string) (m : gmap string Quantity)
    : result ContractError unit :=
  try_for_each (fun '(key, quantity) =>
    _ ← validate_namespaced_id field key;
    Quantity_validate quantity) (btree_iter m).

Inductive ProviderState := ProviderReady | ProviderDegraded | ProviderUnavailable.
#[export] Instance ProviderState_eq_dec : EqDecision ProviderState.
Proof. solve_decision. Defined.

Record Provider := mk_provider {
  prov_identity : Identity;
  prov_state : ProviderState;
  prov_capabilities : list Capability;
}.
#[export] Instance Provider_eq_dec : EqDecision Provider.
Proof. solve_decision. Defined.

Definition Provider_validate (p : Provider) : result ContractError unit :=
  _ ← Identity_validate (prov_identity p);
  validate_capabilities (prov_capabilities p).

Inductive ResourceState := ResourceReady | ResourceDegraded | ResourceUnavailable.
#[export] Instance ResourceState_eq_dec : EqDecision ResourceState.
Proof. solve_decision. Defined.

Record TopologyLink := mk_link {
  link_peer : Identity;
  link_kind : string;
  link_properties : gmap string string;
}.
#[export] Instance TopologyLink_eq_dec : EqDecision TopologyLink.
Proof. solve_decision. Defined.

Definition TopologyLink_validate (l : TopologyLink) : result ContractError unit :=
  _ ← Identity_validate (link_peer l);
  _ ← validate_namespaced_id "topology kind" (link_kind l);
  validate_properties (link_properties l).

Record Resource := mk_resource {
  res_identity : Identity;
  res_provider : Identity;
  res_resource_class : string;
  res_capabilities : list Capability;
  res_capacity : gmap string Quantity;
  res_attributes : gmap string string;
  res_state : ResourceState;
  res_reason_code : string;
  res_summary : string;
  res_links : list TopologyLink;
}.
#[export] Instance Resource_eq_dec : EqDecision Resource.
Proof. solve_decision. Defined.
Definition res_id (r : Resource) : string := ident_id (res_identity r).

Definition Resource_validate_link (r : Resource) (l : TopologyLink) : result ContractError unit :=
  _ ← TopologyLink_validate l;
  ensure (negb (bool_decide (link_peer l = res_identity r)))
    (contract_error "TOPOLOGY_SELF_LINK" "resource topology cannot link to itself").

Definition Resource_validate (r : Resource) : result ContractError unit :=
  _ ← Identity_validate (res_identity r);
  _ ← Identity_validate (res_provider r);
  _ ← validate_namespaced_id "resource class" (res_resource_class r);
  _ ← validate_capabilities (res_capabilities r);
  _ ← ensure (size (res_capacity r) <=? MAX_PROPERTIES)%nat
        (contract_error "CAPACITY_LIMIT_EXCEEDED" "resource capacity has too many entries");
  _ ← validate_quantities "capacity key" (res_capacity r);
  _ ← validate_properties (res_attributes r);
  _ ← validate_namespaced_id "resource reason code" (res_reason_code r);
  _ ← validate_text "resource summary" (res_summary r) MAX_ID_BYTES;
  _ ← ensure (length (res_links r) <=? MAX_PROPERTIES)%nat
        (contract_error "TOPOLOGY_LIMIT_EXCEEDED" "resource has too many topology links");
  for_unique (Resource_validate_link r) (fun l => (link_peer l, link_kind l))
    (contract_error "TOPOLOGY_LINK_DUPLICATE" "resource contains a duplicate topology link")
    ∅ (res_links r).

Record ResourceQuery := mk_query {
  query_resource_class : string;
  query_count : N;
  query_required_capabilities : list CapabilityRequirement;
  query_minimum_capacity : gmap string Quantity;
}.
#[export] Instance ResourceQuery_eq_dec : EqDecision ResourceQuery.
Proof. solve_decision. Defined.

Definition ResourceQuery_matches (q : ResourceQuery) (r : Resource) : bool :=
  bool_decide (query_resource_class q = res_resource_class r)
  && forallb (fun requirement =>
       existsb (fun capability => CapabilityRequirement_matches requirement capability)
         (res_capabilities r)) (query_required_capabilities q)
  && forallb (fun '(key, minimum) =>
       is_some_and (fun actual => Quantity_satisfies actual minimum) (res_capacity r !! key))
       (btree_iter (query_minimum_capacity q)).

Definition ResourceQuery_validate (q : ResourceQuery) : result ContractError unit :=
  _ ← validate_namespaced_id "resource class" (query_resource_class q);
  _ ← ensure (negb (query_count q =? 0)%N)
        (contract_error "RESOURCE_COUNT_INVALID" "resource query count must be non-zero");
  _ ← ensure (query_count q <=? MAX_RESOURCES_PER_LEASE)%N
        (contract_error "RESOURCE_COUNT_LIMIT_EXCEEDED"
           "resource query count exceeds the per-lease limit");
  _ ← ensure (length (query_required_capabilities q) <=? MAX_CAPABILITIES)%nat
        (contract_error "CAPABILITY_LIMIT_EXCEEDED"
           "resource query has too many capability requirements");
  _ ← for_unique CapabilityRequirement_validate req_id
        (contract_error "CAPABILITY_REQUIREMENT_DUPLICATE"
           "resource query contains a duplicate capability requirement")
        ∅ (query_required_capabilities q);
  _ ← ensure (size (query_minimum_capacity q) <=? MAX_PROPERTIES)%nat
        (contract_error "CAPACITY_LIMIT_EXCEEDED"
           "resource query has too many capacity requirements");
  validate_quantities "capacity key" (query_minimum_capacity q).

(** ** Leases ([lease.rs]) *)
Inductive LeaseState := LActive | LReleasing | LReleased | LExpired | LRevoked | LFailed.
#[export] Instance LeaseState_eq_dec : EqDecision LeaseState.
Proof. solve_decision. Defined.

Definition LeaseState_can_transition_to (s next : LeaseState) : bool :=
  bool_decide (s = next)
  || match s, next with
     | LActive, (LReleasing | LExpired | LRevoked | LFailed) => true
     | LReleasing, (LReleased | LRevoked | LFailed) => true
     | _, _ => false
     end.

Record Lease := mk_lease {
  lease_identity : Identity;
  lease_holder : Identity;
  lease_resources : list Identity;
  lease_state : LeaseState;
  lease_fence_token : N;
  lease_expires_at_unix_ms : option N;
}.
#[export] Instance Lease_eq_dec : EqDecision Lease.
Proof. solve_decision. Defined.

Definition Lease_validate (l : Lease) : result ContractError unit :=
  _ ← Identity_validate (lease_identity l);
  _ ← Identity_validate (lease_holder l);
  _ ← ensure (negb (bool_decide (lease_resources l = []))
              && (N.of_nat (length (lease_resources l)) <=? MAX_RESOURCES_PER_LEASE)%N)
        (contract_error "LEASE_RESOURCE_LIMIT_INVALID"
           "lease must contain a bounded, non-empty resource set");
  _ ← for_unique Identity_validate id
        (contract_error "LEASE_RESOURCE_DUPLICATE" "lease contains a duplicate resource identity")
        ∅ (lease_resources l);
  _ ← ensure (negb (lease_fence_token l =? 0)%N)
        (contract_error "FENCE_TOKEN_INVALID" "lease fence token must be non-zero");
  expires_at ← ok_or (contract_error "LEASE_EXPIRY_REQUIRED" "v1 leases must have a finite expiry")
        (lease_expires_at_unix_ms l);
  validate_timestamp "lease expiry" expires_at.

Definition Lease_authorizes (l : Lease) (holder resource : Identity) (fence_token now : N) : bool :=
  is_ok (Lease_validate l)
  && bool_decide (lease_state l = LActive)
  && bool_decide (lease_holder l = holder)
  && bool_decide (resource ∈ lease_resources l)
  && (lease_fence_token l =? fence_token)%N
  && is_some_and (fun expires_at => (now <? expires_at)%N) (lease_expires_at_unix_ms l).

Definition Lease_with_expiry (l : Lease) (e : option N) : Lease :=
  mk_lease (lease_identity l) (lease_holder l) (lease_resources l) (lease_state l)
    (lease_fence_token l) e.

Definition Lease_renew_lease (l : Lease) (fence_token expires_at now : N)
    : result ContractError Lease :=
  _ ← Lease_validate l;
  _ ← ensure (bool_decide (lease_state l = LActive))
        (contract_error "LEASE_NOT_ACTIVE" "only an active lease can be renewed");
  current_expiry ← ok_or
        (contract_error "LEASE_EXPIRY_REQUIRED" "v1 leases must have a finite expiry")
        (lease_expires_at_unix_ms l);
  _ ← ensure (now <? current_expiry)%N
        (contract_error "LEASE_EXPIRED" "an expired lease cannot be renewed");
  _ ← ensure (fence_token =? lease_fence_token l)%N
        (contract_error "FENCE_MISMATCH" "lease renewal fence does not match current authority");
  _ ← validate_timestamp "lease renewal expiry" expires_at;
  _ ← ensure (current_expiry <? expires_at)%N
        (contract_error "LEASE_RENEWAL_INVALID"
           "lease renewal must strictly extend the finite expiry");
  Ok (Lease_with_expiry l (Some expires_at)).

(** ** Workers ([worker.rs]) *)
Inductive WorkerState :=
| WRegistered | WStarting | WRunning | WDraining | WStopped | WFailed | WLost.
#[export] Instance WorkerState_eq_dec : EqDecision WorkerState.
Proof. solve_decision. Defined.

Definition WorkerState_can_transition_to (s next : WorkerState) : bool :=
  bool_decide (s = next)
  || match s, next with
     | WRegistered, (WStarting | WDraining | WStopped | WFailed | WLost) => true
     | WStarting, (WRunning | WDraining | WStopped | WFailed | WLost) => true
     | WRunning, (WDraining | WStopped | WFailed | WLost) => true
     | WDraining, (WStopped | WFailed | WLost) => true
     | _, _ => false
     end.

Record Worker := mk_worker {
  wk_identity : Identity;
  wk_principal : Identity;
  wk_provider : Identity;
  wk_lease : Identity;
  wk_state : WorkerState;
  wk_execution_ref : string;
  wk_limits : gmap string Quantity;
}.
#[export] Instance Worker_eq_dec : EqDecision Worker.
Proof. solve_decision. Defined.

Definition Worker_validate (w : Worker) : result ContractError unit :=
  _ ← Identity_validate (wk_identity w);
  _ ← Identity_validate (wk_principal w);
  _ ← Identity_validate (wk_provider w);
  _ ← Identity_validate (wk_lease w);
  _ ← validate_text "worker execution reference" (wk_execution_ref w) MAX_EXECUTION_REF_BYTES;
  _ ← ensure (size (wk_limits w) <=? MAX_PROPERTIES)%nat
        (contract_error "WORKER_LIMIT_COUNT_EXCEEDED"
           "worker has too many generic execution limits");
  validate_quantities "worker limit key" (wk_limits w).

(** ** Operations ([operation.rs]) *)
Inductive OperationState :=
| OCreated | OPending | ORunning | OSucceeded | OFailed | OCancelling | OCancelled | OLost.
#[export] Instance OperationState_eq_dec : EqDecision OperationState.
Proof. solve_decision. Defined.

Definition OperationState_can_transition_to (s next : OperationState) : bool :=
  bool_decide (s = next)
  || match s, next with
     | OCreated, (OPending | ORunning | OCancelling | OCancelled | OFailed) => true
     | OPending, (ORunning | OCancelling | OCancelled | OFailed | OLost) => true
     | ORunning, (OSucceeded | OFailed | OCancelling | OLost) => true
     | OCancelling, (OCancelled | OFailed | OLost) => true
     | _, _ => false
     end.

Record Operation := mk_operation {
  op_identity : Identity;
  op_owner : Identity;
  op_executor : Identity;
  op_kind : string;
  op_state : OperationState;
  op_deadline_unix_ms : option N;
  op_parent : option Identity;
  op_metadata : gmap string string;
}.
#[export] Instance Operation_eq_dec : EqDecision Operation.
Proof. solve_decision. Defined.

Definition Operation_validate (o : Operation) : result ContractError unit :=
  _ ← Identity_validate (op_identity o);
  _ ← Identity_validate (op_owner o);
  _ ← Identity_validate (op_executor o);
  _ ← validate_namespaced_id "operation kind" (op_kind o);
  _ ← match op_deadline_unix_ms o with
      | Some deadline => validate_timestamp "operation deadline" deadline
      | None => Ok tt
      end;
  _ ← match op_parent o with
      | Some parent =>
          _ ← Identity_validate parent;
          ensure (negb (bool_decide (parent = op_identity o)))
            (contract_error "OPERATION_PARENT_INVALID" "operation cannot be its own parent")
      | None => Ok tt
      end;
  validate_properties (op_metadata o).

(** ** Endpoints and grants ([endpoint.rs]) *)
Record Endpoint := mk_endpoint {
  ep_identity : Identity;
  ep_provider : Identity;
  ep_owner : Identity;
  ep_transport : string;
  ep_schema_id : string;
  ep_capabilities : list Capability;
  ep_public_attributes : gmap string string;
  ep_connection_ref : string;
  ep_credential_ref : option string;
}.
#[export] Instance Endpoint_eq_dec : EqDecision Endpoint.
Proof. solve_decision. Defined.

Definition Endpoint_validate (e : Endpoint) : result ContractError unit :=
  _ ← Identity_validate (ep_identity e);
  _ ← Identity_validate (ep_provider e);
  _ ← Identity_validate (ep_owner e);
  _ ← validate_namespaced_id "endpoint transport" (ep_transport e);
  _ ← validate_namespaced_id "endpoint schema id" (ep_schema_id e);
  _ ← validate_capabilities (ep_capabilities e);
  _ ← validate_properties (ep_public_attributes e);
  _ ← validate_text "endpoint connection reference" (ep_connection_ref e) MAX_CONNECTION_REF_BYTES;
  match ep_credential_ref e with
  | Some credential_ref => validate_namespaced_id "endpoint credential reference" credential_ref
  | None => Ok tt
  end.

Record EndpointGrant := mk_grant {
  grant_identity : Identity;
  grant_endpoint : Identity;
  grant_grantee : Identity;
  grant_lease : Identity;
  grant_fence_token : N;
  grant_expires_at_unix_ms : N;
}.
#[export] Instance EndpointGrant_eq_dec : EqDecision EndpointGrant.
Proof. solve_decision. Defined.

Definition EndpointGrant_validate (g : EndpointGrant) : result ContractError unit :=
  _ ← Identity_validate (grant_identity g);
  _ ← Identity_validate (grant_endpoint g);
  _ ← Identity_validate (grant_grantee g);
  _ ← Identity_validate (grant_lease g);
  _ ← ensure (negb (grant_fence_token g =? 0)%N)
        (contract_error "FENCE_TOKEN_INVALID" "endpoint grant fence token must be non-zero");
  validate_timestamp "endpoint grant expiry" (grant_expires_at_unix_ms g).

Definition EndpointGrant_authorizes (g : EndpointGrant) (endpoint grantee : Identity) (lease : Lease)
    (now : N) : bool :=
  is_ok (EndpointGrant_validate g)
  && is_ok (Lease_validate lease)
  && bool_decide (grant_endpoint g = endpoint)
  && bool_decide (grant_grantee g = grantee)
  && bool_decide (grant_lease g = lease_identity lease)
  && bool_decide (grant_grantee g = lease_holder lease)
  && (grant_fence_token g =? lease_fence_token lease)%N
  && bool_decide (lease_state lease = LActive)
  && is_some_and (fun expires_at => (now <? expires_at)%N) (lease_expires_at_unix_ms lease)
  && (now <? grant_expires_at_unix_ms g)%N.

(** ** Events ([event.rs]) *)
Record Event := mk_event {
  ev_sequence : N;
  ev_source : Identity;
  ev_subject : Identity;
  ev_kind : string;
  ev_observed_at_unix_ms : N;
  ev_schema_id : string;
  ev_body : list ascii;
}.
#[export] Instance Event_eq_dec : EqDecision Event.
Proof. solve_decision. Defined.

Definition Event_validate (e : Event) : result ContractError unit :=
  _ ← ensure (negb (ev_sequence e =? 0)%N)
        (contract_error "EVENT_SEQUENCE_INVALID" "event sequence must be non-zero");
  _ ← Identity_validate (ev_source e);
  _ ← Identity_validate (ev_subject e);
  _ ← validate_namespaced_id "event kind" (ev_kind e);
  _ ← validate_timestamp "event observed time" (ev_observed_at_unix_ms e);
  _ ← validate_namespaced_id "event schema id" (ev_schema_id e);
  ensure (N.of_nat (length (ev_body e)) <=? MAX_EVENT_BODY_BYTES)%N
    (contract_error "EVENT_BODY_LIMIT_EXCEEDED" "event body exceeds the semantic contract limit").

Inductive ReplayStatus := Current | Gap | SourceChanged.
#[export] Instance ReplayStatus_eq_dec : EqDecision ReplayStatus.
Proof. solve_decision. Defined.

Record EventCursor := mk_cursor {
  cur_source : Identity;
  cur_sequence : N;
}.
#[export] Instance EventCursor_eq_dec : EqDecision EventCursor.
Proof. solve_decision. Defined.

Definition EventCursor_validate (c : EventCursor) : result ContractError unit :=
  Identity_validate (cur_source c).

Definition EventCursor_status_against (c : EventCursor) (current_source : Identity)
    (oldest_available_sequence : N) : ReplayStatus :=
  if negb (bool_decide (cur_source c = current_source)) then SourceChanged
  else if ((0 <? oldest_available_sequence)
           && (u64_saturating_add (cur_sequence c) 1 <? oldest_available_sequence))%N then Gap
  else Current.

Record EventPage := mk_page {
  page_source : Identity;
  page_status : ReplayStatus;
  page_events : list Event;
  page_oldest_available_sequence : N;
  page_latest_available_sequence : N;
  page_next_sequence : N;
}.
#[export] Instance EventPage_eq_dec : EqDecision EventPage.
Proof. solve_decision. Defined.

Record EventContinuity := mk_continuity {
  cont_source : Identity;
  cont_status : ReplayStatus;
  cont_oldest_available_sequence : N;
  cont_latest_available_sequence : N;
  cont_next_sequence : N;
}.

Definition range_errors (inverted partial : string) (oldest latest : N) : result ContractError unit :=
  _ ← ensure (oldest <=? latest)%N (contract_error "EVENT_RANGE_INVALID" inverted);
  ensure (Bool.eqb (oldest =? 0) (latest =? 0))%N (contract_error "EVENT_RANGE_INVALID" partial).

Definition EventContinuity_validate (c : EventContinuity) : result ContractError unit :=
  _ ← Identity_validate (cont_source c);
  range_errors "event continuity range is inverted"
    "event continuity range must be wholly empty or wholly non-zero"
    (cont_oldest_available_sequence c) (cont_latest_available_sequence c).

Definition EventPage_continuity (p : EventPage) : EventContinuity :=
  mk_continuity (page_source p) (page_status p) (page_oldest_available_sequence p)
    (page_latest_available_sequence p) (page_next_sequence p).

(** The loop of [EventPage::validate]; the result is the last sequence seen. *)
Fixpoint EventPage_validate_events (p : EventPage) (previous : option N) (events : list Event)
    : result ContractError (option N) :=
  match events with
  | [] => Ok previous
  | event :: rest =>
      _ ← Event_validate event;
      if negb (bool_decide (ev_source event = page_source p))
         || is_some_and (fun sequence => (ev_sequence event <=? sequence)%N) previous
         || (ev_sequence event <? page_oldest_available_sequence p)%N
         || (page_latest_available_sequence p <? ev_sequence event)%N
      then Err (contract_error "EVENT_ORDER_INVALID"
             "event page sources must match and sequences must strictly increase")
      else EventPage_validate_events p (Some (ev_sequence event)) rest
  end.

Definition EventPage_validate (p : EventPage) : result ContractError unit :=
  _ ← Identity_validate (page_source p);
  _ ← ensure (length (page_events p) <=? MAX_EVENTS_PER_PAGE)%nat
        (contract_error "EVENT_PAGE_LIMIT_EXCEEDED" "event page exceeds the semantic contract limit");
  _ ← range_errors "event replay range is inverted"
        "event replay range must be wholly empty or wholly non-zero"
        (page_oldest_available_sequence p) (page_latest_available_sequence p);
  _ ← ensure (bool_decide (page_status p = Current) || bool_decide (page_events p = []))
        (contract_error "EVENT_RECONCILE_REQUIRED"
           "gap and source-change pages cannot contain incremental events");
  previous ← EventPage_validate_events p None (page_events p);
  match previous with
  | Some last => ensure (page_next_sequence p =? last)%N
        (contract_error "EVENT_CURSOR_INVALID"
           "event page cursor must equal the last returned sequence")
  | None => Ok tt
  end.

(** ** Provider snapshots ([snapshot.rs]) *)
Record ProviderSnapshot := mk_snapshot {
  snap_provider : Identity;
  snap_snapshot_generation : N;
  snap_resources : list Resource;
  snap_workers : list Worker;
  snap_endpoints : list Endpoint;
  snap_sampled_at_unix_ms : N;
  snap_expires_at_unix_ms : N;
}.
#[export] Instance ProviderSnapshot_eq_dec : EqDecision ProviderSnapshot.
Proof. solve_decision. Defined.

(** One member of a snapshot: valid, and of the snapshot's own provider. *)
Definition snapshot_member {A} (validate : A -> result ContractError unit) (provider_of : A -> Identity)
    (provider : Identity) (mismatch : ContractError) (a : A) : result ContractError unit :=
  _ ← validate a;
  ensure (bool_decide (provider_of a = provider)) mismatch.

Definition ProviderSnapshot_validate (s : ProviderSnapshot) : result ContractError unit :=
  _ ← Identity_validate (snap_provider s);
  _ ← ensure (negb (snap_snapshot_generation s =? 0)%N)
        (contract_error "SNAPSHOT_GENERATION_INVALID"
           "provider snapshot generation must be non-zero");
  _ ← ensure (snap_sampled_at_unix_ms s <? snap_expires_at_unix_ms s)%N
        (contract_error "SNAPSHOT_EXPIRY_INVALID"
           "provider snapshot expiry must be after sampling time");
  _ ← validate_timestamp "provider snapshot sample time" (snap_sampled_at_unix_ms s);
  _ ← validate_timestamp "provider snapshot expiry" (snap_expires_at_unix_ms s);
  _ ← ensure (N.of_nat (length (snap_resources s)) <=? MAX_RESOURCES_PER_SNAPSHOT)%N
        (contract_error "RESOURCE_LIMIT_EXCEEDED" "provider snapshot has too many resources");
  _ ← for_unique (snapshot_member Resource_validate res_provider (snap_provider s)
          (contract_error "RESOURCE_PROVIDER_MISMATCH"
             "resource provider does not match snapshot provider"))
        (fun r => ident_id (res_identity r))
        (contract_error "RESOURCE_IDENTITY_DUPLICATE"
           "provider snapshot contains a duplicate resource identity") ∅ (snap_resources s);
  _ ← ensure (N.of_nat (length (snap_workers s)) <=? MAX_WORKERS_PER_SNAPSHOT)%N
        (contract_error "WORKER_LIMIT_EXCEEDED" "provider snapshot has too many workers");
  _ ← for_unique (snapshot_member Worker_validate wk_provider (snap_provider s)
          (contract_error "WORKER_PROVIDER_MISMATCH"
             "worker provider does not match snapshot provider"))
        (fun w => ident_id (wk_identity w))
        (contract_error "WORKER_IDENTITY_DUPLICATE"
           "provider snapshot contains a duplicate worker identity") ∅ (snap_workers s);
  _ ← ensure (N.of_nat (length (snap_endpoints s)) <=? MAX_ENDPOINTS_PER_SNAPSHOT)%N
        (contract_error "ENDPOINT_LIMIT_EXCEEDED" "provider snapshot has too many endpoints");
  for_unique (snapshot_member Endpoint_validate ep_provider (snap_provider s)
      (contract_error "ENDPOINT_PROVIDER_MISMATCH"
         "endpoint provider does not match snapshot provider"))
    (fun e => ident_id (ep_identity e))
    (contract_error "ENDPOINT_IDENTITY_DUPLICATE"
       "provider snapshot contains a duplicate endpoint identity") ∅ (snap_endpoints s).

(** ** Contract revisions ([revision.rs]) *)
Record ContractRevision := mk_revision {
  rev_contract_id : string;
  rev_major : N;
  rev_minor : N;
}.
#[export] Instance ContractRevision_eq_dec : EqDecision ContractRevision.
Proof. solve_decision. Defined.

Definition ContractRevision_current : ContractRevision :=
  mk_revision CONTRACT_ID CONTRACT_MAJOR CONTRACT_MINOR.

Definition ContractRevision_validate (r : ContractRevision) : result ContractError unit :=
  _ ← validate_namespaced_id "contract id" (rev_contract_id r);
  ensure (negb (rev_major r =? 0)%N)
    (contract_error "CONTRACT_MAJOR_INVALID" "semantic contract major version must be non-zero").

Definition ContractRevision_negotiate (local offered : ContractRevision) : option ContractRevision :=
  if is_err (ContractRevision_validate local)
     || is_err (ContractRevision_validate offered)
     || negb (bool_decide (rev_contract_id local = rev_contract_id offered))
     || negb (rev_major local =? rev_major offered)%N
  then None
  else Some (mk_revision (rev_contract_id local) (rev_major local)
               (N.min (rev_minor local) (rev_minor offered))).

Record Rejection := mk_rejection {
  rej_reason_code : string;
  rej_message : string;
}.
#[export] Instance Rejection_eq_dec : EqDecision Rejection.
Proof. solve_decision. Defined.

Definition Rejection_validate (r : Rejection) : result ContractError unit :=
  _ ← validate_reason_code (rej_reason_code r);
  validate_text "rejection message" (rej_message r) MAX_ERROR_MESSAGE_BYTES.
