(* ===== verification/ContractSpec.v ===== *)
(** * Properties of the semantic contract

    Lease renewal, state machines, event pages, snapshot validation, resource
    matching, endpoint grants and revision negotiation. *)
From stdpp Require Import base gmap strings list sorting pretty.
From Stdlib Require Import Ascii Lia ZifyBool ZifyN.
From S2P Require Import Prelude Validation Contract.

(** ** Leases *)
Ltac contract_bools :=
  rewrite ?andb_true_iff, ?orb_false_iff, ?orb_true_iff, ?negb_true_iff, ?negb_false_iff, ?bool_decide_eq_true,
    ?bool_decide_eq_false in *.
Ltac contract_steps :=
  repeat match goal with
  | H : (_ ≫= _) = Ok _ |- _ => apply result_bind_Ok in H as (? & ? & ?)
  | H : ensure _ _ = Ok _ |- _ => apply ensure_Ok in H
  | H : ok_or _ ?o = Ok _ |- _ => destruct o eqn:?; simplify_eq/=
  end; contract_bools.

Lemma Lease_with_expiry_valid l e :
  Lease_validate l = Ok tt -> validate_timestamp "lease expiry" e = Ok tt ->
  Lease_validate (Lease_with_expiry l (Some e)) = Ok tt.
Proof.
  unfold Lease_validate, Lease_with_expiry. simpl. intros Hl He.
  repeat (apply result_bind_Ok in Hl as (? & Hx & Hl); rewrite Hx; clear Hx; simpl). done.
Qed.
Lemma validate_timestamp_ok f g t : validate_timestamp f t = Ok tt -> validate_timestamp g t = Ok tt.
Proof. unfold validate_timestamp. by case_match. Qed.

(** A renewal only extends the expiry: the renewed lease is valid, expires
    strictly later, grants nothing to anyone the old one did not serve, keeps
    every authorization the old one gave, and then authorizes its holder up to
    the new expiry. *)
Theorem renewal_extends_authority l l' f e now :
  Lease_renew_lease l f e now = Ok l' ->
  Lease_validate l' = Ok tt /\ f = lease_fence_token l /\ lease_fence_token l' = f /\
  (exists old, lease_expires_at_unix_ms l = Some old /\ (now < old)%N /\ (old < e)%N /\
     lease_expires_at_unix_ms l' = Some e) /\
  (forall holder r tok t, Lease_authorizes l holder r tok t = true -> Lease_authorizes l' holder r tok t = true) /\
  (forall holder r tok t, Lease_authorizes l' holder r tok t = true <->
     holder = lease_holder l /\ r ∈ lease_resources l /\ tok = f /\ (t < e)%N).
Proof.
  unfold Lease_renew_lease. intros Hr. contract_steps. simplify_eq/=.
  repeat match goal with u : unit |- _ => destruct u end.
  assert (Lease_validate (Lease_with_expiry l (Some e)) = Ok tt) as Hv.
  { apply Lease_with_expiry_valid; [done|by eapply validate_timestamp_ok]. }
  assert (forall holder r tok t, Lease_authorizes (Lease_with_expiry l (Some e)) holder r tok t = true <->
     holder = lease_holder l /\ r ∈ lease_resources l /\ tok = lease_fence_token l /\ (t < e)%N) as Hauth.
  { intros. unfold Lease_authorizes. rewrite Hv. simpl. contract_bools. rewrite N.eqb_eq, N.ltb_lt. naive_solver. }
  assert (f = lease_fence_token l) as -> by lia.
  split_and!; try done.
  - eexists. split_and!; [done|lia|lia|done].
  - intros holder r tok t Ha. apply Hauth. unfold Lease_authorizes in Ha. contract_bools. destruct_and!.
    match goal with H : is_some_and _ _ = true, E : lease_expires_at_unix_ms l = _ |- _ =>
      rewrite E in H; simpl in H end.
    naive_solver lia.
Qed.

(** ** State machines *)
Section machine.
Context {S : Type} `{EqDecision S} (next : S -> S -> bool).

Definition moves (s s' : S) : Prop := next s s' = true.
Definition terminal (s : S) : Prop := forall s', next s s' = true -> s' = s.

Lemma ranked_antisymm (rank : S -> nat) :
  (forall s s', next s s' = true -> s = s' \/ (rank s < rank s')%nat) ->
  forall s s', rtc moves s s' -> rtc moves s' s -> s = s'.
Proof.
  intros Hrank. assert (forall s s', rtc moves s s' -> s = s' \/ (rank s < rank s')%nat) as Hrtc.
  { induction 1 as [|s s1 s' Hs _ IH]; [by left|]. destruct (Hrank _ _ Hs) as [->|?]; [done|].
    destruct IH as [->|?]; right; lia. }
  intros s s' H1 H2. destruct (Hrtc _ _ H1) as [?|?], (Hrtc _ _ H2) as [?|?]; auto; lia.
Qed.
End machine.

Definition lease_rank (s : LeaseState) : nat :=
  match s with LActive => 0 | LReleasing => 1 | _ => 2 end.
Definition worker_rank (s : WorkerState) : nat :=
  match s with WRegistered => 0 | WStarting => 1 | WRunning => 2 | WDraining => 3 | _ => 4 end.
Definition operation_rank (s : OperationState) : nat :=
  match s with OCreated => 0 | OPending => 1 | ORunning => 2 | OCancelling => 3 | _ => 4 end.

(** The lease, worker and operation machines never return to a state they
    left. *)
Theorem lifecycles_move_forward :
  (forall s s', rtc (moves LeaseState_can_transition_to) s s' ->
     rtc (moves LeaseState_can_transition_to) s' s -> s = s') /\
  (forall s s', rtc (moves WorkerState_can_transition_to) s s' ->
     rtc (moves WorkerState_can_transition_to) s' s -> s = s') /\
  (forall s s', rtc (moves OperationState_can_transition_to) s s' ->
     rtc (moves OperationState_can_transition_to) s' s -> s = s').
Proof.
  split_and!;
    [apply (ranked_antisymm _ lease_rank)|apply (ranked_antisymm _ worker_rank)
    |apply (ranked_antisymm _ operation_rank)];
    intros [] []; simpl; intros; first [discriminate | by left | right; lia].
Qed.

(** The states without exit are exactly released, expired, revoked and
    failed leases; stopped, failed and lost workers; succeeded, failed,
    cancelled and lost operations. *)
Theorem terminal_states :
  (forall s, terminal LeaseState_can_transition_to s <-> s ∈ [LReleased; LExpired; LRevoked; LFailed]) /\
  (forall s, terminal WorkerState_can_transition_to s <-> s ∈ [WStopped; WFailed; WLost]) /\
  (forall s, terminal OperationState_can_transition_to s <-> s ∈ [OSucceeded; OFailed; OCancelled; OLost]).
Proof.
  split_and!; intros s; split.
  - intros Ht. destruct s; try set_solver; [by specialize (Ht LFailed eq_refl)|by specialize (Ht LFailed eq_refl)].
  - intros Hin s' Hs. destruct s, s'; try discriminate; try done; set_solver.
  - intros Ht. destruct s; try set_solver; by specialize (Ht WLost eq_refl).
  - intros Hin s' Hs. destruct s, s'; try discriminate; try done; set_solver.
  - intros Ht. destruct s; try set_solver; by specialize (Ht OFailed eq_refl).
  - intros Hin s' Hs. destruct s, s'; try discriminate; try done; set_solver.
Qed.

(** ** Event pages *)
Definition page_event (p : EventPage) (e : Event) : Prop :=
  Event_validate e = Ok tt /\ ev_source e = page_source p /\
  (page_oldest_available_sequence p <= ev_sequence e <= page_latest_available_sequence p)%N.

Lemma EventPage_validate_events_Ok p events prev last :
  EventPage_validate_events p prev events = Ok last <->
  Forall (page_event p) events /\
  StronglySorted N.lt (option_list prev ++ (ev_sequence <$> events)) /\
  last = match list.last (ev_sequence <$> events) with Some s => Some s | None => prev end.
Proof.
  revert prev. induction events as [|e events IH]; intros prev;
    cbn [EventPage_validate_events]; rewrite ?fmap_cons, ?fmap_nil.
  { rewrite app_nil_r. split; [intros [= <-]|by intros (_ & _ & ->)].
    split_and!; [constructor| |done]. destruct prev; simpl; repeat constructor. }
  rewrite result_bind_Ok, Forall_cons. unfold page_event at 1. split.
  - intros ([] & Hv & Hrest). case_match eqn:Hc; [done|]. contract_bools.
    destruct Hc as [[[Hsrc Hprev] Hlo] Hhi].
    apply IH in Hrest as (Hall & Hsort & ->). simpl in Hsort. split_and!; try done; try lia.
    + destruct prev as [q|]; [|done]. simpl in *. constructor; [done|].
      apply StronglySorted_inv in Hsort as [_ Hf]. constructor; [lia|].
      eapply Forall_impl; [exact Hf|]. simpl. lia.
    + rewrite last_cons. by destruct (list.last (ev_sequence <$> events)).
  - intros ([(Hv & Hsrc & Hlo & Hhi) Hall] & Hsort & ->). exists tt. split; [done|].
    match goal with |- (if ?b then _ else _) = _ => destruct b eqn:Hc end.
    + exfalso. contract_bools. destruct Hc as [[[Hc|Hc]|Hc]|Hc]; [done| |lia|lia].
      destruct prev as [q|]; [|done]. simpl in *.
      apply StronglySorted_inv in Hsort as [_ Hf]. apply Forall_cons in Hf as [Hf _]. lia.
    + apply IH. split_and!; [done| |].
      * destruct prev as [q|]; [|done]. simpl in *. by apply StronglySorted_inv in Hsort as [? _].
      * rewrite last_cons. by destruct (list.last (ev_sequence <$> events)).
Qed.

Lemma EventPage_validate_Ok p :
  EventPage_validate p = Ok tt <->
  Identity_validate (page_source p) = Ok tt /\
  (length (page_events p) <= MAX_EVENTS_PER_PAGE)%nat /\
  (page_oldest_available_sequence p <= page_latest_available_sequence p)%N /\
  (page_oldest_available_sequence p = 0 <-> page_latest_available_sequence p = 0)%N /\
  (page_status p = Current \/ page_events p = []) /\
  Forall (page_event p) (page_events p) /\
  StronglySorted N.lt (ev_sequence <$> page_events p) /\
  (forall s, list.last (ev_sequence <$> page_events p) = Some s -> page_next_sequence p = s).
Proof.
  unfold EventPage_validate, range_errors. repeat setoid_rewrite result_bind_Ok.
  repeat setoid_rewrite ensure_Ok. setoid_rewrite EventPage_validate_events_Ok. simpl.
  split.
  - intros ([] & Hsrc & [] & Hlen & [] & ([] & Hle & Heq) & [] & Hst & last & (Hall & Hs & ->) & Hn).
    apply eqb_prop in Heq. contract_bools. split_and!; try done; [lia..|].
    intros s Hl. rewrite Hl in Hn. apply ensure_Ok in Hn. lia.
  - intros (Hsrc & Hlen & Hle & Heq & Hst & Hall & Hs & Hn).
    exists tt. split; [done|]. exists tt. split; [lia|]. exists tt. split.
    { exists tt. split; [lia|]. apply eqb_true_iff. lia. }
    exists tt. split; [contract_bools; done|]. eexists. split; [done|].
    destruct (list.last _) as [s|]; [|done]. apply ensure_Ok. rewrite (Hn s) by done. apply N.eqb_refl.
Qed.

(** A page is accepted exactly when its source is valid, its range is empty
    or proper, it is bounded, a gap or source change carries no events, every
    event is valid, of the page's source and inside the range, the sequences
    strictly increase, and the cursor is the last sequence of the page. *)
Theorem event_page_accepted_iff p :
  EventPage_validate p = Ok tt <->
  Identity_validate (page_source p) = Ok tt /\
  (length (page_events p) <= MAX_EVENTS_PER_PAGE)%nat /\
  (page_oldest_available_sequence p <= page_latest_available_sequence p)%N /\
  (page_oldest_available_sequence p = 0 <-> page_latest_available_sequence p = 0)%N /\
  (page_status p = Current \/ page_events p = []) /\
  Forall (page_event p) (page_events p) /\
  StronglySorted N.lt (ev_sequence <$> page_events p) /\
  (forall s, list.last (ev_sequence <$> page_events p) = Some s -> page_next_sequence p = s).
Proof. apply EventPage_validate_Ok. Qed.

(** ** Resource matching *)
Definition capability_covers (c c' : Capability) : Prop :=
  cap_id c' = cap_id c /\ (cap_revision c <= cap_revision c')%N /\ cap_properties c ⊆ cap_properties c'.
(** [r'] offers at least what [r] offers. *)
Record resource_covers (r r' : Resource) : Prop := {
  rc_class : res_resource_class r' = res_resource_class r;
  rc_capabilities : forall c, c ∈ res_capabilities r ->
    exists c', c' ∈ res_capabilities r' /\ capability_covers c c';
  rc_capacity : forall k q, res_capacity r !! k = Some q ->
    exists q', res_capacity r' !! k = Some q' /\ qty_unit q' = qty_unit q /\ (qty_value q <= qty_value q')%N;
}.

Lemma requirement_covered req c c' :
  capability_covers c c' -> CapabilityRequirement_matches req c = true ->
  CapabilityRequirement_matches req c' = true.
Proof.
  intros (Hid & Hrev & Hsub). unfold CapabilityRequirement_matches. contract_bools.
  intros [[-> Hle] Hall]. split; [split; [done|lia]|].
  rewrite forallb_forall in *. intros [k v] Hin. specialize (Hall _ Hin). simpl in *.
  destruct (cap_properties c !! k) as [w|] eqn:Hk; [|done].
  by rewrite (lookup_weaken _ _ _ _ Hk Hsub).
Qed.

(** Matching is monotone: a resource of the same class with at least the
    capabilities and capacity of a resource that matches a query also matches
    it. *)
Theorem matching_monotone q r r' :
  resource_covers r r' -> ResourceQuery_matches q r = true -> ResourceQuery_matches q r' = true.
Proof.
  intros [Hc Hcap Hqty]. unfold ResourceQuery_matches. contract_bools.
  intros [[-> Hreq] Hmin]. split; [split; [done|]|].
  - rewrite forallb_forall in *. intros req Hin. specialize (Hreq _ Hin).
    apply existsb_exists in Hreq as (c & Hc1 & Hc2). apply existsb_exists.
    apply list_elem_of_In, Hcap in Hc1 as (c' & Hc' & Hcov).
    exists c'. split; [by apply list_elem_of_In|]. by eapply requirement_covered.
  - rewrite forallb_forall in *. intros [k m] Hin. specialize (Hmin _ Hin). simpl in *.
    destruct (res_capacity r !! k) as [a|] eqn:Hk; [|done].
    destruct (Hqty _ _ Hk) as (a' & -> & Hu & Hle). simpl in *.
    unfold Quantity_satisfies in *. contract_bools. destruct Hmin. split; [congruence|lia].
Qed.

(** ** Provider snapshots *)
Lemma snapshot_member_Ok {A} validate (provider_of : A -> Identity) provider e a :
  snapshot_member validate provider_of provider e a = Ok tt <->
  validate a = Ok tt /\ provider_of a = provider.
Proof.
  unfold snapshot_member. rewrite result_bind_Ok. setoid_rewrite ensure_Ok.
  setoid_rewrite bool_decide_eq_true. split; [by intros ([] & ? & ?)|intros []; by exists tt].
Qed.

Definition snapshot_part {A} (validate : A -> result ContractError unit) (identity provider_of : A -> Identity)
    (provider : Identity) (limit : N) (xs : list A) : Prop :=
  (N.of_nat (length xs) <= limit)%N /\ NoDup ((fun x => ident_id (identity x)) <$> xs) /\
  Forall (fun x => validate x = Ok tt /\ provider_of x = provider) xs.

Lemma snapshot_part_Ok {A} validate identity (provider_of : A -> Identity) provider limit
    (e1 e2 e3 : ContractError) xs :
  snapshot_part validate identity provider_of provider limit xs <->
  ensure (N.of_nat (length xs) <=? limit)%N e1 = Ok tt /\
  for_unique (snapshot_member validate provider_of provider e2) (fun x => ident_id (identity x)) e3 ∅ xs
    = Ok tt.
Proof.
  rewrite ensure_Ok, for_unique_Ok. setoid_rewrite snapshot_member_Ok. unfold snapshot_part.
  rewrite N.leb_le. set_solver.
Qed.
Lemma snapshot_part_checks {A} validate identity (provider_of : A -> Identity) provider limit xs :
  snapshot_part validate identity provider_of provider limit xs ->
  (forall e1 : ContractError, ensure (N.of_nat (length xs) <=? limit)%N e1 = Ok tt) /\
  (forall e2 e3, for_unique (snapshot_member validate provider_of provider e2)
     (fun x => ident_id (identity x)) e3 ∅ xs = Ok tt).
Proof.
  intros Hs. split; intros.
  - apply (snapshot_part_Ok _ _ _ _ _ e1 e1 e1 _), proj1 in Hs. done.
  - apply (snapshot_part_Ok _ _ _ _ _ e2 e2 e3 _), proj2 in Hs. done.
Qed.
(** A snapshot is accepted exactly when its provider is valid, its
    generation is not zero, its validity window is proper, and its resources,
    workers and endpoints are bounded, valid, of this provider and pairwise
    distinct by id. *)
Theorem snapshot_accepted_iff s :
  ProviderSnapshot_validate s = Ok tt <->
  Identity_validate (snap_provider s) = Ok tt /\ (snap_snapshot_generation s <> 0)%N /\
  (0 < snap_sampled_at_unix_ms s < snap_expires_at_unix_ms s)%N /\
  (snap_expires_at_unix_ms s <= MAX_TIMESTAMP_UNIX_MS)%N /\
  snapshot_part Resource_validate res_identity res_provider (snap_provider s) MAX_RESOURCES_PER_SNAPSHOT
    (snap_resources s) /\
  snapshot_part Worker_validate wk_identity wk_provider (snap_provider s) MAX_WORKERS_PER_SNAPSHOT
    (snap_workers s) /\
  snapshot_part Endpoint_validate ep_identity ep_provider (snap_provider s) MAX_ENDPOINTS_PER_SNAPSHOT
    (snap_endpoints s).
Proof.
  unfold ProviderSnapshot_validate. rewrite !result_bind_unit, !validate_timestamp_Ok.
  split.
  - rewrite !ensure_Ok. intros (? & ? & ? & ? & ? & ? & ? & ? & ? & ? & ?).
    contract_bools. split_and!; try done; try lia;
      eapply (snapshot_part_Ok _ _ _ _ _ (contract_error "" "")); rewrite ensure_Ok; by split.
  - intros (? & ? & ? & ? & [? ?]%snapshot_part_checks & [? ?]%snapshot_part_checks
      & [? ?]%snapshot_part_checks).
    split_and!; auto; try lia; apply ensure_Ok; contract_bools; lia.
Qed.

(** ** Endpoint grants *)

(** A grant is usable only together with its lease: a grant that authorizes
    now also did at every earlier time, stops for ever at the earlier of the
    two expiries, and stops as soon as the lease is no longer active, changes
    holder or identity, or moves to another fence. *)
Theorem grant_dies_with_lease g endpoint grantee lease now :
  EndpointGrant_authorizes g endpoint grantee lease now = true ->
  lease_holder lease = grantee /\
  (forall t, (t <= now)%N -> EndpointGrant_authorizes g endpoint grantee lease t = true) /\
  (forall t e, lease_expires_at_unix_ms lease = Some e -> (N.min (grant_expires_at_unix_ms g) e <= t)%N ->
     EndpointGrant_authorizes g endpoint grantee lease t = false) /\
  (forall lease' t, lease_state lease' <> LActive \/ lease_fence_token lease' <> lease_fence_token lease \/
     lease_holder lease' <> lease_holder lease \/ lease_identity lease' <> lease_identity lease ->
     EndpointGrant_authorizes g endpoint grantee lease' t = false).
Proof.
  unfold EndpointGrant_authorizes. intros Ha. contract_bools. destruct_and!.
  destruct (lease_expires_at_unix_ms lease) as [e|]; [|done]. simpl in *.
  split_and!; [congruence|..].
  - intros t Ht. contract_bools. split_and!; try done; lia.
  - intros t e' [= <-] Ht. apply not_true_iff_false. intros Hx; contract_bools; destruct_and!. lia.
  - intros lease' t Hd. apply not_true_iff_false. intros Hx; contract_bools; destruct_and!.
    rewrite N.eqb_eq in *. destruct Hd as [Hd|[Hd|[Hd|Hd]]]; congruence.
Qed.

(** ** Revision negotiation *)

(** Negotiation is symmetric, and an agreed revision is valid, no newer
    than either side, and stable under negotiating again with either side. *)
Theorem negotiation_agrees a b :
  ContractRevision_negotiate a b = ContractRevision_negotiate b a /\
  (forall r, ContractRevision_negotiate a b = Some r ->
     ContractRevision_validate r = Ok tt /\ rev_major r = rev_major a /\ rev_major r = rev_major b /\
     (rev_minor r <= rev_minor a)%N /\ (rev_minor r <= rev_minor b)%N /\
     ContractRevision_negotiate a r = Some r /\ ContractRevision_negotiate r b = Some r).
Proof.
  assert (forall x y r, ContractRevision_negotiate x y = Some r <->
    ContractRevision_validate x = Ok tt /\ ContractRevision_validate y = Ok tt /\
    rev_contract_id x = rev_contract_id y /\ rev_major x = rev_major y /\
    r = mk_revision (rev_contract_id x) (rev_major x) (N.min (rev_minor x) (rev_minor y))) as Hspec.
  { intros x y r. unfold ContractRevision_negotiate.
    destruct (ContractRevision_validate x) as [[]|], (ContractRevision_validate y) as [[]|]; simpl;
      try naive_solver.
    case_bool_decide; simpl; [|naive_solver].
    destruct (N.eqb_spec (rev_major x) (rev_major y)); simpl; naive_solver. }
  split.
  - apply option_eq. intros r. rewrite !Hspec. rewrite (N.min_comm (rev_minor a)). naive_solver congruence.
  - intros r (Ha & Hb & Hid & Hm & ->)%Hspec. rewrite !Hspec. simpl.
    assert (ContractRevision_validate (mk_revision (rev_contract_id a) (rev_major a)
              (N.min (rev_minor a) (rev_minor b))) = Ok tt) by done.
    split_and!; try done; try lia; f_equal; lia.
Qed.

(** ** Concrete instances *)
Definition example_lease (expiry : N) : Lease :=
  mk_lease (mk_identity "lease-1" 1) (mk_identity "agent" 1) [mk_identity "gpu-0" 1] LActive 7 (Some expiry).

Lemma renewal_extends_authority_witness :
  exists l', Lease_renew_lease (example_lease 1000) 7 2000 500 = Ok l' /\
    Lease_authorizes l' (mk_identity "agent" 1) (mk_identity "gpu-0" 1) 7 1500 = true.
Proof.
  assert (Lease_renew_lease (example_lease 1000) 7 2000 500 = Ok (example_lease 2000)) as Hr
    by (vm_compute; reflexivity).
  exists (example_lease 2000). split; [exact Hr|].
  apply (renewal_extends_authority (example_lease 1000) (example_lease 2000) 7 2000 500 Hr).
  split; [reflexivity|]. split; [apply elem_of_cons; by left|]. split; [reflexivity|lia].
Defined.

Definition example_resource (memory : N) (revision : N) : Resource :=
  mk_resource (mk_identity "gpu-0" 1) (mk_identity "adapter" 1) "gpu.nvidia"
    [mk_capability "cuda" revision ∅] {["memory" := mk_quantity memory "bytes"]} ∅ ResourceReady "ready" "ok" [].
Definition example_query : ResourceQuery :=
  mk_query "gpu.nvidia" 1 [mk_requirement "cuda" 2 ∅] {["memory" := mk_quantity 16 "bytes"]}.

Lemma matching_monotone_witness :
  ResourceQuery_matches example_query (example_resource 16 2) = true /\
  ResourceQuery_matches example_query (example_resource 24 3) = true.
Proof.
  assert (ResourceQuery_matches example_query (example_resource 16 2) = true) as Hm
    by (vm_compute; reflexivity).
  split; [exact Hm|]. apply (matching_monotone example_query (example_resource 16 2)); [|exact Hm].
  split; [done| |].
  - intros c Hc. eexists. split; [apply elem_of_cons; by left|].
    simpl in Hc. apply list_elem_of_singleton in Hc as ->. by split_and!.
  - intros k q. simpl. rewrite lookup_singleton_Some. intros [<- <-].
    exists (mk_quantity 24 "bytes"). split; [by rewrite lookup_singleton_eq|]. simpl. split; [done|lia].
Defined.

Definition example_grant : EndpointGrant :=
  mk_grant (mk_identity "grant-1" 1) (mk_identity "endpoint-1" 1) (mk_identity "agent" 1)
    (mk_identity "lease-1" 1) 7 800.
Lemma grant_dies_with_lease_witness :
  EndpointGrant_authorizes example_grant (mk_identity "endpoint-1" 1) (mk_identity "agent" 1)
    (example_lease 1000) 900 = false.
Proof.
  apply (grant_dies_with_lease example_grant (mk_identity "endpoint-1" 1) (mk_identity "agent" 1)
           (example_lease 1000) 500) with (e := 1000%N); [vm_compute; reflexivity|reflexivity|simpl; lia].
Defined.
