(* ===== verification/KernelApi.v ===== *)
(** * Kernel API types

    [kernel/crates/cy-kernel-api/src] and the public adapter facts of
    [contracts/rust/cy-kernel-contract/src/adapter.rs]: provider errors, lease
    requests and leases of the resource ledger, inventory snapshots, runtime
    evidence, journal records and the authority call context. *)
From stdpp Require Import base gmap strings list sorting pretty.
From Stdlib Require Import Ascii Lia ZifyBool ZifyN.
From S2P Require Import Prelude Validation Contract.

(** ** Provider errors and host facts ([adapter.rs]) *)
Record ProviderError := provider_error {
  pe_adapter_id : string;
  pe_reason_code : string;
  pe_message : string;
}.
#[export] Instance ProviderError_eq_dec : EqDecision ProviderError.
Proof. solve_decision. Defined.

Inductive EnforcementMode := EHard | ESoft | EVisibilityOnly | EObserveOnly | EUnenforced.
#[export] Instance EnforcementMode_eq_dec : EqDecision EnforcementMode.
Proof. solve_decision. Defined.

Record CapabilityFact := mk_fact {
  fact_name : string;
  fact_available : bool;
  fact_required : bool;
  fact_detail : string;
}.
#[export] Instance CapabilityFact_eq_dec : EqDecision CapabilityFact.
Proof. solve_decision. Defined.

Record EnforcementReport := mk_enforcement_report {
  enf_resource_kind : string;
  enf_mode : EnforcementMode;
  enf_adapter_id : string;
  enf_reason_code : string;
}.
#[export] Instance EnforcementReport_eq_dec : EqDecision EnforcementReport.
Proof. solve_decision. Defined.

Record NodeCapabilities := mk_node_capabilities {
  nc_ready : bool;
  nc_facts : list CapabilityFact;
  nc_enforcement : list EnforcementReport;
}.
#[export] Instance NodeCapabilities_eq_dec : EqDecision NodeCapabilities.
Proof. solve_decision. Defined.

Record InventorySnapshot := mk_inventory {
  inv_generation : N;
  inv_resources : list Resource;
  inv_capabilities : NodeCapabilities;
}.

(** ** Leases of the resource ledger ([lease.rs]) *)
Record CgroupLimits := mk_limits {
  lim_cpu_max_millicores : option N;
  lim_memory_max_bytes : option N;
  lim_cpuset_cpus : option string;
}.
#[export] Instance CgroupLimits_eq_dec : EqDecision CgroupLimits.
Proof. solve_decision. Defined.
Definition CgroupLimits_default : CgroupLimits := mk_limits None None None.

Inductive RLeaseState :=
| Active | Releasing | Released | Expired | Revoked | Failed | Quarantined.
#[export] Instance RLeaseState_eq_dec : EqDecision RLeaseState.
Proof. solve_decision. Defined.

Record ResourceRequest := mk_request {
  rq_lease_name : string;
  rq_expected_inventory_generation : N;
  rq_holder : Identity;
  rq_query : ResourceQuery;
  rq_expires_at_unix_ms : option N;
  rq_limits : CgroupLimits;
}.

Record ResourceAllocation := mk_allocation {
  al_allocation_id : string;
  al_resource : Identity;
  al_granted_capacity : gmap string Quantity;
  al_enforcement : EnforcementMode;
}.
#[export] Instance ResourceAllocation_eq_dec : EqDecision ResourceAllocation.
Proof. solve_decision. Defined.

Record ResourceLease := mk_resource_lease {
  rl_name : string;
  rl_generation : N;
  rl_state : RLeaseState;
  rl_holder : Identity;
  rl_allocations : list ResourceAllocation;
  rl_inventory_generation : N;
  rl_fence_token : N;
  rl_expires_at_unix_ms : option N;
  rl_limits : CgroupLimits;
}.
#[export] Instance ResourceLease_eq_dec : EqDecision ResourceLease.
Proof. solve_decision. Defined.

(** Field assignments [lease.state = s], [lease.fence_token = f] and
    [lease.expires_at_unix_ms = e]. *)
Definition set_state (s : RLeaseState) (l : ResourceLease) : ResourceLease :=
  mk_resource_lease (rl_name l) (rl_generation l) s (rl_holder l) (rl_allocations l)
    (rl_inventory_generation l) (rl_fence_token l) (rl_expires_at_unix_ms l) (rl_limits l).
Definition set_fence (f : N) (l : ResourceLease) : ResourceLease :=
  mk_resource_lease (rl_name l) (rl_generation l) (rl_state l) (rl_holder l) (rl_allocations l)
    (rl_inventory_generation l) f (rl_expires_at_unix_ms l) (rl_limits l).
Definition set_expiry (e : option N) (l : ResourceLease) : ResourceLease :=
  mk_resource_lease (rl_name l) (rl_generation l) (rl_state l) (rl_holder l) (rl_allocations l)
    (rl_inventory_generation l) (rl_fence_token l) e (rl_limits l).

Definition allocated_ids (l : ResourceLease) : list string :=
  (fun a => ident_id (al_resource a)) <$> rl_allocations l.

(** ** Namespaces and call contexts ([authority.rs]) *)
Definition DEFAULT_NAMESPACE : string := "default".

(** [NamespaceId(String)]; its derived [Ord] and equality are the string's. *)
Definition NamespaceId : Type := string.
Definition NamespaceId_default : NamespaceId := DEFAULT_NAMESPACE.

Definition namespace_byte (byte : ascii) : bool :=
  is_ascii_alphanumeric byte || bool_decide (byte = "."%char) || bool_decide (byte = "_"%char)
  || bool_decide (byte = "-"%char).

Definition NamespaceId_new (value : string) : result Rejection NamespaceId :=
  if bool_decide (value = "") || (128 <? byte_len value)%N || negb (forallb namespace_byte (bytes value))
  then Err (mk_rejection "NAMESPACE_INVALID"
         "namespace must contain 1..=128 ASCII alphanumeric, '.', '_' or '-' bytes")
  else Ok value.

Record ObjectRef := mk_object {
  obj_namespace : NamespaceId;
  obj_identity : Identity;
}.
#[export] Instance ObjectRef_eq_dec : EqDecision ObjectRef.
Proof. solve_decision. Defined.
#[export] Program Instance ObjectRef_countable : Countable ObjectRef :=
  inj_countable' (fun o => (obj_namespace o, obj_identity o)) (fun p => mk_object p.1 p.2) _.
Next Obligation. by intros []. Qed.
#[export] Program Instance ObjectRef_ordered : Ordered ObjectRef := {|
  compare i j := compare (obj_namespace i : string, obj_identity i) (obj_namespace j : string, obj_identity j);
|}.
Next Obligation. intros [] []. rewrite compare_eq. naive_solver. Qed.
Next Obligation. intros. apply compare_antisym. Qed.
Next Obligation. intros x y z. apply compare_lt_trans. Qed.

Record AuthorityCallContext := mk_context {
  ctx_contract : ContractRevision;
  ctx_namespace : NamespaceId;
  ctx_request_id : string;
  ctx_idempotency_key : string;
}.

Definition AuthorityCallContext_validate_for (c : AuthorityCallContext) (local : ContractRevision)
    : result Rejection unit :=
  if negb (bool_decide (ContractRevision_negotiate local (ctx_contract c) = Some (ctx_contract c))) then
    Err (mk_rejection "CONTRACT_INCOMPATIBLE"
           "authority call did not use a revision selected by this Kernel")
  else if bool_decide (ctx_request_id c = "") && bool_decide (ctx_idempotency_key c = "") then
    Err (mk_rejection "REQUEST_ID_REQUIRED"
           "authority call requires request_id or idempotency_key")
  else _ ← NamespaceId_new (ctx_namespace c); Ok tt.

Definition object_ref (c : AuthorityCallContext) (identity : Identity) : ObjectRef :=
  mk_object (ctx_namespace c) identity.
Definition effective_idempotency_key (c : AuthorityCallContext) : string :=
  if bool_decide (ctx_idempotency_key c = "") then ctx_request_id c else ctx_idempotency_key c.

(** ** Launch plans and bindings ([launch.rs], [adapter.rs]); a path is its
    UTF-8 bytes, a duration a number of nanoseconds. *)
Record LaunchPlan := mk_plan {
  plan_instance_name : string;
  plan_executable : string;
  plan_args : list string;
  plan_environment : gmap string string;
  plan_cgroup_name : string;
  plan_limits : CgroupLimits;
  plan_working_dir : option string;
  plan_transport_socket : option string;
}.
#[export] Instance LaunchPlan_eq_dec : EqDecision LaunchPlan.
Proof. solve_decision. Defined.

Record VerifiedInstallation := mk_installation {
  vi_installation_name : string;
  vi_manifest_digest : string;
  vi_artifact_digest : string;
  vi_verified_signature_identity : string;
}.
Record ResolvedLaunchPlan := mk_resolved {
  resolved_installation : VerifiedInstallation;
  resolved_plan : LaunchPlan;
}.

Record DeviceNode := mk_node {
  node_path : string;
  node_major : option N;
  node_minor : option N;
  node_required : bool;
}.
#[export] Instance DeviceNode_eq_dec : EqDecision DeviceNode.
Proof. solve_decision. Defined.

Record DeviceBinding := mk_binding {
  bind_resource_id : string;
  bind_nodes : list DeviceNode;
  bind_environment : gmap string string;
  bind_joinable_environment_keys : gset string;
  bind_required_gids : list N;
  bind_enforcement : EnforcementMode;
  bind_adapter_id : string;
  bind_reason_code : string;
}.
#[export] Instance DeviceBinding_eq_dec : EqDecision DeviceBinding.
Proof. solve_decision. Defined.

(** ** Processes ([runtime.rs]) *)
Record ProcessHandle := mk_handle {
  ph_pid : N;
  ph_cgroup_path : string;
  ph_start_time_ticks : option N;
  ph_transport_socket : option string;
}.
#[export] Instance ProcessHandle_eq_dec : EqDecision ProcessHandle.
Proof. solve_decision. Defined.

Record RuntimeProcessEvidence := mk_evidence {
  rpe_cgroup_name : string;
  rpe_pid : N;
  rpe_start_time_ticks : N;
}.
#[export] Instance RuntimeProcessEvidence_eq_dec : EqDecision RuntimeProcessEvidence.
Proof. solve_decision. Defined.

(** [Path::file_name]: the last component, if it is a normal one; empty and
    ["."] components do not count. *)
Definition split_byte (sep : ascii) (bs : list ascii) : list (list ascii) :=
  foldr (fun c acc => if decide (c = sep) then [] :: acc
                      else match acc with [] => [[c]] | part :: rest => (c :: part) :: rest end)
    [[]] bs.
Definition file_name (path : string) : option string :=
  let parts := filter (fun p : list ascii => p <> [] /\ p <> bytes ".") (split_byte "/" (bytes path)) in
  match last parts with
  | Some part => if decide (part = bytes "..") then None else Some (of_bytes part)
  | None => None
  end.

Definition recovery_evidence (h : ProcessHandle) : result ProviderError RuntimeProcessEvidence :=
  cgroup_name ← ok_or (provider_error "process-runtime" "RECOVERY_EVIDENCE_INVALID"
                         "process cgroup path has no safe final component") (file_name (ph_cgroup_path h));
  start_time_ticks ← ok_or (provider_error "process-runtime" "RECOVERY_EVIDENCE_UNAVAILABLE"
                         "process start time is required to defend against PID reuse")
                       (ph_start_time_ticks h);
  if (ph_pid h =? 0)%N then
    Err (provider_error "process-runtime" "RECOVERY_EVIDENCE_INVALID" "process PID must be non-zero")
  else Ok (mk_evidence cgroup_name (ph_pid h) start_time_ticks).

Record ProcessCondition := mk_condition {
  pc_reason_code : string;
  pc_summary : string;
}.
#[export] Instance ProcessCondition_eq_dec : EqDecision ProcessCondition.
Proof. solve_decision. Defined.

Record CleanupReport := mk_cleanup {
  cr_complete : bool;
  cr_exit_code : option Z;
  cr_oom_killed : bool;
  cr_conditions : list ProcessCondition;
  cr_reason_code : string;
}.
#[export] Instance CleanupReport_eq_dec : EqDecision CleanupReport.
Proof. solve_decision. Defined.

Record StopRequest := mk_stop_request {
  sr_grace_period : N;
  sr_immediate : bool;
}.

(** ** Journal and event records ([journal.rs]) *)
Inductive RuntimeJournalEvent :=
| KernelStarted | LeaseAcquired | LeaseReleaseStarted | LeaseReleased | LeaseRevoked | FenceAdvanced
| InstanceLaunching | InstanceLaunched | InstanceTerminated | InstanceCleanupFailed | WatchdogReaped
| WorkerLost | OperationLost | EndpointRevoked.
#[export] Instance RuntimeJournalEvent_eq_dec : EqDecision RuntimeJournalEvent.
Proof. solve_decision. Defined.

Record RuntimeJournalRecord := mk_journal_record {
  rj_event : RuntimeJournalEvent;
  rj_node_id : string;
  rj_node_epoch : N;
  rj_instance_name : option string;
  rj_lease_name : option string;
  rj_fence_token : option N;
  rj_reason_code : string;
  rj_runtime_evidence : option RuntimeProcessEvidence;
}.
#[export] Instance RuntimeJournalRecord_eq_dec : EqDecision RuntimeJournalRecord.
Proof. solve_decision. Defined.

Record DurableEventRecord := mk_durable {
  der_namespace : string;
  der_event : Event;
}.
#[export] Instance DurableEventRecord_eq_dec : EqDecision DurableEventRecord.
Proof. solve_decision. Defined.

(** ** Reconciliation results ([authority.rs]) *)
Inductive ProviderReconcileAction :=
| Noop
| RefreshResource (i : Identity)
| MarkWorkerLost (i : Identity)
| RevokeLease (i : Identity)
| TerminateStaleWorker (i : Identity)
| RestartWorker (i : Identity)
| MarkOperationLost (i : Identity)
| RevokeEndpoint (i : Identity).
#[export] Instance ProviderReconcileAction_eq_dec : EqDecision ProviderReconcileAction.
Proof. solve_decision. Defined.

Record ProviderReconcileResult := mk_reconcile_result {
  prr_provider : Identity;
  prr_snapshot_generation : N;
  prr_actions : list ProviderReconcileAction;
}.

Record AuthoritySnapshot := mk_authority_snapshot {
  as_source : Identity;
  as_cursor : EventCursor;
  as_providers : list Provider;
  as_workers : list Worker;
  as_leases : list Lease;
  as_operations : list Operation;
  as_endpoints : list Endpoint;
  as_endpoint_grants : list EndpointGrant;
}.
