(* ===== verification/ResourceManager.v ===== *)
(** * Resource lease manager

    [kernel/crates/cy-resource-manager/src/lib.rs], [InMemoryResourceManager]:
    the in-memory ledger that allocates resources exclusively, fences every
    lease with a monotone token, refreshes the inventory by generation and
    quarantines resources.  Every public method takes the state mutex for its
    whole body, so a method is one atomic step on [State]; the clock readings a
    method takes are its [now] arguments, in the order the code reads them. *)
From stdpp Require Import base gmap strings list sorting pretty.
From Stdlib Require Import Ascii Lia ZifyBool ZifyN.
From S2P Require Import Prelude Validation Contract KernelApi.

Record State := mk_state {
  generation : N;
  resources : gmap string Resource;
  allocated : gset string;
  quarantined : gset string;
  leases : gmap string ResourceLease;
  next_fence_token : N;
}.

Definition rm_error (reason_code message : string) : ProviderError :=
  provider_error "resource-manager" reason_code message.

Definition with_leases (f : gmap string ResourceLease -> gmap string ResourceLease) (s : State) : State :=
  mk_state (generation s) (resources s) (allocated s) (quarantined s) (f (leases s))
    (next_fence_token s).
Definition with_allocated (f : gset string -> gset string) (s : State) : State :=
  mk_state (generation s) (resources s) (f (allocated s)) (quarantined s) (leases s)
    (next_fence_token s).
Definition with_next_fence (f : N) (s : State) : State :=
  mk_state (generation s) (resources s) (allocated s) (quarantined s) (leases s) f.

(** [InMemoryResourceManager::with_next_fence_token] and [new]. *)
Definition with_next_fence_token (rs : list Resource) (next : N) : State :=
  mk_state 1 (collect_by res_id rs) ∅ ∅ ∅ (N.max next 1).
Definition new (rs : list Resource) : State := with_next_fence_token rs 1.

(** The three mutations of [refresh_inventory]'s working map and quarantine set
    for one allocated resource. *)
Definition mark_missing (r : Resource) : Resource :=
  mk_resource (res_identity r) (res_provider r) (res_resource_class r) (res_capabilities r)
    (res_capacity r) (res_attributes r) ResourceUnavailable "resource-missing-from-provider"
    "retained only until the active lease is released" (res_links r).

Definition refresh_allocated (previous : gmap string Resource)
    (acc : gmap string Resource * gset string) (resource_id : string)
    : gmap string Resource * gset string :=
  let '(rs, quar) := acc in
  match rs !! resource_id with
  | Some resource =>
      if bool_decide (res_state resource = ResourceReady) then (rs, quar)
      else (rs, {[resource_id]} ∪ quar)
  | None =>
      match previous !! resource_id with
      | Some p => (<[resource_id := mark_missing p]> rs, {[resource_id]} ∪ quar)
      | None => (rs, quar)
      end
  end.

Definition quarantine_unready (rs : gmap string Resource) (quar : gset string) : gset string :=
  foldl (fun q '(resource_id, resource) =>
           if bool_decide (res_state resource = ResourceReady) then q else {[resource_id]} ∪ q)
    quar (btree_iter rs).

Definition refresh_inventory (snapshot : InventorySnapshot) : STE State ProviderError unit :=
  fun st =>
  if (inv_generation snapshot =? 0)%N then
    (st, Err (rm_error "INVENTORY_GENERATION_INVALID"
                "adapter inventory generation must be non-zero"))
  else if (inv_generation snapshot <? generation st)%N then
    (st, Err (rm_error "INVENTORY_GENERATION_REGRESSION"
                ("incoming=" +:+ pretty (inv_generation snapshot) +:+ ", current="
                 +:+ pretty (generation st))))
  else
    let rs := collect_by res_id (inv_resources snapshot) in
    if (inv_generation snapshot =? generation st)%N
       && negb (bool_decide (resources st = ∅)) && negb (bool_decide (resources st = rs))
    then (st, Err (rm_error "INVENTORY_GENERATION_CONFLICT"
                     "adapter changed inventory without advancing generation"))
    else
      let '(rs, quar) :=
        foldl (refresh_allocated (resources st)) (rs, quarantined st) (bset_iter (allocated st)) in
      let quar := quarantine_unready rs quar in
      let quar := filter (fun resource_id => is_Some (rs !! resource_id)) quar in
      (mk_state (inv_generation snapshot) rs (allocated st) quar (leases st) (next_fence_token st),
       Ok tt).

Definition quarantined_resource (reason_code : string) (r : Resource) : Resource :=
  mk_resource (res_identity r) (res_provider r) (res_resource_class r) (res_capabilities r)
    (res_capacity r) (res_attributes r) ResourceUnavailable
    (replace_byte "_" "-" (to_ascii_lowercase reason_code))
    "resource was quarantined by the Kernel authority" (res_links r).

Definition quarantine (resource_id reason_code : string) : STE State ProviderError unit :=
  fun st =>
  match resources st !! resource_id with
  | None => (st, Err (rm_error "RESOURCE_NOT_FOUND" resource_id))
  | Some resource =>
      (mk_state (generation st) (<[resource_id := quarantined_resource reason_code resource]> (resources st))
         (allocated st) ({[resource_id]} ∪ quarantined st) (leases st) (next_fence_token st),
       Ok tt)
  end.

(** [InMemoryResourceManager::is_allocated] (by resource id). *)
Definition resource_is_allocated (resource_id : string) (st : State) : bool :=
  bool_decide (resource_id ∈ allocated st).

Definition inventory (st : State) : InventorySnapshot :=
  mk_inventory (generation st) (btree_values (resources st))
    (mk_node_capabilities (bool_decide (quarantined st = ∅)) [] []).

(** [expire_due_leases]: first the names of the due leases, then one update each. *)
Definition lease_due (now : N) (l : ResourceLease) : bool :=
  bool_decide (rl_state l = Active)
  && is_some_and (fun expires_at => (expires_at <=? now)%N) (rl_expires_at_unix_ms l).

Definition expire_due_leases (now : N) (st : State) : State :=
  let due := (filter (fun p : string * ResourceLease => lease_due now p.2) (btree_iter (leases st))).*1 in
  foldl (fun st name => with_leases (alter (set_state Expired) name) st) st due.

Definition candidate (st : State) (query : ResourceQuery) (resource : Resource) : bool :=
  negb (bool_decide (res_id resource ∈ allocated st))
  && negb (bool_decide (res_id resource ∈ quarantined st))
  && bool_decide (res_state resource = ResourceReady)
  && ResourceQuery_matches query resource.

Definition candidates (st : State) (query : ResourceQuery) : list Resource :=
  take (N.to_nat (query_count query)) (filter (candidate st query) (btree_values (resources st))).

Definition allocation_for (lease_name : string) (resource : Resource) : ResourceAllocation :=
  mk_allocation (lease_name +:+ ":" +:+ res_id resource) (res_identity resource)
    (res_capacity resource) EObserveOnly.

Definition acquire_lease (now now' : N) (request : ResourceRequest)
    : STE State ProviderError ResourceLease :=
  fun st0 =>
  let st := expire_due_leases now st0 in
  if negb (rq_expected_inventory_generation request =? generation st)%N then
    (st, Err (rm_error "STALE_INVENTORY_GENERATION"
                ("request=" +:+ pretty (rq_expected_inventory_generation request)
                 +:+ ", current=" +:+ pretty (generation st))))
  else if bool_decide (is_Some (leases st !! rq_lease_name request)) then
    (st, Err (rm_error "LEASE_ALREADY_EXISTS" (rq_lease_name request)))
  else match ResourceQuery_validate (rq_query request) with
  | Err e => (st, Err (rm_error (ce_reason_code e) (ce_message e)))
  | Ok _ =>
  if is_some_and (fun expires_at => (expires_at <=? now')%N) (rq_expires_at_unix_ms request) then
    (st, Err (rm_error "LEASE_EXPIRY_INVALID" "lease expiry must be in the future"))
  else
    let cands := candidates st (rq_query request) in
    if negb (length cands =? N.to_nat (query_count (rq_query request)))%nat then
      (st, Err (rm_error "INSUFFICIENT_RESOURCES" "no atomic allocation satisfies the request"))
    else
      let fence_token := next_fence_token st in
      let lease :=
        mk_resource_lease (rq_lease_name request) 1 Active (rq_holder request)
          (allocation_for (rq_lease_name request) <$> cands) (generation st) fence_token
          (rq_expires_at_unix_ms request) (rq_limits request) in
      (mk_state (generation st) (resources st)
         (foldl (fun al r => {[res_id r]} ∪ al) (allocated st) cands) (quarantined st)
         (<[rq_lease_name request := lease]> (leases st))
         (u64_saturating_add (next_fence_token st) 1),
       Ok lease)
  end.

(** [state.leases.get(name).ok_or_else(LEASE_NOT_FOUND)] and the fence check the
    fenced methods open with. *)
Definition lookup_lease (lease_name : string) (st : State) : result ProviderError ResourceLease :=
  ok_or (rm_error "LEASE_NOT_FOUND" lease_name) (leases st !! lease_name).

Definition get_lease (now : N) (lease_name : string) : STE State ProviderError ResourceLease :=
  fun st0 =>
  let st := expire_due_leases now st0 in
  (st, lookup_lease lease_name st).

Definition put_lease (lease_name : string) (l : ResourceLease) (st : State) : State :=
  with_leases (<[lease_name := l]>) st.

Definition renew_lease (now : N) (lease_name : string) (fence_token expires_at : N)
    : STE State ProviderError ResourceLease :=
  fun st0 =>
  let st := expire_due_leases now st0 in
  if (expires_at <=? now)%N then
    (st, Err (rm_error "LEASE_EXPIRY_INVALID" "lease renewal expiry must be in the future"))
  else match leases st !! lease_name with
  | None => (st, Err (rm_error "LEASE_NOT_FOUND" lease_name))
  | Some lease =>
      if negb (rl_fence_token lease =? fence_token)%N then
        (st, Err (rm_error "STALE_FENCE_TOKEN" lease_name))
      else if negb (bool_decide (rl_state lease = Active)) then
        (st, Err (rm_error "LEASE_NOT_ACTIVE" lease_name))
      else if is_some_and (fun current => (expires_at <=? current)%N) (rl_expires_at_unix_ms lease) then
        (st, Err (rm_error "LEASE_EXPIRY_REGRESSION"
                    "lease renewal expiry must extend the current expiry"))
      else
        let lease := set_expiry (Some expires_at) lease in
        (put_lease lease_name lease st, Ok lease)
  end.

Definition begin_release (now : N) (lease_name : string) (fence_token : N)
    : STE State ProviderError ResourceLease :=
  fun st0 =>
  let st := expire_due_leases now st0 in
  match leases st !! lease_name with
  | None => (st, Err (rm_error "LEASE_NOT_FOUND" lease_name))
  | Some lease =>
      if negb (rl_fence_token lease =? fence_token)%N then
        (st, Err (rm_error "STALE_FENCE_TOKEN" lease_name))
      else match rl_state lease with
      | Active | Failed =>
          let lease := set_state Releasing lease in
          (put_lease lease_name lease st, Ok lease)
      | Releasing | Released => (st, Ok lease)
      | _ => (st, Err (rm_error "LEASE_NOT_ACTIVE" lease_name))
      end
  end.

(** [for allocation in &allocations { state.allocated.remove(&allocation.resource.id); }] *)
Definition free_allocations (l : ResourceLease) (st : State) : State :=
  with_allocated (fun al => foldl (fun al resource_id => al ∖ {[resource_id]}) al (allocated_ids l)) st.

Definition complete_release (lease_name : string) (fence_token : N)
    : STE State ProviderError ResourceLease :=
  fun st =>
  match leases st !! lease_name with
  | None => (st, Err (rm_error "LEASE_NOT_FOUND" lease_name))
  | Some lease =>
      if negb (rl_fence_token lease =? fence_token)%N then
        (st, Err (rm_error "STALE_FENCE_TOKEN" lease_name))
      else if bool_decide (rl_state lease = Released) then (st, Ok lease)
      else if negb (bool_decide (rl_state lease = Releasing)) then
        (st, Err (rm_error "LEASE_NOT_RELEASING" lease_name))
      else
        let released := set_state Released lease in
        (put_lease lease_name released (free_allocations lease st), Ok released)
  end.

Definition fail_release (lease_name : string) (fence_token : N)
    : STE State ProviderError ResourceLease :=
  fun st =>
  match leases st !! lease_name with
  | None => (st, Err (rm_error "LEASE_NOT_FOUND" lease_name))
  | Some lease =>
      if negb (rl_fence_token lease =? fence_token)%N then
        (st, Err (rm_error "STALE_FENCE_TOKEN" lease_name))
      else if negb (bool_decide (rl_state lease = Releasing))
              && negb (bool_decide (rl_state lease = Failed)) then
        (st, Err (rm_error "LEASE_NOT_RELEASING" lease_name))
      else
        let failed := set_state Failed lease in
        (put_lease lease_name failed st, Ok failed)
  end.

Definition revocable (s : RLeaseState) : bool :=
  match s with Active | Releasing | Expired => true | _ => false end.

Definition revoke (now : N) (lease_name : string) (fence_token : N)
    : STE State ProviderError ResourceLease :=
  fun st0 =>
  let st := expire_due_leases now st0 in
  match leases st !! lease_name with
  | None => (st, Err (rm_error "LEASE_NOT_FOUND" lease_name))
  | Some lease =>
      if negb (rl_fence_token lease =? fence_token)%N then
        (st, Err (rm_error "STALE_FENCE_TOKEN" lease_name))
      else if negb (revocable (rl_state lease)) then
        (st, Err (rm_error "LEASE_NOT_ACTIVE" lease_name))
      else
        let revoked_fence :=
          N.max (next_fence_token st) (u64_saturating_add (rl_fence_token lease) 1) in
        let revoked := set_state Revoked (set_fence revoked_fence lease) in
        (put_lease lease_name revoked (with_next_fence (u64_saturating_add revoked_fence 1) st),
         Ok revoked)
  end.

Definition complete_revocation (lease_name : string) (fence_token : N)
    : STE State ProviderError ResourceLease :=
  fun st =>
  match leases st !! lease_name with
  | None => (st, Err (rm_error "LEASE_NOT_FOUND" lease_name))
  | Some lease =>
      if negb (rl_fence_token lease =? fence_token)%N then
        (st, Err (rm_error "STALE_FENCE_TOKEN" lease_name))
      else if negb (bool_decide (rl_state lease = Revoked)) then
        (st, Err (rm_error "LEASE_NOT_REVOKED" lease_name))
      else (free_allocations lease st, Ok lease)
  end.

Definition list_leases (now : N) (st0 : State) : State * list ResourceLease :=
  let st := expire_due_leases now st0 in
  (st, btree_values (leases st)).

(** [ResourceLeaseManager::is_allocated] (by lease name). *)
Definition is_allocated (lease_name : string) (st : State) : bool :=
  is_some_and (fun lease =>
    existsb (fun a => bool_decide (ident_id (al_resource a) ∈ allocated st)) (rl_allocations lease))
    (leases st !! lease_name).
