(* ===== verification/Ledger.v ===== *)
(** * Ledger invariants of the resource lease manager

    The operations of [ResourceManager] as one labelled transition system:
    the lifecycle of a lease along any interleaving of calls, fence tokens,
    exclusive ownership of resources, and the refinement of an abstract
    ownership map. *)
From stdpp Require Import base gmap strings list sorting pretty.
From Stdlib Require Import Ascii Lia ZifyBool ZifyN.
From S2P Require Import Prelude Validation Contract KernelApi ResourceManager.

(** ** Expiry *)
Definition expire_lease (now : N) (l : ResourceLease) : ResourceLease :=
  if lease_due now l then set_state Expired l else l.

Lemma foldl_alter_lookup {A} (f : A -> A) (names : list string) (m : gmap string A) n :
  (forall a, f (f a) = f a) ->
  foldl (fun m name => alter f name m) m names !! n
  = if decide (n ∈ names) then f <$> m !! n else m !! n.
Proof.
  intros Hf. revert m. induction names as [|x names IH]; intros m.
  { rewrite decide_False by set_solver. done. }
  cbn [foldl]. rewrite IH, lookup_alter. destruct (decide (n = x)) as [->|Hne].
  - rewrite (decide_True (P := x = x)) by done.
    rewrite (decide_True (P := x ∈ x :: names)) by set_solver.
    case_decide; [|done]. destruct (m !! x); simpl; [by rewrite Hf|done].
  - rewrite (decide_False (P := x = n)) by congruence.
    destruct (decide (n ∈ names)); [rewrite decide_True by set_solver|rewrite decide_False by set_solver]; done.
Qed.

Lemma foldl_with_leases (names : list string) f st :
  foldl (fun st name => with_leases (alter f name) st) st names
  = with_leases (fun m => foldl (fun m name => alter f name m) m names) st.
Proof.
  revert st. induction names as [|x names IH]; intros st; simpl; [by destruct st|].
  by rewrite IH.
Qed.

Lemma expire_due_leases_spec now st :
  expire_due_leases now st = with_leases (fmap (expire_lease now)) st.
Proof.
  unfold expire_due_leases. rewrite foldl_with_leases.
  unfold with_leases; f_equal. apply map_eq; intros n.
  rewrite foldl_alter_lookup by done. rewrite lookup_fmap.
  case_decide as Hin.
  - apply list_elem_of_fmap in Hin as ([n' l] & -> & Hin).
    apply list_elem_of_filter in Hin as [Hdue Hin%elem_of_btree_iter].
    simpl in *. rewrite Hin. simpl. unfold expire_lease.
    by destruct (lease_due now l).
  - destruct (leases st !! n) as [l|] eqn:Hl; simpl; [|done].
    unfold expire_lease. destruct (lease_due now l) eqn:Hdue; [|done].
    exfalso. apply Hin. apply list_elem_of_fmap. exists (n, l). split; [done|].
    apply list_elem_of_filter. rewrite elem_of_btree_iter. simpl. by rewrite Hdue.
Qed.

(** ** The manager as a transition system *)
Inductive op :=
| Refresh (snapshot : InventorySnapshot)
| Quarantine (resource_id reason_code : string)
| Acquire (now now' : N) (request : ResourceRequest)
| Get (now : N) (lease_name : string)
| List (now : N)
| Renew (now : N) (lease_name : string) (fence_token expires_at : N)
| BeginRelease (now : N) (lease_name : string) (fence_token : N)
| CompleteRelease (lease_name : string) (fence_token : N)
| FailRelease (lease_name : string) (fence_token : N)
| Revoke (now : N) (lease_name : string) (fence_token : N)
| CompleteRevocation (lease_name : string) (fence_token : N).

Definition exec (o : op) (st : State) : State :=
  match o with
  | Refresh snapshot => (refresh_inventory snapshot st).1
  | Quarantine resource_id reason_code => (quarantine resource_id reason_code st).1
  | Acquire now now' request => (acquire_lease now now' request st).1
  | Get now lease_name => (get_lease now lease_name st).1
  | List now => (list_leases now st).1
  | Renew now lease_name fence_token expires_at => (renew_lease now lease_name fence_token expires_at st).1
  | BeginRelease now lease_name fence_token => (begin_release now lease_name fence_token st).1
  | CompleteRelease lease_name fence_token => (complete_release lease_name fence_token st).1
  | FailRelease lease_name fence_token => (fail_release lease_name fence_token st).1
  | Revoke now lease_name fence_token => (revoke now lease_name fence_token st).1
  | CompleteRevocation lease_name fence_token => (complete_revocation lease_name fence_token st).1
  end.

(** ** Lease lifecycle

    [lease_call l l'] relates a lease before and after one call: identity,
    holder and allocations never change, the fence never decreases, an expiry
    never shortens, and the state moves along the lifecycle. *)
Definition state_step (s s' : RLeaseState) : Prop :=
  match s, s' with
  | Active, (Active | Releasing | Expired | Revoked) => True
  | Releasing, (Releasing | Released | Failed | Revoked) => True
  | Failed, (Failed | Releasing) => True
  | Expired, (Expired | Revoked) => True
  | Released, Released | Revoked, Revoked | Quarantined, Quarantined => True
  | _, _ => False
  end.

Definition expiry_le (e e' : option N) : Prop :=
  match e, e' with
  | _, None => e = None
  | None, Some _ => True
  | Some t, Some t' => (t <= t')%N
  end.

Record lease_call (l l' : ResourceLease) : Prop := {
  lc_name : rl_name l' = rl_name l;
  lc_generation : rl_generation l' = rl_generation l;
  lc_holder : rl_holder l' = rl_holder l;
  lc_allocations : rl_allocations l' = rl_allocations l;
  lc_inventory : rl_inventory_generation l' = rl_inventory_generation l;
  lc_limits : rl_limits l' = rl_limits l;
  lc_fence : (rl_fence_token l <= rl_fence_token l')%N;
  lc_expiry : expiry_le (rl_expires_at_unix_ms l) (rl_expires_at_unix_ms l');
  lc_state : state_step (rl_state l) (rl_state l');
}.

Lemma expiry_le_refl e : expiry_le e e.
Proof. destruct e; simpl; [lia|done]. Qed.
Lemma state_step_refl s : state_step s s.
Proof. by destruct s. Qed.
#[export] Hint Resolve expiry_le_refl state_step_refl : cyrene.

Lemma lease_call_refl l : lease_call l l.
Proof. split; auto with cyrene; lia. Qed.

(** The two shapes of an expired lease. *)
Lemma expire_lease_cases now l :
  expire_lease now l = l \/ (rl_state l = Active /\ expire_lease now l = set_state Expired l).
Proof.
  unfold expire_lease, lease_due.
  destruct (bool_decide_reflect (rl_state l = Active)); simpl; [|by left].
  case_match; auto.
Qed.

Lemma lease_call_expire now l : lease_call l (expire_lease now l).
Proof.
  destruct (expire_lease_cases now l) as [->|[Hs ->]]; [apply lease_call_refl|].
  split; simpl; auto with cyrene; try lia. by rewrite Hs.
Qed.

(** A change of state after expiry is one lifecycle step. *)
Lemma lease_call_set_state now l s :
  state_step (rl_state (expire_lease now l)) s -> lease_call l (set_state s (expire_lease now l)).
Proof.
  destruct (expire_lease_cases now l) as [->|[Hs ->]]; simpl; intros Hstep;
    split; simpl; auto with cyrene; try lia.
  rewrite Hs. by destruct s.
Qed.

Definition calls (m m' : gmap string ResourceLease) : Prop :=
  forall n l, m !! n = Some l -> exists l', m' !! n = Some l' /\ lease_call l l'.

Lemma calls_refl m : calls m m.
Proof. intros n l Hl. eauto using lease_call_refl. Qed.
Lemma calls_expire now st : calls (leases st) (leases (expire_due_leases now st)).
Proof.
  intros n l Hl. rewrite expire_due_leases_spec. simpl. rewrite lookup_fmap, Hl.
  simpl. eauto using lease_call_expire.
Qed.
Lemma calls_insert m m1 n l1 :
  calls m m1 -> (forall l0, m !! n = Some l0 -> lease_call l0 l1) -> calls m (<[n := l1]> m1).
Proof.
  intros Hm Hn k l Hk. destruct (decide (k = n)) as [->|Hne].
  - rewrite lookup_insert_eq. eauto.
  - rewrite lookup_insert_ne by done. eauto.
Qed.
#[export] Hint Resolve calls_refl calls_expire calls_insert lease_call_refl lease_call_expire : cyrene.

Lemma lookup_expire_due now st n :
  leases (expire_due_leases now st) !! n = expire_lease now <$> leases st !! n.
Proof. rewrite expire_due_leases_spec. simpl. apply lookup_fmap. Qed.
Lemma lookup_expire_due_Some now st n l :
  leases (expire_due_leases now st) !! n = Some l ->
  exists l0, leases st !! n = Some l0 /\ l = expire_lease now l0.
Proof. rewrite lookup_expire_due. destruct (leases st !! n); naive_solver. Qed.

Definition fence_bounded (st : State) : Prop :=
  forall n l, leases st !! n = Some l -> (rl_fence_token l <= u64_max)%N.

(** Symbolic execution of a manager method: split on its tests. *)
Ltac found_lease l0 :=
  match goal with
  | H : leases (expire_due_leases _ ?st) !! ?n = Some _, H' : leases ?st !! ?n = Some l0 |- _ =>
      rewrite lookup_expire_due, H' in H; simpl in H; injection H as <-
  | H : leases ?st !! ?n = Some ?l, H' : leases ?st !! ?n = Some l0 |- _ =>
      rewrite H' in H; injection H as <-
  | H : Some _ = Some l0 |- _ => injection H as ->
  end.
Ltac run_method :=
  repeat (first [progress simpl | destruct_match_goal]);
  rewrite ?negb_true_iff, ?negb_false_iff in *;
  rewrite ?bool_decide_eq_true, ?bool_decide_eq_false in *.

Lemma calls_acquire now now' request st :
  calls (leases st) (leases (acquire_lease now now' request st).1).
Proof.
  unfold acquire_lease. run_method; auto with cyrene.
  apply calls_insert; [auto with cyrene|]. intros l0 Hl0.
  match goal with H : ~ is_Some _ |- _ => destruct H end.
  rewrite lookup_expire_due, Hl0. simpl. eauto.
Qed.
Lemma calls_renew now n f e st : calls (leases st) (leases (renew_lease now n f e st).1).
Proof.
  unfold renew_lease. run_method; auto with cyrene.
  apply calls_insert; [auto with cyrene|]. intros l0 Hl0.
  found_lease l0.
  destruct (expire_lease_cases now l0) as [Heq|[Hs Heq]]; rewrite Heq in *; [|done].
  split; simpl; auto with cyrene; try lia.
  destruct (rl_expires_at_unix_ms l0); simpl in *; [|done]. lia.
Qed.
Lemma calls_begin now n f st : calls (leases st) (leases (begin_release now n f st).1).
Proof.
  unfold begin_release. run_method; auto with cyrene;
  (apply calls_insert; [auto with cyrene|]); intros l0 Hl0;
  found_lease l0; apply lease_call_set_state;
  match goal with H : rl_state _ = _ |- _ => by rewrite H end.
Qed.
Lemma lease_call_plain l s : state_step (rl_state l) s -> lease_call l (set_state s l).
Proof. intros. split; simpl; auto with cyrene; lia. Qed.
Lemma calls_complete n f st : calls (leases st) (leases (complete_release n f st).1).
Proof.
  unfold complete_release. run_method; auto with cyrene.
  apply calls_insert; [auto with cyrene|]. intros l0 Hl0. found_lease l0.
  apply lease_call_plain. match goal with H : rl_state _ = Releasing |- _ => by rewrite H end.
Qed.
Lemma calls_fail n f st : calls (leases st) (leases (fail_release n f st).1).
Proof.
  unfold fail_release. run_method; auto with cyrene.
  apply calls_insert; [auto with cyrene|]. intros l0 Hl0. found_lease l0.
  apply lease_call_plain. rewrite andb_false_iff, !negb_false_iff, !bool_decide_eq_true in *.
  by destruct E1 as [-> | ->].
Qed.
Lemma calls_revoke now n f st :
  fence_bounded st -> calls (leases st) (leases (revoke now n f st).1).
Proof.
  intros Hb. unfold revoke. run_method; auto with cyrene.
  apply calls_insert; [auto with cyrene|]. intros l0 Hl0. found_lease l0.
  specialize (Hb _ _ Hl0).
  assert (state_step (rl_state (expire_lease now l0)) Revoked) as Hs.
  { by destruct (rl_state (expire_lease now l0)). }
  apply lease_call_set_state in Hs as [????????]. split; simpl in *; auto.
  unfold u64_saturating_add. destruct (expire_lease_cases now l0) as [Heq|[_ Heq]];
    rewrite Heq; simpl; lia.
Qed.

Lemma calls_exec o st : fence_bounded st -> calls (leases st) (leases (exec o st)).
Proof.
  intros Hb. destruct o; simpl.
  - unfold refresh_inventory. run_method; auto with cyrene.
  - unfold quarantine. run_method; auto with cyrene.
  - apply calls_acquire.
  - apply calls_expire.
  - apply calls_expire.
  - apply calls_renew.
  - apply calls_begin.
  - apply calls_complete.
  - apply calls_fail.
  - by apply calls_revoke.
  - unfold complete_revocation. run_method; auto with cyrene.
Qed.

(** ** Fence tokens *)
Definition fences (st : State) : gmap string N := rl_fence_token <$> leases st.

(** Tokens are 64-bit numbers at or above the floor the ledger was created with
    and below the next one to be issued, and two leases never share a token, as
    long as the 64-bit sequence has not been exhausted (it saturates at
    [u64_max]). *)
Record fence_table (floor : N) (fs : gmap string N) (next : N) : Prop := {
  ft_next : (1 <= floor <= next /\ next <= u64_max)%N;
  ft_range : forall n f, fs !! n = Some f -> (floor <= f <= u64_max)%N;
  ft_below : forall n f, fs !! n = Some f -> (f < next)%N \/ next = u64_max;
  ft_unique : forall n m f, n <> m -> fs !! n = Some f -> fs !! m = Some f -> f = u64_max;
}.
Definition fence_inv (floor : N) (st : State) : Prop :=
  fence_table floor (fences st) (next_fence_token st).

Lemma fence_inv_bounded k st : fence_inv k st -> fence_bounded st.
Proof.
  intros Hf n l Hl. eapply (ft_range _ _ _ Hf n). unfold fences. by rewrite lookup_fmap, Hl.
Qed.

Lemma fences_expire now st : fences (expire_due_leases now st) = fences st.
Proof.
  unfold fences. apply map_eq. intros n. rewrite !lookup_fmap, lookup_expire_due.
  destruct (leases st !! n) as [l|]; simpl; [|done].
  by destruct (expire_lease_cases now l) as [->|[_ ->]].
Qed.
Lemma next_expire now st : next_fence_token (expire_due_leases now st) = next_fence_token st.
Proof. by rewrite expire_due_leases_spec. Qed.
Lemma fences_put st n l l' :
  leases st !! n = Some l -> rl_fence_token l' = rl_fence_token l ->
  fences (put_lease n l' st) = fences st.
Proof.
  intros Hl Hf. unfold fences. simpl. rewrite fmap_insert, Hf. apply insert_id.
  by rewrite lookup_fmap, Hl.
Qed.

(** Issuing the next token to a new or an existing lease. *)
Lemma fence_table_issue k fs next n :
  fence_table k fs next -> fence_table k (<[n := next]> fs) (u64_saturating_add next 1).
Proof.
  intros [Hn Hr Hb Hu]. unfold u64_saturating_add.
  assert (forall m f, <[n := next]> fs !! m = Some f ->
            (m = n /\ f = next) \/ (m <> n /\ fs !! m = Some f)) as Hcase.
  { intros m f. destruct (decide (m = n)) as [->|]; [rewrite lookup_insert_eq|rewrite lookup_insert_ne by done];
      naive_solver. }
  split.
  - lia.
  - intros m f [[-> ->]|[_ Hm]]%Hcase; [lia|eauto].
  - intros m f [[-> ->]|[_ Hm]]%Hcase; [lia|]. destruct (Hb _ _ Hm); lia.
  - intros m m' f Hne [[-> ->]|[_ Hm]]%Hcase [[-> ?]|[_ Hm']]%Hcase; subst; try done.
    + destruct (Hb _ _ Hm'); lia.
    + destruct (Hb _ _ Hm); lia.
    + eauto.
Qed.

(** The token a revocation moves to is the next token of the sequence. *)
Lemma revoked_fence_next k fs next n f :
  fence_table k fs next -> fs !! n = Some f -> N.max next (u64_saturating_add f 1) = next.
Proof.
  intros [Hn Hr Hb _] Hf. specialize (Hr _ _ Hf). specialize (Hb _ _ Hf).
  unfold u64_saturating_add. lia.
Qed.

Lemma fence_inv_same k st st' :
  fences st' = fences st -> next_fence_token st' = next_fence_token st ->
  fence_inv k st -> fence_inv k st'.
Proof. unfold fence_inv. by intros -> ->. Qed.
Lemma fence_inv_expire k now st : fence_inv k st -> fence_inv k (expire_due_leases now st).
Proof. apply fence_inv_same; [apply fences_expire|apply next_expire]. Qed.
Lemma fence_inv_put k st n l l' :
  leases st !! n = Some l -> rl_fence_token l' = rl_fence_token l ->
  fence_inv k st -> fence_inv k (put_lease n l' st).
Proof. intros. eapply fence_inv_same; [by eapply fences_put|done|done]. Qed.
#[export] Hint Resolve fence_inv_expire fence_inv_put : cyrene.

Lemma fence_inv_revoke k now n f st : fence_inv k st -> fence_inv k (revoke now n f st).1.
Proof.
  intros Hi%(fence_inv_expire k now). unfold revoke. run_method; auto with cyrene.
  assert (fences (expire_due_leases now st) !! n = Some (rl_fence_token r)) as Hf.
  { unfold fences. by rewrite lookup_fmap, E. }
  rewrite (revoked_fence_next _ _ _ _ _ Hi Hf).
  unfold fence_inv, fences. simpl. rewrite fmap_insert. by apply fence_table_issue.
Qed.
Lemma fence_inv_acquire k now now' request st :
  fence_inv k st -> fence_inv k (acquire_lease now now' request st).1.
Proof.
  intros Hi%(fence_inv_expire k now). unfold acquire_lease. run_method; auto with cyrene.
  unfold fence_inv, fences. simpl. rewrite fmap_insert. by apply fence_table_issue.
Qed.

Lemma fence_inv_exec k o st : fence_inv k st -> fence_inv k (exec o st).
Proof.
  intros Hi. destruct o; simpl; auto with cyrene.
  - unfold refresh_inventory. run_method; auto with cyrene.
  - unfold quarantine. run_method; auto with cyrene.
  - by apply fence_inv_acquire.
  - unfold renew_lease. run_method; eauto with cyrene.
  - unfold begin_release. run_method; eauto with cyrene.
  - unfold complete_release. run_method; eauto with cyrene.
  - unfold fail_release. run_method; eauto with cyrene.
  - by apply fence_inv_revoke.
  - unfold complete_revocation. run_method; auto with cyrene.
Qed.

(** Any interleaving of calls. *)
Definition run (os : list op) (st : State) : State := foldl (fun st o => exec o st) st os.

Lemma run_invariant (P : State -> Prop) os st :
  (forall o st, P st -> P (exec o st)) -> P st -> P (run os st).
Proof. intros Hstep. revert st. induction os; simpl; eauto. Qed.

Lemma fence_inv_initial rs next :
  (next <= u64_max)%N -> fence_inv (N.max next 1) (with_next_fence_token rs next).
Proof.
  intros Hn. unfold fence_inv, fences. simpl. rewrite fmap_empty.
  split; [unfold u64_max in *; lia|intros ??; rewrite lookup_empty; done..].
Qed.


(** C4: along any interleaving of calls on a ledger created with a fence floor,
    every token lies between the floor and [u64_max], and two leases share a
    token only after the 64-bit sequence is exhausted. *)
Theorem fences_unique_above_floor rs next os :
  (next <= u64_max)%N ->
  let st := run os (with_next_fence_token rs next) in
  (forall n l, leases st !! n = Some l -> (N.max next 1 <= rl_fence_token l <= u64_max)%N) /\
  (forall n m l l', n <> m -> leases st !! n = Some l -> leases st !! m = Some l' ->
     rl_fence_token l = rl_fence_token l' -> rl_fence_token l = u64_max).
Proof.
  intros Hn st.
  assert (fence_inv (N.max next 1) st) as [_ Hr _ Hu].
  { apply (run_invariant (fence_inv (N.max next 1))); [by intros; apply fence_inv_exec|].
    by apply fence_inv_initial. }
  unfold fences in *. split.
  - intros n l Hl. apply (Hr n). by rewrite lookup_fmap, Hl.
  - intros n m l l' Hne Hl Hl' Heq. apply (Hu n m _ Hne).
    + by rewrite lookup_fmap, Hl.
    + by rewrite lookup_fmap, Hl', Heq.
Qed.

(** ** Lease histories *)
Lemma fence_inv_run k os st : fence_inv k st -> fence_inv k (run os st).
Proof. apply run_invariant. intros; by apply fence_inv_exec. Qed.

Lemma calls_run k os st (n : string) (l : ResourceLease) :
  fence_inv k st -> leases st !! n = Some l ->
  exists l', leases (run os st) !! n = Some l' /\ rtc lease_call l l' /\
    (rl_state l = Released \/ rl_state l = Revoked -> rl_state l' = rl_state l).
Proof.
  revert st l. induction os as [|o os IH]; intros st l Hi Hl; simpl; [eauto using rtc_refl|].
  destruct (calls_exec o st (fence_inv_bounded _ _ Hi) n l Hl) as (l1 & Hl1 & Hc).
  destruct (IH _ l1 (fence_inv_exec _ o st Hi) Hl1) as (l2 & Hl2 & Hrtc & Hfin).
  exists l2. split_and!; [done|by eapply rtc_l|].
  pose proof (lc_state _ _ Hc) as Hs. intros Hst.
  assert (rl_state l1 = rl_state l) as Heq.
  { destruct Hst as [Hst|Hst]; rewrite Hst in Hs |- *; by destruct (rl_state l1). }
  rewrite <-Heq in Hst |- *. auto.
Qed.

(** C5: along any sequence of calls on a new ledger, every lease that the
    ledger ever recorded stays in it with the same name, generation, holder,
    allocations, inventory generation and limits; its fence does not decrease,
    its expiry does not shorten, and each call moves its state along the
    lifecycle, in which released and revoked are final. *)
Theorem lease_lifecycle rs next os os' (n : string) (l : ResourceLease) :
  (next <= u64_max)%N ->
  leases (run os (with_next_fence_token rs next)) !! n = Some l ->
  exists l' : ResourceLease, leases (run (os ++ os')%list (with_next_fence_token rs next)) !! n = Some l' /\
    rtc lease_call l l' /\
    (rl_state l = Released \/ rl_state l = Revoked -> rl_state l' = rl_state l).
Proof.
  intros Hn Hl. unfold run in *. rewrite foldl_app. eapply calls_run; [|exact Hl].
  apply fence_inv_run. by apply fence_inv_initial.
Qed.
