(* ===== verification/Ownership.v ===== *)
(** * Exclusive ownership

    Which lease owns which resource.  A lease owns its allocations while it is
    active, releasing, expired or failed, and after a revocation until the
    runtime has confirmed the cleanup.  Under one confirmation per revocation
    the ledger allocates exclusively and refines an abstract ownership map; a
    repeated confirmation breaks exclusivity. *)
From stdpp Require Import base gmap strings list sorting pretty.
From Stdlib Require Import Ascii Lia ZifyBool ZifyN.
From S2P Require Import Prelude Validation Contract KernelApi ResourceManager Ledger.

Definition held (s : RLeaseState) : bool :=
  match s with Active | Releasing | Expired | Failed => true | _ => false end.

(** [c] holds the names of the leases whose revocation cleanup was confirmed. *)
Definition owns (c : gset string) (n : string) (s : RLeaseState) : bool :=
  held s || (bool_decide (s = Revoked) && bool_decide (n ∉ c)).

Definition owned_table (c : gset string) (m : gmap string ResourceLease) : gmap string (list string) :=
  map_imap (fun n l => if owns c n (rl_state l) then Some (allocated_ids l) else None) m.

(** ** The abstract ledger: an ownership table and the set of taken resources *)
Record own_table (t : gmap string (list string)) (al : gset string) : Prop := {
  ot_taken : forall n ids r, t !! n = Some ids -> r ∈ ids -> r ∈ al;
  ot_exclusive : forall n m ids ids' r,
    t !! n = Some ids -> t !! m = Some ids' -> r ∈ ids -> r ∈ ids' -> n = m;
  ot_cover : forall r, r ∈ al -> exists n ids, t !! n = Some ids /\ r ∈ ids;
}.

Lemma own_table_grant t al n ids :
  own_table t al -> t !! n = None -> (forall r, r ∈ ids -> r ∉ al) ->
  own_table (<[n := ids]> t) (list_to_set ids ∪ al).
Proof.
  intros [Ht He Hc] Hn Hids.
  assert (forall m js, <[n := ids]> t !! m = Some js -> (m = n /\ js = ids) \/ (m <> n /\ t !! m = Some js)) as Hcase.
  { intros m js. destruct (decide (m = n)) as [->|];
      [rewrite lookup_insert_eq|rewrite lookup_insert_ne by done]; naive_solver. }
  split.
  - intros m js r [[-> ->]|[_ Hm]]%Hcase Hr; [set_solver|]. specialize (Ht _ _ _ Hm Hr). set_solver.
  - intros m m' js js' r [[-> ->]|[_ Hm]]%Hcase [[-> ->]|[_ Hm']]%Hcase Hr Hr'; eauto.
    + by destruct (Hids _ Hr); eauto.
    + by destruct (Hids _ Hr'); eauto.
  - intros r [Hr%elem_of_list_to_set|Hr]%elem_of_union.
    + exists n, ids. by rewrite lookup_insert_eq.
    + destruct (Hc _ Hr) as (m & js & Hm & Hin). exists m, js.
      rewrite lookup_insert_ne; [done|congruence].
Qed.

Lemma own_table_free t al n ids :
  own_table t al -> t !! n = Some ids -> own_table (delete n t) (al ∖ list_to_set ids).
Proof.
  intros [Ht He Hc] Hn.
  assert (forall m js, delete n t !! m = Some js -> m <> n /\ t !! m = Some js) as Hcase.
  { intros m js. destruct (decide (m = n)) as [->|];
      [rewrite lookup_delete_eq|rewrite lookup_delete_ne by done]; naive_solver. }
  split.
  - intros m js r [Hne Hm]%Hcase Hr. apply elem_of_difference. split; [eauto|].
    rewrite elem_of_list_to_set. intros Hr'. destruct Hne; eauto.
  - intros m m' js js' r [_ Hm]%Hcase [_ Hm']%Hcase; eauto.
  - intros r [Hr Hni]%elem_of_difference. destruct (Hc _ Hr) as (m & js & Hm & Hin).
    exists m, js. rewrite lookup_delete_ne; [done|]. intros ->. set_solver.
Qed.

(** ** Ownership under the manager's updates *)
Section owned_table.
Context (c : gset string).
Implicit Types (m : gmap string ResourceLease) (l : ResourceLease).

Lemma owned_table_lookup m n :
    owned_table c m !! n
    = (m !! n) ≫= (fun l => if owns c n (rl_state l) then Some (allocated_ids l) else None).
Proof. unfold owned_table. apply map_lookup_imap. Qed.

Lemma owned_table_expire now st :
    owned_table c (leases (expire_due_leases now st)) = owned_table c (leases st).
Proof.
  apply map_eq. intros n. rewrite !owned_table_lookup, lookup_expire_due.
  destruct (leases st !! n) as [l|]; simpl; [|done].
  destruct (expire_lease_cases now l) as [->|[Hs ->]]; [done|]. simpl. by rewrite Hs.
Qed.
Lemma owned_table_put m n l l' :
    m !! n = Some l -> owns c n (rl_state l') = owns c n (rl_state l) ->
    rl_allocations l' = rl_allocations l ->
    owned_table c (<[n := l']> m) = owned_table c m.
Proof.
  intros Hl Ho Ha. apply map_eq. intros k. rewrite !owned_table_lookup.
  destruct (decide (k = n)) as [->|Hne].
  - rewrite lookup_insert_eq, Hl. simpl. unfold allocated_ids. by rewrite Ho, Ha.
  - by rewrite lookup_insert_ne.
Qed.
Lemma owned_table_grant m n l :
    owns c n (rl_state l) = true ->
    owned_table c (<[n := l]> m) = <[n := allocated_ids l]> (owned_table c m).
Proof.
  intros Ho. apply map_eq. intros k. rewrite owned_table_lookup.
  destruct (decide (k = n)) as [->|Hne].
  - rewrite !lookup_insert_eq. simpl. by rewrite Ho.
  - by rewrite !lookup_insert_ne, owned_table_lookup by done.
Qed.
Lemma owned_table_release m n l l' :
    m !! n = Some l -> owns c n (rl_state l') = false ->
    owned_table c (<[n := l']> m) = delete n (owned_table c m).
Proof.
  intros Hl Ho. apply map_eq. intros k. rewrite !owned_table_lookup.
  destruct (decide (k = n)) as [->|Hne].
  - rewrite lookup_insert_eq, lookup_delete_eq. simpl. by rewrite Ho.
  - rewrite lookup_insert_ne, lookup_delete_ne by done. by rewrite owned_table_lookup.
Qed.
End owned_table.

Lemma owned_table_confirm c (m : gmap string ResourceLease) n l :
  m !! n = Some l -> rl_state l = Revoked ->
  owned_table ({[n]} ∪ c) m = delete n (owned_table c m).
Proof.
  intros Hl Hs. apply map_eq. intros k. rewrite owned_table_lookup.
  destruct (decide (k = n)) as [->|Hne].
  - rewrite lookup_delete_eq, Hl. simpl. rewrite Hs. unfold owns. simpl.
    by rewrite bool_decide_eq_false_2 by set_solver.
  - rewrite lookup_delete_ne, owned_table_lookup by done.
    destruct (m !! k) as [lk|]; simpl; [|done]. unfold owns.
    by rewrite (bool_decide_ext (k ∉ {[n]} ∪ c) (k ∉ c)) by set_solver.
Qed.

Lemma foldl_insert_ids (cands : list Resource) (al : gset string) :
  foldl (fun al r => {[res_id r]} ∪ al) al cands = list_to_set (res_id <$> cands) ∪ al.
Proof.
  revert al. induction cands as [|r cands IH]; intros al; simpl; [set_solver|].
  rewrite IH. set_solver.
Qed.
Lemma foldl_remove_ids (ids : list string) (al : gset string) :
  foldl (fun al i => al ∖ {[i]}) al ids = al ∖ list_to_set ids.
Proof.
  revert al. induction ids as [|i ids IH]; intros al; simpl; [set_solver|].
  rewrite IH. set_solver.
Qed.
Lemma allocated_ids_new name (cands : list Resource) :
  (fun a => ident_id (al_resource a)) <$> (allocation_for name <$> cands) = res_id <$> cands.
Proof. by rewrite <-list_fmap_compose. Qed.

Lemma elem_of_candidates st q r :
  r ∈ candidates st q ->
  candidate st q r = true /\ exists k, resources st !! k = Some r.
Proof.
  unfold candidates. intros Hr.
  assert (r ∈ filter (candidate st q) (btree_values (resources st))) as Hf.
  { rewrite <-(take_drop (N.to_nat (query_count q))). apply elem_of_app. by left. }
  apply list_elem_of_filter in Hf as [Hc Hin]. rewrite elem_of_btree_values in Hin.
  by apply Is_true_eq_true in Hc.
Qed.

Lemma candidate_ids_free st q i :
  i ∈ (res_id <$> candidates st q) -> i ∉ allocated st.
Proof.
  intros (r & -> & (Hcand & _)%elem_of_candidates)%list_elem_of_fmap.
  unfold candidate in Hcand. rewrite !andb_true_iff, !negb_true_iff, bool_decide_eq_false in Hcand.
  apply Hcand.
Qed.

(** ** The ledger invariant *)
Record ledger_inv (st : State) (c : gset string) : Prop := {
  li_own : own_table (owned_table c (leases st)) (allocated st);
  li_confirmed : forall n, n ∈ c -> exists l, leases st !! n = Some l /\ rl_state l = Revoked;
  li_keys : forall k r, resources st !! k = Some r -> res_id r = k;
  li_retained : forall r, r ∈ allocated st -> is_Some (resources st !! r);
}.

(** A call that leaves resources, taken set and ownership alone. *)
Lemma ledger_inv_quiet st st' c :
  resources st' = resources st -> allocated st' = allocated st ->
  owned_table c (leases st') = owned_table c (leases st) ->
  calls (leases st) (leases st') ->
  ledger_inv st c -> ledger_inv st' c.
Proof.
  intros Hr Ha Ht Hcalls [Hown Hconf Hkeys Hret]. split; rewrite ?Hr, ?Ha, ?Ht; try done.
  intros n (l & Hl & Hs)%Hconf. destruct (Hcalls _ _ Hl) as (l' & Hl' & Hcall).
  exists l'. split; [done|]. pose proof (lc_state _ _ Hcall) as Hst. rewrite Hs in Hst.
  by destruct (rl_state l').
Qed.

Lemma ledger_inv_expire now st c : ledger_inv st c -> ledger_inv (expire_due_leases now st) c.
Proof.
  apply ledger_inv_quiet; [by rewrite expire_due_leases_spec..|apply owned_table_expire|apply calls_expire].
Qed.
#[export] Hint Resolve ledger_inv_expire : cyrene.

Lemma ledger_inv_put st c n l l' :
  leases st !! n = Some l -> lease_call l l' -> owns c n (rl_state l') = owns c n (rl_state l) ->
  ledger_inv st c -> ledger_inv (put_lease n l' st) c.
Proof.
  intros Hl Hcall Ho. apply ledger_inv_quiet; [done..| |].
  - simpl. eapply owned_table_put; [done|done|apply Hcall].
  - apply calls_insert; [apply calls_refl|]. by intros l0 [= <-]%(eq_trans (eq_sym Hl)).
Qed.

Lemma not_confirmed st c n l :
  ledger_inv st c -> leases st !! n = Some l -> rl_state l <> Revoked -> n ∉ c.
Proof. intros Hi Hl Hs Hn. destruct (li_confirmed _ _ Hi _ Hn) as (l' & Hl' & ?). congruence. Qed.

Lemma ledger_inv_with_next f st c : ledger_inv st c -> ledger_inv (with_next_fence f st) c.
Proof. intros []. by split. Qed.

Lemma ledger_inv_revoke now n f st c :
  fence_bounded st -> ledger_inv st c -> ledger_inv (revoke now n f st).1 c.
Proof.
  intros Hb Hi. pose proof (calls_revoke now n f st Hb) as Hcalls. revert Hcalls.
  unfold revoke. apply (ledger_inv_expire now) in Hi. run_method; auto. intros _.
  eapply (ledger_inv_put (with_next_fence _ _)).
  - exact E.
  - assert (rl_fence_token r <= u64_max)%N as Hr.
    { apply lookup_expire_due_Some in E as (l0 & Hl0 & ->).
      pose proof (lc_fence _ _ (lease_call_expire now l0)). specialize (Hb _ _ Hl0).
      destruct (expire_lease_cases now l0) as [->|[_ ->]]; done. }
    split; simpl; auto with cyrene; [unfold u64_saturating_add; lia|].
    by destruct (rl_state r).
  - simpl. unfold owns. simpl. rewrite bool_decide_eq_true_2.
    + by destruct (rl_state r).
    + eapply not_confirmed; [exact Hi|exact E|]. by intros Hr; rewrite Hr in *.
  - by apply ledger_inv_with_next.
Qed.

Lemma ledger_inv_acquire now now' request st c :
  ledger_inv st c -> ledger_inv (acquire_lease now now' request st).1 c.
Proof.
  intros Hi%(ledger_inv_expire now). unfold acquire_lease. run_method; auto.
  set (st1 := expire_due_leases now st) in *. set (cands := candidates _ _) in *.
  destruct Hi as [Hown Hconf Hkeys Hret].
  assert (leases st1 !! rq_lease_name request = None) as Hfresh by (by apply eq_None_not_Some).
  split; simpl.
  - rewrite foldl_insert_ids, owned_table_grant by done. unfold allocated_ids. simpl.
    rewrite allocated_ids_new. apply own_table_grant; [done| |apply candidate_ids_free].
    by rewrite owned_table_lookup, Hfresh.
  - intros n (l & Hl & Hs)%Hconf. exists l. rewrite lookup_insert_ne; [done|congruence].
  - done.
  - intros i. rewrite foldl_insert_ids. intros [Hi%elem_of_list_to_set|Hi]%elem_of_union; [|auto].
    apply list_elem_of_fmap in Hi as (r & -> & (_ & k & Hk)%elem_of_candidates).
    rewrite <-(Hkeys _ _ Hk) in Hk. eauto.
Qed.

Lemma ledger_inv_free st c n l :
  ledger_inv st c -> leases st !! n = Some l -> owns c n (rl_state l) = true ->
  forall c' m', owned_table c' m' = delete n (owned_table c (leases st)) ->
  (forall k, k ∈ c' -> exists l', m' !! k = Some l' /\ rl_state l' = Revoked) ->
  ledger_inv (with_leases (fun _ => m') (free_allocations l st)) c'.
Proof.
  intros [Hown Hconf Hkeys Hret] Hl Ho c' m' Ht Hc'. split; simpl; try done.
  - rewrite foldl_remove_ids, Ht. eapply own_table_free; [done|].
    rewrite owned_table_lookup, Hl. simpl. by rewrite Ho.
  - intros r. rewrite foldl_remove_ids. set_solver.
Qed.

Lemma ledger_inv_complete n f st c : ledger_inv st c -> ledger_inv (complete_release n f st).1 c.
Proof.
  intros Hi. unfold complete_release. run_method; auto.
  assert (n ∉ c) as Hn by (eapply not_confirmed; [done|done|congruence]).
  apply (ledger_inv_free _ _ _ _ Hi E) with (m' := <[n := set_state Released r]> (leases st)).
  - match goal with H : rl_state r = Releasing |- _ => by rewrite H end.
  - by eapply owned_table_release.
  - intros k Hk. destruct (li_confirmed _ _ Hi _ Hk) as (l' & Hl' & ?). exists l'.
    rewrite lookup_insert_ne; [done|congruence].
Qed.

(** The set of confirmed revocations after a call of [complete_revocation]. *)
Definition confirm (n : string) (f : N) (st : State) (c : gset string) : gset string :=
  if is_ok (complete_revocation n f st).2 then {[n]} ∪ c else c.

Lemma ledger_inv_confirm n f st c :
  n ∉ c -> ledger_inv st c -> ledger_inv (complete_revocation n f st).1 (confirm n f st c).
Proof.
  intros Hn Hi. unfold confirm, complete_revocation. run_method; auto.
  match goal with H : rl_state r = Revoked |- _ => rename H into Hs end.
  apply (ledger_inv_free _ _ _ _ Hi E) with (m' := leases st).
  - unfold owns. rewrite Hs. simpl. by rewrite bool_decide_eq_true_2.
  - by eapply owned_table_confirm.
  - intros k [->%elem_of_singleton|Hk]%elem_of_union; [eauto|]. by apply (li_confirmed _ _ Hi).
Qed.

(** *** Inventory refresh *)
Lemma refresh_allocated_one previous rs q i rs1 q1 :
  refresh_allocated previous (rs, q) i = (rs1, q1) ->
  (forall k, is_Some (rs !! k) -> rs1 !! k = rs !! k) /\
  (is_Some (previous !! i) -> is_Some (rs1 !! i)) /\
  (forall k r, rs1 !! k = Some r -> rs !! k = Some r \/
     (rs !! k = None /\ k = i /\ exists p, previous !! k = Some p /\ r = mark_missing p)).
Proof.
  unfold refresh_allocated. destruct (rs !! i) as [ri|] eqn:Hi.
  { case_match; intros [= <- <-]; (split_and!; [done|by rewrite Hi; eauto|by left]). }
  destruct (previous !! i) as [p|] eqn:Hp; intros [= <- <-]; [|split_and!; [done|by intros []|by left]].
  split_and!.
  - intros k Hk. rewrite lookup_insert_ne; [done|]. intros <-. rewrite Hi in Hk. by destruct Hk.
  - rewrite lookup_insert_eq. eauto.
  - intros k r. destruct (decide (k = i)) as [->|Hne].
    + rewrite lookup_insert_eq. intros [= <-]. right. eauto.
    + rewrite lookup_insert_ne by done. by left.
Qed.

Lemma refresh_allocated_spec previous ids rs q rs' q' :
  foldl (refresh_allocated previous) (rs, q) ids = (rs', q') ->
  (forall k, is_Some (rs !! k) -> rs' !! k = rs !! k) /\
  (forall k, k ∈ ids -> is_Some (previous !! k) -> is_Some (rs' !! k)) /\
  (forall k r, rs' !! k = Some r ->
     rs !! k = Some r \/ (rs !! k = None /\ k ∈ ids /\ exists p, previous !! k = Some p /\ r = mark_missing p)).
Proof.
  revert rs q. induction ids as [|i ids IH]; intros rs q; cbn [foldl].
  { intros [= <- <-]. split_and!; [done|set_solver|by left]. }
  destruct (refresh_allocated previous (rs, q) i) as [rs1 q1] eqn:Hacc.
  apply refresh_allocated_one in Hacc as (Ha1 & Ha2 & Ha3).
  intros (H1 & H2 & H3)%IH. split_and!.
  - intros k Hk. rewrite H1, Ha1; [done|done|by rewrite Ha1].
  - intros k Hk%elem_of_cons Hp. destruct (decide (k = i)) as [->|Hne].
    + rewrite H1; auto.
    + apply H2; naive_solver.
  - intros k r [Hk|(Hn & Hin & p & Hp & ->)]%H3.
    + destruct (Ha3 _ _ Hk) as [?|(? & -> & ?)]; [by left|right; set_solver].
    + right. split_and!; [|set_solver|eauto]. destruct (rs !! k) eqn:Hrk; [|done].
      rewrite Ha1 in Hn by eauto. congruence.
Qed.

Lemma ledger_inv_refresh snapshot st c :
  ledger_inv st c -> ledger_inv (refresh_inventory snapshot st).1 c.
Proof.
  intros Hi. unfold refresh_inventory. do 3 (case_match; [done|]).
  destruct (foldl _ _ _) as [rs q] eqn:Hf. destruct Hi as [Hown Hconf Hkeys Hret].
  apply refresh_allocated_spec in Hf as (_ & H2 & H3). split; simpl in *; try done.
  - intros k r [Hk|(_ & _ & p & Hp & ->)]%H3; [by apply collect_by_key in Hk as [? _]|].
    by apply Hkeys in Hp.
  - intros r Hr. apply H2; [by apply elem_of_bset_iter|auto].
Qed.

Lemma ledger_inv_quarantine resource_id reason st c :
  ledger_inv st c -> ledger_inv (quarantine resource_id reason st).1 c.
Proof.
  intros Hi. unfold quarantine. run_method; [|done]. destruct Hi as [Hown Hconf Hkeys Hret].
  split; simpl; try done.
  - intros k r'. destruct (decide (k = resource_id)) as [->|Hne].
    + rewrite lookup_insert_eq. intros [= <-]. by apply Hkeys in E.
    + rewrite lookup_insert_ne by done. apply Hkeys.
  - intros k Hk. apply Hret in Hk. destruct (decide (k = resource_id)) as [->|Hne].
    + rewrite lookup_insert_eq. eauto.
    + by rewrite lookup_insert_ne.
Qed.

Lemma ledger_inv_initial rs next : ledger_inv (with_next_fence_token rs next) ∅.
Proof.
  split; simpl; try set_solver.
  - unfold owned_table. rewrite map_imap_empty. split; set_solver.
  - intros k r Hk. by apply collect_by_key in Hk as [? _].
Qed.

(** ** Interleavings with one confirmation per revocation *)
Definition confirms (o : op) : bool :=
  match o with CompleteRevocation _ _ => true | _ => false end.

Inductive ledger_step : State * gset string -> State * gset string -> Prop :=
| step_call o st c : confirms o = false -> ledger_step (st, c) (exec o st, c)
| step_confirm n f st c :
    n ∉ c -> ledger_step (st, c) (exec (CompleteRevocation n f) st, confirm n f st c).

Lemma ledger_inv_call o st c :
  fence_bounded st -> confirms o = false -> ledger_inv st c -> ledger_inv (exec o st) c.
Proof.
  intros Hb Ho Hi. destruct o; simpl in *; try done; auto with cyrene.
  - by apply ledger_inv_refresh.
  - by apply ledger_inv_quarantine.
  - by apply ledger_inv_acquire.
  - pose proof (calls_renew now lease_name fence_token expires_at st) as Hc. revert Hc.
    unfold renew_lease. apply (ledger_inv_expire now) in Hi. run_method; auto. intros _.
    eapply ledger_inv_put; [exact E0| |done|done].
    split; simpl; auto with cyrene; try lia.
    destruct (rl_expires_at_unix_ms r); simpl in *; [lia|done].
  - unfold begin_release. apply (ledger_inv_expire now) in Hi. run_method; auto;
      (eapply ledger_inv_put; [exact E|apply lease_call_plain|..|done]);
      match goal with H : rl_state _ = _ |- _ => by rewrite H end.
  - by apply ledger_inv_complete.
  - unfold fail_release. run_method; auto.
    rewrite andb_false_iff, !negb_false_iff, !bool_decide_eq_true in *.
    eapply ledger_inv_put; [exact E|apply lease_call_plain| |done]; by destruct E1 as [-> | ->].
  - by apply ledger_inv_revoke.
Qed.

Lemma ledger_step_inv k g g' :
  ledger_step g g' -> fence_inv k g.1 /\ ledger_inv g.1 g.2 -> fence_inv k g'.1 /\ ledger_inv g'.1 g'.2.
Proof.
  intros [o st c Ho|n f st c Hn] [Hf Hi]; cbn [fst snd] in *; (split; [by apply fence_inv_exec|]).
  - apply ledger_inv_call; [by eapply fence_inv_bounded|done..].
  - by apply ledger_inv_confirm.
Qed.

Lemma ledger_reachable_inv rs next st c :
  (next <= u64_max)%N -> rtc ledger_step (with_next_fence_token rs next, ∅) (st, c) ->
  fence_inv (N.max next 1) st /\ ledger_inv st c.
Proof.
  intros Hn Hr.
  cut (fence_inv (N.max next 1) (st, c).1 /\ ledger_inv (st, c).1 (st, c).2); [done|].
  refine (rtc_ind_r (fun g => fence_inv (N.max next 1) g.1 /\ ledger_inv g.1 g.2) _ _ _ _ Hr).
  - split; [by apply fence_inv_initial|apply ledger_inv_initial].
  - eauto using ledger_step_inv.
Qed.

(** C1: for every interleaving of calls in which a revocation's cleanup is
    confirmed at most once, no resource belongs to two leases that hold it, and
    every held resource is marked allocated and kept in the inventory. *)
Theorem exclusive_ownership rs next st c n m l l' r :
  (next <= u64_max)%N -> rtc ledger_step (with_next_fence_token rs next, ∅) (st, c) ->
  leases st !! n = Some l -> held (rl_state l) = true -> r ∈ allocated_ids l ->
  r ∈ allocated st /\ is_Some (resources st !! r) /\
  (leases st !! m = Some l' -> held (rl_state l') = true -> r ∈ allocated_ids l' -> m = n).
Proof.
  intros Hn Hreach Hl Hh Hr.
  destruct (ledger_reachable_inv _ _ _ _ Hn Hreach) as [_ [[Ht He _] _ _ Hret]].
  assert (forall k lk, leases st !! k = Some lk -> held (rl_state lk) = true ->
            owned_table c (leases st) !! k = Some (allocated_ids lk)) as Hown.
  { intros k lk Hk Hhk. rewrite owned_table_lookup, Hk. simpl. unfold owns. by rewrite Hhk. }
  assert (r ∈ allocated st) by eauto. split_and!; eauto.
Qed.

(** ** Refinement of an abstract ownership map

    What the ledger promises its clients: a map from resource to owning lease
    that changes only by granting free resources to a lease that owns none, or
    by taking back everything a lease owns. *)
Inductive abs_step : gmap string string -> gmap string string -> Prop :=
| abs_idle o : abs_step o o
| abs_grant o o' n (ids : list string) :
    (forall r, r ∈ ids -> o !! r = None) -> (forall r, o !! r <> Some n) ->
    (forall r, o' !! r = if decide (r ∈ ids) then Some n else o !! r) -> abs_step o o'
| abs_reclaim o n : abs_step o (filter (fun p => p.2 <> n) o).

Definition refines (t : gmap string (list string)) (o : gmap string string) : Prop :=
  forall r n, o !! r = Some n <-> exists ids, t !! n = Some ids /\ r ∈ ids.

Definition grant_map (n : string) (ids : list string) (o : gmap string string) : gmap string string :=
  foldr (fun r o => <[r := n]> o) o ids.
Lemma grant_map_lookup n ids o r :
  grant_map n ids o !! r = if decide (r ∈ ids) then Some n else o !! r.
Proof.
  induction ids as [|i ids IH]; [by rewrite decide_False by set_solver|]. simpl.
  destruct (decide (r = i)) as [->|Hne].
  - rewrite lookup_insert_eq. by rewrite decide_True by set_solver.
  - rewrite lookup_insert_ne, IH by done.
    destruct (decide (r ∈ ids)); [rewrite decide_True by set_solver|rewrite decide_False by set_solver]; done.
Qed.

Lemma refines_grant t al o n ids :
  own_table t al -> refines t o -> t !! n = None -> (forall r, r ∈ ids -> r ∉ al) ->
  abs_step o (grant_map n ids o) /\ refines (<[n := ids]> t) (grant_map n ids o).
Proof.
  intros [Ht _ _] Hr Hn Hids. split.
  - eapply abs_grant with (n := n) (ids := ids).
    + intros r Hin. destruct (o !! r) as [m|] eqn:Ho; [|done].
      apply Hr in Ho as (js & Hm & Hj). by destruct (Hids r Hin); eauto.
    + intros r (js & Hm & _)%Hr. congruence.
    + apply grant_map_lookup.
  - intros r m. rewrite grant_map_lookup. destruct (decide (m = n)) as [->|Hne].
    + rewrite lookup_insert_eq. case_decide; [naive_solver|].
      split; [intros (js & Hm & _)%Hr; congruence|naive_solver].
    + rewrite lookup_insert_ne by done. case_decide as Hin; [|apply Hr].
      split; [congruence|]. intros (js & Hm & Hj). by destruct (Hids r Hin); eauto.
Qed.
Lemma refines_free t o n :
  refines t o -> refines (delete n t) (filter (fun p => p.2 <> n) o).
Proof.
  intros Hr r m. rewrite map_lookup_filter_Some. simpl. split.
  - intros [(ids & Hm & Hin)%Hr Hne]. exists ids. by rewrite lookup_delete_ne.
  - intros (ids & Hm & Hin). apply lookup_delete_Some in Hm as [Hne Hm].
    split; [apply Hr; eauto|congruence].
Qed.
Lemma refines_same t t' o : t' = t -> refines t o -> exists o', abs_step o o' /\ refines t' o'.
Proof. intros ->. eauto using abs_idle. Qed.

(** Ownership after each call. *)
Lemma owned_table_revoke now n f st c :
  ledger_inv st c -> owned_table c (leases (revoke now n f st).1) = owned_table c (leases st).
Proof.
  intros Hi%(ledger_inv_expire now). rewrite <-(owned_table_expire c now st).
  unfold revoke. run_method; try done. eapply owned_table_put; [exact E| |done].
  simpl. unfold owns. simpl. rewrite bool_decide_eq_true_2.
  - by destruct (rl_state r).
  - eapply not_confirmed; [exact Hi|exact E|]. by intros Hr; rewrite Hr in *.
Qed.
Lemma owned_table_call o st c :
  ledger_inv st c ->
  match o with
  | Acquire _ _ _ | CompleteRelease _ _ => True
  | _ => owned_table c (leases (exec o st)) = owned_table c (leases st)
  end.
Proof.
  intros Hi. destruct o as [| | | | |now ?|now ?| | | |]; simpl; try done; try apply owned_table_expire.
  - unfold refresh_inventory. run_method; done.
  - unfold quarantine. run_method; done.
  - rewrite <-(owned_table_expire c now st). unfold renew_lease. run_method; try done.
    by eapply owned_table_put.
  - rewrite <-(owned_table_expire c now st). unfold begin_release. run_method; try done;
      (eapply owned_table_put; [exact E| |done]);
      match goal with H : rl_state _ = _ |- _ => by rewrite H end.
  - unfold fail_release. run_method; try done. eapply owned_table_put; [exact E| |done].
    rewrite andb_false_iff, !negb_false_iff, !bool_decide_eq_true in *. by destruct E1 as [-> | ->].
  - by apply owned_table_revoke.
  - unfold complete_revocation. run_method; done.
Qed.
Lemma acquire_grants now now' request st c :
  ledger_inv st c ->
  owned_table c (leases (acquire_lease now now' request st).1) = owned_table c (leases st) \/
  exists ids, owned_table c (leases (acquire_lease now now' request st).1)
              = <[rq_lease_name request := ids]> (owned_table c (leases st)) /\
    owned_table c (leases st) !! rq_lease_name request = None /\
    (forall r, r ∈ ids -> r ∉ allocated st).
Proof.
  intros Hi. rewrite <-(owned_table_expire c now st).
  replace (allocated st) with (allocated (expire_due_leases now st))
    by (by rewrite expire_due_leases_spec).
  unfold acquire_lease. run_method; try (left; done). right.
  exists (res_id <$> candidates (expire_due_leases now st) (rq_query request)). split_and!.
  - rewrite owned_table_grant by done. unfold allocated_ids. simpl. by rewrite allocated_ids_new.
  - rewrite owned_table_lookup.
    match goal with H : ~ is_Some _ |- _ => apply eq_None_not_Some in H; by rewrite H end.
  - apply candidate_ids_free.
Qed.
Lemma release_reclaims n f st c :
  owned_table c (leases (complete_release n f st).1) = owned_table c (leases st) \/
  owned_table c (leases (complete_release n f st).1) = delete n (owned_table c (leases st)).
Proof.
  unfold complete_release. run_method; try (left; done). right. by eapply owned_table_release.
Qed.
Lemma confirm_reclaims n f st c :
  owned_table (confirm n f st c) (leases (complete_revocation n f st).1) = owned_table c (leases st) \/
  owned_table (confirm n f st c) (leases (complete_revocation n f st).1) = delete n (owned_table c (leases st)).
Proof.
  unfold confirm, complete_revocation. run_method; try (left; done). right. by eapply owned_table_confirm.
Qed.

(** C2: the ledger refines the abstract ownership map: from any reachable state
    every call is matched by one abstract step (idle, a grant of free resources
    to a lease that owns nothing, or a full reclaim). *)
Theorem ledger_refines_ownership rs next st c st' c' o :
  (next <= u64_max)%N -> rtc ledger_step (with_next_fence_token rs next, ∅) (st, c) ->
  ledger_step (st, c) (st', c') -> refines (owned_table c (leases st)) o ->
  exists o', abs_step o o' /\ refines (owned_table c' (leases st')) o'.
Proof.
  intros Hn Hreach Hstep Hr. destruct (ledger_reachable_inv _ _ _ _ Hn Hreach) as [_ Hi].
  inversion Hstep as [op ? ? Ho|n f ? ? Hnc]; subst; simpl.
  - pose proof (owned_table_call op _ _ Hi) as Hcall.
    destruct op as [| |now now' request| | | | |n f| | |]; try by apply (refines_same _ _ _ Hcall).
    + destruct (acquire_grants now now' request _ _ Hi) as [Hsame|(ids & Ht & Hnone & Hfree)].
      { by apply (refines_same _ _ _ Hsame). }
      simpl. rewrite Ht. eexists. eapply refines_grant; [apply Hi|done..].
    + destruct (release_reclaims n f st c') as [Hsame|Ht]; [by apply (refines_same _ _ _ Hsame)|].
      simpl. rewrite Ht. eexists. eauto using abs_reclaim, refines_free.
  - destruct (confirm_reclaims n f st c) as [Hsame|Ht]; [by apply (refines_same _ _ _ Hsame)|].
    rewrite Ht. eexists. eauto using abs_reclaim, refines_free.
Qed.
