(* ===== verification/LedgerSpec.v ===== *)
(** * Functional behaviour of the resource lease manager

    What each method of [ResourceManager] does on success and on failure:
    allocation, fencing, release, revocation and inventory refresh, with the
    concrete executions that instantiate the general theorems. *)
From stdpp Require Import base gmap strings list sorting pretty.
From Stdlib Require Import Ascii Lia ZifyBool ZifyN.
From S2P Require Import Prelude Validation Contract KernelApi ResourceManager Ledger Ownership.

(** ** Errors leave no trace *)
Definition unchanged (st st' : State) : Prop :=
  st' = st \/ exists now, st' = expire_due_leases now st.

Definition outcome (o : op) (st : State) : result ProviderError unit :=
  match o with
  | Refresh snapshot => (refresh_inventory snapshot st).2
  | Quarantine resource_id reason_code => (quarantine resource_id reason_code st).2
  | Acquire now now' request => (fun _ => tt) <$> (acquire_lease now now' request st).2
  | Get now lease_name => (fun _ => tt) <$> (get_lease now lease_name st).2
  | List now => Ok tt
  | Renew now lease_name f e => (fun _ => tt) <$> (renew_lease now lease_name f e st).2
  | BeginRelease now lease_name f => (fun _ => tt) <$> (begin_release now lease_name f st).2
  | CompleteRelease lease_name f => (fun _ => tt) <$> (complete_release lease_name f st).2
  | FailRelease lease_name f => (fun _ => tt) <$> (fail_release lease_name f st).2
  | Revoke now lease_name f => (fun _ => tt) <$> (revoke now lease_name f st).2
  | CompleteRevocation lease_name f => (fun _ => tt) <$> (complete_revocation lease_name f st).2
  end.

Lemma outcome_unchanged o st e : outcome o st = Err e -> unchanged st (exec o st).
Proof.
  unfold unchanged. destruct o; simpl;
    unfold refresh_inventory, quarantine, acquire_lease, get_lease, list_leases, renew_lease, begin_release,
      complete_release, fail_release, revoke, complete_revocation;
    run_method; intros; first [discriminate | by left | by right; eexists].
Qed.

(** A call that returns an error changes nothing but the expiry of leases
    that are due: no resource is taken or freed, no token is issued, no lease
    is created or moved. *)
Theorem error_leaves_no_trace o st e :
  outcome o st = Err e ->
  resources (exec o st) = resources st /\ allocated (exec o st) = allocated st /\
  quarantined (exec o st) = quarantined st /\ generation (exec o st) = generation st /\
  next_fence_token (exec o st) = next_fence_token st /\
  exists now, leases (exec o st) = leases st \/ leases (exec o st) = expire_lease now <$> leases st.
Proof.
  intros [->|[now ->]]%outcome_unchanged; [|rewrite expire_due_leases_spec]; split_and!; try done.
  - exists 0%N. by left.
  - exists now. by right.
Qed.

(** ** Stale tokens *)
Definition fence_of (o : op) : option (string * N) :=
  match o with
  | Renew _ n f _ | BeginRelease _ n f | CompleteRelease n f | FailRelease n f | Revoke _ n f
  | CompleteRevocation n f => Some (n, f)
  | _ => None
  end.

Lemma expire_lease_fence now l : rl_fence_token (expire_lease now l) = rl_fence_token l.
Proof. by destruct (expire_lease_cases now l) as [->|[_ ->]]. Qed.

Lemma outcome_stale o st n f l :
  fence_of o = Some (n, f) -> leases st !! n = Some l -> f <> rl_fence_token l ->
  is_err (outcome o st) = true.
Proof.
  intros Ho Hl Hf. destruct o; simplify_eq/=;
    unfold renew_lease, begin_release, complete_release, fail_release, revoke, complete_revocation;
    run_method; try done; exfalso; found_lease l; rewrite ?expire_lease_fence in *; lia.
Qed.

(** A fenced call with a token other than the lease's current one is
    rejected and changes nothing but due expiries. *)
Theorem stale_fence_rejected o st n f l :
  fence_of o = Some (n, f) -> leases st !! n = Some l -> f <> rl_fence_token l ->
  is_err (outcome o st) = true /\ unchanged st (exec o st).
Proof.
  intros Ho Hl Hf. pose proof (outcome_stale o st n f l Ho Hl Hf) as Herr. split; [done|].
  destruct (outcome o st) as [|e] eqn:He; [done|].
  by eapply outcome_unchanged.
Qed.

(** ** Allocation *)
(** A resource meets a query: its class, a capability for each requirement (the
    id, at least the revision, the properties), and each capacity in its unit. *)
Record meets (q : ResourceQuery) (r : Resource) : Prop := {
  me_class : res_resource_class r = query_resource_class q;
  me_capabilities : forall requirement, requirement ∈ query_required_capabilities q ->
    exists c, c ∈ res_capabilities r /\ cap_id c = req_id requirement /\
      (req_minimum_revision requirement <= cap_revision c)%N /\
      forall key value, req_required_properties requirement !! key = Some value -> cap_properties c !! key = Some value;
  me_capacity : forall key minimum, query_minimum_capacity q !! key = Some minimum ->
    exists actual, res_capacity r !! key = Some actual /\ qty_unit actual = qty_unit minimum /\
      (qty_value minimum <= qty_value actual)%N;
}.
(** A resource that may be leased for a query: ready, free and in no quarantine. *)
Record usable (st : State) (q : ResourceQuery) (r : Resource) : Prop := {
  us_free : res_id r ∉ allocated st;
  us_trusted : res_id r ∉ quarantined st;
  us_ready : res_state r = ResourceReady;
  us_meets : meets q r;
}.
(** The resources the code considers, in the order of their ids. *)
Definition eligible (st : State) (q : ResourceQuery) : list Resource :=
  filter (candidate st q) (btree_values (resources st)).

Definition keyed (st : State) : Prop := forall k r, resources st !! k = Some r -> res_id r = k.

Record acquirable (now' : N) (request : ResourceRequest) (st : State) : Prop := {
  ac_generation : rq_expected_inventory_generation request = generation st;
  ac_fresh : leases st !! rq_lease_name request = None;
  ac_query : ResourceQuery_validate (rq_query request) = Ok tt;
  ac_expiry : is_some_and (fun e => (e <=? now')%N) (rq_expires_at_unix_ms request) = false;
  ac_enough : exists keys, NoDup keys /\ length keys = N.to_nat (query_count (rq_query request)) /\
    forall k, k ∈ keys -> exists r, resources st !! k = Some r /\ usable st (rq_query request) r;
}.

Lemma candidates_expire now st q : candidates (expire_due_leases now st) q = candidates st q.
Proof. by rewrite expire_due_leases_spec. Qed.
Lemma candidates_eligible st q :
  candidates st q = take (N.to_nat (query_count q)) (eligible st q).
Proof. done. Qed.

Lemma requirement_matches_spec requirement c : CapabilityRequirement_matches requirement c = true <->
  cap_id c = req_id requirement /\ (req_minimum_revision requirement <= cap_revision c)%N /\
  forall key value, req_required_properties requirement !! key = Some value -> cap_properties c !! key = Some value.
Proof.
  unfold CapabilityRequirement_matches. rewrite !andb_true_iff, bool_decide_eq_true, N.leb_le, forallb_forall. split.
  - intros [[Hid Hrev] Hp]. split_and!; [done|done|]. intros key value Hk%elem_of_btree_iter%list_elem_of_In.
    apply Hp in Hk. destruct (cap_properties c !! key); simpl in Hk; [|done]. by apply bool_decide_eq_true in Hk as ->.
  - intros (Hid & Hrev & Hp). split_and!; [done|done|]. intros [key value] Hk%list_elem_of_In%elem_of_btree_iter.
    rewrite (Hp _ _ Hk). by apply bool_decide_eq_true.
Qed.
Lemma matches_meets q r : ResourceQuery_matches q r = true <-> meets q r.
Proof.
  unfold ResourceQuery_matches, Quantity_satisfies. rewrite !andb_true_iff, bool_decide_eq_true, !forallb_forall. split.
  - intros [[Hclass Hcap] Hqty]. split; [done| |].
    + intros requirement Hr%list_elem_of_In. apply Hcap, existsb_exists in Hr as (c & Hc & Hm%requirement_matches_spec).
      exists c. by split; [apply list_elem_of_In|].
    + intros key minimum Hk%elem_of_btree_iter%list_elem_of_In. apply Hqty in Hk.
      destruct (res_capacity r !! key) as [actual|]; [|done]. simpl in Hk.
      apply andb_true_iff in Hk as [Hu%bool_decide_eq_true Hv%N.leb_le]. by exists actual.
  - intros [Hclass Hcap Hqty]. split_and!; [done| |].
    + intros requirement Hr%list_elem_of_In. apply Hcap in Hr as (c & Hc & Hm). apply existsb_exists. exists c.
      split; [by apply list_elem_of_In|by apply requirement_matches_spec].
    + intros [key minimum] Hk%list_elem_of_In%elem_of_btree_iter. apply Hqty in Hk as (actual & -> & Hu & Hv). simpl.
      rewrite bool_decide_eq_true_2 by done. by apply N.leb_le.
Qed.
Lemma candidate_usable st q r : candidate st q r = true <-> usable st q r.
Proof.
  unfold candidate. rewrite !andb_true_iff, !negb_true_iff, !bool_decide_eq_false, bool_decide_eq_true, matches_meets.
  split; [intros [[[? ?] ?] ?]; by split|by intros []].
Qed.
Lemma eligible_spec st q r :
  r ∈ eligible st q <-> (exists k, resources st !! k = Some r) /\ usable st q r.
Proof.
  unfold eligible. rewrite list_elem_of_filter, elem_of_btree_values, Is_true_true, candidate_usable. naive_solver.
Qed.
(** A filter of the values holds [n] of them exactly when [n] keys do. *)
Lemma values_enough {A} (m : gmap string A) (P : A -> bool) n :
  (n <= length (filter P (btree_values m)))%nat <->
  exists keys, NoDup keys /\ length keys = n /\ forall k, k ∈ keys -> exists a, m !! k = Some a /\ P a = true.
Proof.
  set (entries := filter (fun p : string * A => P p.2) (btree_iter m)).
  assert (filter P (btree_values m) = entries.*2) as ->.
  { unfold entries, btree_values. induction (btree_iter m) as [|[k a] l IH]; [done|]. rewrite fmap_cons, !filter_cons. simpl.
    case_decide; [rewrite fmap_cons; by f_equal|done]. }
  assert (forall k, k ∈ entries.*1 <-> exists a, m !! k = Some a /\ P a = true) as Hin.
  { intros k. rewrite list_elem_of_fmap. split.
    - intros ([k' a] & -> & [Ha Hk]%list_elem_of_filter). exists a.
      apply elem_of_btree_iter in Hk. apply Is_true_true in Ha. by split.
    - intros (a & Hk & Ha). exists (k, a). split; [done|]. apply list_elem_of_filter.
      split; [by apply Is_true_true|by apply elem_of_btree_iter]. }
  assert (NoDup entries.*1) as Hnd.
  { eapply sublist_NoDup; [apply (btree_keys_NoDup m)|]. unfold entries, btree_keys. clear Hin entries.
    induction (btree_iter m) as [|p l IH]; [constructor|]. rewrite filter_cons, fmap_cons. case_decide; simpl; by constructor. }
  rewrite length_fmap, <- (length_fmap fst). split.
  - intros Hn. exists (take n entries.*1). split_and!.
    + rewrite <- (take_drop n entries.*1) in Hnd. by apply NoDup_app in Hnd as [? _].
    + rewrite length_take. lia.
    + intros k Hk%subseteq_take. by apply Hin.
  - intros (keys & Hk & <- & Hall). apply submseteq_length, NoDup_submseteq; [done|]. intros k Hk'. by apply Hin, Hall.
Qed.
Lemma enough_usable st q n : (n <= length (eligible st q))%nat <->
  exists keys, NoDup keys /\ length keys = n /\ forall k, k ∈ keys -> exists r, resources st !! k = Some r /\ usable st q r.
Proof.
  unfold eligible. rewrite values_enough. split; intros (keys & Hnd & Hl & Hall); exists keys; split_and!; try done;
    intros k Hk; destruct (Hall k Hk) as (r & Hr & Hu); exists r; split; [done|by apply candidate_usable|done|by apply candidate_usable].
Qed.

(** C40: [acquire_lease] succeeds exactly when the request names the current
    inventory generation, a fresh lease name, a valid query and a future
    expiry, and [count] distinct resources of the inventory are ready, not
    allocated, not quarantined and meet the query: the class, each required
    capability with its revision and properties, and each minimum capacity. *)
Theorem acquire_succeeds_iff now now' request st :
  is_ok (acquire_lease now now' request st).2 = true <-> acquirable now' request st.
Proof.
  unfold acquire_lease. rewrite candidates_expire, candidates_eligible.
  replace (generation (expire_due_leases now st)) with (generation st)
    by (by rewrite expire_due_leases_spec).
  assert (is_Some (leases (expire_due_leases now st) !! rq_lease_name request)
          <-> is_Some (leases st !! rq_lease_name request)) as Hsome.
  { rewrite lookup_expire_due. apply fmap_is_Some. }
  split.
  - run_method; try done; intros _.
    match goal with H : ~ is_Some _ |- _ => rewrite Hsome, <-eq_None_not_Some in H end.
    match goal with H : ResourceQuery_validate _ = Ok ?u |- _ => destruct u end.
    split; try done; [lia|]. apply enough_usable.
    match goal with H : (length _ =? _)%nat = true |- _ => rewrite length_take in H; lia end.
  - intros [Hg Hf Hq He Hn%enough_usable]. rewrite Hg, N.eqb_refl. simpl.
    rewrite bool_decide_eq_false_2 by (by rewrite Hsome, <-eq_None_not_Some).
    rewrite Hq, He. rewrite length_take, Nat.min_l, Nat.eqb_refl by done. done.
Qed.

Lemma btree_values_ids st : keyed st -> res_id <$> btree_values (resources st) = btree_keys (resources st).
Proof.
  intros Hk. unfold btree_values, btree_keys. rewrite <-list_fmap_compose.
  apply list_fmap_ext. intros i [k r] Hi%list_elem_of_lookup_2. simpl.
  by apply Hk, elem_of_btree_iter.
Qed.
Lemma sublist_filter_ids (P : Resource -> bool) rs :
  (res_id <$> filter P rs) `sublist_of` (res_id <$> rs).
Proof.
  induction rs as [|r rs IH]; simpl; [constructor|].
  rewrite filter_cons. case_decide; simpl; by constructor.
Qed.
Lemma StronglySorted_sublist {A} (R : relation A) l k :
  l `sublist_of` k -> StronglySorted R k -> StronglySorted R l.
Proof.
  induction 1 as [|x l k Hs IH|x l k Hs IH]; [done| |]; intros [Hk Hx]%StronglySorted_inv; auto.
  constructor; [auto|]. rewrite Forall_forall in *. intros y Hy. apply Hx.
  by eapply elem_of_sublist.
Qed.
Lemma eligible_ids_sorted st q :
  keyed st -> StronglySorted key_le (res_id <$> eligible st q) /\ NoDup (res_id <$> eligible st q).
Proof.
  intros Hk. pose proof (sublist_filter_ids (candidate st q) (btree_values (resources st))) as Hs.
  rewrite btree_values_ids in Hs by done. split.
  - eapply StronglySorted_sublist; [exact Hs|]. unfold btree_keys.
    pose proof (btree_iter_sorted (resources st)) as Hsort. revert Hsort.
    generalize (btree_iter (resources st)). induction l as [|p l IH]; simpl; [constructor|].
    intros [Hl Hp]%StronglySorted_inv. constructor; [auto|]. by rewrite Forall_fmap.
  - eapply sublist_NoDup, Hs; apply btree_keys_NoDup.
Qed.

(** A granted lease is active under the next fence token and holds exactly
    [count] distinct eligible resources, the ones with the smallest ids; they
    and only they are added to the allocated set. *)
Theorem acquire_grant now now' request st st' l :
  keyed st -> acquire_lease now now' request st = (st', Ok l) ->
  leases st' !! rq_lease_name request = Some l /\
  rl_state l = Active /\ rl_holder l = rq_holder request /\ rl_fence_token l = next_fence_token st /\
  length (allocated_ids l) = N.to_nat (query_count (rq_query request)) /\ NoDup (allocated_ids l) /\
  (forall i, i ∈ allocated_ids l -> exists r, r ∈ eligible st (rq_query request) /\ res_id r = i) /\
  (forall i r, i ∈ allocated_ids l -> r ∈ eligible st (rq_query request) ->
     res_id r ∉ allocated_ids l -> key_le i (res_id r)) /\
  allocated st' = list_to_set (allocated_ids l) ∪ allocated st.
Proof.
  intros Hk. unfold acquire_lease. rewrite candidates_expire.
  replace (allocated (expire_due_leases now st)) with (allocated st) by (by rewrite expire_due_leases_spec).
  rewrite next_expire. run_method; intros [= <- <-].
  set (cands := candidates st (rq_query request)) in *. simpl. rewrite lookup_insert_eq, foldl_insert_ids.
  unfold allocated_ids. simpl. rewrite allocated_ids_new.
  destruct (eligible_ids_sorted st (rq_query request) Hk) as [Hsort Hnd].
  assert (eligible st (rq_query request) = cands ++ drop (N.to_nat (query_count (rq_query request)))
            (eligible st (rq_query request))) as Hsplit by (by rewrite <-take_drop at 1).
  rewrite Hsplit, fmap_app in Hsort, Hnd. split_and!; try done.
  - rewrite length_fmap. lia.
  - by apply NoDup_app in Hnd as [? _].
  - intros i (r & -> & Hr)%list_elem_of_fmap. exists r. split; [|done].
    rewrite Hsplit. apply elem_of_app. by left.
  - intros i r Hi Hr Hni. rewrite Hsplit in Hr. apply elem_of_app in Hr as [Hr|Hr].
    + destruct Hni. apply list_elem_of_fmap. eauto.
    + eapply StronglySorted_app_1_elem_of; [exact Hsort|done|]. apply list_elem_of_fmap. eauto.
Qed.

(** ** Release *)

(** An active lease that is not due is released in two calls with its
    token: the first keeps every resource allocated, the second frees exactly
    its allocations. *)
Theorem release_cycle now n st l :
  leases st !! n = Some l -> rl_state l = Active -> lease_due now l = false ->
  exists st1 st2,
    begin_release now n (rl_fence_token l) st = (st1, Ok (set_state Releasing l)) /\
    allocated st1 = allocated st /\
    complete_release n (rl_fence_token l) st1 = (st2, Ok (set_state Released l)) /\
    allocated st2 = allocated st ∖ list_to_set (allocated_ids l) /\
    leases st2 !! n = Some (set_state Released l).
Proof.
  intros Hl Hs Hd. eexists _, _. split_and!.
  - unfold begin_release. rewrite lookup_expire_due, Hl. simpl. unfold expire_lease. rewrite Hd.
    rewrite N.eqb_refl. simpl. rewrite Hs. reflexivity.
  - simpl. by rewrite expire_due_leases_spec.
  - unfold complete_release. simpl. rewrite lookup_insert_eq. simpl. rewrite N.eqb_refl. simpl. reflexivity.
  - simpl. rewrite foldl_remove_ids. by rewrite expire_due_leases_spec.
  - simpl. by rewrite lookup_insert_eq.
Qed.

(** A failed cleanup keeps the resources: the lease is failed, nothing is
    freed, the release cannot be completed, and only a retry of the release
    with the same token makes completion possible again. *)
Theorem failed_cleanup_holds now n st l :
  leases st !! n = Some l -> rl_state l = Releasing ->
  exists st1,
    fail_release n (rl_fence_token l) st = (st1, Ok (set_state Failed l)) /\
    allocated st1 = allocated st /\
    is_err (complete_release n (rl_fence_token l) st1).2 = true /\
    (complete_release n (rl_fence_token l) st1).1 = st1 /\
    exists st2, begin_release now n (rl_fence_token l) st1 = (st2, Ok (set_state Releasing l)) /\
      allocated st2 = allocated st.
Proof.
  intros Hl Hs. eexists. split_and!.
  - unfold fail_release. rewrite Hl, N.eqb_refl, Hs. simpl. reflexivity.
  - done.
  - unfold complete_release. simpl. rewrite lookup_insert_eq. simpl. by rewrite N.eqb_refl.
  - unfold complete_release. simpl. rewrite lookup_insert_eq. simpl. by rewrite N.eqb_refl.
  - eexists. split.
    + unfold begin_release. rewrite lookup_expire_due. simpl. rewrite lookup_insert_eq. simpl.
      rewrite N.eqb_refl. simpl. reflexivity.
    + simpl. by rewrite expire_due_leases_spec.
Qed.

(** ** Revocation *)
Lemma run_fence_le k os st n l :
  fence_inv k st -> leases st !! n = Some l ->
  exists l', leases (run os st) !! n = Some l' /\ (rl_fence_token l <= rl_fence_token l')%N /\
    (rl_state l = Revoked -> rl_state l' = Revoked) /\ (rl_state l = Released -> rl_state l' = Released).
Proof.
  revert st l. induction os as [|o os IH]; intros st l Hi Hl; simpl; [exists l; split_and!; auto; lia|].
  destruct (calls_exec o st (fence_inv_bounded _ _ Hi) n l Hl) as (l1 & Hl1 & Hc).
  destruct (IH _ l1 (fence_inv_exec k o st Hi) Hl1) as (l2 & Hl2 & Hle & Hrev & Hrel).
  pose proof (lc_fence _ _ Hc). pose proof (lc_state _ _ Hc) as Hs.
  exists l2. split_and!; [done|lia|..]; intros Heq; rewrite Heq in Hs.
  - apply Hrev. by destruct (rl_state l1).
  - apply Hrel. by destruct (rl_state l1).
Qed.

(** C3: a successful revocation issues a new token and keeps the resources
    allocated; from then on, after any further calls, every fenced call with
    the token the holder had fails, and the lease stays revoked. *)
Theorem revocation_fences_holder k now n st st' l l' os o f :
  fence_inv k st -> leases st !! n = Some l -> (next_fence_token st < u64_max)%N ->
  revoke now n (rl_fence_token l) st = (st', Ok l') ->
  fence_of o = Some (n, f) -> (f <= rl_fence_token l)%N ->
  rl_fence_token l' = next_fence_token st /\ allocated st' = allocated st /\
  is_err (outcome o (run os st')) = true /\
  exists lz, leases (run os st') !! n = Some lz /\ rl_state lz = Revoked.
Proof.
  intros Hi Hl Hmax Hrev Ho Hf.
  pose proof (fence_inv_revoke k now n (rl_fence_token l) st Hi) as Hi'. rewrite Hrev in Hi'. simpl in Hi'.
  assert (fences st !! n = Some (rl_fence_token l)) as Hfl by (unfold fences; by rewrite lookup_fmap, Hl).
  assert (rl_fence_token l < next_fence_token st)%N as Hlt.
  { destruct (ft_below _ _ _ Hi n _ Hfl); lia. }
  assert (rl_fence_token l' = next_fence_token st /\ allocated st' = allocated st /\
          leases st' !! n = Some l' /\ rl_state l' = Revoked) as (Hf' & Ha & Hl' & Hs).
  { pose proof (revoked_fence_next _ _ _ _ _ Hi Hfl) as Hmx. revert Hrev.
    unfold revoke. run_method; intros [= <- <-]. simpl. rewrite next_expire, lookup_insert_eq.
    found_lease l. rewrite expire_lease_fence, Hmx. by rewrite expire_due_leases_spec. }
  destruct (run_fence_le k os st' n l' Hi' Hl') as (lz & Hlz & Hle & Hrz & _).
  split_and!; [done|done| |eauto].
  eapply outcome_stale; [exact Ho|exact Hlz|lia].
Qed.

(** Expiry never frees: a lease that is due becomes expired at the next
    call that reads the ledger, its resources stay allocated, it can be neither
    renewed nor released, and its holder can only be revoked. *)
Theorem expired_lease_held now n st l :
  leases st !! n = Some l -> lease_due now l = true ->
  (get_lease now n st).2 = Ok (set_state Expired l) /\
  allocated (get_lease now n st).1 = allocated st /\
  (forall e, is_err (renew_lease now n (rl_fence_token l) e st).2 = true) /\
  is_err (begin_release now n (rl_fence_token l) st).2 = true /\
  is_err (complete_release n (rl_fence_token l) (get_lease now n st).1).2 = true /\
  is_ok (revoke now n (rl_fence_token l) st).2 = true.
Proof.
  intros Hl Hd.
  assert (leases (expire_due_leases now st) !! n = Some (set_state Expired l)) as He.
  { rewrite lookup_expire_due, Hl. simpl. unfold expire_lease. by rewrite Hd. }
  unfold get_lease, lookup_lease, renew_lease, begin_release, complete_release, revoke. simpl.
  rewrite He. simpl. rewrite N.eqb_refl. split_and!; try done.
  - by rewrite expire_due_leases_spec.
  - intros e. by case_match.
Qed.

(** ** Inventory refresh *)
Definition unready (rs : gmap string Resource) (k : string) : Prop :=
  exists r, rs !! k = Some r /\ res_state r <> ResourceReady.

Lemma refresh_allocated_quarantine previous ids rs q rs' q' :
  foldl (refresh_allocated previous) (rs, q) ids = (rs', q') ->
  q ⊆ q' /\ forall k, k ∈ q' -> k ∈ q \/ unready rs' k.
Proof.
  revert rs q. induction ids as [|i ids IH]; intros rs q; cbn [foldl].
  { intros [= <- <-]. set_solver. }
  destruct (refresh_allocated previous (rs, q) i) as [rs1 q1] eqn:Hacc. intros Hrest.
  destruct (IH _ _ Hrest) as [Hsub Hin].
  apply refresh_allocated_spec in Hrest as (Hkeep & _).
  assert (q ⊆ q1 /\ forall k, k ∈ q1 -> k ∈ q \/ unready rs1 k) as [Hq1 Hu1].
  { revert Hacc. unfold refresh_allocated. run_method; intros [= <- <-]; try (by split; [|auto]).
    - split; [set_solver|]. intros k [->%elem_of_singleton|Hk]%elem_of_union; [right|by left].
      by eexists.
    - split; [set_solver|]. intros k [->%elem_of_singleton|Hk]%elem_of_union; [right|by left].
      eexists. rewrite lookup_insert_eq. done. }
  split; [set_solver|]. intros k [Hk|]%Hin; [|by right].
  apply Hu1 in Hk as [?|(r & Hr & Hs)]; [by left|right].
  exists r. by rewrite Hkeep by (by eexists).
Qed.

Lemma quarantine_unready_spec rs q k :
  k ∈ quarantine_unready rs q <-> k ∈ q \/ unready rs k.
Proof.
  unfold quarantine_unready.
  assert (forall l, k ∈ foldl (fun (q : gset string) '(resource_id, resource) =>
             if bool_decide (res_state resource = ResourceReady) then q else {[resource_id]} ∪ q) q l <->
          k ∈ q \/ exists r, (k, r) ∈ l /\ res_state r <> ResourceReady) as Hl.
  { intros l. revert q. induction l as [|[i r] l IH]; intros q; cbn [foldl]; [set_solver|].
    rewrite IH. case_bool_decide; set_solver. }
  rewrite Hl. unfold unready. by setoid_rewrite elem_of_btree_iter.
Qed.

(** A successful refresh never moves the generation back and touches no
    lease and no allocation; the inventory becomes the snapshot plus the
    allocated resources the provider dropped, marked unavailable; and exactly
    the resources that were quarantined before or are not ready are
    quarantined, so a quarantine outlives every refresh that still lists the
    resource. *)
Theorem refresh_inventory_spec snapshot st st' :
  refresh_inventory snapshot st = (st', Ok tt) ->
  generation st' = inv_generation snapshot /\ (generation st <= generation st')%N /\
  leases st' = leases st /\ allocated st' = allocated st /\ next_fence_token st' = next_fence_token st /\
  (forall k, resources st' !! k =
     match collect_by res_id (inv_resources snapshot) !! k with
     | Some r => Some r
     | None => if decide (k ∈ allocated st) then mark_missing <$> resources st !! k else None
     end) /\
  (forall k, k ∈ quarantined st' <->
     is_Some (resources st' !! k) /\ (k ∈ quarantined st \/ unready (resources st') k)).
Proof.
  unfold refresh_inventory. do 3 (case_match; [done|]).
  destruct (foldl _ _ _) as [rs q] eqn:Hf. intros [= <-]. simpl.
  apply refresh_allocated_quarantine in Hf as Hq. apply refresh_allocated_spec in Hf as (Hkeep & Hret & Hfrom).
  split_and!; try done; [lia|..].
  - intros k. destruct (collect_by _ _ !! k) as [r|] eqn:Hk; [rewrite Hkeep; [done|by eexists]|].
    destruct (rs !! k) as [r|] eqn:Hr.
    + apply Hfrom in Hr as [?|(_ & Hin%elem_of_bset_iter & p & Hp & ->)]; [congruence|].
      rewrite decide_True by done. by rewrite Hp.
    + destruct (decide (k ∈ allocated st)) as [Hin|]; [|done]. destruct (resources st !! k) eqn:Hp; [|done].
      apply elem_of_bset_iter in Hin. destruct (Hret k Hin) as [? ?]; [by eexists|congruence].
  - intros k. rewrite elem_of_filter, quarantine_unready_spec. destruct Hq as [Hsub Hin].
    split; intros [Hs [Hk|Hk]]; split; auto.
Qed.
