(* ===== verification/LedgerExamples.v ===== *)
(** * Concrete executions of the resource lease manager

    A two-GPU inventory, two holders, and the runs that instantiate the ledger
    theorems; the last section is the execution that allocates one resource
    twice after a repeated cleanup confirmation. *)
From stdpp Require Import base gmap strings list sorting pretty.
From Stdlib Require Import Ascii Lia ZifyBool ZifyN.
From S2P Require Import Prelude Validation Contract KernelApi ResourceManager Ledger Ownership LedgerSpec.

Definition demo_resource (name : string) (s : ResourceState) : Resource :=
  mk_resource (mk_identity name 1) (mk_identity "adapter" 1) "gpu.nvidia" [] ∅ ∅ s "ready" "ok" [].
Definition demo_inventory : list Resource :=
  [demo_resource "gpu-1" ResourceReady; demo_resource "gpu-0" ResourceReady].
Definition demo_request (name : string) (count : N) (expiry : option N) : ResourceRequest :=
  mk_request name 1 (mk_identity ("holder-" +:+ name) 1) (mk_query "gpu.nvidia" count [] ∅) expiry
    CgroupLimits_default.
Definition demo_lease (name resource : string) (s : RLeaseState) (fence : N) (expiry : option N)
    : ResourceLease :=
  mk_resource_lease name 1 s (mk_identity ("holder-" +:+ name) 1)
    [allocation_for name (demo_resource resource ResourceReady)] 1 fence expiry CgroupLimits_default.

Definition demo_start : State := with_next_fence_token demo_inventory 7.
Definition acquire_a : op := Acquire 100 100 (demo_request "a" 1 (Some 1000%N)).
Definition acquire_b : op := Acquire 100 100 (demo_request "b" 1 (Some 1000%N)).
(** One lease on [gpu-0]; two leases, one on each resource. *)
Definition demo_one : State := exec acquire_a demo_start.
Definition demo_two : State := exec acquire_b demo_one.

Lemma demo_two_reachable : rtc ledger_step (with_next_fence_token demo_inventory 7, ∅) (demo_two, ∅).
Proof.
  eapply rtc_l; [by apply (step_call acquire_a)|]. eapply rtc_l; [by apply (step_call acquire_b)|].
  apply rtc_refl.
Qed.
Lemma demo_two_a : leases demo_two !! "a" = Some (demo_lease "a" "gpu-0" Active 7 (Some 1000%N)).
Proof. vm_compute. reflexivity. Qed.
Lemma demo_two_b : leases demo_two !! "b" = Some (demo_lease "b" "gpu-1" Active 8 (Some 1000%N)).
Proof. vm_compute. reflexivity. Qed.
Lemma demo_two_fence_inv : fence_inv 7 demo_two.
Proof. do 2 apply fence_inv_exec. by apply (fence_inv_initial demo_inventory 7). Qed.

Lemma fences_unique_above_floor_witness :
  (7 <= u64_max)%N /\ (7 <= rl_fence_token (demo_lease "a" "gpu-0" Active 7 (Some 1000%N)) <= u64_max)%N.
Proof.
  assert (7 <= u64_max)%N as Hb by (by vm_compute). split; [exact Hb|].
  exact (proj1 (fences_unique_above_floor demo_inventory 7 [acquire_a; acquire_b] Hb) "a" _ demo_two_a).
Defined.

Lemma lease_lifecycle_witness :
  exists l', leases (run [acquire_a; acquire_b; BeginRelease 200 "a" 7; CompleteRelease "a" 7]
                       demo_start) !! "a" = Some l' /\
    rtc lease_call (demo_lease "a" "gpu-0" Active 7 (Some 1000%N)) l'.
Proof.
  destruct (lease_lifecycle demo_inventory 7 [acquire_a; acquire_b]
              [BeginRelease 200 "a" 7; CompleteRelease "a" 7] "a"
              (demo_lease "a" "gpu-0" Active 7 (Some 1000%N))) as (l' & Hl' & Hr & _).
  - by vm_compute.
  - exact demo_two_a.
  - exists l'. exact (conj Hl' Hr).
Defined.

Lemma exclusive_ownership_witness :
  "gpu-0" ∈ allocated demo_two /\ is_Some (resources demo_two !! "gpu-0") /\
  (leases demo_two !! "b" = Some (demo_lease "b" "gpu-1" Active 8 (Some 1000%N)) ->
   held (rl_state (demo_lease "b" "gpu-1" Active 8 (Some 1000%N))) = true ->
   "gpu-0" ∈ allocated_ids (demo_lease "b" "gpu-1" Active 8 (Some 1000%N)) -> "b" = "a").
Proof.
  apply (exclusive_ownership demo_inventory 7 demo_two ∅ "a" "b"
           (demo_lease "a" "gpu-0" Active 7 (Some 1000%N))).
  - by vm_compute.
  - exact demo_two_reachable.
  - exact demo_two_a.
  - reflexivity.
  - apply elem_of_cons. by left.
Defined.

Lemma ledger_refines_ownership_witness :
  exists o', abs_step ∅ o' /\ refines (owned_table ∅ (leases demo_one)) o'.
Proof.
  apply (ledger_refines_ownership demo_inventory 7 demo_start ∅ demo_one ∅ ∅).
  - by vm_compute.
  - apply rtc_refl.
  - by apply (step_call acquire_a).
  - intros r n. split; [by rewrite lookup_empty|]. intros (ids & Hids & _). vm_compute in Hids. done.
Defined.

Definition third_request : op := Acquire 100 100 (demo_request "c" 1 None).
Lemma error_leaves_no_trace_witness :
  outcome third_request demo_two
    = Err (rm_error "INSUFFICIENT_RESOURCES" "no atomic allocation satisfies the request") /\
  allocated (exec third_request demo_two) = allocated demo_two.
Proof.
  assert (outcome third_request demo_two
    = Err (rm_error "INSUFFICIENT_RESOURCES" "no atomic allocation satisfies the request")) as He
    by (vm_compute; reflexivity).
  split; [exact He|]. apply (error_leaves_no_trace third_request demo_two _ He).
Defined.

Lemma stale_fence_rejected_witness :
  is_err (outcome (CompleteRelease "b" 7) demo_two) = true /\
  unchanged demo_two (exec (CompleteRelease "b" 7) demo_two).
Proof.
  apply (stale_fence_rejected (CompleteRelease "b" 7) demo_two "b" 7
           (demo_lease "b" "gpu-1" Active 8 (Some 1000%N))).
  - reflexivity.
  - exact demo_two_b.
  - discriminate.
Defined.

Lemma demo_keyed : keyed demo_start.
Proof. intros k r Hk. by apply collect_by_key in Hk as [? _]. Qed.
Lemma acquire_grant_witness :
  exists st' l, acquire_lease 100 100 (demo_request "a" 2 None) demo_start = (st', Ok l) /\
    length (allocated_ids l) = 2%nat /\ NoDup (allocated_ids l).
Proof.
  destruct (acquire_lease 100 100 (demo_request "a" 2 None) demo_start) as [st' [l|e]] eqn:Ha.
  - exists st', l. destruct (acquire_grant 100 100 (demo_request "a" 2 None) demo_start st' l demo_keyed Ha)
      as (_ & _ & _ & _ & Hlen & Hnd & _). auto.
  - vm_compute in Ha. discriminate.
Defined.

Lemma release_cycle_witness :
  exists st1 st2,
    begin_release 200 "a" 7 demo_two
      = (st1, Ok (set_state Releasing (demo_lease "a" "gpu-0" Active 7 (Some 1000%N)))) /\
    allocated st1 = allocated demo_two /\
    complete_release "a" 7 st1
      = (st2, Ok (set_state Released (demo_lease "a" "gpu-0" Active 7 (Some 1000%N)))) /\
    allocated st2 = allocated demo_two ∖ list_to_set ["gpu-0"] /\
    leases st2 !! "a" = Some (set_state Released (demo_lease "a" "gpu-0" Active 7 (Some 1000%N))).
Proof.
  apply (release_cycle 200 "a" demo_two (demo_lease "a" "gpu-0" Active 7 (Some 1000%N)));
    [exact demo_two_a|reflexivity|reflexivity].
Defined.

Definition demo_releasing : State := exec (BeginRelease 200 "a" 7) demo_two.
Lemma failed_cleanup_holds_witness :
  exists st1,
    fail_release "a" 7 demo_releasing = (st1, Ok (demo_lease "a" "gpu-0" Failed 7 (Some 1000%N))) /\
    allocated st1 = allocated demo_releasing.
Proof.
  destruct (failed_cleanup_holds 300 "a" demo_releasing (demo_lease "a" "gpu-0" Releasing 7 (Some 1000%N)))
    as (st1 & Hf & Ha & _); [vm_compute; reflexivity|reflexivity|].
  exists st1. exact (conj Hf Ha).
Defined.

Lemma revocation_fences_holder_witness :
  is_err (outcome (Renew 400 "a" 7 5000) (run [third_request] (revoke 300 "a" 7 demo_two).1)) = true.
Proof.
  destruct (revoke 300 "a" 7 demo_two) as [st' [l'|e]] eqn:Hr; [|vm_compute in Hr; discriminate].
  apply (revocation_fences_holder 7 300 "a" demo_two st' (demo_lease "a" "gpu-0" Active 7 (Some 1000%N)) l'
           [third_request] (Renew 400 "a" 7 5000) 7 demo_two_fence_inv demo_two_a).
  - by vm_compute.
  - exact Hr.
  - reflexivity.
  - by vm_compute.
Defined.

Lemma expired_lease_held_witness :
  (get_lease 1000 "a" demo_two).2 = Ok (demo_lease "a" "gpu-0" Expired 7 (Some 1000%N)) /\
  is_ok (revoke 1000 "a" 7 demo_two).2 = true.
Proof.
  destruct (expired_lease_held 1000 "a" demo_two (demo_lease "a" "gpu-0" Active 7 (Some 1000%N)) demo_two_a)
    as (Hg & _ & _ & _ & _ & Hr); [vm_compute; reflexivity|]. exact (conj Hg Hr).
Defined.

(** The provider reports only [gpu-1] at generation 2, unready, while [gpu-0]
    is leased. *)
Definition demo_snapshot : InventorySnapshot :=
  mk_inventory 2 [demo_resource "gpu-1" ResourceDegraded] (mk_node_capabilities true [] []).
Lemma refresh_inventory_spec_witness :
  exists st', refresh_inventory demo_snapshot demo_one = (st', Ok tt) /\
    is_Some (resources st' !! "gpu-0") /\ "gpu-0" ∈ quarantined st' /\ "gpu-1" ∈ quarantined st'.
Proof.
  destruct (refresh_inventory demo_snapshot demo_one) as [st' [[]|e]] eqn:Hr; [|vm_compute in Hr; discriminate].
  destruct (refresh_inventory_spec demo_snapshot demo_one st' Hr) as (_ & _ & _ & _ & _ & Hres & Hq).
  assert (resources st' !! "gpu-0" = Some (mark_missing (demo_resource "gpu-0" ResourceReady))) as H0
    by (rewrite Hres; vm_compute; reflexivity).
  assert (resources st' !! "gpu-1" = Some (demo_resource "gpu-1" ResourceDegraded)) as H1
    by (rewrite Hres; vm_compute; reflexivity).
  exists st'. split_and!; [done|by eexists|apply Hq|apply Hq]; (split; [by eexists|right; eexists; by split]).
Defined.

(** ** A repeated cleanup confirmation

    [complete_revocation] leaves the lease [Revoked], so the same call is
    accepted again later and frees the resource of whoever holds it then. *)
Definition double_allocation : list op :=
  [acquire_a; Acquire 100 100 (demo_request "x" 1 None); Revoke 200 "a" 7; CompleteRevocation "a" 9;
   acquire_b; CompleteRevocation "a" 9; Acquire 300 300 (demo_request "c" 1 (Some 1000%N))].

(** Two active leases of the ledger hold the same resource after a cleanup
    confirmation is repeated, with every call accepted. *)
Theorem repeated_confirmation_double_allocates :
  let st := run double_allocation demo_start in
  is_ok (outcome (CompleteRevocation "a" 9) (run (take 5 double_allocation) demo_start)) = true /\
  leases st !! "b" = Some (demo_lease "b" "gpu-0" Active 10 (Some 1000%N)) /\
  leases st !! "c" = Some (demo_lease "c" "gpu-0" Active 11 (Some 1000%N)).
Proof. vm_compute. auto. Qed.
