(* ===== verification/Binding.v ===== *)
(** * Device bindings

    [DeviceBinding::merge_environment] and [merge_all] of
    [contracts/rust/cy-kernel-contract/src/adapter.rs], the environment and
    limit overlays of [cy-kernel-daemon/src/convert/worker.rs]. *)
From stdpp Require Import base gmap strings list sorting pretty.
From Stdlib Require Import Ascii Lia ZifyBool ZifyN.
From S2P Require Import Prelude Validation Contract KernelApi.

Definition merge_environment (b : DeviceBinding) (requested : gmap string string)
    : result ProviderError (gmap string string) :=
  if existsb (fun key => bool_decide (is_Some (bind_environment b !! key))) (btree_keys requested) then
    Err (provider_error (bind_adapter_id b) "RESERVED_ENVIRONMENT"
           "plugin attempted to override an Adapter-owned device variable")
  else Ok (bind_environment b ∪ requested).

(** ** Comma-separated lists *)

(** [str::trim] strips the characters with the Unicode property [White_Space]:
    U+0009 to U+000D, U+0020, U+0085, U+00A0, U+1680, U+2000 to U+200A, U+2028,
    U+2029, U+202F, U+205F and U+3000, here as UTF-8 sequences. *)
Definition strip_white (bs : list ascii) : option (list ascii) :=
  match N_of_ascii <$> bs with
  | a :: b :: c :: _ =>
      if ((9 <=? a) && (a <=? 13) || (a =? 32))%N then Some (drop 1 bs)
      else if ((a =? 194) && ((b =? 133) || (b =? 160)))%N then Some (drop 2 bs)
      else if ((a =? 225) && (b =? 154) && (c =? 128))%N then Some (drop 3 bs)
      else if ((a =? 226) && (b =? 128)
               && ((128 <=? c) && (c <=? 138) || (c =? 168) || (c =? 169) || (c =? 175)))%N
      then Some (drop 3 bs)
      else if ((a =? 226) && (b =? 129) && (c =? 159))%N then Some (drop 3 bs)
      else if ((a =? 227) && (b =? 128) && (c =? 128))%N then Some (drop 3 bs)
      else None
  | [a; b] =>
      if ((9 <=? a) && (a <=? 13) || (a =? 32))%N then Some (drop 1 bs)
      else if ((a =? 194) && ((b =? 133) || (b =? 160)))%N then Some (drop 2 bs)
      else None
  | [a] => if ((9 <=? a) && (a <=? 13) || (a =? 32))%N then Some [] else None
  | [] => None
  end.
(** The same at the end of a string, on its reversed bytes. *)
Definition strip_white_back (rbs : list ascii) : option (list ascii) :=
  match rbs with
  | a :: b :: c :: _ =>
      match strip_white [c; b; a], strip_white [b; a], strip_white [a] with
      | Some [], _, _ => Some (drop 3 rbs)
      | _, Some [], _ => Some (drop 2 rbs)
      | _, _, Some [] => Some (drop 1 rbs)
      | _, _, _ => None
      end
  | [a; b] =>
      match strip_white [b; a], strip_white [a] with
      | Some [], _ => Some []
      | _, Some [] => Some [b]
      | _, _ => None
      end
  | [a] => match strip_white [a] with Some [] => Some [] | _ => None end
  | [] => None
  end.
Fixpoint repeat_strip (strip : list ascii -> option (list ascii)) (fuel : nat) (bs : list ascii)
    : list ascii :=
  match fuel with
  | O => bs
  | S fuel => match strip bs with Some rest => repeat_strip strip fuel rest | None => bs end
  end.
(** Each step drops a byte, so the length is enough fuel. *)
Definition trim (bs : list ascii) : list ascii :=
  let bs := repeat_strip strip_white (length bs) bs in
  rev (repeat_strip strip_white_back (length bs) (rev bs)).

Definition split_csv (value : string) : list string :=
  filter (fun part => part <> "") ((fun part => of_bytes (trim part)) <$> split_byte "," (bytes value)).

(** [if !values.contains(&v) { values.push(v) }] *)
Definition push_unique {A} `{EqDecision A} (values : list A) (v : A) : list A :=
  if decide (v ∈ values) then values else values ++ [v].

Definition ordered_unique (values : list string) : list string := foldl push_unique [] values.

Fixpoint join (sep : string) (values : list string) : string :=
  match values with
  | [] => ""
  | [v] => v
  | v :: rest => v +:+ sep +:+ join sep rest
  end.

Definition join_unique_csv (existing : option string) (incoming : string) : string :=
  let values := match existing with Some e => split_csv e | None => [] end in
  join "," (foldl push_unique values (split_csv incoming)).

(** ** Merging the bindings of one lease *)
Record merge_state := mk_merge {
  mg_nodes : list DeviceNode;
  mg_environment : gmap string string;
  mg_joinable : gset string;
  mg_required_gids : list N;
  mg_adapter_ids : list string;
  mg_resource_ids : list string;
}.

(** [if !nodes.iter().any(|existing| existing.path == node.path) { nodes.push(node) }] *)
Definition push_node (nodes : list DeviceNode) (node : DeviceNode) : list DeviceNode :=
  if existsb (fun existing => bool_decide (node_path existing = node_path node)) nodes then nodes
  else nodes ++ [node].

(** One iteration of the environment loop. *)
Definition merge_entry (binding : DeviceBinding) (acc : gmap string string * gset string)
    (entry : string * string) : result ProviderError (gmap string string * gset string) :=
  let '(environment, joinable) := acc in
  let '(key, value) := entry in
  let this_joinable := bool_decide (key ∈ bind_joinable_environment_keys binding) in
  let already_joinable := bool_decide (key ∈ joinable) in
  if bool_decide (is_Some (environment !! key)) && negb (Bool.eqb this_joinable already_joinable) then
    Err (provider_error "kernel-daemon" "MIXED_ENVIRONMENT_MERGE" key)
  else if this_joinable || already_joinable then
    Ok (<[key := join_unique_csv (environment !! key) value]> environment, {[key]} ∪ joinable)
  else match environment !! key with
  | Some existing =>
      if negb (bool_decide (existing = value)) then
        Err (provider_error "kernel-daemon" "CONFLICTING_RESOURCE_ENVIRONMENT" key)
      else Ok (environment, joinable)
  | None => Ok (<[key := value]> environment, joinable)
  end.

Fixpoint try_fold {E A S} (f : S -> A -> result E S) (s : S) (xs : list A) : result E S :=
  match xs with
  | [] => Ok s
  | x :: xs => s ← f s x; try_fold f s xs
  end.

Definition merge_binding (enforcement : EnforcementMode) (s : merge_state) (binding : DeviceBinding)
    : result ProviderError merge_state :=
  if negb (bool_decide (bind_enforcement binding = enforcement)) then
    Err (provider_error "kernel-daemon" "MIXED_RESOURCE_ENFORCEMENT"
           "a multi-resource binding must use one enforcement mode")
  else
    let adapter_ids := push_unique (mg_adapter_ids s) (bind_adapter_id binding) in
    let resource_ids := foldl push_unique (mg_resource_ids s) (split_csv (bind_resource_id binding)) in
    let nodes := foldl push_node (mg_nodes s) (bind_nodes binding) in
    '(environment, joinable) ← try_fold (merge_entry binding) (mg_environment s, mg_joinable s)
                                 (btree_iter (bind_environment binding));
    Ok (mk_merge nodes environment (joinable ∪ bind_joinable_environment_keys binding)
          (foldl push_unique (mg_required_gids s) (bind_required_gids binding)) adapter_ids resource_ids).

Definition merge_all (bindings : list DeviceBinding) : result ProviderError DeviceBinding :=
  match bindings with
  | [] => Ok (mk_binding "none" [] ∅ ∅ [] EUnenforced "kernel-daemon" "NO_RESOURCE_BINDING")
  | first :: rest =>
      s ← try_fold (merge_binding (bind_enforcement first))
            (mk_merge (bind_nodes first) (bind_environment first) (bind_joinable_environment_keys first)
               (bind_required_gids first) [bind_adapter_id first]
               (ordered_unique (split_csv (bind_resource_id first)))) rest;
      Ok (mk_binding (join "," (mg_resource_ids s)) (mg_nodes s) (mg_environment s) (mg_joinable s)
            (mg_required_gids s) (bind_enforcement first)
            (join "," (merge_sort key_le (mg_adapter_ids s)))
            "RESOURCE_BINDING_CREATED_BY_UDS_ADAPTERS")
  end.

(** ** Overlays of [convert/worker.rs] *)
Record WorkerHeartbeatConfig := mk_heartbeat {
  hb_socket_path : string;
  hb_interval : N;
  hb_timeout : N;
  hb_graceful_stop : N;
  hb_shutdown_ack_timeout : N;
}.
Definition WorkerHeartbeatConfig_default : WorkerHeartbeatConfig :=
  mk_heartbeat "/run/cyrene/kernel.sock" 5000000000 20000000000 10000000000 3000000000.

Definition limit_rejection (name : string) : Rejection :=
  mk_rejection "WORKER_LIMIT_UNSUPPORTED" ("unsupported Worker limit or unit: " +:+ name).

Definition enforce_limit (limits : CgroupLimits) (entry : string * Quantity) : result Rejection CgroupLimits :=
  let '(name, quantity) := entry in
  if (qty_value quantity =? 0)%N then Err (limit_rejection name)
  else if bool_decide (name = "memory.bytes") && bool_decide (qty_unit quantity = "byte") then
    Ok (mk_limits (lim_cpu_max_millicores limits)
          (Some (map_or (qty_value quantity) (N.min (qty_value quantity)) (lim_memory_max_bytes limits)))
          (lim_cpuset_cpus limits))
  else if bool_decide (name = "cpu.time") && bool_decide (qty_unit quantity = "millicore") then
    if (u32_max <? qty_value quantity)%N then Err (limit_rejection name)
    else Ok (mk_limits
          (Some (map_or (qty_value quantity) (N.min (qty_value quantity)) (lim_cpu_max_millicores limits)))
          (lim_memory_max_bytes limits) (lim_cpuset_cpus limits))
  else Err (limit_rejection name).

Definition enforced_worker_limits (lease : CgroupLimits) (requested : gmap string Quantity)
    : result Rejection CgroupLimits :=
  try_fold enforce_limit lease (btree_iter requested).

Definition heartbeat_variables (heartbeat : WorkerHeartbeatConfig) (instance_name : string) (generation : N)
    : list (string * string) :=
  [("CYRENE_HEARTBEAT_SOCKET", hb_socket_path heartbeat);
   ("CYRENE_WORKER_CONTROL_SOCKET", hb_socket_path heartbeat);
   ("CYRENE_PLUGIN_INSTANCE_NAME", instance_name);
   ("CYRENE_PLUGIN_INSTANCE_GENERATION", pretty generation);
   ("CYRENE_HEARTBEAT_INTERVAL_MS", pretty (hb_interval heartbeat / 1000000)%N)].

Definition inject_heartbeat_environment (environment : gmap string string)
    (heartbeat : WorkerHeartbeatConfig) (instance_name : string) (generation : N)
    : result ProviderError (gmap string string) :=
  let injected := heartbeat_variables heartbeat instance_name generation in
  if existsb (fun '(key, _) => bool_decide (is_Some (environment !! key))) injected then
    Err (provider_error "kernel-daemon" "RESERVED_HEARTBEAT_ENVIRONMENT"
           "installation record attempted to override Kernel heartbeat configuration")
  else Ok (foldl (fun m '(key, value) => <[key := value]> m) environment injected).
