(* ===== verification/CsvSpec.v ===== *)
(** * Comma-separated lists

    Splitting at a byte, trimming, and the lists the bindings join: a list that
    was joined splits into the same items. *)
From stdpp Require Import base gmap strings list sorting pretty.
From Stdlib Require Import Ascii Lia ZifyBool ZifyN.
From S2P Require Import Prelude Validation Contract KernelApi Binding.

(** ** Splitting at a byte *)
Lemma split_byte_cons sep c bs :
  split_byte sep (c :: bs) = if decide (c = sep) then [] :: split_byte sep bs
                    else match split_byte sep bs with [] => [[c]] | part :: rest => (c :: part) :: rest end.
Proof. done. Qed.
Lemma split_byte_nonempty sep bs : split_byte sep bs <> [].
Proof. destruct bs as [|c bs]; [done|]. rewrite split_byte_cons. by repeat case_match. Qed.
Lemma split_byte_free sep bs : Forall (fun part => sep ∉ part) (split_byte sep bs).
Proof.
  induction bs as [|c bs IH]; [constructor; [apply not_elem_of_nil|constructor]|].
  rewrite split_byte_cons. case_decide; [constructor; [apply not_elem_of_nil|done]|].
  destruct (split_byte sep bs) as [|part parts]; inversion IH; subst; constructor; set_solver.
Qed.
Lemma split_byte_app sep part bs : sep ∉ part -> split_byte sep (part ++ sep :: bs) = part :: split_byte sep bs.
Proof.
  induction part as [|c part IH]; intros Hn; cbn [app]; rewrite split_byte_cons; [by rewrite decide_True|].
  rewrite decide_False by set_solver. by rewrite IH by set_solver.
Qed.
Lemma split_byte_single sep part : sep ∉ part -> split_byte sep part = [part].
Proof.
  induction part as [|c part IH]; intros Hn; [done|]. rewrite split_byte_cons, decide_False by set_solver.
  by rewrite IH by set_solver.
Qed.

(** ** Trimming *)
Definition white1 (a : ascii) : bool := let a := N_of_ascii a in ((9 <=? a) && (a <=? 13) || (a =? 32))%N.
Definition white2 (a b : ascii) : bool :=
  let a := N_of_ascii a in let b := N_of_ascii b in ((a =? 194) && ((b =? 133) || (b =? 160)))%N.
Definition white3 (a b c : ascii) : bool :=
  let a := N_of_ascii a in let b := N_of_ascii b in let c := N_of_ascii c in
  ((a =? 225) && (b =? 154) && (c =? 128)
   || ((a =? 226) && (b =? 128) && ((128 <=? c) && (c <=? 138) || (c =? 168) || (c =? 169) || (c =? 175)))
   || ((a =? 226) && (b =? 129) && (c =? 159)) || ((a =? 227) && (b =? 128) && (c =? 128)))%N.
(** What [strip_white] drops, by the length of the sequence. *)
Lemma strip_white_cases bs : strip_white bs =
  match bs with
  | [] => None
  | [a] => if white1 a then Some [] else None
  | [a; b] => if white1 a then Some [b] else if white2 a b then Some [] else None
  | a :: b :: c :: rest =>
      if white1 a then Some (b :: c :: rest) else if white2 a b then Some (c :: rest)
      else if white3 a b c then Some rest else None
  end.
Proof.
  destruct bs as [|a [|b [|c bs]]]; try reflexivity.
  unfold strip_white, white3. cbn -[N.eqb N.leb N_of_ascii]. fold (white1 a). destruct (white1 a); [done|].
  fold (white2 a b). destruct (white2 a b); [done|].
  destruct ((N_of_ascii a =? 225) && _ && _)%N; [done|].
  destruct ((N_of_ascii a =? 226) && _ && _)%N; [done|].
  destruct ((N_of_ascii a =? 226) && _ && _)%N; [done|].
  by destruct ((N_of_ascii a =? 227) && _ && _)%N.
Qed.
Lemma strip_white_drop bs rest : strip_white bs = Some rest -> exists n, (0 < n)%nat /\ rest = drop n bs /\ bs <> [].
Proof.
  rewrite strip_white_cases. destruct bs as [|a [|b [|c bs]]]; [done|..].
  - destruct (white1 a); [|done]. intros [= <-]. by exists 1%nat; split_and!; [lia|..].
  - destruct (white1 a); [intros [= <-]; by exists 1%nat; split_and!; [lia|..]|].
    destruct (white2 a b); [|done]. intros [= <-]. by exists 2%nat; split_and!; [lia|..].
  - destruct (white1 a); [intros [= <-]; by exists 1%nat; split_and!; [lia|..]|].
    destruct (white2 a b); [intros [= <-]; by exists 2%nat; split_and!; [lia|..]|].
    destruct (white3 a b c); [|done]. intros [= <-]. by exists 3%nat; split_and!; [lia|..].
Qed.
Lemma strip_white_back_drop bs rest : strip_white_back bs = Some rest -> exists n, (0 < n)%nat /\ rest = drop n bs /\ bs <> [].
Proof.
  assert (forall n, (0 < n)%nat -> bs <> [] -> Some (drop n bs) = Some rest ->
    exists n, (0 < n)%nat /\ rest = drop n bs /\ bs <> []) as Hdrop by (intros n ? ? [= <-]; by exists n).
  destruct bs as [|a [|b [|c bs]]]; unfold strip_white_back; [done|..].
  - destruct (strip_white [a]) as [[|]|]; try done. by apply (Hdrop 1%nat); [lia|].
  - destruct (strip_white [b; a]) as [[|]|]; [by apply (Hdrop 2%nat); [lia|]|..];
      (destruct (strip_white [a]) as [[|]|]; try done; by apply (Hdrop 1%nat); [lia|]).
  - destruct (strip_white [c; b; a]) as [[|]|]; [by apply (Hdrop 3%nat); [lia|]|..];
      (destruct (strip_white [b; a]) as [[|]|]; [by apply (Hdrop 2%nat); [lia|]|..]);
      (destruct (strip_white [a]) as [[|]|]; try done; by apply (Hdrop 1%nat); [lia|]).
Qed.
Lemma strip_white_prefix p q : strip_white (p ++ q) = None -> strip_white p = None.
Proof.
  rewrite !strip_white_cases. destruct p as [|a [|b [|c p]]]; cbn [app]; [done|..].
  - destruct (white1 a); [|done]. by destruct q as [|b [|c q]].
  - destruct (white1 a), (white2 a b); try done; by destruct q as [|c q].
  - by destruct (white1 a), (white2 a b), (white3 a b c).
Qed.

Lemma repeat_strip_drop strip fuel bs :
  (forall bs rest, strip bs = Some rest -> exists n, (0 < n)%nat /\ rest = drop n bs /\ bs <> []) ->
  exists n, repeat_strip strip fuel bs = drop n bs.
Proof.
  intros Hstrip. revert bs. induction fuel as [|fuel IH]; intros bs; simpl; [by exists 0%nat|].
  destruct (strip bs) as [rest|] eqn:Hs; [|by exists 0%nat]. apply Hstrip in Hs as (n & _ & -> & _).
  destruct (IH (drop n bs)) as [k ->]. exists (n + k)%nat. by rewrite drop_drop.
Qed.
Lemma repeat_strip_none strip fuel bs :
  (forall bs rest, strip bs = Some rest -> exists n, (0 < n)%nat /\ rest = drop n bs /\ bs <> []) ->
  (length bs <= fuel)%nat -> strip (repeat_strip strip fuel bs) = None.
Proof.
  intros Hstrip. revert bs. induction fuel as [|fuel IH]; intros bs Hl; simpl.
  - destruct (strip bs) as [rest|] eqn:Hs; [|done]. apply Hstrip in Hs as (n & _ & _ & Hne). by destruct bs; [|simpl in Hl; lia].
  - destruct (strip bs) as [rest|] eqn:Hs; [|done]. apply Hstrip in Hs as (n & Hn & -> & Hne). apply IH.
    rewrite length_drop. destruct bs; [done|simpl in *; lia].
Qed.
Lemma repeat_strip_id strip fuel bs : strip bs = None -> repeat_strip strip fuel bs = bs.
Proof. intros Hs. destruct fuel; simpl; [done|by rewrite Hs]. Qed.

Lemma trim_elem bs c : c ∈ trim bs -> c ∈ bs.
Proof.
  unfold trim. set (front := repeat_strip strip_white (length bs) bs).
  destruct (repeat_strip_drop strip_white (length bs) bs strip_white_drop) as [n Hn]. fold front in Hn.
  destruct (repeat_strip_drop strip_white_back (length front) (rev front) strip_white_back_drop) as [k ->].
  rewrite list_elem_of_In, <- in_rev, <- list_elem_of_In. intros Hc%(subseteq_drop k).
  rewrite list_elem_of_In, <- in_rev, <- list_elem_of_In, Hn in Hc. by apply subseteq_drop in Hc.
Qed.
Lemma trim_trim bs : trim (trim bs) = trim bs.
Proof.
  set (front := repeat_strip strip_white (length bs) bs).
  assert (strip_white front = None) as Hfront by (apply repeat_strip_none; [apply strip_white_drop|lia]).
  set (back := repeat_strip strip_white_back (length front) (rev front)).
  assert (strip_white_back back = None) as Hback.
  { apply repeat_strip_none; [apply strip_white_back_drop|]. by rewrite length_rev. }
  assert (trim bs = rev back) as -> by done.
  assert (strip_white (rev back) = None) as Hwhite.
  { destruct (repeat_strip_drop strip_white_back (length front) (rev front) strip_white_back_drop) as [k Hk]. fold back in Hk.
    apply (strip_white_prefix _ (rev (take k (rev front)))). rewrite <- rev_app_distr, Hk, take_drop, rev_involutive. done. }
  unfold trim. rewrite (repeat_strip_id _ _ _ Hwhite), rev_involutive, (repeat_strip_id _ _ _ Hback). done.
Qed.

(** ** Items *)

(** The items of a comma-separated value: trimmed, without empty ones. *)
Definition csv_items (value : string) : list string :=
  filter (fun part => part <> "") ((fun part => of_bytes (trim part)) <$> split_byte "," (bytes value)).
(** The first occurrences, in order. *)
Fixpoint firsts (items : list string) : list string :=
  match items with
  | [] => []
  | item :: rest => item :: filter (fun other => other <> item) (firsts rest)
  end.

Lemma elem_of_firsts l x : x ∈ firsts l <-> x ∈ l.
Proof.
  induction l as [|y l IH]; [done|]. cbn [firsts]. rewrite !elem_of_cons, list_elem_of_filter, IH.
  destruct (decide (x = y)); naive_solver.
Qed.
Lemma firsts_app a b : firsts (a ++ b) = firsts a ++ filter (fun x => x ∉ a) (firsts b).
Proof.
  induction a as [|y a IH]; cbn [app firsts].
  { induction (firsts b) as [|x l IH]; [done|]. rewrite filter_cons_True by apply not_elem_of_nil. by f_equal. }
  rewrite IH, filter_app. cbn [app]. f_equal. f_equal. rewrite list_filter_filter. apply list_filter_iff.
  intros x. rewrite not_elem_of_cons. naive_solver.
Qed.
Lemma firsts_congr a a' b : firsts a = firsts a' -> firsts (a ++ b) = firsts (a' ++ b).
Proof.
  intros Heq. rewrite !firsts_app, Heq. f_equal. apply list_filter_iff. intros x.
  by rewrite <- (elem_of_firsts a), <- (elem_of_firsts a'), Heq.
Qed.
Lemma firsts_push (vs : list string) v : firsts (push_unique vs v) = firsts (vs ++ [v]).
Proof.
  unfold push_unique. case_decide as Hv; [|done]. rewrite firsts_app. change (firsts [v]) with [v].
  rewrite filter_cons_False by (intros ?; done). by rewrite app_nil_r.
Qed.
Lemma firsts_foldl_push (ws vs : list string) : firsts (foldl push_unique vs ws) = firsts (vs ++ ws).
Proof.
  revert vs. induction ws as [|w ws IH]; intros vs; [by rewrite app_nil_r|]. cbn [foldl]. rewrite IH.
  rewrite (firsts_congr _ _ ws (firsts_push vs w)). by rewrite <- app_assoc.
Qed.

Lemma firsts_subset a b : b ⊆ a -> firsts (a ++ b) = firsts a.
Proof.
  intros Hb. rewrite firsts_app, (elem_of_nil_inv (filter _ (firsts b))); [by rewrite app_nil_r|].
  intros x. rewrite list_elem_of_filter, elem_of_firsts. intros [Hn Hx]. by apply Hn, Hb.
Qed.

Definition clean_item (item : string) : Prop :=
  item <> "" /\ (","%char ∉ bytes item) /\ trim (bytes item) = bytes item.
Lemma bytes_of_bytes bs : bytes (of_bytes bs) = bs.
Proof. apply String.list_ascii_of_string_of_list_ascii. Qed.
Lemma of_bytes_bytes s : of_bytes (bytes s) = s.
Proof. apply String.string_of_list_ascii_of_string. Qed.
Lemma bytes_concat a b : bytes (a +:+ b) = bytes a ++ bytes b.
Proof. unfold bytes. induction a as [|c a IH]; [done|]. simpl. by rewrite <- IH. Qed.
Lemma csv_items_clean value : Forall clean_item (csv_items value).
Proof.
  apply Forall_forall. intros item. unfold csv_items. rewrite list_elem_of_filter, list_elem_of_fmap.
  intros (Hne & part & -> & Hpart). split; [done|]. rewrite bytes_of_bytes. split; [|apply trim_trim].
  intros Hc%trim_elem. pose proof (split_byte_free "," (bytes value)) as Hf. rewrite Forall_forall in Hf.
  by apply (Hf part).
Qed.
Lemma split_join_csv items : Forall clean_item items -> items <> [] ->
  split_byte "," (bytes (join "," items)) = bytes <$> items.
Proof.
  induction 1 as [|item items (Hne & Hc & Ht) Hall IH]; [done|]. intros _.
  destruct items as [|item' items]; [by apply split_byte_single|].
  change (join "," (item :: item' :: items)) with (item +:+ "," +:+ join "," (item' :: items)).
  rewrite !bytes_concat. change (bytes ",") with [","%char]. cbn [app]. rewrite split_byte_app by done.
  by rewrite IH by done.
Qed.
(** What was joined splits into the same items. *)
Lemma csv_items_join items : Forall clean_item items -> csv_items (join "," items) = items.
Proof.
  intros Hall. destruct (decide (items = [])) as [->|Hne]; [done|]. unfold csv_items. rewrite split_join_csv by done.
  clear Hne. induction Hall as [|item items (Hne & Hc & Ht) Hall IH]; [done|]. cbn [fmap list_fmap].
  rewrite Ht, of_bytes_bytes, filter_cons_True by done. by f_equal.
Qed.
Lemma join_unique_items existing incoming :
  firsts (csv_items (join_unique_csv existing incoming)) =
  firsts (match existing with Some e => csv_items e | None => [] end ++ csv_items incoming).
Proof.
  unfold join_unique_csv. change (split_csv incoming) with (csv_items incoming).
  set (old := match existing with Some e => split_csv e | None => [] end).
  assert (old = match existing with Some e => csv_items e | None => [] end) as <- by done.
  rewrite csv_items_join; [apply firsts_foldl_push|].
  assert (Forall clean_item old) as Hold by (unfold old; destruct existing; [apply csv_items_clean|constructor]).
  pose proof (csv_items_clean incoming) as Hin. revert Hold. generalize old. clear old.
  induction Hin as [|item items Hi Hin IH]; intros vs Hvs; [done|]. cbn [foldl]. apply IH.
  unfold push_unique. case_decide; [done|]. apply Forall_app. split; [done|]. by apply Forall_singleton.
Qed.
