(* ===== verification/BindingSpec.v ===== *)
(** * Properties of device bindings and launch overlays

    What a merged binding holds, how the environment of a launched worker is
    made up, that limits only tighten, and a conflict the merge lets through. *)
From stdpp Require Import base gmap strings list sorting pretty.
From Stdlib Require Import Ascii Lia ZifyBool ZifyN.
From S2P Require Import Prelude Validation Contract KernelApi Binding CsvSpec.

Lemma try_fold_app {E A S} (f : S -> A -> result E S) s xs ys :
  try_fold f s (xs ++ ys) = (s' ← try_fold f s xs; try_fold f s' ys).
Proof. revert s. induction xs as [|x xs IH]; intros s; simpl; [done|]. destruct (f s x); simpl; [apply IH|done]. Qed.

(** An invariant of a fold that may stop with an error, over the elements
    consumed so far. *)
Lemma try_fold_inv {E A S} (f : S -> A -> result E S) (P : list A -> S -> Prop) s xs s' :
  (forall done s x s', P done s -> f s x = Ok s' -> P (done ++ [x]) s') ->
  P [] s -> try_fold f s xs = Ok s' -> P xs s'.
Proof.
  intros Hstep. cut (forall pre s, P pre s -> try_fold f s xs = Ok s' -> P (pre ++ xs) s').
  { intros Hcut H0. apply (Hcut [] s H0). }
  induction xs as [|x xs IH]; intros pre s0 HP; simpl.
  - intros [= ->]. by rewrite app_nil_r.
  - intros (s1 & H1 & H2)%result_bind_Ok. rewrite cons_middle, app_assoc. eapply IH; eauto.
Qed.

Lemma push_unique_NoDup {A} `{EqDecision A} (vs : list A) v : NoDup vs -> NoDup (push_unique vs v).
Proof.
  unfold push_unique. case_decide; [done|]. intros. apply NoDup_app. split_and!; [done|set_solver|].
  apply NoDup_singleton.
Qed.
Lemma foldl_push_NoDup {A} `{EqDecision A} (ws vs : list A) : NoDup vs -> NoDup (foldl push_unique vs ws).
Proof. revert vs. induction ws; simpl; auto using push_unique_NoDup. Qed.








(** ** The environment of a launched Worker *)
Lemma foldl_insert_lookup (vars : list (string * string)) env k :
  NoDup vars.*1 ->
  foldl (fun (m : gmap string string) '(key, value) => <[key := value]> m) env vars !! k
  = match (list_to_map vars : gmap string string) !! k with Some v => Some v | None => env !! k end.
Proof.
  revert env. induction vars as [|[key value] vars IH]; intros env; cbn [foldl]; [simpl; by rewrite lookup_empty|].
  rewrite fmap_cons, NoDup_cons. simpl. intros [Hni Hnd]. rewrite IH by done.
  destruct (decide (k = key)) as [->|Hne].
  - rewrite !lookup_insert_eq. by rewrite not_elem_of_list_to_map_1.
  - by rewrite !lookup_insert_ne.
Qed.
Lemma heartbeat_keys_NoDup hb name g : NoDup (heartbeat_variables hb name g).*1.
Proof. apply (bool_decide_unpack _). vm_compute. exact I. Qed.

Lemma inject_Ok env hb name g env1 :
  inject_heartbeat_environment env hb name g = Ok env1 ->
  env ##ₘ list_to_map (heartbeat_variables hb name g) /\
  env1 = env ∪ list_to_map (heartbeat_variables hb name g).
Proof.
  unfold inject_heartbeat_environment. generalize (heartbeat_keys_NoDup hb name g).
  generalize (heartbeat_variables hb name g) as hv. intros hv Hnd.
  destruct (existsb _ hv) eqn:H1; [done|]. intros [= <-].
  assert (env ##ₘ list_to_map hv) as Hd.
  { apply map_disjoint_spec. intros k v w Hv Hw. apply not_true_iff_false in H1. apply H1.
    apply existsb_exists. exists (k, w). split; [|apply bool_decide_eq_true; by eexists].
    by apply list_elem_of_In, elem_of_list_to_map_2. }
  split; [done|]. apply map_eq. intros k. rewrite foldl_insert_lookup by done.
  rewrite map_union_comm, lookup_union by done.
  by destruct (list_to_map hv !! k), (env !! k).
Qed.
Lemma merge_environment_Ok b env env2 :
  merge_environment b env = Ok env2 -> env ##ₘ bind_environment b /\ env2 = env ∪ bind_environment b.
Proof.
  unfold merge_environment. destruct (existsb _ _) eqn:H2; [done|]. intros [= <-].
  assert (env ##ₘ bind_environment b) as Hd.
  { apply map_disjoint_spec. intros k v w Hv Hw. apply not_true_iff_false in H2. apply H2.
    apply existsb_exists. exists k. split; [|apply bool_decide_eq_true; by eexists].
    apply list_elem_of_In, elem_of_btree_keys. by eexists. }
  split; [done|]. by rewrite map_union_comm.
Qed.

(** What a Worker's environment is made of: the installation's own
    variables unchanged, the Kernel's heartbeat variables and the Adapter's
    device variables; none can override another, since any overlap is
    rejected. *)
Theorem launch_environment_partition b env hb name g env1 env2 :
  inject_heartbeat_environment env hb name g = Ok env1 -> merge_environment b env1 = Ok env2 ->
  let vars : gmap string string := list_to_map (heartbeat_variables hb name g) in
  env ##ₘ vars /\ env ∪ vars ##ₘ bind_environment b /\ env2 = env ∪ vars ∪ bind_environment b.
Proof. intros [Hd ->]%inject_Ok [Hd2 ->]%merge_environment_Ok. done. Qed.

(** ** Limits *)
Definition limit_le (a b : option N) : Prop :=
  match a, b with
  | Some x, Some y => (x <= y)%N
  | _, None => True
  | None, Some _ => False
  end.
Lemma enforce_limit_tightens l k q l' :
  enforce_limit l (k, q) = Ok l' ->
  limit_le (lim_memory_max_bytes l') (lim_memory_max_bytes l) /\
  limit_le (lim_cpu_max_millicores l') (lim_cpu_max_millicores l) /\
  lim_cpuset_cpus l' = lim_cpuset_cpus l /\ (0 < qty_value q)%N /\
  ((k = "memory.bytes" /\ qty_unit q = "byte" /\ limit_le (lim_memory_max_bytes l') (Some (qty_value q))) \/
   (k = "cpu.time" /\ qty_unit q = "millicore" /\ limit_le (lim_cpu_max_millicores l') (Some (qty_value q)))).
Proof.
  unfold enforce_limit. destruct (N.eqb_spec (qty_value q) 0) as [|Hpos]; [done|].
  destruct (bool_decide_reflect (k = "memory.bytes")), (bool_decide_reflect (qty_unit q = "byte"));
    cbn [andb]; [intros [= <-]| | |];
    [split_and!; [..|lia|left]; [|by destruct (lim_cpu_max_millicores l); simpl; [lia|]|done|split_and!; try done];
     destruct (lim_memory_max_bytes l); simpl; try done; lia| | |].
  all: destruct (bool_decide_reflect (k = "cpu.time")), (bool_decide_reflect (qty_unit q = "millicore"));
    cbn [andb]; try done; destruct (N.ltb_spec u32_max (qty_value q)); [done|]; intros [= <-];
    (split_and!; [..|lia|right]; [by destruct (lim_memory_max_bytes l); simpl; [lia|]| |done|split_and!; try done];
     destruct (lim_cpu_max_millicores l); simpl; try done; lia).
Qed.
Lemma limit_le_trans a b c : limit_le a b -> limit_le b c -> limit_le a c.
Proof. destruct a, b, c; simpl; try done; lia. Qed.

(** A Worker can only tighten the limits of its lease: the enforced limits
    are at most the lease's and at most every requested one, the CPU set is the
    lease's, and every request is a positive amount of memory in bytes or of
    CPU time in millicores. *)
Theorem worker_limits_tighten lease requested l :
  enforced_worker_limits lease requested = Ok l ->
  limit_le (lim_memory_max_bytes l) (lim_memory_max_bytes lease) /\
  limit_le (lim_cpu_max_millicores l) (lim_cpu_max_millicores lease) /\
  lim_cpuset_cpus l = lim_cpuset_cpus lease /\
  (forall k q, requested !! k = Some q -> (0 < qty_value q)%N /\
     ((k = "memory.bytes" /\ qty_unit q = "byte" /\ limit_le (lim_memory_max_bytes l) (Some (qty_value q))) \/
      (k = "cpu.time" /\ qty_unit q = "millicore" /\ limit_le (lim_cpu_max_millicores l) (Some (qty_value q))))).
Proof.
  unfold enforced_worker_limits. intros Hf.
  apply (try_fold_inv _ (fun pre l =>
    limit_le (lim_memory_max_bytes l) (lim_memory_max_bytes lease) /\
    limit_le (lim_cpu_max_millicores l) (lim_cpu_max_millicores lease) /\
    lim_cpuset_cpus l = lim_cpuset_cpus lease /\
    (forall k q, (k, q) ∈ pre -> (0 < qty_value q)%N /\
     ((k = "memory.bytes" /\ qty_unit q = "byte" /\ limit_le (lim_memory_max_bytes l) (Some (qty_value q))) \/
      (k = "cpu.time" /\ qty_unit q = "millicore" /\ limit_le (lim_cpu_max_millicores l) (Some (qty_value q))))))) in Hf.
  - destruct Hf as (? & ? & ? & Hall). split_and!; try done. intros k q Hkq. by apply Hall, elem_of_btree_iter.
  - intros pre l0 [k q] l1 (Hm & Hc & Hs & Hall) H1.
    apply enforce_limit_tightens in H1 as (Hm1 & Hc1 & Hs1 & Hp & Hor).
    split_and!; [eauto using limit_le_trans..|congruence|].
    intros k' q' [Hin|Hin]%elem_of_app.
    + destruct (Hall _ _ Hin) as [? [(? & ? & ?)|(? & ? & ?)]]; (split; [done|]);
        [left|right]; split_and!; try done; eauto using limit_le_trans.
    + apply list_elem_of_singleton in Hin as [= -> ->]. done.
  - split_and!; [by destruct (lim_memory_max_bytes lease); simpl; [lia|]
                |by destruct (lim_cpu_max_millicores lease); simpl; [lia|]|done|set_solver].
Qed.

(** ** Concrete bindings *)
Definition gpu_binding (name visible : string) (joinable : list string) : DeviceBinding :=
  mk_binding name [mk_node ("/dev/" +:+ name) (Some 195%N) (Some 0%N) true]
    {["NVIDIA_VISIBLE_DEVICES" := visible]} (list_to_set joinable) [44%N] EHard "nvidia" "BOUND".


Definition plain_environment : gmap string string := {["LANG" := "C"]}.
Lemma launch_environment_partition_witness :
  exists env1 env2,
    inject_heartbeat_environment plain_environment WorkerHeartbeatConfig_default "w" 7 = Ok env1 /\
    merge_environment (gpu_binding "gpu0" "0" []) env1 = Ok env2 /\
    env2 = plain_environment ∪ list_to_map (heartbeat_variables WorkerHeartbeatConfig_default "w" 7)
             ∪ bind_environment (gpu_binding "gpu0" "0" []).
Proof.
  assert (is_ok (env ← inject_heartbeat_environment plain_environment WorkerHeartbeatConfig_default "w" 7;
                 merge_environment (gpu_binding "gpu0" "0" []) env) = true) as Hok by (vm_compute; reflexivity).
  revert Hok.
  destruct (inject_heartbeat_environment plain_environment WorkerHeartbeatConfig_default "w" 7) as [env1|] eqn:H1;
    [|done]. cbn.
  destruct (merge_environment (gpu_binding "gpu0" "0" []) env1) as [env2|] eqn:H2; [|done]. intros _.
  exists env1, env2. split_and!; [done..|].
  apply (launch_environment_partition _ _ _ _ _ _ _ H1 H2).
Defined.

Definition limit_request : gmap string Quantity := {["memory.bytes" := mk_quantity 1024 "byte"]}.
Lemma worker_limits_tighten_witness :
  exists l, enforced_worker_limits (mk_limits None (Some 4096%N) None) limit_request = Ok l /\
    limit_le (lim_memory_max_bytes l) (Some 4096%N).
Proof.
  assert (enforced_worker_limits (mk_limits None (Some 4096%N) None) limit_request
          = Ok (mk_limits None (Some 1024%N) None)) as H by (vm_compute; reflexivity).
  eexists. split; [exact H|]. exact (proj1 (worker_limits_tighten _ _ _ H)).
Defined.

(** A resource that only declares a key joinable, without a value, turns the
    exclusive value of an earlier resource into a joined one. *)
Definition declares_joinable : DeviceBinding :=
  mk_binding "link0" [] ∅ {["NVIDIA_VISIBLE_DEVICES"]} [] EHard "link" "BOUND".

(** Two resources with different values for a key that the first one owns
    exclusively are rejected, but a third resource between them that declares
    the key joinable lets the same conflict through as a joined value. *)
Theorem exclusive_value_joined :
  is_err (merge_all [gpu_binding "gpu0" "0" []; gpu_binding "gpu1" "1" ["NVIDIA_VISIBLE_DEVICES"]]) = true /\
  exists b, merge_all [gpu_binding "gpu0" "0" []; declares_joinable;
                       gpu_binding "gpu1" "1" ["NVIDIA_VISIBLE_DEVICES"]] = Ok b /\
    bind_environment b !! "NVIDIA_VISIBLE_DEVICES" = Some "0,1".
Proof. split; [vm_compute; reflexivity|]. eexists. split; [vm_compute; reflexivity|]. vm_compute. reflexivity. Qed.
