(* ===== verification/Environment.v ===== *)
(** * The outside world of the Kernel

    What the Kernel reaches through its ports and does not implement itself:
    clocks, the sandbox backend ([ProcessRuntime] and [SandboxBackend] of
    [cy-kernel-api/src/ports.rs]), the adapters ([HostInventoryProvider],
    [ResourceProvider]), the installation resolver, the runtime journal sink
    and the durable event store ([journal.rs]), and the worker transport
    channels.  A port call reads and changes a world state [W] that the model
    leaves abstract; every theorem over an [Environment] holds for any
    behaviour of these ports. *)
From stdpp Require Import base gmap strings list sorting pretty.
From Stdlib Require Import Ascii Lia ZifyBool ZifyN.
From S2P Require Import Prelude Validation Contract KernelApi.

(** Commands on the worker transport ([watchdog/instance_actor.rs]). *)
Inductive WorkerTransportCommand :=
| TransportRequest (request_id : string) (generation fence_token : N) (payload : list ascii)
| TransportCancel (cancel_request_id target_request_id : string) (generation fence_token : N).

Class Environment (W : Type) := {
  (** [SystemTime::now()] in milliseconds, [Instant::now()] in nanoseconds. *)
  env_now_unix_ms : W -> W * N;
  env_instant : W -> W * N;
  (** [uuid::Uuid::new_v4().to_string()] *)
  env_uuid : W -> W * string;
  (** [SandboxBackend] *)
  env_backend_id : string;
  env_preflight_for_binding : DeviceBinding -> W -> W * NodeCapabilities;
  env_launch : LaunchPlan -> DeviceBinding -> STE W ProviderError ProcessHandle;
  env_stop : ProcessHandle -> StopRequest -> STE W ProviderError CleanupReport;
  (** [HostInventoryProvider], [ResourceProvider] *)
  env_probe_inventory : STE W ProviderError InventorySnapshot;
  env_create_binding_for_generation : Resource -> N -> STE W ProviderError DeviceBinding;
  (** [InstalledPluginResolver] *)
  env_resolve_worker_launch_plan : Worker -> STE W ProviderError ResolvedLaunchPlan;
  (** [RuntimeJournalSink], [DurableEventStore] *)
  env_journal_append : RuntimeJournalRecord -> STE W ProviderError unit;
  env_append_event : DurableEventRecord -> STE W ProviderError unit;
  env_events_for_source : Identity -> string -> STE W ProviderError (option (list DurableEventRecord));
  (** [mpsc::Sender::try_send] on channel [n]; the error is its display text. *)
  env_try_send : N -> WorkerTransportCommand -> STE W string unit;
  (** The order in which iterating a [HashMap] visits its keys: each key once,
      in an order the program does not control. *)
  env_hash_order : W -> gset string -> list string;
  env_hash_order_permutation : forall w s, env_hash_order w s ≡ₚ elements s;
}.
