(* ===== verification/Instance.v ===== *)
(** * Sandboxed processes and instance actors

    [cy-kernel-daemon/src/sandboxed_process.rs] ([SandboxedProcess]) and
    [cy-kernel-daemon/src/watchdog/instance_actor.rs] ([InstanceActor]): launch,
    bounded stop and cleanup truth of one process, and the supervision state
    with crash quarantine around it. *)
From stdpp Require Import base gmap strings list sorting pretty.
From Stdlib Require Import Ascii Lia ZifyBool ZifyN.
From S2P Require Import Prelude Validation Contract KernelApi Environment.

Inductive SandboxedProcessState :=
| SpDiscovered | SpStarting | SpHealthy | SpStopping | SpStopped | SpQuarantined.
#[export] Instance SandboxedProcessState_eq_dec : EqDecision SandboxedProcessState.
Proof. solve_decision. Defined.

Record SandboxedProcess := mk_process {
  sp_plan : LaunchPlan;
  sp_binding : DeviceBinding;
  sp_handle : option ProcessHandle;
  sp_state : SandboxedProcessState;
  sp_last_cleanup : option CleanupReport;
}.

Definition SandboxedProcess_new (plan : LaunchPlan) (binding : DeviceBinding) : SandboxedProcess :=
  mk_process plan binding None SpDiscovered None.

Inductive InstanceActorState :=
| IStarting | IHealthy | IDegraded | IDraining | IStopping | IStopped | IQuarantined.
#[export] Instance InstanceActorState_eq_dec : EqDecision InstanceActorState.
Proof. solve_decision. Defined.

Inductive InstanceHealthVerdict := VHealthy | VDeadlineExceeded | VHeartbeatLost | VQuarantined.
#[export] Instance InstanceHealthVerdict_eq_dec : EqDecision InstanceHealthVerdict.
Proof. solve_decision. Defined.

(** A transport sender is the number of its channel; a pending request or
    cancellation is its id (and target), the reply channel being the world's. *)
Record InstanceActor := mk_actor {
  ia_instance_id : string;
  ia_lease_name : string;
  ia_fence_token : N;
  ia_process : SandboxedProcess;
  ia_state : InstanceActorState;
  ia_last_heartbeat : option N;
  ia_heartbeat_deadline : N;
  ia_crash_timestamps : list N;
  ia_generation : N;
  ia_consecutive_timeouts : N;
  ia_transport_tx : option N;
  ia_pending_requests : gset string;
  ia_pending_cancellations : gmap string string;
}.

Definition InstanceActor_new (instance_id lease_name : string) (fence_token : N) (plan : LaunchPlan)
    (binding : DeviceBinding) (heartbeat_deadline : N) : InstanceActor :=
  mk_actor instance_id lease_name fence_token (SandboxedProcess_new plan binding) IStarting None
    heartbeat_deadline [] 0 0 None ∅ ∅.

Definition with_state (s : InstanceActorState) (a : InstanceActor) : InstanceActor :=
  mk_actor (ia_instance_id a) (ia_lease_name a) (ia_fence_token a) (ia_process a) s (ia_last_heartbeat a)
    (ia_heartbeat_deadline a) (ia_crash_timestamps a) (ia_generation a) (ia_consecutive_timeouts a)
    (ia_transport_tx a) (ia_pending_requests a) (ia_pending_cancellations a).
Definition with_process (p : SandboxedProcess) (a : InstanceActor) : InstanceActor :=
  mk_actor (ia_instance_id a) (ia_lease_name a) (ia_fence_token a) p (ia_state a) (ia_last_heartbeat a)
    (ia_heartbeat_deadline a) (ia_crash_timestamps a) (ia_generation a) (ia_consecutive_timeouts a)
    (ia_transport_tx a) (ia_pending_requests a) (ia_pending_cancellations a).
Definition with_heartbeat (t : option N) (a : InstanceActor) : InstanceActor :=
  mk_actor (ia_instance_id a) (ia_lease_name a) (ia_fence_token a) (ia_process a) (ia_state a) t
    (ia_heartbeat_deadline a) (ia_crash_timestamps a) (ia_generation a) (ia_consecutive_timeouts a)
    (ia_transport_tx a) (ia_pending_requests a) (ia_pending_cancellations a).
Definition with_transport (t : option N) (a : InstanceActor) : InstanceActor :=
  mk_actor (ia_instance_id a) (ia_lease_name a) (ia_fence_token a) (ia_process a) (ia_state a)
    (ia_last_heartbeat a) (ia_heartbeat_deadline a) (ia_crash_timestamps a) (ia_generation a)
    (ia_consecutive_timeouts a) t (ia_pending_requests a) (ia_pending_cancellations a).
Definition with_cancellations (m : gmap string string) (a : InstanceActor) : InstanceActor :=
  mk_actor (ia_instance_id a) (ia_lease_name a) (ia_fence_token a) (ia_process a) (ia_state a)
    (ia_last_heartbeat a) (ia_heartbeat_deadline a) (ia_crash_timestamps a) (ia_generation a)
    (ia_consecutive_timeouts a) (ia_transport_tx a) (ia_pending_requests a) m.

Definition actor_error (reason_code message : string) : ProviderError :=
  provider_error "instance-watchdog" reason_code message.

(** *** Methods without port calls *)
Definition attach_transport_channel (tx : N) (a : InstanceActor) : InstanceActor :=
  mk_actor (ia_instance_id a) (ia_lease_name a) (ia_fence_token a) (ia_process a)
    (match ia_state a with IStarting | IStopped => IHealthy | s => s end)
    (ia_last_heartbeat a) (ia_heartbeat_deadline a) (ia_crash_timestamps a) (ia_generation a)
    0 (Some tx) (ia_pending_requests a) (ia_pending_cancellations a).

Definition validate_fence_token (token : N) (a : InstanceActor) : result ProviderError unit :=
  if negb (token =? ia_fence_token a)%N then
    Err (actor_error "FENCE_TOKEN_MISMATCH"
           ("stale fence token " +:+ pretty token +:+ "; active instance lease token is "
            +:+ pretty (ia_fence_token a)))
  else Ok tt.

Definition drain (a : InstanceActor) : InstanceActor :=
  match ia_state a with
  | IHealthy | IDegraded => with_state IDraining a
  | _ => a
  end.

Definition on_heartbeat_received (now : N) (a : InstanceActor) : InstanceActor * InstanceHealthVerdict :=
  if bool_decide (ia_state a = IQuarantined) then (a, VQuarantined)
  else
    let a := with_heartbeat (Some now) a in
    (match ia_state a with IDegraded | IStarting => with_state IHealthy a | _ => a end, VHealthy).

(** [Instant::duration_since] saturates at zero. *)
Definition check_heartbeat_deadline (now : N) (a : InstanceActor) : InstanceActor * InstanceHealthVerdict :=
  if bool_decide (ia_state a = IQuarantined) then (a, VQuarantined)
  else match ia_last_heartbeat a with
  | Some last =>
      if (ia_heartbeat_deadline a <? now - last)%N then (with_state IDegraded a, VDeadlineExceeded)
      else (a, VHealthy)
  | None =>
      if negb (bool_decide (ia_state a = IStarting)) then (with_state IDegraded a, VHeartbeatLost)
      else (a, VHealthy)
  end.

Definition CRASH_WINDOW : N := 60000000000.
Definition in_window (now t : N) : bool := (now - t <=? CRASH_WINDOW)%N.
Definition record_crash (now : N) (a : InstanceActor) : InstanceActor * bool :=
  let crashes := filter (in_window now) (ia_crash_timestamps a ++ [now]) in
  let quarantine := (3 <? length crashes)%nat in
  (mk_actor (ia_instance_id a) (ia_lease_name a) (ia_fence_token a) (ia_process a)
     (if quarantine then IQuarantined else IStopped)
     (ia_last_heartbeat a) (ia_heartbeat_deadline a) crashes (ia_generation a)
     (ia_consecutive_timeouts a) (ia_transport_tx a) (ia_pending_requests a) (ia_pending_cancellations a),
   quarantine).

Definition mark_transport_lost (now : N) (generation fence_token : N) (a : InstanceActor)
    : InstanceActor * bool :=
  if negb (generation =? ia_generation a)%N || negb (fence_token =? ia_fence_token a)%N then (a, false)
  else match ia_transport_tx a with
  | None => (a, false)
  | Some _ =>
      let had_pending_requests := negb (bool_decide (ia_pending_requests a = ∅)) in
      let a := mk_actor (ia_instance_id a) (ia_lease_name a) (ia_fence_token a) (ia_process a) (ia_state a)
        (ia_last_heartbeat a) (ia_heartbeat_deadline a) (ia_crash_timestamps a) (ia_generation a)
        (ia_consecutive_timeouts a) None ∅ (ia_pending_cancellations a) in
      if negb had_pending_requests
         && negb (match ia_state a with IStopping | IStopped | IQuarantined => true | _ => false end)
      then ((record_crash now a).1, true) else (a, true)
  end.

Definition actor_recovery_evidence (a : InstanceActor) : result ProviderError RuntimeProcessEvidence :=
  match sp_handle (ia_process a) with
  | None => Err (actor_error "RECOVERY_EVIDENCE_UNAVAILABLE" "worker process has not started")
  | Some h => recovery_evidence h
  end.

(** *** Methods that reach the sandbox backend *)
Section instance.
Context {W : Type} `{Environment W}.

Definition process_start (p : SandboxedProcess) (w : W)
    : SandboxedProcess * W * result ProviderError ProcessHandle :=
  match sp_handle p with
  | Some handle => (p, w, Ok handle)
  | None =>
      match env_launch (sp_plan p) (sp_binding p) w with
      | (w, Ok handle) =>
          (mk_process (sp_plan p) (sp_binding p) (Some handle) SpHealthy (sp_last_cleanup p), w, Ok handle)
      | (w, Err error) =>
          (mk_process (sp_plan p) (sp_binding p) None SpQuarantined (sp_last_cleanup p), w, Err error)
      end
  end.

Definition not_running_report : CleanupReport := mk_cleanup true None false [] "NOT_RUNNING".

Definition process_stop (request : StopRequest) (p : SandboxedProcess) (w : W)
    : SandboxedProcess * W * result ProviderError CleanupReport :=
  match sp_handle p with
  | None =>
      (mk_process (sp_plan p) (sp_binding p) None SpStopped (Some not_running_report), w,
       Ok not_running_report)
  | Some handle =>
      match env_stop handle request w with
      | (w, Err error) =>
          (mk_process (sp_plan p) (sp_binding p) (Some handle) SpStopping (sp_last_cleanup p), w, Err error)
      | (w, Ok report) =>
          (mk_process (sp_plan p) (sp_binding p) (if cr_complete report then None else Some handle)
             (if cr_complete report then SpStopped else SpQuarantined) (Some report), w, Ok report)
      end
  end.

(** The launch of [InstanceActor::start], after the cleanup of an earlier
    process. *)
Definition actor_launch (a : InstanceActor) (w : W)
    : InstanceActor * W * result ProviderError ProcessHandle :=
  match process_start (ia_process a) w with
  | (p, w, Ok handle) =>
      let '(w, now) := env_instant w in
      (mk_actor (ia_instance_id a) (ia_lease_name a) (ia_fence_token a) p IHealthy (Some now)
         (ia_heartbeat_deadline a) (ia_crash_timestamps a)
         (N.max (u64_wrapping_add (ia_generation a) 1) 1) (ia_consecutive_timeouts a)
         (ia_transport_tx a) (ia_pending_requests a) (ia_pending_cancellations a), w, Ok handle)
  | (p, w, Err error) =>
      let '(w, now) := env_instant w in
      ((record_crash now (with_process p a)).1, w, Err error)
  end.

Definition restart_stop_request : StopRequest := mk_stop_request 500000000 true.

Definition actor_start (a : InstanceActor) (w : W)
    : InstanceActor * W * result ProviderError ProcessHandle :=
  if bool_decide (ia_state a = IQuarantined) then
    (a, w, Err (actor_error "INSTANCE_QUARANTINED" "instance is in quarantine; launch forbidden"))
  else
    let restarting_after_failure :=
      bool_decide (ia_state a = IStopped) && bool_decide (is_Some (sp_handle (ia_process a))) in
    let a := with_state IStarting a in
    if restarting_after_failure then
      let '(p, w, r) := process_stop restart_stop_request (ia_process a) w in
      let a := with_process p a in
      if match r with Ok report => negb (cr_complete report) | Err _ => true end then
        (with_state IQuarantined a, w,
         Err (actor_error "RESTART_CLEANUP_FAILED"
                "previous worker process could not be completely cleaned up"))
      else actor_launch a w
    else actor_launch a w.

Definition actor_stop (request : StopRequest) (a : InstanceActor) (w : W)
    : InstanceActor * W * result ProviderError CleanupReport :=
  let a := with_transport None (with_state IStopping a) in
  match process_stop request (ia_process a) w with
  | (p, w, Err error) => (with_state IQuarantined (with_process p a), w, Err error)
  | (p, w, Ok report) =>
      (with_state (if cr_complete report then IStopped else IQuarantined) (with_process p a), w, Ok report)
  end.

(** The receiver the caller waits on is named by the cancel request id. *)
Definition request_cancel (target_request_id : string) (a : InstanceActor) (w : W)
    : InstanceActor * W * result ProviderError string :=
  match ia_transport_tx a with
  | None =>
      (a, w, Err (actor_error "TRANSPORT_UNAVAILABLE" "instance transport channel not attached"))
  | Some tx =>
      let '(w, uuid) := env_uuid w in
      let cancel_request_id := "cancel-" +:+ uuid in
      let a' := with_cancellations (<[cancel_request_id := target_request_id]> (ia_pending_cancellations a)) a in
      match env_try_send tx (TransportCancel cancel_request_id target_request_id (ia_generation a)
                               (ia_fence_token a)) w with
      | (w, Err error) =>
          (with_cancellations (delete cancel_request_id (ia_pending_cancellations a')) a', w,
           Err (actor_error "CANCEL_DELIVERY_FAILED"
                  ("worker cancellation channel is unavailable or saturated: " +:+ error)))
      | (w, Ok _) => (a', w, Ok cancel_request_id)
      end
  end.
End instance.
