(* ===== verification/InstanceSpec.v ===== *)
(** * Properties of instance actors

    When crashes quarantine an instance, when an actor may forget its process,
    and what an incomplete stop leads to. *)
From stdpp Require Import base gmap strings list sorting pretty.
From Stdlib Require Import Ascii Lia ZifyBool ZifyN.
From S2P Require Import Prelude Validation Contract KernelApi Environment Instance.

(** ** Crash quarantine *)
Fixpoint record_crashes (times : list N) (a : InstanceActor) : InstanceActor :=
  match times with
  | [] => a
  | t :: rest => record_crashes rest (record_crash t a).1
  end.

Lemma filter_filter_window t now (ts : list N) :
  (t <= now)%N -> filter (in_window now) (filter (in_window t) ts) = filter (in_window now) ts.
Proof.
  intros Hle. rewrite list_filter_filter. apply list_filter_iff. intros x. unfold in_window.
  rewrite !Is_true_true. split; [tauto|]. intros Hx. split; [done|]. lia.
Qed.

Lemma record_crashes_window (past times : list N) a now :
  ia_crash_timestamps a = filter (in_window now) past ->
  Sorted N.le (now :: times) ->
  match last times with
  | None => True
  | Some t =>
      ia_crash_timestamps (record_crashes times a) = filter (in_window t) (past ++ times) /\
      (ia_state (record_crashes times a) = IQuarantined <-> (3 < length (filter (in_window t) (past ++ times)))%nat)
  end.
Proof.
  revert past a now. induction times as [|t times IH]; intros past a now Ha Hs; [done|].
  apply Sorted_inv in Hs as [Hs Hh]. apply HdRel_inv in Hh.
  assert (ia_crash_timestamps (record_crash t a).1 = filter (in_window t) (past ++ [t])) as Ht.
  { simpl. rewrite Ha, filter_app, filter_app. by rewrite filter_filter_window. }
  specialize (IH (past ++ [t]) (record_crash t a).1 t Ht Hs).
  rewrite last_cons. cbn [record_crashes]. destruct (last times) as [u|] eqn:Hl.
  - by rewrite <-app_assoc in IH.
  - apply last_None in Hl as ->. cbn [record_crashes]. split; [done|]. rewrite <-Ht. simpl.
    destruct (Nat.ltb_spec 3 (length (filter (in_window t) (ia_crash_timestamps a ++ [t]))));
      split; (done || lia).
Qed.

(** After any series of crashes at non-decreasing times, an instance that
    was created fresh is quarantined exactly when more than three of them fall
    in the sixty seconds before the last one. *)
Theorem quarantine_iff_crash_burst id lease fence plan binding deadline (times : list N) t :
  Sorted N.le times -> last times = Some t ->
  ia_state (record_crashes times (InstanceActor_new id lease fence plan binding deadline)) = IQuarantined <->
  (3 < length (filter (in_window t) times))%nat.
Proof.
  intros Hs Hl.
  pose proof (record_crashes_window [] times (InstanceActor_new id lease fence plan binding deadline) 0
                eq_refl) as Hw.
  rewrite Hl in Hw. simpl in Hw. apply Hw. constructor; [done|]. destruct times; constructor; lia.
Qed.

Section backend.
Context {W : Type} `{Environment W}.

(** The backend confirmed that the process behind [h] is gone. *)
Definition cleaned_up (h : ProcessHandle) : Prop :=
  exists request (w w' : W) report, env_stop h request w = (w', Ok report) /\ cr_complete report = true.

Lemma process_stop_handle request p (w : W) p' w' r h :
  process_stop request p w = (p', w', r) -> sp_handle p = Some h ->
  (sp_handle p' = Some h /\ forall rep, r = Ok rep -> cr_complete rep = false) \/
  (sp_handle p' = None /\ cleaned_up h).
Proof.
  unfold process_stop. intros Hp Hh. rewrite Hh in Hp.
  destruct (env_stop h request w) as [w1 [rep|e]] eqn:Hs; injection Hp as <- <- <-; simpl.
  - destruct (cr_complete rep) eqn:Hc; [right|left]; [split; [done|]; by exists request, w, w1, rep|].
    split; [done|]. by intros ? [= <-].
  - left. by split.
Qed.

(** An actor forgets a running process only after the sandbox backend
    confirmed complete cleanup: starting or stopping it keeps the handle
    otherwise, and never launches a second process over a live one. *)
Theorem handle_lost_only_by_cleanup a (w : W) h :
  sp_handle (ia_process a) = Some h ->
  (forall a' w' r, actor_start a w = (a', w', r) ->
     sp_handle (ia_process a') = Some h \/ cleaned_up h) /\
  (forall request a' w' r, actor_stop request a w = (a', w', r) ->
     sp_handle (ia_process a') = Some h \/ (sp_handle (ia_process a') = None /\ cleaned_up h)).
Proof.
  intros Hh. split.
  - unfold actor_start. intros a' w' r. case_bool_decide; [by intros [= <- <- <-]; left|].
    assert (forall a w a' w' r, sp_handle (ia_process a) = Some h -> actor_launch a w = (a', w', r) ->
              sp_handle (ia_process a') = Some h) as Hlaunch.
    { intros a0 w0 a1 w1 r1 Ha0. unfold actor_launch, process_start. rewrite Ha0.
      destruct (env_instant w0). intros [= <- <- <-]. done. }
    case_match; [|intros Hl; left; by eapply Hlaunch; [|exact Hl]].
    destruct (process_stop _ _ w) as [[p w1] rs] eqn:Hs.
    destruct (process_stop_handle _ _ _ _ _ _ h Hs Hh) as [[Hp _]|[_ Hc]]; [|by right].
    case_match; [by intros [= <- <- <-]; left|]. intros Hl; left. by eapply Hlaunch; [|exact Hl].
  - unfold actor_stop. intros request a' w' r. simpl.
    destruct (process_stop _ _ w) as [[p w1] rs] eqn:Hs.
    destruct (process_stop_handle _ _ _ _ _ _ h Hs Hh) as [[Hp _]|[Hp Hc]];
      destruct rs; intros [= <- <- <-]; simpl; auto.
Qed.

(** A stop that fails or reports incomplete cleanup quarantines the
    instance, and a quarantined instance is neither launched again (the world
    is not touched) nor revived by a heartbeat. *)
Theorem incomplete_stop_quarantines request a (w : W) a' w' r :
  actor_stop request a w = (a', w', r) ->
  (forall rep, r = Ok rep -> cr_complete rep = false) ->
  ia_state a' = IQuarantined /\
  (forall w1, exists e, actor_start a' w1 = (a', w1, Err e)) /\
  (forall now, on_heartbeat_received now a' = (a', VQuarantined)) /\
  (forall now, check_heartbeat_deadline now a' = (a', VQuarantined)).
Proof.
  unfold actor_stop. destruct (process_stop _ _ w) as [[p w1] rs]. intros Hst Hinc.
  assert (ia_state a' = IQuarantined) as Hq.
  { destruct rs as [rep|e]; injection Hst as <- <- <-; simpl; [|done]. by rewrite (Hinc rep eq_refl). }
  split; [done|]. unfold actor_start, on_heartbeat_received, check_heartbeat_deadline.
  rewrite bool_decide_eq_true_2 by done. split_and!; [|done..]. intros. by eexists.
Qed.
End backend.
