(* ===== verification/World.v ===== *)
(** * A concrete world

    An [Environment] that executes: a fixed clock, an in-memory journal that
    accepts a given number of records, an event store that can be told to fail, and
    a sandbox whose cleanup can be told to stay incomplete.  It instantiates the theorems that hold for every
    environment. *)
From stdpp Require Import base gmap strings list sorting pretty.
From Stdlib Require Import Ascii Lia ZifyBool ZifyN.
From S2P Require Import Prelude Validation Contract KernelApi Environment Instance InstanceSpec.

Record world := mk_world {
  wd_clock : N;
  wd_counter : N;
  wd_journal_budget : N;
  wd_journal : list RuntimeJournalRecord;
  wd_store_ok : bool;
  wd_store : list DurableEventRecord;
  wd_cleanup_complete : bool;
  wd_launched : list string;
  wd_inventory : InventorySnapshot;
}.

Definition world_error (reason : string) : ProviderError := provider_error "world" reason "world".
Definition world_handle (n : N) : ProcessHandle := mk_handle n "/sys/fs/cgroup/cyrene/w" (Some 1%N) None.

Lemma bset_iter_permutation (s : gset string) : bset_iter s ≡ₚ elements s.
Proof. apply merge_sort_Permutation. Qed.

#[export] Instance world_environment : Environment world := {|
  env_now_unix_ms w := (w, wd_clock w);
  env_instant w := (w, (wd_clock w * 1000000)%N);
  env_uuid w :=
    (mk_world (wd_clock w) (wd_counter w + 1) (wd_journal_budget w) (wd_journal w) (wd_store_ok w) (wd_store w)
       (wd_cleanup_complete w) (wd_launched w) (wd_inventory w), pretty (wd_counter w));
  env_backend_id := "world";
  env_preflight_for_binding _ w :=
    (w, mk_node_capabilities true [mk_fact "device-bpf-capable" true true "ok"] []);
  env_launch plan _ w :=
    (mk_world (wd_clock w) (wd_counter w) (wd_journal_budget w) (wd_journal w) (wd_store_ok w) (wd_store w)
       (wd_cleanup_complete w) (wd_launched w ++ [plan_instance_name plan]) (wd_inventory w),
     Ok (world_handle (100 + N.of_nat (length (wd_launched w)))));
  env_stop _ _ w :=
    (w, Ok (mk_cleanup (wd_cleanup_complete w) (Some 0%Z) false []
              (if wd_cleanup_complete w then "CLEANUP_COMPLETE" else "PROCESS_UNINTERRUPTIBLE")));
  env_probe_inventory w := (w, Ok (wd_inventory w));
  env_create_binding_for_generation r _ w :=
    (w, Ok (mk_binding (res_id r) [] ∅ ∅ [] EObserveOnly "world" "BOUND"));
  env_resolve_worker_launch_plan wk w :=
    (w, Ok (mk_resolved (mk_installation "inst" "m" "a" "s")
              (mk_plan (ident_id (wk_identity wk)) "/bin/worker" [] ∅ "w" CgroupLimits_default None None)));
  env_journal_append record w :=
    if negb (wd_journal_budget w =? 0)%N then
      (mk_world (wd_clock w) (wd_counter w) (wd_journal_budget w - 1) (wd_journal w ++ [record]) (wd_store_ok w) (wd_store w)
         (wd_cleanup_complete w) (wd_launched w) (wd_inventory w), Ok tt)
    else (w, Err (world_error "JOURNAL_WRITE_FAILED"));
  env_append_event record w :=
    if wd_store_ok w then
      (mk_world (wd_clock w) (wd_counter w) (wd_journal_budget w) (wd_journal w) true (wd_store w ++ [record])
         (wd_cleanup_complete w) (wd_launched w) (wd_inventory w), Ok tt)
    else (w, Err (world_error "EVENT_WRITE_FAILED"));
  env_events_for_source source namespace w :=
    (w, Ok (Some (filter (fun r => ev_source (der_event r) = source /\ der_namespace r = namespace) (wd_store w))));
  env_try_send _ _ w := (w, Ok tt);
  env_hash_order _ s := bset_iter s;
  env_hash_order_permutation _ s := bset_iter_permutation s;
|}.

Definition world_start (cleanup : bool) (inventory : list Resource) : world :=
  mk_world 100 0 1000 [] true [] cleanup [] (mk_inventory 1 inventory (mk_node_capabilities true [] [])).

(** ** Instances of the actor theorems *)
Definition world_plan : LaunchPlan := mk_plan "w" "/bin/worker" [] ∅ "w" CgroupLimits_default None None.
Definition world_binding : DeviceBinding := mk_binding "gpu-0" [] ∅ ∅ [] EHard "world" "BOUND".
Definition fresh_actor : InstanceActor := InstanceActor_new "w" "lease-a" 7 world_plan world_binding 20000000000.
Definition started_actor : InstanceActor := (actor_start fresh_actor (world_start true [])).1.1.

Definition burst : list N := [0; 10000000000; 20000000000; 30000000000]%N.
Lemma quarantine_iff_crash_burst_witness : ia_state (record_crashes burst fresh_actor) = IQuarantined.
Proof.
  apply (quarantine_iff_crash_burst "w" "lease-a" 7 world_plan world_binding 20000000000 burst 30000000000).
  - repeat constructor; vm_compute; discriminate.
  - reflexivity.
  - vm_compute. lia.
Defined.

Lemma handle_lost_only_by_cleanup_witness :
  exists a' w' r, actor_stop (mk_stop_request 0 true) started_actor (world_start false []) = (a', w', r) /\
    (sp_handle (ia_process a') = Some (world_handle 100) \/
     (sp_handle (ia_process a') = None /\ cleaned_up (W := world) (world_handle 100))).
Proof.
  destruct (actor_stop (mk_stop_request 0 true) started_actor (world_start false [])) as [[a' w'] r] eqn:Hs.
  exists a', w', r. split; [reflexivity|].
  exact (proj2 (handle_lost_only_by_cleanup started_actor (world_start false []) (world_handle 100) eq_refl)
           _ _ _ _ Hs).
Defined.

Lemma incomplete_stop_quarantines_witness :
  ia_state (actor_stop (mk_stop_request 0 true) started_actor (world_start false [])).1.1 = IQuarantined.
Proof.
  destruct (actor_stop (mk_stop_request 0 true) started_actor (world_start false [])) as [[a' w'] r] eqn:Hs.
  apply (incomplete_stop_quarantines _ _ _ _ _ _ Hs). intros rep ->. vm_compute in Hs.
  injection Hs as _ _ <-. reflexivity.
Defined.
