(* ===== verification/AuthorityState.v ===== *)
(** * State of the Kernel authority

    [AuthorityRuntime] and the records it holds
    ([cy-kernel-daemon/src/authority.rs], [session.rs]), the monad of the
    authority actions (the runtime and the outside world, with rejections) and
    the helpers the actions share.

    An action takes the mutexes of the runtime one after the other; the model
    runs one action at a time. *)
From stdpp Require Import base gmap strings list sorting pretty.
From Stdlib Require Import Ascii Lia ZifyBool ZifyN.
From S2P Require Import Prelude Validation Contract KernelApi ResourceManager Binding Environment Instance.

(** [core_v1::ResourceLeaseRef] *)
Record ResourceLeaseRef := mk_lease_ref {
  lr_lease_name : string;
  lr_fence_token : N;
}.

Record PendingWorkerShutdown := mk_pending_shutdown {
  ps_shutdown_id : string;
  ps_acknowledged : bool;
  ps_drained : bool;
}.

(** [ManagedProcess]; a control session is its connection id.  The plugin
    reference, the plugin runtime state and the plugin health, which only the
    plugin RPC projections read, are left out. *)
Record ManagedProcess := mk_managed {
  mp_actor : InstanceActor;
  mp_lease : option ResourceLeaseRef;
  mp_semantic_worker : option Worker;
  mp_generation : N;
  mp_accepted_sequence : N;
  mp_last_heartbeat_at : option N;
  mp_restart_count : N;
  mp_watchdog_triggered : bool;
  mp_transport_disconnected : bool;
  mp_control : option N;
  mp_semantic_control : option N;
  mp_pending_shutdown : option PendingWorkerShutdown;
}.

Inductive ProviderInventoryScope := ScopeFull | ScopeResourceFactsOnly.
#[export] Instance ProviderInventoryScope_eq_dec : EqDecision ProviderInventoryScope.
Proof. solve_decision. Defined.

Record ProviderRecord := mk_provider_record {
  pr_provider : Provider;
  pr_principal : Principal;
  pr_inventory_scope : ProviderInventoryScope;
  pr_inventory : option ProviderSnapshot;
  pr_reconciled_snapshot_generation : option N;
  pr_pending_stale_workers : list (Identity * N);
}.

Record NamespaceEventHistory := mk_history {
  neh_next_sequence : option N;
  neh_events : list Event;
}.

Record AuthorityRuntime := mk_runtime {
  rt_node_id : string;
  rt_node_epoch : N;
  rt_heartbeat : WorkerHeartbeatConfig;
  rt_ledger : State;
  rt_instances : gmap string ManagedProcess;
  rt_workers : gmap ObjectRef string;
  rt_leases : gmap ObjectRef string;
  rt_operations : gmap ObjectRef Operation;
  rt_events : gmap NamespaceId NamespaceEventHistory;
  rt_endpoints : gmap ObjectRef Endpoint;
  rt_endpoint_grants : gmap ObjectRef EndpointGrant;
  rt_providers : gmap (NamespaceId * string) ProviderRecord;
  rt_namespace_owners : gmap NamespaceId Identity;
}.

(** [LocalKernelAuthority::new] over a daemon whose ledger is [ledger]. *)
Definition AuthorityRuntime_new (node_id : string) (node_epoch : N) (heartbeat : WorkerHeartbeatConfig)
    (ledger : State) : AuthorityRuntime :=
  mk_runtime node_id node_epoch heartbeat ledger ∅ ∅ ∅ ∅ ∅ ∅ ∅ ∅ ∅.

(** Field updates. *)
Section updates.
Context (r : AuthorityRuntime).
Definition set_ledger (x : State) : AuthorityRuntime :=
  mk_runtime (rt_node_id r) (rt_node_epoch r) (rt_heartbeat r) x (rt_instances r) (rt_workers r)
    (rt_leases r) (rt_operations r) (rt_events r) (rt_endpoints r) (rt_endpoint_grants r) (rt_providers r)
    (rt_namespace_owners r).
Definition set_instances (x : gmap string ManagedProcess) : AuthorityRuntime :=
  mk_runtime (rt_node_id r) (rt_node_epoch r) (rt_heartbeat r) (rt_ledger r) x (rt_workers r)
    (rt_leases r) (rt_operations r) (rt_events r) (rt_endpoints r) (rt_endpoint_grants r) (rt_providers r)
    (rt_namespace_owners r).
Definition set_workers (x : gmap ObjectRef string) : AuthorityRuntime :=
  mk_runtime (rt_node_id r) (rt_node_epoch r) (rt_heartbeat r) (rt_ledger r) (rt_instances r) x
    (rt_leases r) (rt_operations r) (rt_events r) (rt_endpoints r) (rt_endpoint_grants r) (rt_providers r)
    (rt_namespace_owners r).
Definition set_leases (x : gmap ObjectRef string) : AuthorityRuntime :=
  mk_runtime (rt_node_id r) (rt_node_epoch r) (rt_heartbeat r) (rt_ledger r) (rt_instances r) (rt_workers r)
    x (rt_operations r) (rt_events r) (rt_endpoints r) (rt_endpoint_grants r) (rt_providers r)
    (rt_namespace_owners r).
Definition set_operations (x : gmap ObjectRef Operation) : AuthorityRuntime :=
  mk_runtime (rt_node_id r) (rt_node_epoch r) (rt_heartbeat r) (rt_ledger r) (rt_instances r) (rt_workers r)
    (rt_leases r) x (rt_events r) (rt_endpoints r) (rt_endpoint_grants r) (rt_providers r)
    (rt_namespace_owners r).
Definition set_events (x : gmap NamespaceId NamespaceEventHistory) : AuthorityRuntime :=
  mk_runtime (rt_node_id r) (rt_node_epoch r) (rt_heartbeat r) (rt_ledger r) (rt_instances r) (rt_workers r)
    (rt_leases r) (rt_operations r) x (rt_endpoints r) (rt_endpoint_grants r) (rt_providers r)
    (rt_namespace_owners r).
Definition set_endpoints (x : gmap ObjectRef Endpoint) : AuthorityRuntime :=
  mk_runtime (rt_node_id r) (rt_node_epoch r) (rt_heartbeat r) (rt_ledger r) (rt_instances r) (rt_workers r)
    (rt_leases r) (rt_operations r) (rt_events r) x (rt_endpoint_grants r) (rt_providers r)
    (rt_namespace_owners r).
Definition set_endpoint_grants (x : gmap ObjectRef EndpointGrant) : AuthorityRuntime :=
  mk_runtime (rt_node_id r) (rt_node_epoch r) (rt_heartbeat r) (rt_ledger r) (rt_instances r) (rt_workers r)
    (rt_leases r) (rt_operations r) (rt_events r) (rt_endpoints r) x (rt_providers r)
    (rt_namespace_owners r).
Definition set_providers (x : gmap (NamespaceId * string) ProviderRecord) : AuthorityRuntime :=
  mk_runtime (rt_node_id r) (rt_node_epoch r) (rt_heartbeat r) (rt_ledger r) (rt_instances r) (rt_workers r)
    (rt_leases r) (rt_operations r) (rt_events r) (rt_endpoints r) (rt_endpoint_grants r) x
    (rt_namespace_owners r).
Definition set_namespace_owners (x : gmap NamespaceId Identity) : AuthorityRuntime :=
  mk_runtime (rt_node_id r) (rt_node_epoch r) (rt_heartbeat r) (rt_ledger r) (rt_instances r) (rt_workers r)
    (rt_leases r) (rt_operations r) (rt_events r) (rt_endpoints r) (rt_endpoint_grants r) (rt_providers r)
    x.
End updates.

(** ** The monad of the authority actions *)
Definition rejection (reason_code message : string) : Rejection := mk_rejection reason_code message.
Definition provider_rejection (error : ProviderError) : Rejection :=
  rejection (pe_reason_code error) (pe_message error).

Section authority_monad.
Context {W : Type} `{Environment W}.

(** Runtime and world; both survive a rejection. *)
Definition Auth (A : Type) : Type := STE (AuthorityRuntime * W) Rejection A.

Definition get_runtime : Auth AuthorityRuntime := gets fst.
Definition update_runtime (f : AuthorityRuntime -> AuthorityRuntime) : Auth unit :=
  modify (fun s => (f s.1, s.2)).
Definition reject {A} (reason_code message : string) : Auth A := throw (rejection reason_code message).

(** A port call that cannot fail, one whose failure rejects the action, and one
    whose outcome the action inspects. *)
Definition world_call {A} (f : W -> W * A) : Auth A :=
  fun '(r, w) => let '(w, a) := f w in ((r, w), Ok a).
Definition port {A} (m : STE W ProviderError A) : Auth A :=
  fun '(r, w) => let '(w, a) := m w in ((r, w), map_err provider_rejection a).
Definition port_result {A} (m : STE W ProviderError A) : Auth (result ProviderError A) :=
  fun '(r, w) => let '(w, a) := m w in ((r, w), Ok a).

(** [KernelDaemon]'s lease methods forward to the ledger.  The ones that read
    the clock take the reading first. *)
Definition ledger {A} (m : STE State ProviderError A) : Auth (result ProviderError A) :=
  fun '(r, w) => let '(l, a) := m (rt_ledger r) in ((set_ledger r l, w), Ok a).
Definition ledger_total {A} (f : State -> State * A) : Auth A :=
  fun '(r, w) => let '(l, a) := f (rt_ledger r) in ((set_ledger r l, w), Ok a).
Definition ledger_now {A} (m : N -> STE State ProviderError A) : Auth (result ProviderError A) :=
  now ← world_call env_now_unix_ms; ledger (m now).
(** [.map_err(Self::provider_rejection)?] *)
Definition checked {A} (m : Auth (result ProviderError A)) : Auth A :=
  a ← m; lift (map_err provider_rejection a).

(** [KernelDaemon::lease], [leases] and [is_allocated]. *)
Definition daemon_lease (lease_name : string) : Auth ResourceLease :=
  checked (ledger_now (fun now => get_lease now lease_name)).
Definition daemon_leases : Auth (list ResourceLease) :=
  now ← world_call env_now_unix_ms; ledger_total (list_leases now).
Definition daemon_is_allocated (lease_name : string) : Auth bool :=
  r ← get_runtime; mret (is_allocated lease_name (rt_ledger r)).

(** [KernelDaemon::acquire_lease]; the second clock reading of the ledger's
    method is taken in advance. *)
Definition daemon_acquire_lease (request : ResourceRequest) : Auth ResourceLease :=
  r ← get_runtime;
  if negb (nc_ready (inv_capabilities (inventory (rt_ledger r)))) then
    throw (provider_rejection (provider_error "kernel-daemon" "ADAPTER_DEGRADED"
             "required hardware adapter capability is not ready"))
  else
    now ← world_call env_now_unix_ms;
    now' ← world_call env_now_unix_ms;
    checked (ledger (ResourceManager.acquire_lease now now' request)).

(** [KernelDaemon::binding_for_lease]: one binding per allocation, merged. *)
Fixpoint lease_bindings (snapshot : InventorySnapshot) (allocations : list ResourceAllocation)
    : STE W ProviderError (list DeviceBinding) :=
  match allocations with
  | [] => mret []
  | allocation :: rest =>
      resource ← lift (ok_or (provider_error "kernel-daemon" "LEASE_RESOURCE_NOT_IN_INVENTORY"
                                (ident_id (al_resource allocation)))
                   (find (fun resource => bool_decide (res_identity resource = al_resource allocation))
                      (inv_resources snapshot)));
      binding ← env_create_binding_for_generation resource 0;
      bindings ← lease_bindings snapshot rest;
      mret (binding :: bindings)
  end.
Definition binding_for_lease (lease : ResourceLease) : STE W ProviderError DeviceBinding :=
  snapshot ← env_probe_inventory;
  bindings ← lease_bindings snapshot (rl_allocations lease);
  lift (merge_all bindings).

(** [KernelDaemon::preflight_binding] *)
Definition preflight_binding (binding : DeviceBinding) : STE W ProviderError unit :=
  fun w =>
  let '(w, capabilities) := env_preflight_for_binding binding w in
  let hard_binding := bool_decide (bind_enforcement binding = EHard) in
  let has_required_device_isolation_proof :=
    existsb (fun fact => bool_decide (fact_name fact = "device-bpf-capable") && fact_required fact
                         && fact_available fact) (nc_facts capabilities) in
  if nc_ready capabilities && (negb hard_binding || has_required_device_isolation_proof) then (w, Ok tt)
  else
    let detail :=
      match find (fun fact => fact_required fact && negb (fact_available fact)) (nc_facts capabilities) with
      | Some fact => fact_name fact +:+ ": " +:+ fact_detail fact
      | None =>
          if hard_binding && negb has_required_device_isolation_proof
          then "HARD binding requires an available required device-bpf-capable fact"
          else "required sandbox capabilities are unavailable"
      end in
    (w, Err (provider_error env_backend_id "BINDING_PREFLIGHT_FAILED" detail)).

(** ** Lookups and names *)
Definition validate_context (context : AuthorityCallContext) : Auth unit :=
  lift (AuthorityCallContext_validate_for context ContractRevision_current).

Definition namespace_denied {A} : Auth A :=
  reject "NAMESPACE_AUTHORITY_DENIED" "authenticated Principal does not own this namespace".

Definition bind_namespace (context : AuthorityCallContext) (principal : Principal) : Auth unit :=
  r ← get_runtime;
  match rt_namespace_owners r !! ctx_namespace context with
  | None =>
      update_runtime (fun r => set_namespace_owners r
        (<[ctx_namespace context := principal_identity principal]> (rt_namespace_owners r)))
  | Some owner =>
      if bool_decide (owner = principal_identity principal) then mret tt else namespace_denied
  end.

Definition require_namespace_owner (context : AuthorityCallContext) (principal : Principal) : Auth unit :=
  r ← get_runtime;
  if is_some_and (fun owner => negb (bool_decide (owner = principal_identity principal)))
       (rt_namespace_owners r !! ctx_namespace context)
  then namespace_denied else mret tt.

Definition release_name (context : AuthorityCallContext) : string :=
  "lease-" +:+ effective_idempotency_key context.
Definition lease_name (context : AuthorityCallContext) : Identity := mk_identity (release_name context) 1.

Definition scoped_runtime_name (prefix : string) (object : ObjectRef) : string :=
  if bool_decide (obj_namespace object = NamespaceId_default) then ident_id (obj_identity object)
  else prefix +:+ "-n" +:+ pretty (byte_len (obj_namespace object)) +:+ "-" +:+ obj_namespace object
    +:+ "-i" +:+ pretty (byte_len (ident_id (obj_identity object))) +:+ "-" +:+ ident_id (obj_identity object)
    +:+ "-g" +:+ pretty (ident_generation (obj_identity object)).

Definition lease_internal_name (context : AuthorityCallContext) (identity : Identity) : string :=
  scoped_runtime_name "lease" (object_ref context identity).

Definition lease_for (context : AuthorityCallContext) (identity : Identity) : Auth ResourceLease :=
  r ← get_runtime;
  match rt_leases r !! object_ref context identity with
  | None => reject "LEASE_NOT_FOUND" "lease is unknown in this namespace"
  | Some name => daemon_lease name
  end.

Definition worker_instance_name (context : AuthorityCallContext) (identity : Identity) : Auth string :=
  r ← get_runtime;
  match rt_workers r !! object_ref context identity with
  | Some name => mret name
  | None =>
      if bool_decide (ctx_namespace context = NamespaceId_default) then mret (ident_id identity)
      else reject "WORKER_NOT_FOUND" "worker is not managed by this Kernel"
  end.

Definition semantic_lease (object : ObjectRef) (lease : ResourceLease) : Lease :=
  mk_lease (obj_identity object) (rl_holder lease) (al_resource <$> rl_allocations lease)
    (match rl_state lease with
     | Active => LActive | Releasing => LReleasing | Released => LReleased | Expired => LExpired
     | Revoked => LRevoked | Failed | Quarantined => LFailed
     end) (rl_fence_token lease) (rl_expires_at_unix_ms lease).

(** [exp <= now_unix_ms()], read only when the lease has an expiry. *)
Definition lease_expired (lease : ResourceLease) : Auth bool :=
  match rl_expires_at_unix_ms lease with
  | None => mret false
  | Some exp => now ← world_call env_now_unix_ms; mret (exp <=? now)%N
  end.

(** ** Journal *)
Definition record_runtime (event : RuntimeJournalEvent) (instance_name : option string)
    (lease : option ResourceLease) (reason_code : string) : Auth unit :=
  r ← get_runtime;
  port (env_journal_append
    (mk_journal_record event (rt_node_id r) (rt_node_epoch r) instance_name (rl_name <$> lease)
       (rl_fence_token <$> lease) reason_code None)).

Definition record_runtime_launch (instance_name : string) (lease : ResourceLease)
    (evidence : RuntimeProcessEvidence) : Auth unit :=
  r ← get_runtime;
  port (env_journal_append
    (mk_journal_record InstanceLaunched (rt_node_id r) (rt_node_epoch r) (Some instance_name)
       (Some (rl_name lease)) (Some (rl_fence_token lease)) "WORKER_LAUNCHED" (Some evidence))).

(** ** Instances *)
Definition set_instance (name : string) (p : ManagedProcess) : Auth unit :=
  update_runtime (fun r => set_instances r (<[name := p]> (rt_instances r))).

(** The entries of the instance map in the order [HashMap::iter] visits them. *)
Definition iter_instances : Auth (list (string * ManagedProcess)) :=
  fun '(r, w) => ((r, w), Ok (omap (fun name => pair name <$> rt_instances r !! name)
                                (env_hash_order w (dom (rt_instances r))))).

(** [process.actor.stop(..)] and the other actor calls, on the process stored
    under [name]. *)
Definition actor_call {A} (name : string) (p : ManagedProcess)
    (f : InstanceActor -> W -> InstanceActor * W * result ProviderError A)
    : Auth (ManagedProcess * result ProviderError A) :=
  fun '(r, w) =>
    let '(a, w, res) := f (mp_actor p) w in
    let p := mk_managed a (mp_lease p) (mp_semantic_worker p) (mp_generation p) (mp_accepted_sequence p)
      (mp_last_heartbeat_at p) (mp_restart_count p) (mp_watchdog_triggered p)
      (mp_transport_disconnected p) (mp_control p) (mp_semantic_control p) (mp_pending_shutdown p) in
    ((set_instances r (<[name := p]> (rt_instances r)), w), Ok (p, res)).
End authority_monad.
Arguments Auth W A : clear implicits.

Definition mp_with_worker (w : option Worker) (p : ManagedProcess) : ManagedProcess :=
  mk_managed (mp_actor p) (mp_lease p) w (mp_generation p) (mp_accepted_sequence p)
    (mp_last_heartbeat_at p) (mp_restart_count p) (mp_watchdog_triggered p)
    (mp_transport_disconnected p) (mp_control p) (mp_semantic_control p) (mp_pending_shutdown p).
(** [worker.state = s] through [process.semantic_worker.as_mut()]. *)
Definition wk_with_state (s : WorkerState) (w : Worker) : Worker :=
  mk_worker (wk_identity w) (wk_principal w) (wk_provider w) (wk_lease w) s (wk_execution_ref w) (wk_limits w).
Definition mp_set_worker_state (s : WorkerState) (p : ManagedProcess) : ManagedProcess :=
  mp_with_worker (wk_with_state s <$> mp_semantic_worker p) p.
