(* ===== verification/Events.v ===== *)
(** * Semantic event streams

    [semantic_event_source_for], [event_history_for],
    [publish_semantic_event_in], [in_memory_event_range] and
    [read_events_page] of [cy-kernel-daemon/src/authority.rs]: one ordered,
    durable, replayable event stream per namespace. *)
From stdpp Require Import base gmap strings list sorting pretty.
From Stdlib Require Import Ascii Lia ZifyBool ZifyN.
From S2P Require Import Prelude Validation Contract KernelApi ResourceManager Binding Environment Instance.
From S2P Require Import AuthorityState.

(** [adapter/mod.rs] *)
Definition OPERATION_EVENT_HISTORY_CAPACITY : nat := 256.

Definition semantic_event_source_for (r : AuthorityRuntime) (namespace : NamespaceId) : Identity :=
  mk_identity
    (if bool_decide (namespace = NamespaceId_default) then "kernel/" +:+ rt_node_id r
     else "kernel/" +:+ rt_node_id r +:+ "/namespace/" +:+ namespace)
    (rt_node_epoch r).

(** The check [event_history_for] applies to the records of the durable store. *)
Fixpoint checked_history (namespace : NamespaceId) (source : Identity) (previous : option N)
    (records : list DurableEventRecord) : result Rejection (list Event) :=
  match records with
  | [] => Ok []
  | record :: rest =>
      let event := der_event record in
      if negb (bool_decide (der_namespace record = namespace))
         || negb (bool_decide (ev_source event = source))
         || is_err (Event_validate event)
         || is_some_and (fun previous => (ev_sequence event <=? previous)%N) previous
      then Err (rejection "EVENT_STORE_INVALID"
             "durable event history did not match the requested ordered source")
      else events ← checked_history namespace source (Some (ev_sequence event)) rest;
           Ok (event :: events)
  end.

Definition memory_events (r : AuthorityRuntime) (namespace : NamespaceId) : list Event :=
  match rt_events r !! namespace with Some history => neh_events history | None => [] end.

Definition in_memory_event_range (r : AuthorityRuntime) (namespace : NamespaceId) : N * N :=
  (map_or 0%N ev_sequence (head (memory_events r namespace)),
   map_or 0%N ev_sequence (last (memory_events r namespace))).

(** ** Pages *)
Definition empty_page (source : Identity) (status : ReplayStatus) (oldest latest : N) (cursor : EventCursor)
    : EventPage :=
  mk_page source status [] oldest latest (cur_sequence cursor).

(** The part of [read_events_page] that follows the read of the history. *)
Definition page_of_history (source : Identity) (history : list Event) (cursor : EventCursor) (limit : nat)
    : EventPage :=
  let oldest := map_or 0%N ev_sequence (head history) in
  let latest := map_or 0%N ev_sequence (last history) in
  let status := EventCursor_status_against cursor source oldest in
  if negb (bool_decide (status = Current)) then empty_page source status oldest latest cursor
  else
    let events := take limit (filter (fun event => (cur_sequence cursor < ev_sequence event)%N) history) in
    mk_page source status events oldest latest (map_or (cur_sequence cursor) ev_sequence (last events)).

Section events.
Context {W : Type} `{Environment W}.

Definition event_history_for (namespace : NamespaceId) (source : Identity) : Auth W (list Event) :=
  durable ← port (env_events_for_source source namespace);
  match durable with
  | Some records => lift (checked_history namespace source None records)
  | None => r ← get_runtime; mret (memory_events r namespace)
  end.

Definition put_history (namespace : NamespaceId) (history : NamespaceEventHistory) : Auth W unit :=
  update_runtime (fun r => set_events r (<[namespace := history]> (rt_events r))).

(** [history.events.push_back(event)] in a ring of fixed capacity. *)
Definition push_event (events : list Event) (event : Event) : list Event :=
  (if (length events =? OPERATION_EVENT_HISTORY_CAPACITY)%nat then drop 1 events else events) ++ [event].

(** The first sequence of a stream whose history is not in memory yet; [None]
    when the durable history cannot be read. *)
Definition seeded_next_sequence (namespace : NamespaceId) (source : Identity)
    : Auth W (option (option N)) :=
  history ← attempt (event_history_for namespace source);
  match history with
  | Err _ => mret None
  | Ok events => mret (Some (map_or (Some 1%N) (fun event => u64_checked_add (ev_sequence event) 1) (last events)))
  end.

Definition append_to_history (namespace : NamespaceId) (source subject : Identity) (kind schema_id : string)
    (body : list ascii) (history : NamespaceEventHistory) : Auth W unit :=
  match neh_next_sequence history with
  | None => mret tt
  | Some sequence =>
      now ← world_call env_now_unix_ms;
      let event := mk_event sequence source subject kind now schema_id body in
      if is_err (Event_validate event) then mret tt
      else
        appended ← port_result (env_append_event (mk_durable namespace event));
        match appended with
        | Err _ => put_history namespace (mk_history None (neh_events history))
        | Ok _ => put_history namespace
                    (mk_history (u64_checked_add sequence 1) (push_event (neh_events history) event))
        end
  end.

Definition publish_semantic_event_in (namespace : NamespaceId) (subject : Identity) (kind schema_id : string)
    (body : list ascii) : Auth W unit :=
  r ← get_runtime;
  let source := semantic_event_source_for r namespace in
  match rt_events r !! namespace with
  | Some history => append_to_history namespace source subject kind schema_id body history
  | None =>
      seeded ← seeded_next_sequence namespace source;
      match seeded with
      | None => mret tt
      | Some next =>
          _ ← put_history namespace (mk_history next []);
          append_to_history namespace source subject kind schema_id body (mk_history next [])
      end
  end.

Definition read_events_page (namespace : NamespaceId) (cursor : EventCursor) (limit : nat)
    : Auth W EventPage :=
  r ← get_runtime;
  let source := semantic_event_source_for r namespace in
  let '(oldest, latest) := in_memory_event_range r namespace in
  if negb (bool_decide (cur_source cursor = source)) then
    mret (empty_page source SourceChanged oldest latest cursor)
  else if is_some_and (fun history => bool_decide (neh_next_sequence history = None)) (rt_events r !! namespace) then
    mret (empty_page source Gap oldest latest cursor)
  else
    history ← event_history_for namespace source;
    mret (page_of_history source history cursor limit).
End events.
