(* ===== verification/EventsSpec.v ===== *)
(** * Properties of the event streams

    Publishing touches nothing but the stream it appends to; a stream in memory
    is contiguous, bounded and valid; a page read from it is a page the
    contract accepts, and reading page after page loses and repeats nothing. *)
From stdpp Require Import base gmap strings list sorting pretty.
From Stdlib Require Import Ascii Lia ZifyBool ZifyN.
From S2P Require Import Prelude Validation Contract ContractSpec KernelApi ResourceManager Binding.
From S2P Require Import Environment Instance AuthorityState Events.

(** ** Streams in memory *)
Definition contiguous (events : list Event) : Prop :=
  forall i e e', events !! i = Some e -> events !! S i = Some e' -> ev_sequence e' = (ev_sequence e + 1)%N.

Record history_ok (source : Identity) (h : NamespaceEventHistory) : Prop := {
  ho_events : Forall (fun e => Event_validate e = Ok tt /\ ev_source e = source) (neh_events h);
  ho_contiguous : contiguous (neh_events h);
  ho_bounded : (length (neh_events h) <= OPERATION_EVENT_HISTORY_CAPACITY)%nat;
  ho_next : forall n e, neh_next_sequence h = Some n -> last (neh_events h) = Some e -> n = (ev_sequence e + 1)%N;
}.
Definition streams_ok (r : AuthorityRuntime) : Prop :=
  forall ns h, rt_events r !! ns = Some h -> history_ok (semantic_event_source_for r ns) h.

Lemma contiguous_app_one events e :
  contiguous events -> (forall e0, last events = Some e0 -> ev_sequence e = (ev_sequence e0 + 1)%N) ->
  contiguous (events ++ [e]).
Proof.
  intros Hc Hl i a b Ha Hb. destruct (decide (S i < length events)%nat) as [Hlt|Hge].
  - rewrite lookup_app_l in Ha, Hb by lia. eauto.
  - apply lookup_app_Some in Hb as [Hb|[Hge' Hb]]; [apply lookup_lt_Some in Hb; lia|].
    apply list_lookup_singleton_Some in Hb as [Hi <-].
    rewrite lookup_app_l in Ha by lia. apply Hl. rewrite last_lookup. by replace (pred (length events)) with i by lia.
Qed.
Lemma contiguous_drop n events : contiguous events -> contiguous (drop n events).
Proof.
  intros Hc i a b. rewrite !lookup_drop. intros Ha Hb. eapply Hc; [exact Ha|]. by rewrite <-Nat.add_succ_r.
Qed.
Lemma push_event_ok source h e :
  history_ok source h -> Event_validate e = Ok tt -> ev_source e = source ->
  neh_next_sequence h = Some (ev_sequence e) ->
  history_ok source (mk_history (u64_checked_add (ev_sequence e) 1) (push_event (neh_events h) e)).
Proof.
  intros [Hev Hc Hb Hn] Hv Hs Hnext. unfold push_event.
  set (old := if (length (neh_events h) =? OPERATION_EVENT_HISTORY_CAPACITY)%nat then _ else _).
  assert (Forall (fun e => Event_validate e = Ok tt /\ ev_source e = source) old /\ contiguous old /\
          (length old < OPERATION_EVENT_HISTORY_CAPACITY)%nat /\
          (forall e0, last old = Some e0 -> last (neh_events h) = Some e0)) as (Hev' & Hc' & Hb' & Hl').
  { subst old. destruct (Nat.eqb_spec (length (neh_events h)) OPERATION_EVENT_HISTORY_CAPACITY) as [Heq|Hne].
    - split_and!; [by apply Forall_drop|by apply contiguous_drop|rewrite length_drop, Heq; cbv; lia|].
      intros e0. destruct (neh_events h) as [|x xs]; [done|]. simpl. rewrite drop_0, last_cons. by intros ->.
    - split_and!; try done. lia. }
  split; simpl.
  - apply Forall_app. split; [done|]. by repeat constructor.
  - apply contiguous_app_one; [done|]. intros e0 He0. eauto.
  - rewrite length_app. simpl. lia.
  - intros n e0. rewrite last_snoc. intros Hadd [= <-]. unfold u64_checked_add in Hadd. case_match; congruence.
Qed.

Section streams.
Context {W : Type} `{Environment W}.
Implicit Types (r : AuthorityRuntime) (w : W).

Lemma event_history_for_runtime ns source r w s' res :
  event_history_for ns source (r, w) = (s', res) -> s'.1 = r.
Proof.
  unfold event_history_for, port. unfold_monads. destruct (env_events_for_source source ns w) as [w1 [o|e]]; simpl.
  - destruct o; by intros [= <- <-].
  - by intros [= <- <-].
Qed.

(** Appending keeps every other stream and every other part of the runtime. *)
Definition stream_step (ns : NamespaceId) r r' : Prop :=
  r' = r \/ exists h, r' = set_events r (<[ns := h]> (rt_events r)) /\
    (history_ok (semantic_event_source_for r ns) (default (mk_history None []) (rt_events r !! ns)) ->
     history_ok (semantic_event_source_for r ns) h).

Lemma append_to_history_step ns subject kind schema body h r w s' res :
  let source := semantic_event_source_for r ns in
  append_to_history ns source subject kind schema body h (r, w) = (s', res) ->
  res = Ok tt /\ (s'.1 = r \/ exists h', s'.1 = set_events r (<[ns := h']> (rt_events r)) /\
    (history_ok source h -> history_ok source h')).
Proof.
  intros source. unfold append_to_history, port_result, put_history, update_runtime. unfold_monads.
  destruct (neh_next_sequence h) as [n|] eqn:Hn; [|intros [= <- <-]; auto].
  unfold world_call. destruct (env_now_unix_ms w) as [w1 now]. simpl.
  set (event := mk_event n source subject kind now schema body).
  destruct (Event_validate event) as [[]|] eqn:Hv; simpl; [|intros [= <- <-]; auto].
  destruct (env_append_event (mk_durable ns event) w1) as [w2 [[]|e]]; simpl; intros [= <- <-]; (split; [done|right]);
    eexists; (split; [done|]); intros Hok.
  - by apply (push_event_ok source h event).
  - destruct Hok as [Hev Hc Hb _]. by split.
Qed.

Lemma history_ok_empty source next : history_ok source (mk_history next []).
Proof. split; simpl; [constructor|by intros ???|cbv; lia|done]. Qed.

Lemma publish_step ns subject kind schema body r w s' res :
  publish_semantic_event_in ns subject kind schema body (r, w) = (s', res) ->
  res = Ok tt /\ stream_step ns r s'.1.
Proof.
  unfold publish_semantic_event_in, get_runtime. unfold_monads.
  destruct (rt_events r !! ns) as [h|] eqn:Hh.
  - intros Ha. apply append_to_history_step in Ha as [-> Hs]. split; [done|].
    destruct Hs as [?|(h' & ? & Hok)]; [by left|right]. exists h'. by rewrite Hh.
  - unfold seeded_next_sequence. unfold_monads.
    destruct (event_history_for ns _ (r, w)) as [[r1 w1] hist] eqn:He.
    apply event_history_for_runtime in He. simpl in He. subst r1.
    destruct hist as [events|e]; simpl; [|intros [= <- <-]; split; [done|by left]].
    unfold put_history, update_runtime. unfold_monads.
    intros Ha. apply (append_to_history_step ns subject kind schema body _ (set_events r _)) in Ha as [-> Hs].
    split; [done|]. right. destruct Hs as [->|(h' & -> & Hok)]; simpl.
    + eexists. split; [done|]. intros _. apply history_ok_empty.
    + exists h'. split; [by rewrite insert_insert_eq|]. intros _. apply Hok, history_ok_empty.
Qed.

Lemma stream_step_ok ns r r' : stream_step ns r r' -> streams_ok r -> streams_ok r'.
Proof.
  intros [->|(h & -> & Hh)] Hok; [done|]. intros ns' h'. simpl.
  destruct (decide (ns' = ns)) as [->|Hne].
  - rewrite lookup_insert_eq. intros [= <-]. apply Hh.
    destruct (rt_events r !! ns) as [h0|] eqn:Hr; simpl; [by apply Hok|apply history_ok_empty].
  - rewrite lookup_insert_ne by done. apply Hok.
Qed.

(** Publishing an event never fails, changes nothing of the authority but
    the stream of that namespace, and keeps every stream valid, contiguous and
    within its capacity. *)
Theorem publish_keeps_streams ns subject kind schema body r w s' res :
  streams_ok r -> publish_semantic_event_in ns subject kind schema body (r, w) = (s', res) ->
  res = Ok tt /\ streams_ok s'.1 /\
  s'.1 = set_events r (rt_events s'.1) /\ (forall ns', ns' <> ns -> rt_events s'.1 !! ns' = rt_events r !! ns').
Proof.
  intros Hok Hp. apply publish_step in Hp as [-> Hs]. split; [done|]. split; [by eapply stream_step_ok|].
  destruct Hs as [->|(h & -> & _)]; (split; [by destruct r|]); [done|]. intros ns' Hne. simpl.
  by rewrite lookup_insert_ne.
Qed.
End streams.

(** ** Reading *)
Definition stream (source : Identity) (events : list Event) : Prop :=
  Forall (fun e => Event_validate e = Ok tt /\ ev_source e = source) events /\
  StronglySorted N.lt (ev_sequence <$> events).

Lemma contiguous_cons e events : contiguous (e :: events) -> contiguous events.
Proof. intros Hc i a b Ha Hb. by apply (Hc (S i) a b). Qed.
Lemma contiguous_sorted events : contiguous events -> StronglySorted N.lt (ev_sequence <$> events).
Proof.
  induction events as [|e events IH]; intros Hc; [constructor|]. rewrite fmap_cons.
  pose proof (IH (contiguous_cons _ _ Hc)) as Hs. constructor; [done|].
  destruct events as [|e' events]; [constructor|]. rewrite fmap_cons in *.
  apply StronglySorted_inv in Hs as [_ Hf]. pose proof (Hc 0%nat e e' eq_refl eq_refl) as Hn.
  constructor; [lia|]. eapply Forall_impl; [exact Hf|]. simpl. lia.
Qed.

Lemma checked_history_Ok ns source prev records events :
  checked_history ns source prev records = Ok events ->
  Forall (fun e => Event_validate e = Ok tt /\ ev_source e = source) events /\
  StronglySorted N.lt (option_list prev ++ (ev_sequence <$> events)).
Proof.
  revert prev events. induction records as [|rec records IH]; intros prev events; simpl.
  { intros [= <-]. split; [constructor|]. destruct prev; simpl; repeat constructor. }
  match goal with |- (if ?b then _ else _) = _ -> _ => destruct b eqn:Hc; [done|] end.
  intros (evs & Hrec & [= <-])%result_bind_Ok. apply IH in Hrec as [Hall Hs].
  rewrite !orb_false_iff, !negb_false_iff, !bool_decide_eq_true in Hc. destruct Hc as [[[_ Hsrc] Hv] Hp].
  split.
  - constructor; [|done]. split; [|done]. by destruct (Event_validate (der_event rec)) as [[]|].
  - rewrite fmap_cons. simpl in Hs. destruct prev as [q|]; [|done]. simpl in *.
    constructor; [done|]. apply StronglySorted_inv in Hs as [_ Hf].
    constructor; [lia|]. eapply Forall_impl; [exact Hf|]. simpl. lia.
Qed.

Lemma stream_sequence_positive source events e :
  stream source events -> e ∈ events -> (0 < ev_sequence e)%N.
Proof.
  intros [Hall _] He. rewrite Forall_forall in Hall. destruct (Hall _ He) as [Hv _].
  unfold Event_validate in Hv. apply result_bind_Ok in Hv as (? & Hv & _). apply ensure_Ok in Hv. lia.
Qed.
Lemma sorted_head_le x l y : StronglySorted N.lt l -> head l = Some x -> y ∈ l -> (x <= y)%N.
Proof.
  destruct l as [|z l]; [done|]. intros [_ Hf]%StronglySorted_inv [= <-] [->|Hy]%elem_of_cons; [lia|].
  rewrite Forall_forall in Hf. specialize (Hf _ Hy). lia.
Qed.
Lemma sorted_last_ge x l y : StronglySorted N.lt l -> last l = Some x -> y ∈ l -> (y <= x)%N.
Proof.
  intros Hs (l' & ->)%last_Some [Hy|Hy]%elem_of_app.
  - apply N.lt_le_incl. eapply StronglySorted_app_1_elem_of; [exact Hs|done|]. set_solver.
  - apply list_elem_of_singleton in Hy. lia.
Qed.

Definition range_of (events : list Event) : N * N :=
  (map_or 0%N ev_sequence (head events), map_or 0%N ev_sequence (last events)).

Lemma range_of_ok source events :
  stream source events ->
  ((range_of events).1 <= (range_of events).2)%N /\
  ((range_of events).1 = 0%N <-> (range_of events).2 = 0%N) /\
  (forall e, e ∈ events -> ((range_of events).1 <= ev_sequence e <= (range_of events).2)%N).
Proof.
  intros Hst. pose proof (fun e => stream_sequence_positive _ _ e Hst) as Hpos. destruct Hst as [Hall Hs].
  unfold range_of. simpl. destruct events as [|x xs]; [set_solver|].
  destruct (last_is_Some (x :: xs)) as [_ Hl]. destruct Hl as [y Hy]; [done|]. rewrite Hy. simpl.
  assert (last (ev_sequence <$> x :: xs) = Some (ev_sequence y)) as Hly by (by rewrite fmap_last, Hy).
  assert (forall e, e ∈ x :: xs -> (ev_sequence x <= ev_sequence e <= ev_sequence y)%N) as Hin.
  { intros e He. split; [eapply sorted_head_le|eapply sorted_last_ge]; try done; apply list_elem_of_fmap; eauto. }
  assert (y ∈ x :: xs) as Hyin by (by apply last_Some_elem_of).
  pose proof (Hin x ltac:(set_solver)). pose proof (Hpos x ltac:(set_solver)). pose proof (Hpos y Hyin).
  split_and!; [lia|lia|done].
Qed.

Lemma Sorted_filter_seq (P : Event -> Prop) `{forall e, Decision (P e)} events :
  StronglySorted N.lt (ev_sequence <$> events) -> StronglySorted N.lt (ev_sequence <$> filter P events).
Proof.
  induction events as [|e events IH]; [done|]. rewrite fmap_cons. intros [Hs Hf]%StronglySorted_inv.
  rewrite filter_cons. case_decide; [|auto]. rewrite fmap_cons. constructor; [auto|].
  rewrite Forall_forall in *. intros y (e' & -> & [_ He]%list_elem_of_filter)%list_elem_of_fmap.
  apply Hf, list_elem_of_fmap. eauto.
Qed.
Lemma Sorted_take_seq n events :
  StronglySorted N.lt (ev_sequence <$> events) -> StronglySorted N.lt (ev_sequence <$> take n events).
Proof.
  rewrite <-(take_drop n events) at 1. rewrite fmap_app. apply StronglySorted_app_1_l.
Qed.

Lemma page_of_history_valid source history cursor limit :
  Identity_validate source = Ok tt -> stream source history -> (limit <= MAX_EVENTS_PER_PAGE)%nat ->
  EventPage_validate (page_of_history source history cursor limit) = Ok tt.
Proof.
  intros Hsrc Hst Hlim. destruct (range_of_ok _ _ Hst) as (Hle & Hz & Hin). unfold range_of in *. simpl in *.
  apply EventPage_validate_Ok. unfold page_of_history. case_bool_decide as Hc; cbn [negb].
  - rewrite Hc. simpl. set (evs := filter _ history). assert (forall e, e ∈ take limit evs -> e ∈ history) as Hsub.
    { intros e He%elem_of_take_weaken. by apply list_elem_of_filter in He as [_ ?]. }
    split_and!; try done.
    + rewrite length_take. lia.
    + by left.
    + apply Forall_forall. intros e He%Hsub. destruct Hst as [Hall _]. rewrite Forall_forall in Hall.
      destruct (Hall e He). split_and!; try done; by apply Hin.
    + apply Sorted_take_seq, Sorted_filter_seq, Hst.
    + intros s. rewrite fmap_last. destruct (last (take limit evs)); simpl; [|done]. by intros [= ->].
  - simpl. split_and!; first [done | by right | cbv; lia | constructor].
Qed.

Section reads.
Context {W : Type} `{Environment W}.
Implicit Types (r : AuthorityRuntime) (w : W).

Lemma memory_stream r ns : streams_ok r -> stream (semantic_event_source_for r ns) (memory_events r ns).
Proof.
  intros Hok. unfold memory_events. destruct (rt_events r !! ns) as [h|] eqn:Hh.
  - destruct (Hok _ _ Hh) as [Hev Hc _ _]. split; [done|]. by apply contiguous_sorted.
  - split; constructor.
Qed.
Lemma event_history_for_stream r w ns s' events :
  streams_ok r -> event_history_for ns (semantic_event_source_for r ns) (r, w) = (s', Ok events) ->
  s'.1 = r /\ stream (semantic_event_source_for r ns) events.
Proof.
  intros Hok Hh. split; [by eapply event_history_for_runtime|]. revert Hh.
  unfold event_history_for, port, get_runtime. unfold_monads.
  destruct (env_events_for_source _ ns w) as [w1 [[records|]|e]]; simpl; [| |done].
  - intros [= _ Hc]. by apply checked_history_Ok in Hc.
  - intros [= _ <-]. by apply memory_stream.
Qed.

(** Every page the authority returns is one the contract accepts (valid
    events of this source in strictly increasing order inside the announced
    range, cursor at the last event, nothing after a gap), and reading changes
    nothing. *)
Theorem read_page_valid r w ns cursor limit s' p :
  streams_ok r -> Identity_validate (semantic_event_source_for r ns) = Ok tt ->
  (limit <= MAX_EVENTS_PER_PAGE)%nat ->
  read_events_page ns cursor limit (r, w) = (s', Ok p) ->
  EventPage_validate p = Ok tt /\ page_source p = semantic_event_source_for r ns /\ s'.1 = r.
Proof.
  intros Hok Hsrc Hlim. unfold read_events_page, get_runtime. unfold_monads.
  destruct (range_of_ok _ _ (memory_stream r ns Hok)) as (Hle & Hz & _). unfold range_of in *. simpl in *.
  assert (forall status, status <> Current -> EventPage_validate (empty_page (semantic_event_source_for r ns) status
            (map_or 0%N ev_sequence (head (memory_events r ns))) (map_or 0%N ev_sequence (last (memory_events r ns)))
            cursor) = Ok tt) as Hempty.
  { intros st _. apply EventPage_validate_Ok. simpl. split_and!; first [done | by right | cbv; lia | constructor]. }
  case_match; [intros [= <- <-]; by rewrite Hempty|]. case_match; [intros [= <- <-]; by rewrite Hempty|].
  destruct (event_history_for ns _ (r, w)) as [s1 [events|e]] eqn:Hh; [|done]. intros [= <- <-].
  apply event_history_for_stream in Hh as [Hr Hst]; [|done].
  split_and!; [by apply page_of_history_valid| |done].
  unfold page_of_history. by case_match.
Qed.
End reads.

(** ** Replay *)
Lemma filter_seq_none c events :
  Forall (fun s => (s <= c)%N) (ev_sequence <$> events) ->
  filter (fun e => (c < ev_sequence e)%N) events = [].
Proof.
  induction events as [|e events IH]; [done|]. rewrite fmap_cons. intros [He Hr]%Forall_cons.
  rewrite filter_cons, decide_False by lia. auto.
Qed.
Lemma filter_seq_after c n events :
  StronglySorted N.lt (ev_sequence <$> events) ->
  let fs := filter (fun e => (c < ev_sequence e)%N) events in
  filter (fun e => (map_or c ev_sequence (last (take n fs)) < ev_sequence e)%N) events = drop n fs.
Proof.
  intros Hs fs. assert (StronglySorted N.lt (ev_sequence <$> fs)) as Hfs by (by apply Sorted_filter_seq).
  set (c' := map_or c ev_sequence (last (take n fs))).
  assert (c <= c')%N as Hcc.
  { unfold c'. destruct (last (take n fs)) as [e|] eqn:He; simpl; [|lia].
    apply last_Some_elem_of, elem_of_take_weaken, list_elem_of_filter in He as [? _]. lia. }
  assert (filter (fun e => (c' < ev_sequence e)%N) events = filter (fun e => (c' < ev_sequence e)%N) fs) as ->.
  { unfold fs. rewrite list_filter_filter. apply list_filter_iff. intros e. lia. }
  rewrite <-(take_drop n fs) at 1. rewrite filter_app.
  rewrite <-(take_drop n fs), fmap_app in Hfs.
  rewrite filter_seq_none; simpl.
  - apply filter_all. intros e He. unfold c'. destruct (last (take n fs)) as [l|] eqn:Hl; simpl.
    + eapply StronglySorted_app_1_elem_of; [exact Hfs| |]; apply list_elem_of_fmap; eauto.
      eexists. split; [done|]. by apply last_Some_elem_of.
    + apply elem_of_drop_weaken in He. by apply list_elem_of_filter in He as [? _].
  - apply Forall_forall. intros s Hin. destruct (last (take n fs)) as [l|] eqn:Hl.
    + apply (sorted_last_ge _ (ev_sequence <$> take n fs)); [by eapply StronglySorted_app_1_l| |done].
      unfold c'. by rewrite fmap_last, Hl.
    + apply last_None in Hl. rewrite Hl in Hin. set_solver.
Qed.

Lemma page_current source history cursor limit :
  page_status (page_of_history source history cursor limit) = Current ->
  page_events (page_of_history source history cursor limit)
  = take limit (filter (fun e => (cur_sequence cursor < ev_sequence e)%N) history).
Proof. unfold page_of_history. by case_bool_decide. Qed.
Lemma page_current_next source history cursor limit :
  let p := page_of_history source history cursor limit in
  page_status p = Current ->
  page_next_sequence p = map_or (cur_sequence cursor) ev_sequence (last (page_events p)).
Proof. unfold page_of_history. by case_bool_decide. Qed.
Lemma sorted_prefix full more :
  StronglySorted N.lt (ev_sequence <$> full ++ more) -> StronglySorted N.lt (ev_sequence <$> full).
Proof. rewrite fmap_app. apply StronglySorted_app_1_l. Qed.

(** Nothing a current cursor still needs has left the window. *)
Lemma window_filter source k cursor limit full :
  StronglySorted N.lt (ev_sequence <$> full) -> (drop k full <> [] \/ k = 0%nat) ->
  page_status (page_of_history source (drop k full) cursor limit) = Current ->
  filter (fun e => (cur_sequence cursor < ev_sequence e)%N) (drop k full)
  = filter (fun e => (cur_sequence cursor < ev_sequence e)%N) full.
Proof.
  intros Hs Hk Hst. rewrite <-(take_drop k full) at 2. rewrite filter_app.
  enough (filter (fun e => (cur_sequence cursor < ev_sequence e)%N) (take k full) = []) as -> by done.
  destruct Hk as [Hk| ->]; [|done]. destruct (drop k full) as [|e h] eqn:Hd; [done|].
  rewrite <-(take_drop k full), Hd, fmap_app in Hs.
  assert (ev_sequence e <= cur_sequence cursor + 1)%N as He.
  { revert Hst. unfold page_of_history, EventCursor_status_against, u64_saturating_add. simpl.
    repeat case_match; try done. lia. }
  apply filter_seq_none, Forall_forall. intros s Hin.
  enough (s < ev_sequence e)%N by lia.
  eapply StronglySorted_app_1_elem_of; [exact Hs|done|]. apply elem_of_cons. by left.
Qed.

(** C38: a client that reads a page and then resumes from its cursor sees every
    event of the stream exactly once and in order, although new events are
    published in between and old ones fall out of the retained window; if it
    would miss one, the second page is not marked current. *)
Theorem replay_resumes source full more k k' cursor limit limit' :
  StronglySorted N.lt (ev_sequence <$> full ++ more) ->
  let p := page_of_history source (drop k full) cursor limit in
  let p' := page_of_history source (drop k' (full ++ more)) (mk_cursor source (page_next_sequence p)) limit' in
  (drop k full <> [] \/ k = 0%nat) -> (drop k' (full ++ more) <> [] \/ k' = 0%nat) ->
  page_status p = Current -> page_status p' = Current ->
  page_events p ++ page_events p'
  = take (length (page_events p) + limit')
      (filter (fun e => (cur_sequence cursor < ev_sequence e)%N) (full ++ more)).
Proof.
  intros Hs p p' Hk Hk' Hst Hst'.
  assert (page_events p = take limit (filter (fun e => (cur_sequence cursor < ev_sequence e)%N) full)) as Hp.
  { rewrite <-(window_filter source k cursor limit full); [by apply page_current|by eapply sorted_prefix|done|done]. }
  assert (page_events p' = take limit' (filter (fun e => (page_next_sequence p < ev_sequence e)%N) (full ++ more))) as Hp'.
  { change (page_next_sequence p) with (cur_sequence (mk_cursor source (page_next_sequence p))).
    rewrite <-(window_filter source k' (mk_cursor source (page_next_sequence p)) limit'
      (full ++ more));
      [by apply page_current|done|done|done]. }
  set (fs := filter (fun e => (cur_sequence cursor < ev_sequence e)%N) (full ++ more)).
  assert (page_events p = take (length (page_events p)) fs) as Htake.
  { unfold fs. rewrite filter_app, take_app_le; rewrite Hp; [by rewrite length_take, <-take_take, firstn_all|].
    rewrite length_take. lia. }
  assert (page_next_sequence p
          = map_or (cur_sequence cursor) ev_sequence (last (take (length (page_events p)) fs))) as Hnext.
  { rewrite <-Htake. by apply page_current_next. }
  pose proof (filter_seq_after (cur_sequence cursor) (length (page_events p)) (full ++ more) Hs) as Hafter.
  cbv zeta in Hafter. fold fs in Hafter. rewrite Hp', Hnext, Hafter. rewrite Htake at 1. apply take_take_drop.
Qed.

(** ** Degraded streams *)
Section degraded.
Context {W : Type} `{Environment W}.
Implicit Types (r : AuthorityRuntime) (w : W).

Definition degraded r (ns : NamespaceId) : Prop :=
  exists h, rt_events r !! ns = Some h /\ neh_next_sequence h = None.

(** When the durable store refuses an event, the event is not shown to
    anyone, the stream is degraded, and readers are told of a gap instead of
    being served an apparently contiguous stream. *)
Theorem failed_append_degrades ns subject kind schema body r w w1 now w2 e h n :
  rt_events r !! ns = Some h -> neh_next_sequence h = Some n -> env_now_unix_ms w = (w1, now) ->
  let event := mk_event n (semantic_event_source_for r ns) subject kind now schema body in
  Event_validate event = Ok tt -> env_append_event (mk_durable ns event) w1 = (w2, Err e) ->
  exists r', publish_semantic_event_in ns subject kind schema body (r, w) = ((r', w2), Ok tt) /\
    memory_events r' ns = memory_events r ns /\ degraded r' ns /\
    forall cursor limit, cur_source cursor = semantic_event_source_for r ns ->
      exists p, read_events_page ns cursor limit (r', w2) = ((r', w2), Ok p) /\
        page_status p = Gap /\ page_events p = [].
Proof.
  intros Hh Hn Hnow event Hv Happ. subst event.
  exists (set_events r (<[ns := mk_history None (neh_events h)]> (rt_events r))).
  split_and!.
  - unfold publish_semantic_event_in, append_to_history, get_runtime, world_call, port_result, put_history,
      update_runtime. unfold_monads. rewrite Hh, Hn, Hnow. simpl. rewrite Hv. simpl. rewrite Happ. done.
  - unfold memory_events. simpl. by rewrite lookup_insert_eq, Hh.
  - eexists. simpl. by rewrite lookup_insert_eq.
  - intros cursor limit Hc. unfold read_events_page, get_runtime. unfold_monads.
    rewrite lookup_insert_eq. unfold semantic_event_source_for in *. simpl.
    rewrite bool_decide_eq_true_2 by done. simpl. eauto.
Qed.

(** A degraded stream never recovers in this process: publishing to it has
    no effect at all, publishing to any other namespace leaves it degraded. *)
Theorem degraded_forever ns ns' subject kind schema body r w s' res :
  degraded r ns -> publish_semantic_event_in ns' subject kind schema body (r, w) = (s', res) ->
  degraded s'.1 ns /\ (ns' = ns -> s' = (r, w)).
Proof.
  intros (h & Hh & Hn) Hp. destruct (decide (ns' = ns)) as [->|Hne].
  - revert Hp. unfold publish_semantic_event_in, append_to_history, get_runtime. unfold_monads. rewrite Hh, Hn.
    intros [= <- <-]. split; [by exists h|done].
  - apply publish_step in Hp as [_ Hs]. split; [|done]. exists h. split; [|done].
    destruct Hs as [->|(h' & -> & _)]; [done|]. simpl. by rewrite lookup_insert_ne.
Qed.
End degraded.
