(* ===== verification/Authority.v ===== *)
(** * Authority actions

    [cy-kernel-daemon/src/authority/authority_actions.rs] ([KernelAuthority for
    LocalKernelAuthority]) and the lifecycle transitions of [authority.rs] it
    shares with the watchdog: leases, workers, operations, endpoints, grants,
    events, worker loss, cleanup and lease expiry. *)
From stdpp Require Import base gmap strings list sorting pretty.
From Stdlib Require Import Ascii Lia ZifyBool ZifyN.
From S2P Require Import Prelude Validation Contract KernelApi ResourceManager Binding Environment Instance.
From S2P Require Import AuthorityState Events.

(** [convert/event.rs] *)
Definition semantic_operation_event_kind (s : OperationState) : string :=
  match s with
  | OCreated => "operation.created" | OPending => "operation.pending" | ORunning => "operation.running"
  | OSucceeded => "operation.succeeded" | OFailed => "operation.failed"
  | OCancelling => "operation.cancelling" | OCancelled => "operation.cancelled" | OLost => "operation.lost"
  end.

Definition op_with_state (s : OperationState) (o : Operation) : Operation :=
  mk_operation (op_identity o) (op_owner o) (op_executor o) (op_kind o) s (op_deadline_unix_ms o)
    (op_parent o) (op_metadata o).

(** [KernelAuthority::negotiate]: of the revisions both sides know, the one with
    the highest minor; [max_by_key] keeps the last of equals. *)
Definition max_by_minor (best : option ContractRevision) (r : ContractRevision) : option ContractRevision :=
  match best with
  | Some b => if (rev_minor b <=? rev_minor r)%N then Some r else best
  | None => Some r
  end.
Definition negotiate (offered : list ContractRevision) : result Rejection ContractRevision :=
  ok_or (rejection "CONTRACT_INCOMPATIBLE"
           "no offered semantic contract revision is compatible with this Kernel")
    (foldl max_by_minor None (omap (ContractRevision_negotiate ContractRevision_current) offered)).

Section authority.
Context {W : Type} `{Environment W}.
Implicit Types (context : AuthorityCallContext) (principal : Principal).

Definition publish (namespace : NamespaceId) (subject : Identity) (kind schema_id : string) : Auth W unit :=
  publish_semantic_event_in namespace subject kind schema_id [].

(** ** Leases *)
Definition acquire_lease context principal (holder : Identity) (query : ResourceQuery)
    (expires_at_unix_ms : N) : Auth W Lease :=
  _ ← validate_context context;
  _ ← bind_namespace context principal;
  now ← world_call env_now_unix_ms;
  if (expires_at_unix_ms <=? now)%N then
    reject "LEASE_EXPIRY_INVALID" "lease expiry must be in the future"
  else
    let object := object_ref context (lease_name context) in
    r ← get_runtime;
    lease ← daemon_acquire_lease
      (mk_request (lease_internal_name context (obj_identity object))
         (inv_generation (inventory (rt_ledger r))) holder query (Some expires_at_unix_ms)
         CgroupLimits_default);
    recorded ← attempt (record_runtime LeaseAcquired None (Some lease) "LEASE_ACQUIRED");
    match recorded with
    | Err error =>
        _ ← ledger_now (fun now => begin_release now (rl_name lease) (rl_fence_token lease));
        _ ← ledger (complete_release (rl_name lease) (rl_fence_token lease));
        throw error
    | Ok _ =>
        _ ← update_runtime (fun r => set_leases r (<[object := rl_name lease]> (rt_leases r)));
        mret (semantic_lease object lease)
    end.

Definition renew_lease context principal (lease : Identity) (fence_token expires_at_unix_ms : N)
    : Auth W Lease :=
  _ ← validate_context context;
  _ ← require_namespace_owner context principal;
  let object := object_ref context lease in
  current ← lease_for context lease;
  if negb (rl_generation current =? ident_generation lease)%N then
    reject "LEASE_GENERATION_STALE" "lease generation no longer has authority"
  else
    renewed ← checked (ledger_now (fun now =>
      ResourceManager.renew_lease now (rl_name current) fence_token expires_at_unix_ms));
    mret (semantic_lease object renewed).

(** [purge_endpoint_authority] *)
Definition owned_endpoints (worker_identity : Identity) (r : AuthorityRuntime) : list (ObjectRef * Endpoint) :=
  filter (fun p : ObjectRef * Endpoint => ep_owner p.2 = worker_identity) (btree_iter (rt_endpoints r)).
Definition purged (worker_identity : Identity) (r : AuthorityRuntime) : AuthorityRuntime :=
  let owned := owned_endpoints worker_identity r in
  let endpoint_identities := (fun p => ep_identity p.2) <$> owned in
  let r := set_endpoints r (foldl (fun m (p : ObjectRef * Endpoint) => delete p.1 m) (rt_endpoints r) owned) in
  set_endpoint_grants r
    (filter (fun p : ObjectRef * EndpointGrant =>
       (grant_endpoint p.2 ∉ endpoint_identities) /\ grant_grantee p.2 <> worker_identity)
       (rt_endpoint_grants r)).
Definition purge_endpoint_authority (worker_identity : Identity) : Auth W (list Identity) :=
  r ← get_runtime;
  _ ← update_runtime (purged worker_identity);
  mret ((fun p => ep_identity p.2) <$> owned_endpoints worker_identity r).

(** [let _ = self.runtime.daemon.fail_release(..)] *)
Definition try_fail_release (name : string) (fence_token : N) : Auth W unit :=
  _ ← ledger (fail_release name fence_token); mret tt.

(** [let _ = self.record_runtime(..)] *)
Definition try_record_runtime (event : RuntimeJournalEvent) (instance_name : option string)
    (lease : option ResourceLease) (reason_code : string) : Auth W unit :=
  _ ← attempt (record_runtime event instance_name lease reason_code); mret tt.

(** The process [release_with_cleanup] stops: the first whose lease reference
    matches. *)
Definition holds_lease (name : string) (fence_token : N) (p : ManagedProcess) : bool :=
  is_some_and (fun l => bool_decide (lr_lease_name l = name) && (lr_fence_token l =? fence_token)%N)
    (mp_lease p).

(** Stops that process and records the outcome on its worker; the result is the
    instance name to record, if there was a process. *)
Definition release_stop (current releasing : ResourceLease) (fence_token : N) (retrying : bool)
    : Auth W (option string * string) :=
  instances ← iter_instances;
  match find (fun p => holds_lease (rl_name current) fence_token p.2) instances with
  | Some (worker_id, process) =>
      let process := mp_set_worker_state WDraining process in
      _ ← set_instance worker_id process;
      r ← get_runtime;
      '(process, stopped) ← actor_call worker_id process
         (actor_stop (mk_stop_request (hb_graceful_stop (rt_heartbeat r)) false));
      match stopped with
      | Err error =>
          _ ← try_fail_release (rl_name releasing) fence_token;
          throw (provider_rejection error)
      | Ok report =>
          if negb (cr_complete report) then
            _ ← set_instance worker_id (mp_set_worker_state WFailed process);
            _ ← try_fail_release (rl_name releasing) fence_token;
            _ ← try_record_runtime InstanceCleanupFailed (Some worker_id) (Some releasing)
                  (cr_reason_code report);
            reject "CLEANUP_INCOMPLETE" (cr_reason_code report)
          else
            let process := mp_set_worker_state WStopped process in
            _ ← set_instance worker_id process;
            mret (Some worker_id, match mp_semantic_worker process with
                                  | Some worker => ident_id (wk_identity worker)
                                  | None => worker_id
                                  end)
      end
  | None =>
      if retrying then
        _ ← try_fail_release (rl_name releasing) fence_token;
        reject "CLEANUP_INCOMPLETE" "a failed lease has no managed actor to prove physical cleanup"
      else mret (None, "")
  end.

Definition release_with_cleanup context (lease_identity : Identity) (fence_token : N) : Auth W Lease :=
  let object := object_ref context lease_identity in
  current ← lease_for context lease_identity;
  if negb (rl_generation current =? ident_generation lease_identity)%N then
    reject "STALE_GENERATION" "lease generation no longer has authority"
  else
    let retrying_failed_cleanup := bool_decide (rl_state current = Failed) in
    _ ← record_runtime LeaseReleaseStarted None (Some current) "LEASE_RELEASE_STARTED";
    releasing ← checked (ledger_now (fun now => begin_release now (rl_name current) fence_token));
    '(worker_id, journal_instance_name) ←
       release_stop current releasing fence_token retrying_failed_cleanup;
    _ ← (if bool_decide (is_Some worker_id) then
           record_runtime InstanceTerminated (Some journal_instance_name) (Some releasing)
             "CLEANUP_COMPLETE"
         else mret tt);
    _ ← record_runtime LeaseReleased worker_id (Some releasing) "LEASE_RELEASED";
    released ← checked (ledger (complete_release (rl_name current) fence_token));
    _ ← purge_endpoint_authority (rl_holder current);
    mret (semantic_lease object released).

Definition release_lease context principal (lease : Identity) (fence_token : N) : Auth W Lease :=
  _ ← validate_context context;
  _ ← require_namespace_owner context principal;
  release_with_cleanup context lease fence_token.

(** ** Operations *)
Definition put_operation context (operation : Operation) : Auth W unit :=
  update_runtime (fun r => set_operations r
    (<[object_ref context (op_identity operation) := operation]> (rt_operations r))).

Definition remember_operation context (operation : Operation) : Auth W Operation :=
  _ ← put_operation context operation;
  _ ← publish (ctx_namespace context) (op_identity operation)
        (semantic_operation_event_kind (op_state operation)) "cyrene.operation.v1";
  mret operation.

Definition create_operation context principal (operation : Operation) : Auth W Operation :=
  _ ← validate_context context;
  _ ← bind_namespace context principal;
  if negb (bool_decide (op_state operation = OCreated)) then
    reject "STATE_TRANSITION_INVALID" "CreateOperation requires CREATED state"
  else
    let key := object_ref context (op_identity operation) in
    r ← get_runtime;
    match rt_operations r !! key with
    | Some existing =>
        if bool_decide (existing = operation) then mret existing
        else reject "OPERATION_EXISTS" "an operation with this identity already exists"
    | None =>
        if existsb (fun '(object, existing) =>
             bool_decide (obj_namespace object = ctx_namespace context)
             && bool_decide (ident_id (op_identity existing) = ident_id (op_identity operation))
             && (ident_generation (op_identity operation) <? ident_generation (op_identity existing))%N)
             (btree_iter (rt_operations r))
        then reject "STALE_GENERATION" "operation identity generation is stale"
        else
          _ ← put_operation context operation;
          _ ← publish (ctx_namespace context) (op_identity operation) "operation.created"
                "cyrene.operation.v1";
          mret operation
    end.

Definition report_operation context principal (reported : Operation) : Auth W Operation :=
  _ ← validate_context context;
  _ ← require_namespace_owner context principal;
  r ← get_runtime;
  match rt_operations r !! object_ref context (op_identity reported) with
  | None => reject "OPERATION_NOT_FOUND" "operation is unknown"
  | Some current =>
      if negb (bool_decide (op_owner current = op_owner reported))
         || negb (bool_decide (op_executor current = op_executor reported))
         || negb (bool_decide (op_kind current = op_kind reported))
         || negb (bool_decide (op_deadline_unix_ms current = op_deadline_unix_ms reported))
         || negb (bool_decide (op_parent current = op_parent reported))
      then reject "OPERATION_IMMUTABLE_FIELDS_CHANGED"
             "operation report attempted to change immutable authority fields"
      else if negb (OperationState_can_transition_to (op_state current) (op_state reported)) then
        reject "STATE_TRANSITION_INVALID" "operation report is not an idempotent or forward transition"
      else
        _ ← put_operation context reported;
        _ ← publish (ctx_namespace context) (op_identity reported)
              (semantic_operation_event_kind (op_state reported)) "cyrene.operation.v1";
        mret reported
  end.

(** [mark_cancelling_operation_lost]: also what the cancellation deadline thread
    runs.  The code panics on an unknown operation. *)
Definition mark_cancelling_operation_lost context (identity : Identity) : Auth W Operation :=
  r ← get_runtime;
  match rt_operations r !! object_ref context identity with
  | None => reject "PANIC" "operation was checked before cancellation delivery"
  | Some current =>
      let operation := if bool_decide (op_state current = OCancelling) then op_with_state OLost current else current in
      _ ← update_runtime (fun r => set_operations r
            (<[object_ref context identity := operation]> (rt_operations r)));
      _ ← (if bool_decide (op_state operation = OLost) then
             publish (ctx_namespace context) (op_identity operation) "operation.lost" "cyrene.operation.v1"
           else mret tt);
      mret operation
  end.

Definition cancel_operation context principal (identity : Identity) : Auth W Operation :=
  _ ← validate_context context;
  _ ← require_namespace_owner context principal;
  r ← get_runtime;
  match rt_operations r !! object_ref context identity with
  | None => reject "OPERATION_NOT_FOUND" "operation is unknown"
  | Some current =>
      if bool_decide (op_state current = OCancelling) || bool_decide (op_state current = OCancelled) then
        mret current
      else if negb (OperationState_can_transition_to (op_state current) OCancelling) then
        reject "STATE_TRANSITION_INVALID" "operation cannot be cancelled from its current state"
      else
        let cancelling := op_with_state OCancelling current in
        _ ← update_runtime (fun r => set_operations r
              (<[object_ref context identity := cancelling]> (rt_operations r)));
        _ ← publish (ctx_namespace context) (op_identity cancelling)
              (semantic_operation_event_kind OCancelling) "cyrene.operation.v1";
        instances ← iter_instances;
        match find (fun p => is_some_and (fun worker => bool_decide (op_executor cancelling = wk_identity worker))
                      (mp_semantic_worker p.2)) instances with
        | Some (name, process) =>
            '(_, delivered) ← actor_call name process (request_cancel (ident_id (op_identity cancelling)));
            match delivered with
            | Ok _ => mret cancelling
            | Err _ => mark_cancelling_operation_lost context (op_identity cancelling)
            end
        | None => mark_cancelling_operation_lost context (op_identity cancelling)
        end
  end.
End authority.
