(* ===== verification/WorkerActions.v ===== *)
(** * Worker actions of the authority

    [start_worker], [stop_worker], [report_heartbeat] of
    [authority/authority_actions.rs]; [verify_worker_control],
    [accept_worker_control_heartbeat], [mark_worker_lost] and
    [enforce_lease_expiry] of [authority.rs]. *)
From stdpp Require Import base gmap strings list sorting pretty.
From Stdlib Require Import Ascii Lia ZifyBool ZifyN.
From S2P Require Import Prelude Validation Contract KernelApi ResourceManager Binding Environment Instance.
From S2P Require Import AuthorityState Events Authority.

Section workers.
Context {W : Type} `{Environment W}.
Implicit Types (context : AuthorityCallContext) (principal : Principal).

(** An actor call on an actor that is not in the instance map yet. *)
Definition local_actor_call {A} (actor : InstanceActor)
    (f : InstanceActor -> W -> InstanceActor * W * result ProviderError A)
    : Auth W (InstanceActor * result ProviderError A) :=
  fun '(r, w) => let '(a, w, res) := f actor w in ((r, w), Ok (a, res)).

Definition immediate_stop : StopRequest := mk_stop_request 0 true.

(** The reap of a launched process whose launch cannot be recorded. *)
Definition reap_failed_launch (actor : InstanceActor) (worker_id : string) (lease : ResourceLease)
    : Auth W unit :=
  '(_, stopped) ← local_actor_call actor (actor_stop immediate_stop);
  match stopped with
  | Ok report =>
      if negb (cr_complete report) then
        try_record_runtime InstanceCleanupFailed (Some worker_id) (Some lease) (cr_reason_code report)
      else mret tt
  | Err _ => mret tt
  end.

Definition worker_operation (action kind : string) (s : OperationState) (worker : Worker) : Operation :=
  mk_operation
    (mk_identity ("operation/" +:+ action +:+ "/" +:+ ident_id (wk_identity worker))
       (ident_generation (wk_identity worker)))
    (wk_principal worker) (wk_provider worker) kind s None None
    {["worker.id" := ident_id (wk_identity worker)]}.

(** The plan a Worker is launched with: the resolver's, under the runtime name,
    with the enforced limits and the heartbeat environment. *)
Definition worker_plan (r : AuthorityRuntime) (worker : Worker) (lease : ResourceLease)
    (binding : DeviceBinding) (instance_name : string) (plan : LaunchPlan) : Auth W LaunchPlan :=
  if negb (bool_decide (plan_instance_name plan = ident_id (wk_identity worker))) then
    reject "EXECUTION_REFERENCE_MISMATCH" "resolver returned a plan for another Worker identity"
  else
    limits ← lift (enforced_worker_limits (rl_limits lease) (wk_limits worker));
    environment ← lift (map_err provider_rejection
      (inject_heartbeat_environment (plan_environment plan) (rt_heartbeat r) instance_name
         (rl_fence_token lease)));
    _ ← lift (map_err provider_rejection (merge_environment binding environment));
    mret (mk_plan instance_name (plan_executable plan) (plan_args plan) environment
            (plan_cgroup_name plan) limits (plan_working_dir plan) (plan_transport_socket plan)).

(** Launch intent, physical launch, recorded outcome. *)
Definition launch_worker (worker : Worker) (lease : ResourceLease) (actor : InstanceActor)
    : Auth W InstanceActor :=
  let worker_id := ident_id (wk_identity worker) in
  _ ← record_runtime InstanceLaunching (Some worker_id) (Some lease) "WORKER_LAUNCHING";
  '(actor, started) ← local_actor_call actor actor_start;
  _ ← lift (map_err provider_rejection started);
  match actor_recovery_evidence actor with
  | Err error =>
      _ ← reap_failed_launch actor worker_id lease;
      throw (provider_rejection error)
  | Ok evidence =>
      recorded ← attempt (record_runtime_launch worker_id lease evidence);
      match recorded with
      | Err error => _ ← reap_failed_launch actor worker_id lease; throw error
      | Ok _ => mret actor
      end
  end.

Definition start_worker context principal (worker : Worker) : Auth W Operation :=
  _ ← validate_context context;
  _ ← require_namespace_owner context principal;
  let worker := mk_worker (wk_identity worker) (principal_identity principal) (wk_provider worker)
    (wk_lease worker) (wk_state worker) (wk_execution_ref worker) (wk_limits worker) in
  if negb (bool_decide (wk_state worker = WRegistered) || bool_decide (wk_state worker = WStarting)) then
    reject "STATE_TRANSITION_INVALID" "StartWorker requires REGISTERED or STARTING state"
  else
  let worker_object := object_ref context (wk_identity worker) in
  r ← get_runtime;
  if bool_decide (is_Some (rt_workers r !! worker_object)) then
    reject "WORKER_EXISTS" "worker identity is already managed by this Kernel"
  else
  lease ← lease_for context (wk_lease worker);
  inactive ← (if negb (rl_generation lease =? ident_generation (wk_lease worker))%N
                 || negb (bool_decide (rl_holder lease = wk_identity worker))
                 || negb (bool_decide (rl_state lease = Active))
              then mret true else lease_expired lease);
  if (inactive : bool) then
    reject "LEASE_NOT_ACTIVE" "worker does not hold the referenced active Lease incarnation"
  else
  binding ← port (binding_for_lease lease);
  _ ← port (preflight_binding binding);
  resolved ← port (env_resolve_worker_launch_plan worker);
  let instance_name := scoped_runtime_name "worker" worker_object in
  plan ← worker_plan r worker lease binding instance_name (resolved_plan resolved);
  actor ← launch_worker worker lease
    (InstanceActor_new instance_name (rl_name lease) (rl_fence_token lease) plan binding
       (hb_timeout (rt_heartbeat r)));
  let worker := wk_with_state WStarting worker in
  _ ← set_instance instance_name
        (mk_managed actor (Some (mk_lease_ref (rl_name lease) (rl_fence_token lease))) (Some worker)
           (rl_fence_token lease) 0 None 0 false false None None None);
  _ ← update_runtime (fun r => set_workers r (<[worker_object := instance_name]> (rt_workers r)));
  _ ← publish (ctx_namespace context) (wk_identity worker) "worker.starting" "cyrene.worker.v1";
  remember_operation context (worker_operation "start" "worker.start" ORunning worker).

(** ** Stop *)
Definition fail_stop {A} (releasing : ResourceLease) (fence_token : N) (reason_code message : string)
    : Auth W A :=
  _ ← try_fail_release (rl_name releasing) fence_token;
  reject reason_code message.

(** The part of [stop_worker] under the instance lock. *)
Definition stop_process (worker_name : string) (worker_identity lease_identity : Identity)
    (releasing : ResourceLease) (fence_token : N) (request : StopRequest)
    : Auth W (Worker * CleanupReport) :=
  r ← get_runtime;
  match rt_instances r !! worker_name with
  | None => fail_stop releasing fence_token "WORKER_NOT_FOUND" "worker is not managed by this Kernel"
  | Some process =>
  match mp_semantic_worker process with
  | None => fail_stop releasing fence_token "WORKER_COMPATIBILITY_ONLY"
              "legacy plugin process is not a semantic Worker"
  | Some worker =>
      if negb (bool_decide (wk_identity worker = worker_identity))
         || negb (bool_decide (wk_lease worker = lease_identity))
      then fail_stop releasing fence_token "STALE_GENERATION"
             "worker identity or lease generation is stale"
      else
        let process := mp_set_worker_state WDraining process in
        _ ← set_instance worker_name process;
        '(process, stopped) ← actor_call worker_name process (actor_stop request);
        match stopped with
        | Err error =>
            _ ← try_fail_release (rl_name releasing) fence_token;
            throw (provider_rejection error)
        | Ok report =>
            let s := if cr_complete report then WStopped else WFailed in
            _ ← set_instance worker_name (mp_set_worker_state s process);
            mret (wk_with_state s worker, report)
        end
  end
  end.

Definition stop_worker context principal (worker_identity lease_identity : Identity) (fence_token : N)
    (grace_period : N) : Auth W Operation :=
  _ ← validate_context context;
  _ ← require_namespace_owner context principal;
  lease ← lease_for context lease_identity;
  worker_name ← worker_instance_name context worker_identity;
  if negb (rl_generation lease =? ident_generation lease_identity)%N
     || negb (rl_fence_token lease =? fence_token)%N
     || negb (bool_decide (rl_holder lease = worker_identity))
     || negb (bool_decide (rl_state lease = Active))
  then reject "FENCE_MISMATCH" "worker stop no longer has active lease authority"
  else
  let worker_id := ident_id worker_identity in
  _ ← record_runtime LeaseReleaseStarted (Some worker_id) (Some lease) "LEASE_RELEASE_STARTED";
  releasing ← checked (ledger_now (fun now => begin_release now (rl_name lease) fence_token));
  '(worker, report) ← stop_process worker_name worker_identity lease_identity releasing fence_token
       (mk_stop_request grace_period false);
  _ ← (if cr_complete report then
         _ ← record_runtime InstanceTerminated (Some worker_id) (Some releasing) (cr_reason_code report);
         _ ← record_runtime LeaseReleased (Some worker_id) (Some releasing) "LEASE_RELEASED";
         _ ← checked (ledger (complete_release (rl_name lease) fence_token));
         _ ← purge_endpoint_authority worker_identity;
         mret tt
       else
         _ ← try_fail_release (rl_name releasing) fence_token;
         try_record_runtime InstanceCleanupFailed (Some worker_id) (Some releasing)
           (cr_reason_code report));
  _ ← publish (ctx_namespace context) (wk_identity worker)
        (if cr_complete report then "worker.stopped" else "worker.failed") "cyrene.worker.v1";
  remember_operation context
    (worker_operation "stop" "worker.stop" (if cr_complete report then OSucceeded else OFailed) worker).

(** ** Heartbeats *)

(** The update both heartbeat paths apply under the instance lock. *)
Definition heartbeat_process (name : string) (process : ManagedProcess) (worker : Worker) : Auth W Worker :=
  if negb (WorkerState_can_transition_to (wk_state worker) WRunning) then
    reject "STATE_TRANSITION_INVALID" "worker cannot enter RUNNING from its current state"
  else
    instant ← world_call env_instant;
    timestamp ← world_call env_now_unix_ms;
    let worker := wk_with_state WRunning worker in
    _ ← set_instance name
          (mk_managed (on_heartbeat_received instant (mp_actor process)).1 (mp_lease process) (Some worker)
             (mp_generation process) (mp_accepted_sequence process) (Some timestamp) (mp_restart_count process)
             (mp_watchdog_triggered process) (mp_transport_disconnected process) (mp_control process)
             (mp_semantic_control process) (mp_pending_shutdown process));
    mret worker.

Definition report_heartbeat context principal (worker_identity lease_identity : Identity) (fence_token : N)
    : Auth W Worker :=
  _ ← validate_context context;
  _ ← require_namespace_owner context principal;
  lease ← lease_for context lease_identity;
  inactive ← (if negb (rl_generation lease =? ident_generation lease_identity)%N
                 || negb (rl_fence_token lease =? fence_token)%N
                 || negb (bool_decide (rl_holder lease = worker_identity))
                 || negb (bool_decide (rl_state lease = Active))
              then mret true else lease_expired lease);
  if (inactive : bool) then
    reject "FENCE_MISMATCH" "worker heartbeat no longer has active lease authority"
  else
  worker_name ← worker_instance_name context worker_identity;
  r ← get_runtime;
  match rt_instances r !! worker_name with
  | None => reject "WORKER_NOT_FOUND" "worker is not managed by this Kernel"
  | Some process =>
  match mp_semantic_worker process with
  | None => reject "WORKER_COMPATIBILITY_ONLY" "legacy plugin process is not a semantic Worker"
  | Some worker =>
      if negb (bool_decide (wk_identity worker = worker_identity))
         || negb (bool_decide (wk_lease worker = lease_identity))
      then reject "STALE_GENERATION" "worker identity or lease generation is stale"
      else
        worker ← heartbeat_process worker_name process worker;
        _ ← publish (ctx_namespace context) (wk_identity worker) "worker.running" "cyrene.worker.v1";
        mret worker
  end
  end.

Definition verify_worker_control context (worker_identity lease_identity : Identity) (fence_token : N)
    : Auth W Worker :=
  _ ← validate_context context;
  lease ← lease_for context lease_identity;
  if negb (rl_generation lease =? ident_generation lease_identity)%N
     || negb (rl_fence_token lease =? fence_token)%N
     || negb (bool_decide (rl_holder lease = worker_identity))
     || negb (bool_decide (rl_state lease = Active))
  then reject "FENCE_MISMATCH" "worker control no longer has active lease authority"
  else
  worker_name ← worker_instance_name context worker_identity;
  r ← get_runtime;
  match rt_instances r !! worker_name with
  | None => reject "WORKER_NOT_FOUND" "worker is not managed by this Kernel"
  | Some process =>
  match mp_semantic_worker process with
  | None => reject "WORKER_COMPATIBILITY_ONLY" "legacy plugin process cannot use semantic Worker control"
  | Some worker =>
      if negb (bool_decide (wk_identity worker = worker_identity))
         || negb (bool_decide (wk_lease worker = lease_identity))
      then reject "STALE_GENERATION" "worker identity or lease generation is stale"
      else mret worker
  end
  end.

Definition accept_worker_control_heartbeat context (worker_identity lease_identity : Identity)
    (fence_token : N) : Auth W Worker :=
  _ ← verify_worker_control context worker_identity lease_identity fence_token;
  worker_name ← worker_instance_name context worker_identity;
  r ← get_runtime;
  match rt_instances r !! worker_name with
  | None => reject "WORKER_NOT_FOUND" "worker is not managed by this Kernel"
  | Some process =>
  match mp_semantic_worker process with
  | None => reject "WORKER_COMPATIBILITY_ONLY" "legacy plugin process cannot use semantic Worker control"
  | Some worker =>
      worker ← heartbeat_process worker_name process worker;
      _ ← publish (ctx_namespace context) (wk_identity worker) "worker.running" "cyrene.worker.v1";
      mret worker
  end
  end.

(** ** Worker loss *)
Definition targets_worker (worker : Worker) (o : Operation) : bool :=
  bool_decide (op_executor o = wk_identity worker)
  || is_some_and (fun id => bool_decide (id = ident_id (wk_identity worker))) (op_metadata o !! "worker.id").
Definition loses (worker : Worker) (o : Operation) : bool :=
  targets_worker worker o && OperationState_can_transition_to (op_state o) OLost.
(** Marks the operations lost and returns their identities in map order. *)
Definition lose_operations (worker : Worker) : Auth W (list Identity) :=
  r ← get_runtime;
  _ ← update_runtime (fun r => set_operations r
        ((fun o => if loses worker o then op_with_state OLost o else o) <$> rt_operations r));
  mret (op_identity <$> filter (loses worker) (btree_values (rt_operations r))).

Definition revocation_required (s : RLeaseState) : bool :=
  match s with Active | Releasing | Expired => true | _ => false end.

(** Marks the process lost and stops it at once; the result is the cleanup
    report, if the backend gave one. *)
Definition lose_process (worker_name : string) : Auth W (option CleanupReport) :=
  r ← get_runtime;
  match rt_instances r !! worker_name with
  | None => reject "WORKER_NOT_FOUND" "worker is not managed by this Kernel"
  | Some process =>
  match mp_semantic_worker process with
  | None => reject "WORKER_COMPATIBILITY_ONLY" "legacy plugin process is not a semantic Worker"
  | Some worker =>
      let process :=
        mk_managed (mp_actor process) (mp_lease process) (Some (wk_with_state WLost worker))
          (mp_generation process) (mp_accepted_sequence process) (mp_last_heartbeat_at process)
          (mp_restart_count process) true (mp_transport_disconnected process) None None None in
      _ ← set_instance worker_name process;
      '(_, stopped) ← actor_call worker_name process (actor_stop immediate_stop);
      mret (match stopped with Ok report => Some report | Err _ => None end)
  end
  end.

(** The journal records of a revocation and, once cleanup is confirmed, the
    return of the resources. *)
Definition record_revocation (worker_name worker_id : string) (revoked : ResourceLease)
    (cleanup : option CleanupReport) (reason_code : string) : Auth W unit :=
  _ ← record_runtime LeaseRevoked (Some worker_name) (Some revoked) reason_code;
  _ ← record_runtime FenceAdvanced (Some worker_name) (Some revoked) reason_code;
  match cleanup with
  | Some report =>
      if cr_complete report then
        _ ← record_runtime InstanceTerminated (Some worker_id) (Some revoked) (cr_reason_code report);
        _ ← checked (ledger (complete_revocation (rl_name revoked) (rl_fence_token revoked)));
        mret tt
      else mret tt
  | None => mret tt
  end.

Definition mark_worker_lost context (worker_identity : Identity) (reason_code : string)
    : Auth W (list ProviderReconcileAction) :=
  _ ← validate_context context;
  worker_name ← worker_instance_name context worker_identity;
  r ← get_runtime;
  match rt_instances r !! worker_name ≫= mp_semantic_worker with
  | None => reject "WORKER_NOT_FOUND" "worker is not managed by this Kernel"
  | Some worker =>
  if negb (bool_decide (wk_identity worker = worker_identity)) then
    reject "STALE_GENERATION" "worker identity generation is stale"
  else
  lease ← lease_for context (wk_lease worker);
  is_allocated ← daemon_is_allocated (rl_name lease);
  if bool_decide (wk_state worker = WLost) && negb is_allocated then mret [Noop]
  else if negb (WorkerState_can_transition_to (wk_state worker) WLost)
          && negb (bool_decide (wk_state worker = WLost)) then mret [Noop]
  else if negb (bool_decide (rl_holder lease = wk_identity worker)) then
    reject "FENCE_MISMATCH" "worker no longer owns the referenced lease"
  else
  _ ← record_runtime WorkerLost (Some worker_name) (Some lease) reason_code;
  let required := revocation_required (rl_state lease) in
  revoked ← (if required
             then checked (ledger_now (fun now => revoke now (rl_name lease) (rl_fence_token lease)))
             else mret lease);
  cleanup ← lose_process worker_name;
  let lease_revoked := required || bool_decide (rl_state lease = Revoked) in
  lost_operations ← lose_operations worker;
  revoked_endpoints ← purge_endpoint_authority (wk_identity worker);
  _ ← (if (lease_revoked : bool)
       then record_revocation worker_name (ident_id (wk_identity worker)) revoked cleanup reason_code
       else mret tt);
  _ ← for_each (fun operation =>
        _ ← record_runtime OperationLost (Some worker_name) (Some revoked) reason_code;
        publish (ctx_namespace context) operation "operation.lost" "cyrene.operation.v1") lost_operations;
  _ ← for_each (fun endpoint =>
        _ ← record_runtime EndpointRevoked (Some worker_name) (Some revoked) reason_code;
        publish (ctx_namespace context) endpoint "endpoint.revoked" "cyrene.endpoint.v1") revoked_endpoints;
  _ ← publish (ctx_namespace context) (wk_identity worker) "worker.lost" "cyrene.worker.v1";
  _ ← (if (lease_revoked : bool)
       then publish (ctx_namespace context) (wk_lease worker) "lease.revoked" "cyrene.lease.v1"
       else mret tt);
  mret ([MarkWorkerLost (wk_identity worker)]
        ++ (if lease_revoked then [RevokeLease (wk_lease worker)] else [])
        ++ (MarkOperationLost <$> lost_operations) ++ (RevokeEndpoint <$> revoked_endpoints))
  end.

(** ** Lease expiry *)
Definition needs_active_expiry (now : N) (is_allocated : bool) (lease : ResourceLease) : bool :=
  (is_some_and (fun exp => (exp <=? now)%N) (rl_expires_at_unix_ms lease) && revocation_required (rl_state lease))
  || (bool_decide (rl_state lease = Revoked) && is_allocated).

(** Whether the semantic worker of a process is bound to the lease. *)
Definition bound_to (lease : ResourceLease) (lease_semantic_id : Identity) (p : ManagedProcess)
    : option Identity :=
  match mp_semantic_worker p with
  | Some worker =>
      if bool_decide (wk_lease worker = lease_semantic_id)
         || bool_decide (ident_id (wk_lease worker) = ident_id lease_semantic_id)
         || is_some_and (fun l => bool_decide (lr_lease_name l = rl_name lease)) (mp_lease p)
      then Some (wk_identity worker) else None
  | None => None
  end.

(** [revoke] unless the lease is revoked already. *)
Definition revoke_expired (lease : ResourceLease) : Auth W (result ProviderError ResourceLease) :=
  if bool_decide (rl_state lease = Revoked) then mret (Ok lease)
  else ledger_now (fun now => revoke now (rl_name lease) (rl_fence_token lease)).

Definition expire_legacy_instance (lease : ResourceLease) (instance_name : string) : Auth W unit :=
  r ← get_runtime;
  match rt_instances r !! instance_name with
  | None => mret tt
  | Some process =>
      let process :=
        mk_managed (mp_actor process) (mp_lease process) (mp_semantic_worker process)
          (mp_generation process) (mp_accepted_sequence process) (mp_last_heartbeat_at process)
          (mp_restart_count process) true (mp_transport_disconnected process) (mp_control process)
          (mp_semantic_control process) (mp_pending_shutdown process) in
      _ ← set_instance instance_name process;
      '(_, stopped) ← actor_call instance_name process (actor_stop immediate_stop);
      let cleanup_complete := match stopped with Ok report => cr_complete report | Err _ => false end in
      _ ← try_record_runtime LeaseRevoked (Some instance_name) (Some lease) "LEASE_EXPIRED";
      revoked ← revoke_expired lease;
      match revoked with
      | Err _ => mret tt
      | Ok revoked =>
          _ ← try_record_runtime FenceAdvanced (Some instance_name) (Some revoked) "LEASE_EXPIRED";
          if cleanup_complete then
            _ ← try_record_runtime InstanceTerminated (Some instance_name) (Some revoked) "LEASE_EXPIRED";
            _ ← ledger (complete_revocation (rl_name revoked) (rl_fence_token revoked));
            update_runtime (fun r => set_instances r (delete instance_name (rt_instances r)))
          else mret tt
      end
  end.

Definition expire_standalone (lease : ResourceLease) (namespace : NamespaceId) (lease_semantic_id : Identity)
    : Auth W (list ProviderReconcileAction) :=
  revoked ← revoke_expired lease;
  match revoked with
  | Err _ => mret []
  | Ok revoked =>
      _ ← try_record_runtime LeaseRevoked None (Some revoked) "LEASE_EXPIRED";
      _ ← try_record_runtime FenceAdvanced None (Some revoked) "LEASE_EXPIRED";
      _ ← ledger (complete_revocation (rl_name revoked) (rl_fence_token revoked));
      _ ← publish namespace lease_semantic_id "lease.revoked" "cyrene.lease.v1";
      mret [RevokeLease lease_semantic_id]
  end.

(** One iteration of the scan; a failed [mark_worker_lost] is logged. *)
Definition enforce_expiry_of (now : N) (lease : ResourceLease) : Auth W (list ProviderReconcileAction) :=
  is_allocated ← daemon_is_allocated (rl_name lease);
  if negb (needs_active_expiry now is_allocated lease) then mret []
  else
  r ← get_runtime;
  let lease_object :=
    fst <$> find (fun p : ObjectRef * string => bool_decide (p.2 = rl_name lease)) (btree_iter (rt_leases r)) in
  let namespace := map_or NamespaceId_default obj_namespace lease_object in
  let lease_semantic_id := map_or (mk_identity (rl_name lease) (rl_generation lease)) obj_identity lease_object in
  instances ← iter_instances;
  match head (omap (fun p : string * ManagedProcess => bound_to lease lease_semantic_id p.2) instances) with
  | Some worker_identity =>
      let request_id := "expiry-lost-" +:+ ident_id worker_identity in
      lost ← attempt (mark_worker_lost (mk_context ContractRevision_current namespace request_id request_id)
                        worker_identity "LEASE_EXPIRED");
      mret (match lost with Ok actions => actions | Err _ => [] end)
  | None =>
      match find (fun p : string * ManagedProcess =>
              is_some_and (fun l => bool_decide (lr_lease_name l = rl_name lease)) (mp_lease p.2)) instances with
      | Some (instance_name, _) => _ ← expire_legacy_instance lease instance_name; mret []
      | None => expire_standalone lease namespace lease_semantic_id
      end
  end.

Fixpoint enforce_expiries (now : N) (leases : list ResourceLease) : Auth W (list ProviderReconcileAction) :=
  match leases with
  | [] => mret []
  | lease :: rest =>
      actions ← enforce_expiry_of now lease;
      more ← enforce_expiries now rest;
      mret (actions ++ more)
  end.
Definition enforce_lease_expiry : Auth W (list ProviderReconcileAction) :=
  now ← world_call env_now_unix_ms;
  leases ← daemon_leases;
  enforce_expiries now leases.
End workers.
