(* ===== verification/EndpointActions.v ===== *)
(** * Endpoint, event and snapshot actions of the authority

    [publish_endpoint], [authorize_endpoint], [revoke_endpoint], [read_events]
    of [authority/authority_actions.rs] and [snapshot] of [authority.rs]. *)
From stdpp Require Import base gmap strings list sorting pretty.
From Stdlib Require Import Ascii Lia ZifyBool ZifyN.
From S2P Require Import Prelude Validation Contract KernelApi ResourceManager Binding Environment Instance.
From S2P Require Import AuthorityState Events Authority.

Section endpoints.
Context {W : Type} `{Environment W}.
Implicit Types (context : AuthorityCallContext) (principal : Principal).

(** The managed Worker incarnation an endpoint belongs to. *)
Definition endpoint_owner context (owner : Identity) (message : string) : Auth W Worker :=
  owner_name ← worker_instance_name context owner;
  r ← get_runtime;
  match rt_instances r !! owner_name ≫= mp_semantic_worker with
  | Some worker =>
      if bool_decide (wk_identity worker = owner) then mret worker
      else reject "ENDPOINT_OWNER_UNKNOWN" message
  | None => reject "ENDPOINT_OWNER_UNKNOWN" message
  end.

Definition stored_endpoint context (r : AuthorityRuntime) (identity : Identity) : option Endpoint :=
  match rt_endpoints r !! object_ref context identity with
  | Some endpoint => if bool_decide (ep_identity endpoint = identity) then Some endpoint else None
  | None => None
  end.

Definition publish_endpoint context principal (endpoint : Endpoint) : Auth W Endpoint :=
  _ ← validate_context context;
  _ ← require_namespace_owner context principal;
  owner ← endpoint_owner context (ep_owner endpoint)
            "endpoint owner is not an active managed Worker incarnation";
  if negb (bool_decide (wk_principal owner = principal_identity principal)) then
    reject "AUTHORITY_DENIED" "only the Worker owner Principal may publish an Endpoint"
  else
  owner_lease ← lease_for context (wk_lease owner);
  inactive ← (if negb (rl_generation owner_lease =? ident_generation (wk_lease owner))%N
                 || negb (bool_decide (rl_holder owner_lease = wk_identity owner))
                 || negb (bool_decide (rl_state owner_lease = Active))
              then mret true else lease_expired owner_lease);
  if (inactive : bool) then
    reject "LEASE_NOT_ACTIVE" "endpoint owner no longer has an active Lease incarnation"
  else
  r ← get_runtime;
  let same_id (object : ObjectRef) (current : Endpoint) : bool :=
    bool_decide (obj_namespace object = ctx_namespace context)
    && bool_decide (ident_id (ep_identity current) = ident_id (ep_identity endpoint)) in
  if existsb (fun '(object, current) => same_id object current
        && (ident_generation (ep_identity endpoint) <? ident_generation (ep_identity current))%N)
       (btree_iter (rt_endpoints r))
  then reject "STALE_GENERATION" "endpoint identity generation is stale"
  else
  _ ← update_runtime (fun r => set_endpoints r
        (<[object_ref context (ep_identity endpoint) := endpoint]>
           (filter (fun p : ObjectRef * Endpoint =>
              same_id p.1 p.2 = false
              \/ (ident_generation (ep_identity endpoint) <= ident_generation (ep_identity p.2))%N)
              (rt_endpoints r))));
  _ ← update_runtime (fun r => set_endpoint_grants r
        (filter (fun p : ObjectRef * EndpointGrant =>
           obj_namespace p.1 <> ctx_namespace context
           \/ ident_id (grant_endpoint p.2) <> ident_id (ep_identity endpoint)
           \/ grant_endpoint p.2 = ep_identity endpoint)
           (rt_endpoint_grants r)));
  mret endpoint.

Definition authorize_endpoint context principal (grant : EndpointGrant) : Auth W EndpointGrant :=
  _ ← validate_context context;
  _ ← require_namespace_owner context principal;
  r ← get_runtime;
  match stored_endpoint context r (grant_endpoint grant) with
  | None => reject "ENDPOINT_NOT_FOUND" "endpoint grant targets an unpublished endpoint"
  | Some endpoint =>
  owner ← endpoint_owner context (ep_owner endpoint)
            "endpoint owner is not an active managed Worker incarnation";
  if negb (bool_decide (wk_principal owner = principal_identity principal)) then
    reject "AUTHORITY_DENIED" "only the Worker owner Principal may authorize an Endpoint grant"
  else
  lease ← lease_for context (grant_lease grant);
  if negb (rl_generation lease =? ident_generation (grant_lease grant))%N then
    reject "LEASE_GENERATION_STALE" "endpoint grant lease generation is stale"
  else if negb (rl_fence_token lease =? grant_fence_token grant)%N then
    reject "STALE_FENCE_TOKEN" "endpoint grant lease fence token is stale"
  else
  inactive ← (if negb (bool_decide (rl_state lease = Active))
                 || negb (bool_decide (rl_holder lease = grant_grantee grant))
              then mret true else lease_expired lease);
  if (inactive : bool) then
    reject "LEASE_NOT_ACTIVE" "endpoint grant grantee does not hold an active lease"
  else
  now ← world_call env_now_unix_ms;
  if (grant_expires_at_unix_ms grant <=? now)%N
     || is_some_and (fun lease_expiry => (lease_expiry <? grant_expires_at_unix_ms grant)%N)
          (rl_expires_at_unix_ms lease)
  then reject "ENDPOINT_GRANT_EXPIRY_INVALID"
         "endpoint grant expiry must be active and bounded by its lease"
  else
  _ ← update_runtime (fun r => set_endpoint_grants r
        (<[object_ref context (grant_identity grant) := grant]> (rt_endpoint_grants r)));
  mret grant
  end.

Definition revoke_endpoint context principal (grant : Identity) : Auth W unit :=
  _ ← validate_context context;
  _ ← require_namespace_owner context principal;
  let grant_key := object_ref context grant in
  r ← get_runtime;
  _ ← match rt_endpoint_grants r !! grant_key with
      | None => mret tt
      | Some stored_grant =>
          match stored_endpoint context r (grant_endpoint stored_grant) with
          | None => reject "ENDPOINT_OWNER_UNKNOWN" "endpoint grant no longer has an active endpoint owner"
          | Some endpoint =>
              owner ← endpoint_owner context (ep_owner endpoint)
                        "endpoint grant owner is not an active managed Worker incarnation";
              if negb (bool_decide (wk_principal owner = principal_identity principal)) then
                reject "AUTHORITY_DENIED" "only the Worker owner Principal may revoke an Endpoint grant"
              else mret tt
          end
      end;
  update_runtime (fun r => set_endpoint_grants r (delete grant_key (rt_endpoint_grants r))).

Definition read_events context principal (cursor : EventCursor) (limit : nat) : Auth W EventPage :=
  _ ← validate_context context;
  _ ← require_namespace_owner context principal;
  if (limit =? 0)%nat || (OPERATION_EVENT_HISTORY_CAPACITY <? limit)%nat then
    reject "EVENT_PAGE_LIMIT_INVALID" "event page_size must be in 1..=256"
  else read_events_page (ctx_namespace context) cursor limit.

(** ** Snapshot *)
Definition in_namespace {A} context (m : gmap ObjectRef A) : list (ObjectRef * A) :=
  filter (fun p : ObjectRef * A => obj_namespace p.1 = ctx_namespace context) (btree_iter m).

Fixpoint snapshot_leases (objects : list (ObjectRef * string)) : Auth W (list Lease) :=
  match objects with
  | [] => mret []
  | (object, name) :: rest =>
      lease ← daemon_lease name;
      leases ← snapshot_leases rest;
      mret (semantic_lease object lease :: leases)
  end.

#[export] Instance provider_key_ordered : Ordered (NamespaceId * string) := prod_ordered.

Definition snapshot context principal : Auth W AuthoritySnapshot :=
  _ ← validate_context context;
  _ ← require_namespace_owner context principal;
  r ← get_runtime;
  let source := semantic_event_source_for r (ctx_namespace context) in
  history ← event_history_for (ctx_namespace context) source;
  let cursor := mk_cursor source (map_or 0%N ev_sequence (last history)) in
  r ← get_runtime;
  let providers := (fun p => pr_provider p.2) <$>
    filter (fun p : (NamespaceId * string) * ProviderRecord => p.1.1 = ctx_namespace context)
      (btree_iter (rt_providers r)) in
  let workers := omap (fun p => rt_instances r !! p.2 ≫= mp_semantic_worker) (in_namespace context (rt_workers r)) in
  leases ← snapshot_leases (in_namespace context (rt_leases r));
  r ← get_runtime;
  mret (mk_authority_snapshot source cursor providers workers leases
          (snd <$> in_namespace context (rt_operations r))
          (snd <$> in_namespace context (rt_endpoints r))
          (snd <$> in_namespace context (rt_endpoint_grants r))).
End endpoints.
