(* ===== verification/ProviderActions.v ===== *)
(** * Provider actions of the authority

    [cy-kernel-daemon/src/authority/provider_actions.rs]
    ([KernelProviderAuthority for LocalKernelAuthority]):
    [register_provider], [publish_inventory], [reconcile_provider]; and
    [register_resource_facts_provider], [confirm_stale_worker_termination] of
    [authority.rs]. *)
From stdpp Require Import base gmap strings list sorting pretty.
From Stdlib Require Import Ascii Lia ZifyBool ZifyN.
From S2P Require Import Prelude Validation Contract KernelApi ResourceManager Binding Environment Instance.
From S2P Require Import AuthorityState Events Authority WorkerActions.

Definition contract_rejection (error : ContractError) : Rejection :=
  rejection (ce_reason_code error) (ce_message error).

Section providers.
Context {W : Type} `{Environment W}.
Implicit Types (context : AuthorityCallContext) (principal : Principal).

Definition put_provider (key : NamespaceId * string) (record : ProviderRecord) : Auth W unit :=
  update_runtime (fun r => set_providers r (<[key := record]> (rt_providers r))).

(** A new session: evidence of an older one is dropped. *)
Definition fresh_record (provider : Provider) principal : ProviderRecord :=
  mk_provider_record provider principal ScopeFull None None [].

Definition register_provider context principal (provider : Provider) : Auth W Provider :=
  _ ← validate_context context;
  if (ident_generation (prov_identity provider) =? 0)%N then
    reject "GENERATION_INVALID" "provider session generation must be non-zero"
  else
  _ ← lift (map_err contract_rejection (Provider_validate provider));
  let key := (ctx_namespace context, ident_id (prov_identity provider)) in
  let registered :=
    _ ← publish (ctx_namespace context) (prov_identity provider) "provider.registered" "cyrene.provider.v1";
    mret provider in
  let stale := reject "STALE_GENERATION" "provider session generation is stale" in
  r ← get_runtime;
  match rt_providers r !! key with
  | None => _ ← put_provider key (fresh_record provider principal); registered
  | Some current =>
      if negb (bool_decide (pr_principal current = principal)) then
        reject "AUTHORITY_DENIED" "Provider session belongs to another authenticated Principal"
      else
        let generation := ident_generation (prov_identity provider) in
        let current_generation := ident_generation (prov_identity (pr_provider current)) in
        if (generation <? current_generation)%N then stale
        else if (generation =? current_generation)%N then
          if bool_decide (pr_provider current = provider) then mret (pr_provider current)
          else if negb (bool_decide (prov_state (pr_provider current) = ProviderUnavailable))
                  && bool_decide (prov_state provider = ProviderUnavailable)
                  && bool_decide (prov_capabilities (pr_provider current) = prov_capabilities provider)
          then _ ← put_provider key (fresh_record provider principal); registered
          else reject "STALE_GENERATION" "provider session generation cannot change its facts or recover"
        else _ ← put_provider key (fresh_record provider principal); registered
  end.

Definition register_resource_facts_provider context principal (provider : Provider) : Auth W Provider :=
  registered ← register_provider context principal provider;
  let key := (ctx_namespace context, ident_id (prov_identity registered)) in
  r ← get_runtime;
  match rt_providers r !! key with
  | None => reject "PANIC" "registered provider must remain present"
  | Some record =>
      _ ← put_provider key
            (mk_provider_record (pr_provider record) (pr_principal record) ScopeResourceFactsOnly
               (pr_inventory record) (pr_reconciled_snapshot_generation record)
               (pr_pending_stale_workers record));
      mret registered
  end.

Definition publish_inventory context principal (snapshot : ProviderSnapshot) : Auth W ProviderSnapshot :=
  _ ← validate_context context;
  _ ← lift (map_err contract_rejection (ProviderSnapshot_validate snapshot));
  let key := (ctx_namespace context, ident_id (snap_provider snapshot)) in
  r ← get_runtime;
  match rt_providers r !! key with
  | None => reject "PROVIDER_NOT_FOUND" "provider has not registered this session"
  | Some record =>
      if negb (bool_decide (pr_principal record = principal)) then
        reject "AUTHORITY_DENIED" "Provider inventory caller does not own the registered session"
      else if negb (bool_decide (prov_identity (pr_provider record) = snap_provider snapshot)) then
        reject "STALE_GENERATION" "inventory belongs to a stale provider session"
      else if is_some_and (fun current =>
                (snap_snapshot_generation snapshot <=? snap_snapshot_generation current)%N)
                (pr_inventory record)
      then reject "STALE_GENERATION" "inventory snapshot generation must advance"
      else
        _ ← put_provider key
              (mk_provider_record (pr_provider record) (pr_principal record) (pr_inventory_scope record)
                 (Some snapshot) None (pr_pending_stale_workers record));
        _ ← publish (ctx_namespace context) (snap_provider snapshot) "provider.inventory.observed"
              "cyrene.provider.v1";
        mret snapshot
  end.

(** ** Reconciliation *)

(** The record after an expired inventory is dropped; the clock is read only
    when there is an inventory. *)
Definition drop_expired_inventory (record : ProviderRecord) : Auth W (ProviderRecord * bool) :=
  match pr_inventory record with
  | None => mret (record, false)
  | Some snapshot =>
      now ← world_call env_now_unix_ms;
      if (snap_expires_at_unix_ms snapshot <=? now)%N then
        mret (mk_provider_record (pr_provider record) (pr_principal record) (pr_inventory_scope record)
                None None (pr_pending_stale_workers record), true)
      else mret (record, false)
  end.

Definition set_reconciled (key : NamespaceId * string) (generation : N) : Auth W unit :=
  update_runtime (fun r => set_providers r
    (alter (fun record => mk_provider_record (pr_provider record) (pr_principal record)
                            (pr_inventory_scope record) (pr_inventory record) (Some generation)
                            (pr_pending_stale_workers record)) key (rt_providers r))).

Definition refresh_actions (snapshot : option ProviderSnapshot) : list ProviderReconcileAction :=
  match snapshot with
  | Some snapshot => (fun resource => RefreshResource (res_identity resource)) <$> snap_resources snapshot
  | None => []
  end.

(** The recorded workers of the provider that are not in a final state, in the
    order of the instance map. *)
Definition recorded_workers context (provider : Identity) : Auth W (list Worker) :=
  r ← get_runtime;
  let names := snd <$> filter (fun p : ObjectRef * string => obj_namespace p.1 = ctx_namespace context)
                         (btree_iter (rt_workers r)) in
  instances ← iter_instances;
  mret (filter (fun worker =>
          ident_id (wk_provider worker) = ident_id provider
          /\ wk_state worker <> WStopped /\ wk_state worker <> WFailed /\ wk_state worker <> WLost)
          (omap (fun p : string * ManagedProcess => mp_semantic_worker p.2)
             (filter (fun p : string * ManagedProcess => p.1 ∈ names) instances))).

(** [for worker in recorded_workers { .. mark_worker_lost(..)? .. }] *)
Fixpoint lose_missing context (observed : list Identity) (has_snapshot : bool) (workers : list Worker)
    : Auth W (list ProviderReconcileAction) :=
  match workers with
  | [] => mret []
  | worker :: rest =>
      let missing_from_provider := negb (bool_decide (wk_identity worker ∈ observed)) in
      lease ← attempt (lease_for context (wk_lease worker));
      let lease_is_valid := match lease with
        | Ok lease => bool_decide (rl_state lease = Active) && bool_decide (rl_holder lease = wk_identity worker)
        | Err _ => false
        end in
      actions ← (if missing_from_provider || negb lease_is_valid then
                   mark_worker_lost context (wk_identity worker)
                     (if missing_from_provider && has_snapshot then "WORKER_MISSING_FROM_PROVIDER"
                      else if missing_from_provider then "PROVIDER_UNAVAILABLE"
                      else "WORKER_LEASE_INVALID")
                 else mret []);
      more ← lose_missing context observed has_snapshot rest;
      mret (actions ++ more)
  end.

(** Workers the provider runs that this Kernel does not know. *)
Definition add_stale (generation : N) (pending : list (Identity * N)) (worker : Identity) : list (Identity * N) :=
  if existsb (fun p => bool_decide (p.1 = worker)) pending then pending else pending ++ [(worker, generation)].
Definition pend_stale_workers context (key : NamespaceId * string) (generation : N) (observed : list Identity)
    : Auth W (list ProviderReconcileAction) :=
  r ← get_runtime;
  let stale := filter (fun w => rt_workers r !! object_ref context w = None) observed in
  match rt_providers r !! key with
  | None => reject "PANIC" "provider was checked above"
  | Some record =>
      let pending := foldl (add_stale generation) (pr_pending_stale_workers record) stale in
      _ ← put_provider key
            (mk_provider_record (pr_provider record) (pr_principal record) (pr_inventory_scope record)
               (pr_inventory record) (pr_reconciled_snapshot_generation record) pending);
      mret ((fun p => TerminateStaleWorker p.1) <$> pending)
  end.

Definition is_terminate (a : ProviderReconcileAction) : bool :=
  match a with TerminateStaleWorker _ => true | _ => false end.
Definition or_noop (actions : list ProviderReconcileAction) : list ProviderReconcileAction :=
  match actions with [] => [Noop] | _ => actions end.

Definition reconcile_provider context principal (provider : Identity) : Auth W ProviderReconcileResult :=
  _ ← validate_context context;
  let key := (ctx_namespace context, ident_id provider) in
  r ← get_runtime;
  match rt_providers r !! key with
  | None => reject "PROVIDER_NOT_FOUND" "provider is unknown in this namespace"
  | Some record =>
  if negb (bool_decide (pr_principal record = principal)) then
    reject "AUTHORITY_DENIED" "Provider reconciliation caller does not own the registered session"
  else if negb (bool_decide (prov_identity (pr_provider record) = provider)) then
    reject "STALE_GENERATION" "reconciliation targets a stale provider session"
  else
  '(record, inventory_expired) ← drop_expired_inventory record;
  _ ← put_provider key record;
  let snapshot_generation := map_or 0%N snap_snapshot_generation (pr_inventory record) in
  if bool_decide (pr_inventory record = None)
     && negb (bool_decide (prov_state (pr_provider record) = ProviderUnavailable))
     && negb inventory_expired
  then reject "PROVIDER_INVENTORY_MISSING" "provider has no current inventory"
  else
  let provider := prov_identity (pr_provider record) in
  let reconciled :=
    publish (ctx_namespace context) provider "provider.reconciled" "cyrene.provider.v1" in
  if bool_decide (pr_reconciled_snapshot_generation record = Some snapshot_generation)
     && bool_decide (pr_pending_stale_workers record = [])
  then mret (mk_reconcile_result provider snapshot_generation [Noop])
  else if bool_decide (pr_inventory_scope record = ScopeResourceFactsOnly) then
    _ ← set_reconciled key snapshot_generation;
    _ ← reconciled;
    mret (mk_reconcile_result provider snapshot_generation (or_noop (refresh_actions (pr_inventory record))))
  else
    let observed := match pr_inventory record with
      | Some snapshot => wk_identity <$> snap_workers snapshot
      | None => []
      end in
    workers ← recorded_workers context provider;
    lost ← lose_missing context observed (bool_decide (is_Some (pr_inventory record))) workers;
    terminate ← pend_stale_workers context key snapshot_generation observed;
    let actions := or_noop (refresh_actions (pr_inventory record) ++ lost ++ terminate) in
    _ ← (if existsb is_terminate actions then mret tt else set_reconciled key snapshot_generation);
    _ ← reconciled;
    mret (mk_reconcile_result provider snapshot_generation actions)
  end.

(** [record.pending_stale_workers.remove(position)] *)
Definition remove_at {A} (i : nat) (l : list A) : list A := take i l ++ drop (S i) l.
Fixpoint position {A} (f : A -> bool) (l : list A) : option nat :=
  match l with
  | [] => None
  | x :: l => if f x then Some 0%nat else S <$> position f l
  end.

Definition confirm_stale_worker_termination context principal (provider : Identity) (snapshot_generation : N)
    (worker : Identity) (terminated : bool) : Auth W unit :=
  _ ← validate_context context;
  let key := (ctx_namespace context, ident_id provider) in
  r ← get_runtime;
  match rt_providers r !! key with
  | None => reject "PROVIDER_NOT_FOUND" "provider has not registered this session"
  | Some record =>
  if negb (bool_decide (prov_identity (pr_provider record) = provider)) then
    reject "STALE_GENERATION" "termination result targets a stale provider session"
  else if negb (bool_decide (pr_principal record = principal)) then
    reject "AUTHORITY_DENIED" "termination result caller does not own the registered Provider session"
  else
  match position (fun '(candidate, generation) =>
          bool_decide (candidate = worker) && (generation =? snapshot_generation)%N)
          (pr_pending_stale_workers record) with
  | None => reject "RECONCILIATION_RESULT_UNKNOWN"
              "termination result does not match a pending stale Worker action"
  | Some i =>
      if negb terminated then mret tt
      else if is_some_and (fun snapshot =>
                existsb (fun observed => bool_decide (wk_identity observed = worker)) (snap_workers snapshot))
                (pr_inventory record)
      then reject "PROVIDER_REALITY_STALE"
             "a successful termination result requires a later complete snapshot without the Worker"
      else put_provider key
             (mk_provider_record (pr_provider record) (pr_principal record) (pr_inventory_scope record)
                (pr_inventory record) (pr_reconciled_snapshot_generation record)
                (remove_at i (pr_pending_stale_workers record)))
  end
  end.
End providers.
