(* ===== verification/AuthorityFrame.v ===== *)
(** * Step relations of the authority

    [respects R m]: every run of the action [m], successful or rejected,
    relates the states before and after by the preorder [R].  The combinators
    of the action monad respect any preorder; what is left for each [R] are the
    updates an action makes. *)
From stdpp Require Import base gmap strings list sorting pretty.
From Stdlib Require Import Ascii Lia ZifyBool ZifyN.
From S2P Require Import Prelude Validation Contract KernelApi ResourceManager Ledger Binding Environment.
From S2P Require Import Instance AuthorityState Events EventsSpec Authority WorkerActions EndpointActions.
From S2P Require Import ProviderActions.

Section respects.
Context {W : Type} `{Environment W}.
Implicit Types R : relation AuthorityRuntime.

Definition respects R {A} (m : Auth W A) : Prop :=
  forall r w s' res, m (r, w) = (s', res) -> R r s'.1.

Context (R : relation AuthorityRuntime) `{!PreOrder R}.

Lemma respects_mret {A} (a : A) : respects R (mret a : Auth W A).
Proof. intros r w s' res [= <- <-]. reflexivity. Qed.
Lemma respects_throw {A} e : respects R (throw e : Auth W A).
Proof. intros r w s' res [= <- <-]. reflexivity. Qed.
Lemma respects_lift {A} (x : result Rejection A) : respects R (lift x : Auth W A).
Proof. intros r w s' res [= <- <-]. reflexivity. Qed.
Lemma respects_reject {A} c m : respects R (reject c m : Auth W A).
Proof. apply respects_throw. Qed.
Lemma respects_get : respects R (get_runtime : Auth W _).
Proof. intros r w s' res [= <- <-]. reflexivity. Qed.
Lemma respects_bind {A B} (m : Auth W A) (k : A -> Auth W B) :
  respects R m -> (forall a, respects R (k a)) -> respects R (m ≫= k).
Proof.
  intros Hm Hk r w s' res. unfold mbind, ste_bind.
  destruct (m (r, w)) as [[r1 w1] [a|e]] eqn:Hma; intros Hrest.
  - transitivity r1; [by apply Hm in Hma|]. by eapply Hk.
  - injection Hrest as <- <-. by apply Hm in Hma.
Qed.
Lemma respects_attempt {A} (m : Auth W A) : respects R m -> respects R (attempt m).
Proof.
  intros Hm r w s' res. unfold attempt. destruct (m (r, w)) as [s1 x] eqn:Hma. intros [= <- <-].
  by eapply Hm.
Qed.
Lemma respects_update f : (forall r, R r (f r)) -> respects R (update_runtime f : Auth W unit).
Proof. intros Hf r w s' res [= <- <-]. apply Hf. Qed.
Lemma respects_world {A} (f : W -> W * A) : respects R (world_call f).
Proof. intros r w s' res. unfold world_call. destruct (f w). intros [= <- <-]. reflexivity. Qed.
Lemma respects_port {A} (m : STE W ProviderError A) : respects R (port m).
Proof. intros r w s' res. unfold port. destruct (m w). intros [= <- <-]. reflexivity. Qed.
Lemma respects_port_result {A} (m : STE W ProviderError A) : respects R (port_result m).
Proof. intros r w s' res. unfold port_result. destruct (m w). intros [= <- <-]. reflexivity. Qed.
Lemma respects_local {A} a (f : InstanceActor -> W -> InstanceActor * W * result ProviderError A) :
  respects R (local_actor_call a f).
Proof.
  intros r w s' res. unfold local_actor_call. destruct (f a w) as [[]]. intros [= <- <-]. reflexivity.
Qed.
Lemma respects_iter : respects R (iter_instances : Auth W _).
Proof. intros r w s' res [= <- <-]. reflexivity. Qed.
Lemma respects_for_each {A} (f : A -> Auth W unit) xs :
  (forall a, respects R (f a)) -> respects R (for_each f xs).
Proof.
  intros Hf. induction xs as [|x xs IH]; simpl; [apply respects_mret|].
  apply respects_bind; [done|]. by intros.
Qed.
Lemma respects_ledger {A} (m : STE State ProviderError A) :
  (forall r, R r (set_ledger r (m (rt_ledger r)).1)) -> respects R (ledger m : Auth W _).
Proof.
  intros Hm r w s' res. unfold ledger. specialize (Hm r). destruct (m (rt_ledger r)) as [l a].
  intros [= <- <-]. done.
Qed.
Lemma respects_ledger_total {A} (f : State -> State * A) :
  (forall r, R r (set_ledger r (f (rt_ledger r)).1)) -> respects R (ledger_total f : Auth W _).
Proof.
  intros Hm r w s' res. unfold ledger_total. specialize (Hm r). destruct (f (rt_ledger r)) as [l a].
  intros [= <- <-]. done.
Qed.
Lemma respects_actor_call {A} name p (f : InstanceActor -> W -> InstanceActor * W * result ProviderError A) :
  (forall r q, R r (set_instances r (<[name := q]> (rt_instances r)))) -> respects R (actor_call name p f).
Proof.
  intros Hi r w s' res. unfold actor_call. destruct (f (mp_actor p) w) as [[a w1] x]. intros [= <- <-]. apply Hi.
Qed.
Lemma respects_publish ns subject kind schema :
  (forall r h, R r (set_events r (<[ns := h]> (rt_events r)))) ->
  respects R (publish ns subject kind schema : Auth W unit).
Proof.
  intros He r w s' res Hp. apply publish_step in Hp as [_ [->|(h & -> & _)]]; [reflexivity|apply He].
Qed.
End respects.

(** Inversion of a run: where it stopped, or the state the rest started from. *)
Lemma bind_inv {W A B} (m : Auth W A) (k : A -> Auth W B) s s' res :
  (m ≫= k) s = (s', res) ->
  (exists e, m s = (s', Err e) /\ res = Err e) \/
  (exists a s1, m s = (s1, Ok a) /\ k a s1 = (s', res)).
Proof.
  unfold mbind, ste_bind. destruct (m s) as [s1 [a|e]] eqn:Hm; [eauto|]. intros [= <- <-]. eauto.
Qed.

(** [post m r Φ]: every run of [m] from the runtime [r] ends in a runtime that
    satisfies [Φ].  Where an update is justified by what an earlier step of the
    same action found, the steps in between keep a frame [F] from [r0] on. *)
Definition post {W A} (m : Auth W A) (r : AuthorityRuntime) (Φ : AuthorityRuntime -> Prop) : Prop :=
  forall w s' res, m (r, w) = (s', res) -> Φ s'.1.
Lemma respects_post {W A} (R : relation AuthorityRuntime) (m : Auth W A) :
  respects R m <-> forall r, post m r (R r).
Proof. split; intros Hm r w s' res; by apply Hm. Qed.
Lemma post_get {W B} (k : AuthorityRuntime -> Auth W B) r Φ :
  post (k r) r Φ -> post (get_runtime ≫= k) r Φ.
Proof. intros Hk w s' res. apply Hk. Qed.
Lemma post_update {W B} f (k : unit -> Auth W B) r Φ :
  post (k tt) (f r) Φ -> post (update_runtime f ≫= k) r Φ.
Proof. intros Hk w s' res. apply Hk. Qed.
Lemma post_ret {W A B} (a : A) (k : A -> Auth W B) r Φ : post (k a) r Φ -> post (mret a ≫= k) r Φ.
Proof. intros Hk w s' res. apply Hk. Qed.
Lemma post_assoc {W A B C} (m : Auth W A) (k : A -> Auth W B) (k' : B -> Auth W C) r Φ :
  post (m ≫= fun a => k a ≫= k') r Φ -> post ((m ≫= k) ≫= k') r Φ.
Proof.
  intros Hk w s' res Hr. apply (Hk w s' res). rewrite <- Hr. unfold mbind, ste_bind.
  by destruct (m (r, w)) as [s1 [a|e]].
Qed.
Lemma post_mret {W A} (a : A) r (Φ : AuthorityRuntime -> Prop) : Φ r -> post (mret a : Auth W A) r Φ.
Proof. intros Hr w s' res [= <- <-]. done. Qed.
Lemma post_throw {W A} e r (Φ : AuthorityRuntime -> Prop) : Φ r -> post (throw e : Auth W A) r Φ.
Proof. intros Hr w s' res [= <- <-]. done. Qed.
Lemma post_weaken {W A} (m : Auth W A) r (Φ Ψ : AuthorityRuntime -> Prop) :
  post m r Φ -> (forall r', Φ r' -> Ψ r') -> post m r Ψ.
Proof. intros Hm HΦ w s' res Hr. eapply HΦ, Hm, Hr. Qed.
Lemma post_keep {W A B} (F : relation AuthorityRuntime) `{!PreOrder F} (Φ : AuthorityRuntime -> Prop)
    (m : Auth W A) (k : A -> Auth W B) r0 r :
  respects F m -> F r0 r -> (forall r', F r0 r' -> Φ r') ->
  (forall a r1, F r0 r1 -> post (k a) r1 Φ) -> post (m ≫= k) r Φ.
Proof.
  intros Hm Hr Hstop Hk w s' res [(e & He & ->)|(a & [r1 w1] & Ha & Hrest)]%bind_inv.
  - apply Hstop. transitivity r; [done|]. by eapply Hm.
  - eapply Hk; [|exact Hrest]. transitivity r; [done|]. by apply Hm in Ha.
Qed.
Lemma post_respects {W A} (F : relation AuthorityRuntime) `{!PreOrder F} (Φ : AuthorityRuntime -> Prop)
    (m : Auth W A) r0 r :
  respects F m -> F r0 r -> (forall r', F r0 r' -> Φ r') -> post m r Φ.
Proof. intros Hm Hr Hstop w s' res Ha. apply Hstop. transitivity r; [done|]. by eapply Hm. Qed.

(** The structural part of a [respects] proof: every combinator, test and match
    of an action.  What remains are the goals about updates. *)
Ltac respects_step :=
  lazymatch goal with
  | |- respects _ (mbind _ _) => apply respects_bind; [apply _| |intros ?]
  | |- respects _ (mret _) => apply respects_mret; apply _
  | |- respects _ (throw _) => apply respects_throw; apply _
  | |- respects _ (reject _ _) => apply respects_reject; apply _
  | |- respects _ (lift _) => apply respects_lift; apply _
  | |- respects _ get_runtime => apply respects_get; apply _
  | |- respects _ (attempt _) => apply respects_attempt
  | |- respects _ (update_runtime _) => apply respects_update; intros ?
  | |- respects _ (world_call _) => apply respects_world; apply _
  | |- respects _ (port _) => apply respects_port; apply _
  | |- respects _ (port_result _) => apply respects_port_result; apply _
  | |- respects _ (local_actor_call _ _) => apply respects_local; apply _
  | |- respects _ iter_instances => apply respects_iter; apply _
  | |- respects _ (for_each _ _) => apply respects_for_each; [apply _|intros ?]
  | |- respects _ (ledger _) => apply respects_ledger; intros ?
  | |- respects _ (ledger_total _) => apply respects_ledger_total; intros ?
  | |- respects _ (actor_call _ _ _) => apply respects_actor_call; intros ? ?
  | |- respects _ (publish _ _ _ _) => apply respects_publish; [apply _|intros ? ?]
  | |- respects _ (match ?x with _ => _ end) => destruct x
  | |- respects _ (let '_ := ?x in _) => destruct x
  end.
Ltac head_of t := lazymatch t with ?f _ => head_of f | _ => t end.
(** Opens the definition of the action at hand. *)
Ltac respects_unfold :=
  lazymatch goal with
  | |- respects _ (let x := _ in _) => cbv zeta
  | |- respects _ ?m => let h := head_of m in unfold h
  end.

(** ** Successful and failed runs *)
Lemma bind_ok {W A B} (m : Auth W A) (k : A -> Auth W B) s s' b :
  (m ≫= k) s = (s', Ok b) -> exists a s1, m s = (s1, Ok a) /\ k a s1 = (s', Ok b).
Proof. intros [(e & _ & [=])|?]%bind_inv. done. Qed.
Lemma update_ok {W B} f (k : unit -> Auth W B) r w s' res :
  (update_runtime f ≫= k) (r, w) = (s', res) -> k tt (f r, w) = (s', res).
Proof. done. Qed.

(** What a rejected run leaves; the part of an action that cannot fail does not
    matter for it. *)
Definition on_error {W A} (F : relation AuthorityRuntime) (m : Auth W A) : Prop :=
  forall r w s' e, m (r, w) = (s', Err e) -> F r s'.1.
Definition total {W A} (m : Auth W A) : Prop := forall s, exists s' a, m s = (s', Ok a).
Lemma on_error_respects {W A} F (m : Auth W A) : respects F m -> on_error F m.
Proof. intros Hm r w s' e. apply Hm. Qed.
Lemma on_error_total {W A} F (m : Auth W A) : total m -> on_error F m.
Proof. intros Hm r w s' e He. destruct (Hm (r, w)) as (s1 & a & Ha). congruence. Qed.
Lemma on_error_bind {W A B} F `{!PreOrder F} (m : Auth W A) (k : A -> Auth W B) :
  respects F m -> (forall a, on_error F (k a)) -> on_error F (m ≫= k).
Proof.
  intros Hm Hk r w s' e [(e' & He & _)|(a & [r1 w1] & Ha & Hr)]%bind_inv; [by eapply Hm|].
  transitivity r1; [by apply Hm in Ha|]. by eapply Hk.
Qed.
Lemma on_error_then {W A B} F (m : Auth W A) (k : A -> Auth W B) :
  on_error F m -> (forall a, total (k a)) -> on_error F (m ≫= k).
Proof.
  intros Hm Hk r w s' e [(e' & He & _)|(a & s1 & Ha & Hr)]%bind_inv; [by eapply Hm|].
  destruct (Hk a s1) as (s2 & b & Hb). congruence.
Qed.
Lemma total_bind {W A B} (m : Auth W A) (k : A -> Auth W B) :
  total m -> (forall a, total (k a)) -> total (m ≫= k).
Proof.
  intros Hm Hk s. destruct (Hm s) as (s1 & a & Ha). destruct (Hk a s1) as (s2 & b & Hb).
  exists s2, b. unfold mbind, ste_bind. by rewrite Ha.
Qed.
Lemma total_mret {W A} (a : A) : total (mret a : Auth W A).
Proof. intros s. by exists s, a. Qed.
Lemma total_get {W} : total (get_runtime : Auth W _).
Proof. intros s. by eexists _, _. Qed.
Lemma total_update {W} f : total (update_runtime f : Auth W unit).
Proof. intros s. by eexists _, _. Qed.
Lemma total_publish {W} `{Environment W} ns subject kind schema :
  total (publish ns subject kind schema : Auth W unit).
Proof.
  intros [r w]. destruct (publish ns subject kind schema (r, w)) as [s' res] eqn:Hp.
  exists s', tt. unfold publish in *. by apply publish_step in Hp as [-> _].
Qed.
Ltac total_step :=
  lazymatch goal with
  | |- total (mbind _ _) => apply total_bind; [|intros ?]
  | |- total (mret _) => apply total_mret
  | |- total get_runtime => apply total_get
  | |- total (update_runtime _) => apply total_update
  | |- total (publish _ _ _ _) => apply total_publish
  | |- total ?m => let h := head_of m in unfold h
  end.

(** Runs an action under a frame [F] kept since [r0] (hypotheses [F r0 r] and
    [forall r', F r0 r' -> Φ r']); [tac] proves that the steps respect it.  Stops
    at updates. *)
Ltac keep_step F tac :=
  lazymatch goal with
  | |- post (mbind _ (update_runtime _)) _ _ => fail
  | |- post (mbind _ get_runtime) _ _ => apply post_get
  | |- post (mbind _ (mret _)) _ _ => apply post_ret
  | |- post (mbind _ (mbind _ _)) _ _ => apply post_assoc
  | |- post (mbind _ (match ?x with _ => _ end)) _ _ => let E := fresh "E" in destruct x eqn:E
  | |- post (mbind _ _) ?r _ =>
      match goal with
      | Hr : F ?r0 r, Hstop : forall r', F ?r0 r' -> @?Φ r' |- _ =>
          eapply (post_keep F); [solve [repeat tac]|exact Hr|exact Hstop|];
          let r1 := fresh "r" in let Hr1 := fresh "Hr" in intros ? r1 Hr1
      end
  | |- post (match ?x with _ => _ end) _ _ => let E := fresh "E" in destruct x eqn:E
  | |- post (mret _) _ _ => apply post_mret; eauto
  | |- post (throw _) _ _ => apply post_throw; eauto
  | |- post (reject _ _) _ _ => apply post_throw; eauto
  end.

(** ** Actions *)
Inductive action :=
| AcquireLease (context : AuthorityCallContext) (principal : Principal) (holder : Identity)
    (query : ResourceQuery) (expires_at_unix_ms : N)
| RenewLease (context : AuthorityCallContext) (principal : Principal) (lease : Identity)
    (fence_token expires_at_unix_ms : N)
| ReleaseLease (context : AuthorityCallContext) (principal : Principal) (lease : Identity) (fence_token : N)
| StartWorker (context : AuthorityCallContext) (principal : Principal) (worker : Worker)
| StopWorker (context : AuthorityCallContext) (principal : Principal) (worker lease : Identity)
    (fence_token grace_period : N)
| ReportHeartbeat (context : AuthorityCallContext) (principal : Principal) (worker lease : Identity)
    (fence_token : N)
| WorkerControlHeartbeat (context : AuthorityCallContext) (worker lease : Identity) (fence_token : N)
| CreateOperation (context : AuthorityCallContext) (principal : Principal) (operation : Operation)
| ReportOperation (context : AuthorityCallContext) (principal : Principal) (reported : Operation)
| CancelOperation (context : AuthorityCallContext) (principal : Principal) (identity : Identity)
| CancellationDeadline (context : AuthorityCallContext) (identity : Identity)
| PublishEndpoint (context : AuthorityCallContext) (principal : Principal) (endpoint : Endpoint)
| AuthorizeEndpoint (context : AuthorityCallContext) (principal : Principal) (grant : EndpointGrant)
| RevokeEndpointGrant (context : AuthorityCallContext) (principal : Principal) (grant : Identity)
| ReadEvents (context : AuthorityCallContext) (principal : Principal) (cursor : EventCursor) (limit : nat)
| TakeSnapshot (context : AuthorityCallContext) (principal : Principal)
| RegisterProvider (context : AuthorityCallContext) (principal : Principal) (provider : Provider)
| RegisterResourceFactsProvider (context : AuthorityCallContext) (principal : Principal) (provider : Provider)
| PublishInventory (context : AuthorityCallContext) (principal : Principal) (snapshot : ProviderSnapshot)
| ReconcileProvider (context : AuthorityCallContext) (principal : Principal) (provider : Identity)
| ConfirmStaleWorkerTermination (context : AuthorityCallContext) (principal : Principal) (provider : Identity)
    (snapshot_generation : N) (worker : Identity) (terminated : bool)
| LoseWorker (context : AuthorityCallContext) (worker : Identity) (reason_code : string)
| EnforceLeaseExpiry.

Section perform.
Context {W : Type} `{Environment W}.

Definition done {A} (m : Auth W A) : Auth W unit := _ ← m; mret tt.
Definition perform (a : action) : Auth W unit :=
  match a with
  | AcquireLease c p h q e => done (Authority.acquire_lease c p h q e)
  | RenewLease c p l f e => done (Authority.renew_lease c p l f e)
  | ReleaseLease c p l f => done (release_lease c p l f)
  | StartWorker c p wk => done (start_worker c p wk)
  | StopWorker c p wk l f g => done (stop_worker c p wk l f g)
  | ReportHeartbeat c p wk l f => done (report_heartbeat c p wk l f)
  | WorkerControlHeartbeat c wk l f => done (accept_worker_control_heartbeat c wk l f)
  | CreateOperation c p o => done (create_operation c p o)
  | ReportOperation c p o => done (report_operation c p o)
  | CancelOperation c p i => done (cancel_operation c p i)
  | CancellationDeadline c i => done (mark_cancelling_operation_lost c i)
  | PublishEndpoint c p e => done (publish_endpoint c p e)
  | AuthorizeEndpoint c p g => done (authorize_endpoint c p g)
  | RevokeEndpointGrant c p g => revoke_endpoint c p g
  | ReadEvents c p cur l => done (read_events c p cur l)
  | TakeSnapshot c p => done (snapshot c p)
  | RegisterProvider c p pr => done (register_provider c p pr)
  | RegisterResourceFactsProvider c p pr => done (register_resource_facts_provider c p pr)
  | PublishInventory c p s => done (publish_inventory c p s)
  | ReconcileProvider c p i => done (reconcile_provider c p i)
  | ConfirmStaleWorkerTermination c p pr g wk t => confirm_stale_worker_termination c p pr g wk t
  | LoseWorker c wk reason => done (mark_worker_lost c wk reason)
  | EnforceLeaseExpiry => done enforce_lease_expiry
  end.

(** Any sequence of actions, each against whatever world the previous ones left. *)
Definition perform_all (actions : list action) (s : AuthorityRuntime * W) : AuthorityRuntime * W :=
  foldl (fun s a => (perform a s).1) s actions.
End perform.
