(* ===== verification/AuthoritySteps.v ===== *)
(** * The frame every action keeps

    For every behaviour of the outside world, an action changes the ledger only
    by lease-manager calls, never changes the owner of a namespace, keeps the
    event streams valid and never forgets a lease, a worker or an operation. *)
From stdpp Require Import base gmap strings list sorting pretty.
From Stdlib Require Import Ascii Lia ZifyBool ZifyN.
From S2P Require Import Prelude Validation Contract KernelApi ResourceManager Ledger Binding Environment Instance.
From S2P Require Import AuthorityState Events EventsSpec Authority WorkerActions EndpointActions.
From S2P Require Import ProviderActions AuthorityFrame.

Record frame_step (r r' : AuthorityRuntime) : Prop := {
  fs_node_id : rt_node_id r' = rt_node_id r;
  fs_node_epoch : rt_node_epoch r' = rt_node_epoch r;
  fs_heartbeat : rt_heartbeat r' = rt_heartbeat r;
  fs_ledger : exists os, rt_ledger r' = run os (rt_ledger r);
  fs_owners : rt_namespace_owners r ⊆ rt_namespace_owners r';
  fs_streams : streams_ok r -> streams_ok r';
  fs_leases : dom (rt_leases r) ⊆ dom (rt_leases r');
  fs_workers : dom (rt_workers r) ⊆ dom (rt_workers r');
  fs_operations : dom (rt_operations r) ⊆ dom (rt_operations r');
}.
#[export] Instance frame_step_preorder : PreOrder frame_step.
Proof.
  split.
  - intros r. split; try done. by exists [].
  - intros r1 r2 r3 [H1 H2 H3 [os1 H4] H5 H6 H7 H8 H9] [K1 K2 K3 [os2 K4] K5 K6 K7 K8 K9].
    split; try congruence; try (by etransitivity); [|auto].
    exists (os1 ++ os2). unfold run in *. by rewrite foldl_app, K4, H4.
Qed.

Section frame.
Context {W : Type} `{Environment W}.
Implicit Types (r : AuthorityRuntime).

(** A change of the runtime outside the ledger, the owners and the streams. *)
Lemma frame_update r r' :
  rt_node_id r' = rt_node_id r -> rt_node_epoch r' = rt_node_epoch r -> rt_heartbeat r' = rt_heartbeat r ->
  rt_ledger r' = rt_ledger r -> rt_namespace_owners r' = rt_namespace_owners r -> rt_events r' = rt_events r ->
  dom (rt_leases r) ⊆ dom (rt_leases r') -> dom (rt_workers r) ⊆ dom (rt_workers r') ->
  dom (rt_operations r) ⊆ dom (rt_operations r') -> frame_step r r'.
Proof.
  intros H1 H2 H3 H4 H5 H6 H7 H8 H9. split; try done.
  - by exists [].
  - by rewrite H5.
  - intros Hok ns h. rewrite H6. intros Hh. specialize (Hok _ _ Hh).
    unfold semantic_event_source_for in *. by rewrite H1, H2.
Qed.
Lemma frame_ledger r o : frame_step r (set_ledger r (exec o (rt_ledger r))).
Proof. split; try done. by exists [o]. Qed.

Lemma frame_publish ns subject kind schema : respects frame_step (publish ns subject kind schema : Auth W unit).
Proof.
  intros r w [r' w'] res Hp. apply publish_step in Hp as [_ Hs]. simpl in *.
  pose proof (stream_step_ok _ _ _ Hs) as Hok. destruct Hs as [->|(h & -> & _)]; [reflexivity|]. split; try done. by exists [].
Qed.
Lemma frame_bind_namespace c p : respects frame_step (bind_namespace c p : Auth W unit).
Proof.
  intros r w s' res. unfold bind_namespace, get_runtime, update_runtime, namespace_denied, reject. unfold_monads.
  destruct (rt_namespace_owners r !! ctx_namespace c) as [o|] eqn:Ho; [case_match; by intros [= <- <-]|].
  intros [= <- <-]. split; try done; [by exists []|]. simpl. by apply insert_subseteq.
Qed.
End frame.

Ltac frame_goal :=
  lazymatch goal with
  | |- frame_step ?r (set_ledger ?r (ResourceManager.acquire_lease ?n ?n' ?q _).1) =>
      exact (frame_ledger r (Acquire n n' q))
  | |- frame_step ?r (set_ledger ?r (get_lease ?n ?l _).1) => exact (frame_ledger r (Get n l))
  | |- frame_step ?r (set_ledger ?r (list_leases ?n _).1) => exact (frame_ledger r (List n))
  | |- frame_step ?r (set_ledger ?r (ResourceManager.renew_lease ?n ?l ?f ?e _).1) =>
      exact (frame_ledger r (Renew n l f e))
  | |- frame_step ?r (set_ledger ?r (begin_release ?n ?l ?f _).1) => exact (frame_ledger r (BeginRelease n l f))
  | |- frame_step ?r (set_ledger ?r (complete_release ?l ?f _).1) => exact (frame_ledger r (CompleteRelease l f))
  | |- frame_step ?r (set_ledger ?r (fail_release ?l ?f _).1) => exact (frame_ledger r (FailRelease l f))
  | |- frame_step ?r (set_ledger ?r (revoke ?n ?l ?f _).1) => exact (frame_ledger r (Revoke n l f))
  | |- frame_step ?r (set_ledger ?r (complete_revocation ?l ?f _).1) =>
      exact (frame_ledger r (CompleteRevocation l f))
  | |- frame_step _ _ =>
      apply frame_update; simpl; first [reflexivity | by rewrite ?dom_insert_L, ?dom_fmap_L; set_solver]
  end.
Ltac frame_step :=
  lazymatch goal with
  | |- respects _ (publish _ _ _ _) => apply frame_publish
  | |- respects _ (bind_namespace _ _) => apply frame_bind_namespace
  | |- _ => first [respects_step | frame_goal | respects_unfold]
  end.

Section frame_actions.
Context {W : Type} `{Environment W}.

Lemma frame_snapshot_leases objects : respects frame_step (snapshot_leases objects : Auth W _).
Proof. induction objects as [|[o n] objects IH]; simpl; repeat first [apply IH | frame_step]. Qed.
Lemma frame_mark_worker_lost c i reason : respects frame_step (mark_worker_lost c i reason : Auth W _).
Proof. unfold mark_worker_lost. repeat frame_step. Qed.
Lemma frame_enforce_expiries now leases : respects frame_step (enforce_expiries now leases : Auth W _).
Proof.
  induction leases as [|l leases IH]; simpl; repeat first [apply IH | apply frame_mark_worker_lost | frame_step].
Qed.
Lemma frame_lose_missing c observed b workers :
  respects frame_step (lose_missing c observed b workers : Auth W _).
Proof.
  induction workers as [|l workers IH]; simpl; repeat first [apply IH | apply frame_mark_worker_lost | frame_step].
Qed.

Lemma perform_frame (a : action) : respects frame_step (perform a : Auth W unit).
Proof.
  destruct a; unfold perform, done;
    repeat lazymatch goal with
    | |- respects _ (snapshot_leases _) => apply frame_snapshot_leases
    | |- respects _ (mark_worker_lost _ _ _) => apply frame_mark_worker_lost
    | |- respects _ (enforce_expiries _ _) => apply frame_enforce_expiries
    | |- respects _ (lose_missing _ _ _ _) => apply frame_lose_missing
    | |- _ => frame_step
    end.
Qed.
End frame_actions.
