(* ===== verification/AuthoritySpec.v ===== *)
(** * What the authority guarantees across actions

    Theorems about every sequence of authority actions, for every behaviour of
    the outside world: namespace ownership and the event streams. *)
From stdpp Require Import base gmap strings list sorting pretty.
From Stdlib Require Import Ascii Lia ZifyBool ZifyN.
From S2P Require Import Prelude Validation Contract KernelApi ResourceManager Ledger Binding Environment.
From S2P Require Import Instance AuthorityState Events EventsSpec Authority WorkerActions EndpointActions.
From S2P Require Import ProviderActions AuthorityFrame AuthoritySteps.

Section histories.
Context {W : Type} `{Environment W}.
Implicit Types (r : AuthorityRuntime) (s : AuthorityRuntime * W).

Lemma perform_all_app xs ys s : perform_all (xs ++ ys) s = perform_all ys (perform_all xs s).
Proof. apply foldl_app. Qed.

(** A relation every action respects relates the ends of any sequence. *)
Lemma perform_all_respects (R : relation AuthorityRuntime) `{!PreOrder R} :
  (forall a, respects R (perform a : Auth W unit)) -> forall xs s, R s.1 (perform_all xs s).1.
Proof.
  intros Ha xs. induction xs as [|x xs IH]; intros [r w]; [reflexivity|].
  change (R r (perform_all xs (perform x (r, w)).1).1). etransitivity; [|apply IH].
  destruct (perform x (r, w)) as [s' res] eqn:Hp. by eapply Ha.
Qed.
Lemma perform_all_frame xs s : frame_step s.1 (perform_all xs s).1.
Proof. apply perform_all_respects; [apply _|apply perform_frame]. Qed.

(** The authority of a Kernel booted with a durable fence floor. *)
Definition booted (node_id : string) (epoch : N) (hb : WorkerHeartbeatConfig) (rs : list Resource) (next : N)
    : AuthorityRuntime :=
  AuthorityRuntime_new node_id epoch hb (with_next_fence_token rs next).

End histories.

(** ** Namespaces *)

(** The actions a principal calls on the objects of its namespace. *)
Definition tenant_call (a : action) : option (AuthorityCallContext * Principal) :=
  match a with
  | AcquireLease c p _ _ _ | RenewLease c p _ _ _ | ReleaseLease c p _ _ | StartWorker c p _
  | StopWorker c p _ _ _ _ | ReportHeartbeat c p _ _ _ | CreateOperation c p _ | ReportOperation c p _
  | CancelOperation c p _ | PublishEndpoint c p _ | AuthorizeEndpoint c p _ | RevokeEndpointGrant c p _
  | ReadEvents c p _ _ | TakeSnapshot c p => Some (c, p)
  | _ => None
  end.
(** The actions a principal calls for a provider session, by the provider's id. *)
Definition session_call (a : action) : option (AuthorityCallContext * Principal * string) :=
  match a with
  | RegisterProvider c p provider | RegisterResourceFactsProvider c p provider =>
      Some (c, p, ident_id (prov_identity provider))
  | PublishInventory c p snapshot => Some (c, p, ident_id (snap_provider snapshot))
  | ReconcileProvider c p provider | ConfirmStaleWorkerTermination c p provider _ _ _ =>
      Some (c, p, ident_id provider)
  | _ => None
  end.
Definition opens_session (a : action) : bool :=
  match a with RegisterProvider _ _ _ | RegisterResourceFactsProvider _ _ _ => true | _ => false end.

Section namespaces.
Context {W : Type} `{Environment W}.
Implicit Types (r : AuthorityRuntime) (s : AuthorityRuntime * W).

(** The check every tenant action starts with. *)
Definition foreign (c : AuthorityCallContext) (p : Principal) (r : AuthorityRuntime) : Prop :=
  exists owner, rt_namespace_owners r !! ctx_namespace c = Some owner /\ owner <> principal_identity p.
Definition refused {A} (m : Auth W A) s : Prop := exists e, m s = (s, Err e).

Lemma refused_bind {A B} (m : Auth W A) (k : A -> Auth W B) s : refused m s -> refused (m ≫= k) s.
Proof. intros [e He]. exists e. unfold mbind, ste_bind. by rewrite He. Qed.
Lemma refused_validated c {A} (m : Auth W A) s : refused m s -> refused (_ ← validate_context c; m) s.
Proof.
  intros [e He]. unfold refused, validate_context, mbind, ste_bind, lift.
  destruct (AuthorityCallContext_validate_for c _); eauto.
Qed.
Lemma bind_namespace_refused c p s : foreign c p s.1 -> refused (bind_namespace c p) s.
Proof.
  destruct s as [r w]. intros (owner & Ho & Hne). unfold refused, bind_namespace, get_runtime. unfold_monads.
  simpl in Ho. rewrite Ho, bool_decide_eq_false_2 by done. eauto.
Qed.
Lemma require_owner_refused c p s : foreign c p s.1 -> refused (require_namespace_owner c p) s.
Proof.
  destruct s as [r w]. intros (owner & Ho & Hne). unfold refused, require_namespace_owner, get_runtime. unfold_monads.
  simpl in Ho. rewrite Ho. simpl. rewrite bool_decide_eq_false_2 by done. simpl. eauto.
Qed.

Lemma foreign_refused a c p s : tenant_call a = Some (c, p) -> foreign c p s.1 -> refused (perform a) s.
Proof.
  intros Ha Hf. destruct a; simplify_eq/=;
    unfold done, Authority.acquire_lease, Authority.renew_lease, release_lease, start_worker, stop_worker,
      report_heartbeat, create_operation, report_operation, cancel_operation, publish_endpoint,
      authorize_endpoint, revoke_endpoint, read_events, snapshot;
    first [apply refused_validated, refused_bind | apply refused_bind, refused_validated, refused_bind];
    solve [auto using bind_namespace_refused, require_owner_refused].
Qed.

(** The session of a provider is not the principal's. *)
Definition session_denied (a : action) (key : NamespaceId * string) (p : Principal) (r : AuthorityRuntime) : Prop :=
  match rt_providers r !! key with
  | Some record => pr_principal record <> p
  | None => opens_session a = false
  end.
Lemma register_provider_refused c p provider s record :
  rt_providers s.1 !! (ctx_namespace c, ident_id (prov_identity provider)) = Some record -> pr_principal record <> p ->
  refused (register_provider c p provider) s.
Proof.
  intros Hr Hne. apply refused_validated. unfold refused, reject. destruct (_ =? 0)%N; [unfold_monads; eauto|].
  unfold lift, get_runtime. unfold_monads. destruct (Provider_validate provider); simpl; [|eauto].
  rewrite Hr, bool_decide_eq_false_2 by done. simpl. eauto.
Qed.
Lemma session_refused a c p id s : session_call a = Some (c, p, id) ->
  session_denied a (ctx_namespace c, id) p s.1 -> refused (perform a) s.
Proof.
  unfold session_denied. intros Ha Hd. destruct (rt_providers s.1 !! _) as [record|] eqn:Hr;
    destruct a; simplify_eq/=; unfold done, register_resource_facts_provider;
    try solve [apply refused_bind; by eapply register_provider_refused
              | apply refused_bind, refused_bind; by eapply register_provider_refused];
    first [apply refused_validated | apply refused_bind, refused_validated];
    unfold refused, reject, lift, get_runtime; unfold_monads;
    try (destruct (ProviderSnapshot_validate _); simpl; [|by eauto]); rewrite Hr;
    rewrite ?(bool_decide_eq_false_2 (pr_principal record = p)) by done; try case_bool_decide; simpl; eauto.
Qed.

(** C16: a namespace belongs to the first principal that used it, for the life
    of the Kernel.  Whatever actions follow, the owner is the same, and an action
    of another principal on the objects of the namespace (leases, workers,
    operations, endpoints and grants, its events and its snapshot) is rejected
    and changes neither the authority nor the outside world.  The provider
    actions are guarded by their session instead: a call for a session that is
    registered to another principal, or that is not registered when the call is
    not the registration, is rejected and changes nothing.  The Kernel's own
    steps (lease expiry, worker loss, heartbeats on the worker channel,
    cancellation deadlines) name no principal. *)
Theorem namespace_isolation r w xs ns owner a c p :
  rt_namespace_owners r !! ns = Some owner -> ctx_namespace c = ns -> principal_identity p <> owner ->
  let s := perform_all xs (r, w) in
  rt_namespace_owners s.1 !! ns = Some owner /\
  (tenant_call a = Some (c, p) -> exists e, perform a s = (s, Err e)) /\
  (forall id, session_call a = Some (c, p, id) -> session_denied a (ns, id) p s.1 -> exists e, perform a s = (s, Err e)).
Proof.
  intros Ho <- Hne s.
  assert (rt_namespace_owners s.1 !! ctx_namespace c = Some owner) as Hs.
  { eapply lookup_weaken; [exact Ho|]. apply (fs_owners _ _ (perform_all_frame xs (r, w))). }
  split_and!; [done| |].
  - intros Ha. eapply foreign_refused; [done|]. exists owner. by split.
  - intros id Ha Hd. by eapply session_refused.
Qed.

(** ** Event streams *)

(** C20: from a state in which every stream is valid (a new authority has none),
    after any sequence of actions every stream is still valid, contiguous and
    within its capacity. *)
Theorem streams_always_valid r w xs : streams_ok r -> streams_ok (perform_all xs (r, w)).1.
Proof. apply (fs_streams _ _ (perform_all_frame xs (r, w))). Qed.
End namespaces.
