(* ===== verification/EndpointSpec.v ===== *)
(** * Endpoint grants

    A grant lives only as long as the endpoint it opens: after any actions,
    every recorded grant points to an endpoint that is published in the grant's
    own namespace. *)
From stdpp Require Import base gmap strings list sorting pretty.
From Stdlib Require Import Ascii Lia ZifyBool ZifyN.
From S2P Require Import Prelude Validation Contract KernelApi ResourceManager Binding Environment Instance.
From S2P Require Import AuthorityState Events EventsSpec Authority WorkerActions EndpointActions.
From S2P Require Import ProviderActions AuthorityFrame AuthoritySteps AuthoritySpec.

Record grants_backed (r : AuthorityRuntime) : Prop := {
  gb_key : forall o e, rt_endpoints r !! o = Some e -> obj_identity o = ep_identity e;
  gb_grant : forall o g, rt_endpoint_grants r !! o = Some g ->
    is_Some (rt_endpoints r !! mk_object (obj_namespace o) (grant_endpoint g));
}.
Definition same_endpoints (r r' : AuthorityRuntime) : Prop :=
  rt_endpoints r' = rt_endpoints r /\ rt_endpoint_grants r' = rt_endpoint_grants r.
Definition backed_step (r r' : AuthorityRuntime) : Prop := grants_backed r -> grants_backed r'.
#[export] Instance same_endpoints_preorder : PreOrder same_endpoints.
Proof. split; [by intros r; split|]. intros ??? [H1 H2] [H3 H4]. split; congruence. Qed.
#[export] Instance backed_step_preorder : PreOrder backed_step.
Proof. split; unfold backed_step; [intros r; done|intros r1 r2 r3; auto]. Qed.
Lemma same_backed r r' : same_endpoints r r' -> backed_step r r'.
Proof. intros [He Hg] [Hk Hb]. split; [by rewrite He|by rewrite He, Hg]. Qed.

Lemma lookup_delete_all {A} (owned : list (ObjectRef * A)) (m : gmap ObjectRef A) o :
  foldl (fun m (p : ObjectRef * A) => delete p.1 m) m owned !! o =
  if decide (o ∈ owned.*1) then None else m !! o.
Proof.
  revert m. induction owned as [|[o' a] owned IH]; intros m; cbn [foldl]; [done|].
  rewrite IH. simpl. destruct (decide (o ∈ owned.*1)).
  - rewrite decide_True by set_solver. done.
  - destruct (decide (o = o')) as [->|Hne].
    + rewrite lookup_delete_eq, decide_True by set_solver. done.
    + rewrite lookup_delete_ne by done. by rewrite decide_False by set_solver.
Qed.

(** A purge removes exactly the endpoints of the worker, whatever the namespace. *)
Lemma purged_endpoints worker r o :
  rt_endpoints (purged worker r) !! o =
  match rt_endpoints r !! o with
  | Some e => if decide (ep_owner e = worker) then None else Some e
  | None => None
  end.
Proof.
  unfold purged. simpl. rewrite lookup_delete_all.
  assert (o ∈ (owned_endpoints worker r).*1 <-> exists e, rt_endpoints r !! o = Some e /\ ep_owner e = worker) as Ho.
  { rewrite list_elem_of_fmap. unfold owned_endpoints. split.
    - intros ([o' e] & -> & [Hw Hin]%list_elem_of_filter). exists e. by rewrite <- elem_of_btree_iter.
    - intros (e & He & Hw). exists (o, e). split; [done|]. apply list_elem_of_filter. split; [done|].
      by apply elem_of_btree_iter. }
  destruct (rt_endpoints r !! o) as [e|] eqn:He.
  - destruct (decide (ep_owner e = worker)).
    + rewrite decide_True; [done|]. apply Ho. eauto.
    + rewrite decide_False; [done|]. rewrite Ho. naive_solver.
  - by destruct (decide _).
Qed.
Lemma purged_backed worker r : backed_step r (purged worker r).
Proof.
  intros [Hk Hg]. split.
  - intros o e. rewrite purged_endpoints. destruct (rt_endpoints r !! o) as [e'|] eqn:He; [|done].
    destruct (decide _); [done|]. intros [= <-]. by apply Hk.
  - intros o g Hl. assert (exists e, rt_endpoints r !! mk_object (obj_namespace o) (grant_endpoint g) = Some e /\
      ep_owner e <> worker) as (e & He & Hne).
    { unfold purged in Hl. simpl in Hl. apply map_lookup_filter_Some in Hl as (Hl & Hni & _).
      destruct (Hg _ _ Hl) as [e He]. exists e. split; [done|]. intros Hw. apply Hni. simpl.
      apply list_elem_of_fmap. exists (mk_object (obj_namespace o) (grant_endpoint g), e). split.
      - by apply Hk in He.
      - unfold owned_endpoints. apply list_elem_of_filter. split; [done|]. by apply elem_of_btree_iter. }
    rewrite purged_endpoints, He, decide_False by done. eauto.
Qed.

Ltac backed_goal :=
  lazymatch goal with
  | |- backed_step ?r (purged _ ?r) => apply purged_backed
  | |- backed_step _ _ => apply same_backed; split; reflexivity
  | |- same_endpoints _ _ => split; reflexivity
  end.
Ltac backed_tac := first [respects_step | backed_goal | respects_unfold].

Section endpoint_actions.
Context {W : Type} `{Environment W}.
Implicit Types (r : AuthorityRuntime).

Lemma same_lease_for c i : respects same_endpoints (lease_for c i : Auth W _).
Proof. repeat backed_tac. Qed.
Lemma same_endpoint_owner c i msg : respects same_endpoints (endpoint_owner c i msg : Auth W _).
Proof. repeat backed_tac. Qed.
Lemma same_lease_expired l : respects same_endpoints (lease_expired l : Auth W _).
Proof. repeat backed_tac. Qed.

(** Publishing replaces the older generations of the endpoint and drops the
    grants that point to them. *)
Definition published_state (c : AuthorityCallContext) (endpoint : Endpoint) r : AuthorityRuntime :=
  let same_id (object : ObjectRef) (current : Endpoint) : bool :=
    bool_decide (obj_namespace object = ctx_namespace c)
    && bool_decide (ident_id (ep_identity current) = ident_id (ep_identity endpoint)) in
  set_endpoint_grants
    (set_endpoints r (<[object_ref c (ep_identity endpoint) := endpoint]>
       (filter (fun p : ObjectRef * Endpoint => same_id p.1 p.2 = false
          \/ (ident_generation (ep_identity endpoint) <= ident_generation (ep_identity p.2))%N) (rt_endpoints r))))
    (filter (fun p : ObjectRef * EndpointGrant => obj_namespace p.1 <> ctx_namespace c
       \/ ident_id (grant_endpoint p.2) <> ident_id (ep_identity endpoint)
       \/ grant_endpoint p.2 = ep_identity endpoint) (rt_endpoint_grants r)).
Lemma published_backed c endpoint r : backed_step r (published_state c endpoint r).
Proof.
  intros [Hk Hg]. unfold published_state, object_ref. split; simpl.
  - intros o e. destruct (decide (o = mk_object (ctx_namespace c) (ep_identity endpoint))) as [->|Hne].
    + rewrite lookup_insert_eq. by intros [= <-].
    + rewrite lookup_insert_ne by done. intros [He _]%map_lookup_filter_Some. by apply Hk.
  - intros o g [Hl Hcond]%map_lookup_filter_Some. simpl in Hcond.
    set (t := mk_object (obj_namespace o) (grant_endpoint g)).
    destruct (decide (t = mk_object (ctx_namespace c) (ep_identity endpoint))) as [->|Hne].
    { rewrite lookup_insert_eq. eauto. }
    rewrite lookup_insert_ne by done. destruct (Hg _ _ Hl) as [e He]. exists e.
    apply map_lookup_filter_Some. split; [done|]. simpl. left.
    pose proof (Hk _ _ He) as Hid. simpl in Hid. rewrite <- Hid.
    apply andb_false_iff. rewrite !bool_decide_eq_false.
    destruct Hcond as [?|[?|Hge]]; [by left|by right|left]. intros Hn. apply Hne. unfold t. by rewrite Hn, Hge.
Qed.

Lemma publish_endpoint_backed c p e : respects backed_step (publish_endpoint c p e : Auth W _).
Proof.
  unfold publish_endpoint. cbv zeta.
  repeat first [lazymatch goal with
    | |- respects _ (_ ← update_runtime _; _ ← update_runtime _; mret _) =>
        intros r w s' res [= <- <-]; apply (published_backed c e r)
    end | backed_tac].
Qed.

Lemma granted_backed c g r :
  is_Some (rt_endpoints r !! object_ref c (grant_endpoint g)) ->
  backed_step r (set_endpoint_grants r (<[object_ref c (grant_identity g) := g]> (rt_endpoint_grants r))).
Proof.
  intros He [Hk Hg]. split; simpl; [done|]. intros o g'.
  destruct (decide (o = object_ref c (grant_identity g))) as [->|Hne].
  - rewrite lookup_insert_eq. by intros [= <-].
  - rewrite lookup_insert_ne by done. apply Hg.
Qed.
Lemma authorize_endpoint_backed c p g : respects backed_step (authorize_endpoint c p g : Auth W _).
Proof.
  unfold authorize_endpoint. do 2 (apply respects_bind; [apply _|by repeat backed_tac|intros _]).
  apply respects_post. intros r. apply post_get.
  destruct (stored_endpoint c r (grant_endpoint g)) as [ep|] eqn:Hs; [|by apply post_throw].
  assert (is_Some (rt_endpoints r !! object_ref c (grant_endpoint g))) as Hsome.
  { unfold stored_endpoint in Hs. case_match; [eauto|done]. }
  assert (forall r', same_endpoints r r' -> backed_step r r') as Hstop by apply same_backed.
  pose proof (reflexivity r : same_endpoints r r) as Hr.
  repeat keep_step same_endpoints backed_tac;
  apply post_update, post_mret;
  match goal with Hr : same_endpoints r ?r1 |- _ =>
    transitivity r1; [by apply same_backed|apply granted_backed; destruct Hr as [-> _]; done] end.
Qed.
Lemma revoke_endpoint_backed c p g : respects backed_step (revoke_endpoint c p g : Auth W _).
Proof.
  unfold revoke_endpoint. cbv zeta.
  repeat first [lazymatch goal with
    | |- backed_step ?r (set_endpoint_grants ?r (delete ?o _)) =>
        intros [Hk Hg]; split; simpl; [done|]; intros o' g' [_ Hl]%lookup_delete_Some; by apply Hg
    end | backed_tac].
Qed.

Lemma mark_worker_lost_backed c i reason : respects backed_step (mark_worker_lost c i reason : Auth W _).
Proof. repeat backed_tac. Qed.
Lemma enforce_expiries_backed now leases : respects backed_step (enforce_expiries now leases : Auth W _).
Proof.
  induction leases as [|l leases IH]; simpl; repeat first [apply IH | apply mark_worker_lost_backed | backed_tac].
Qed.
Lemma lose_missing_backed c observed b workers :
  respects backed_step (lose_missing c observed b workers : Auth W _).
Proof.
  induction workers as [|l workers IH]; simpl; repeat first [apply IH | apply mark_worker_lost_backed | backed_tac].
Qed.
Lemma snapshot_leases_backed objects : respects backed_step (snapshot_leases objects : Auth W _).
Proof. induction objects as [|[o n] objects IH]; simpl; repeat first [apply IH | backed_tac]. Qed.

Lemma perform_backed (a : action) : respects backed_step (perform a : Auth W unit).
Proof.
  destruct a; unfold perform, done;
    repeat lazymatch goal with
    | |- respects _ (publish_endpoint _ _ _) => apply publish_endpoint_backed
    | |- respects _ (authorize_endpoint _ _ _) => apply authorize_endpoint_backed
    | |- respects _ (revoke_endpoint _ _ _) => apply revoke_endpoint_backed
    | |- respects _ (snapshot_leases _) => apply snapshot_leases_backed
    | |- respects _ (mark_worker_lost _ _ _) => apply mark_worker_lost_backed
    | |- respects _ (enforce_expiries _ _) => apply enforce_expiries_backed
    | |- respects _ (lose_missing _ _ _ _) => apply lose_missing_backed
    | |- _ => backed_tac
    end.
Qed.

(** C17: after any sequence of actions every endpoint grant points to an endpoint
    published in the grant's own namespace: no grant survives the endpoint it
    opens, whether that was replaced by a newer generation or purged with its
    worker. *)
Theorem grants_always_backed r w xs :
  grants_backed r -> grants_backed (perform_all xs (r, w)).1.
Proof. apply (perform_all_respects backed_step perform_backed xs (r, w)). Qed.
End endpoint_actions.
