(* ===== verification/LeaseActionSpec.v ===== *)
(** * What the lease and worker actions guarantee

    The behaviour of single actions on every path, for every behaviour of the
    outside world: a lease is visible only after its durable record
    (class A of the durability policy in [adapter/events.rs]), a process is
    launched only after its durable intent (class B), resources return to the
    pool only after a complete cleanup, and a lost worker is fenced off. *)
From stdpp Require Import base gmap strings list sorting pretty.
From Stdlib Require Import Ascii Lia ZifyBool ZifyN.
From S2P Require Import Prelude Validation Contract KernelApi ResourceManager Ledger Ownership LedgerSpec.
From S2P Require Import Binding Environment Instance AuthorityState Events EventsSpec Authority WorkerActions.
From S2P Require Import EndpointActions ProviderActions AuthorityFrame AuthoritySteps AuthoritySpec EndpointSpec.

(** ** Ledger calls *)

(** Leases are stored under their own name. *)
Definition named (st : State) : Prop := forall n l, leases st !! n = Some l -> rl_name l = n.

Lemma named_expire now st : named st -> named (expire_due_leases now st).
Proof.
  intros Hn n l. rewrite lookup_expire_due. destruct (leases st !! n) as [l0|] eqn:Hl; [|done].
  intros [= <-]. destruct (expire_lease_cases now l0) as [->|[_ ->]]; simpl; by apply Hn.
Qed.
Lemma named_put n l l' st : leases st !! n = Some l -> rl_name l' = rl_name l -> named st -> named (put_lease n l' st).
Proof.
  intros Hl Hname Hn m l0. unfold put_lease. simpl. destruct (decide (m = n)) as [->|Hne].
  - rewrite lookup_insert_eq. intros [= <-]. rewrite Hname. by apply Hn.
  - rewrite lookup_insert_ne by done. apply Hn.
Qed.
Lemma named_leases st st' : leases st' = leases st -> named st -> named st'.
Proof. unfold named. by intros ->. Qed.
Lemma named_exec o st : named st -> named (exec o st).
Proof.
  intros Hn. destruct o; simpl;
    unfold quarantine, ResourceManager.acquire_lease, get_lease, list_leases, ResourceManager.renew_lease,
      begin_release, complete_release, fail_release, revoke, complete_revocation; run_method;
    try first [done | by apply named_expire | by eapply named_put; [eassumption| |try apply named_expire]].
  - apply (named_leases st); [|done]. unfold refresh_inventory. by run_method.
  - intros n l. simpl. destruct (decide (n = rq_lease_name request)) as [->|Hne].
    + rewrite lookup_insert_eq. by intros [= <-].
    + rewrite lookup_insert_ne by done. by apply named_expire.
Qed.
Lemma named_run os st : named st -> named (run os st).
Proof. apply run_invariant. intros; by apply named_exec. Qed.
Lemma allocated_expire now st : allocated (expire_due_leases now st) = allocated st.
Proof. by rewrite expire_due_leases_spec. Qed.

Lemma acquire_Ok now now' request st st' l :
  ResourceManager.acquire_lease now now' request st = (st', Ok l) ->
  leases st' = <[rq_lease_name request := l]> (leases (expire_due_leases now st)) /\
  rl_name l = rq_lease_name request /\ rl_state l = Active /\ rl_holder l = rq_holder request /\
  rl_fence_token l = next_fence_token st /\ rl_expires_at_unix_ms l = rq_expires_at_unix_ms request /\
  allocated st' = list_to_set (allocated_ids l) ∪ allocated st /\
  (forall i, i ∈ allocated_ids l -> i ∉ allocated st).
Proof.
  unfold ResourceManager.acquire_lease. run_method; intros [= <- <-]. simpl.
  unfold allocated_ids. simpl. rewrite foldl_insert_ids, allocated_ids_new, allocated_expire, next_expire.
  split_and!; try done. intros i. rewrite candidates_expire. apply candidate_ids_free.
Qed.

(** Taking a new lease back: the two release calls restore the allocated set,
    unless the lease expired in the meantime. *)
Lemma rollback_acquire now now' now'' request st st' l :
  ResourceManager.acquire_lease now now' request st = (st', Ok l) ->
  let st1 := (begin_release now'' (rl_name l) (rl_fence_token l) st').1 in
  let st2 := (complete_release (rl_name l) (rl_fence_token l) st1).1 in
  exists l', leases st2 !! rl_name l = Some l' /\
    ((rl_state l' = Released /\ allocated st2 = allocated st) \/ rl_state l' = Expired).
Proof.
  intros (Hl & -> & Hs & _ & _ & _ & Ha & Hfree)%acquire_Ok. simpl.
  unfold begin_release. rewrite lookup_expire_due, Hl, lookup_insert_eq. simpl.
  destruct (expire_lease_cases now'' l) as [Hx|[_ Hx]]; rewrite Hx.
  - rewrite N.eqb_refl, Hs. simpl. unfold complete_release. simpl. rewrite lookup_insert_eq. simpl.
    rewrite N.eqb_refl. simpl. rewrite lookup_insert_eq. eexists. split; [done|]. left. split; [done|].
    rewrite allocated_expire, foldl_remove_ids, Ha. unfold allocated_ids in *. simpl. set_solver.
  - simpl. rewrite N.eqb_refl. simpl.
    assert (leases (expire_due_leases now'' st') !! rq_lease_name request = Some (set_state Expired l)) as He.
    { rewrite lookup_expire_due, Hl, lookup_insert_eq. simpl. by rewrite Hx. }
    unfold complete_release. rewrite He. simpl. rewrite N.eqb_refl. simpl. rewrite He. eauto.
Qed.

Lemma stream_step_events ns r r' : stream_step ns r r' -> exists ev, r' = set_events r ev.
Proof. intros [->|(h & -> & _)]; [exists (rt_events r); by destruct r|by eexists]. Qed.

(** Every state the authority reaches keeps leases under their names. *)
Lemma named_reachable {W} `{Environment W} node epoch hb rs next (w : W) xs :
  named (rt_ledger (perform_all xs (booted node epoch hb rs next, w)).1).
Proof.
  destruct (fs_ledger _ _ (perform_all_frame xs (booted node epoch hb rs next, w))) as [os ->].
  apply named_run. intros n l. simpl. by rewrite lookup_empty.
Qed.

(** ** Runs of the shared steps *)
Section runs.
Context {W : Type} `{Environment W}.
Implicit Types (r : AuthorityRuntime) (w : W).

Lemma validate_context_run c s s' res : (validate_context c : Auth W unit) s = (s', res) -> s' = s.
Proof. unfold validate_context, lift. by intros [= <- _]. Qed.
Lemma require_owner_run c p s s' res : (require_namespace_owner c p : Auth W unit) s = (s', res) -> s' = s.
Proof.
  unfold require_namespace_owner, namespace_denied, reject, get_runtime. unfold_monads. destruct s as [r w].
  destruct (is_some_and _ _); by intros [= <- _].
Qed.
Lemma world_call_run {A} (f : W -> W * A) r w s' res :
  world_call f (r, w) = (s', res) -> exists w' a, s' = (r, w') /\ res = Ok a.
Proof. unfold world_call. destruct (f w). intros [= <- <-]. eauto. Qed.
Lemma record_runtime_run ev i l code r w s' res :
  (record_runtime ev i l code : Auth W unit) (r, w) = (s', res) ->
  exists w' x, s' = (r, w') /\ res = map_err provider_rejection x /\
    env_journal_append (mk_journal_record ev (rt_node_id r) (rt_node_epoch r) i (rl_name <$> l)
      (rl_fence_token <$> l) code None) w = (w', x).
Proof.
  unfold record_runtime, get_runtime, port. unfold_monads. destruct (env_journal_append _ _) as [w' x] eqn:Hj.
  intros [= <- <-]. eauto.
Qed.
Lemma ledger_now_run {A} (m : N -> STE State ProviderError A) r w s' res :
  (ledger_now m : Auth W _) (r, w) = (s', res) ->
  exists now w', s' = (set_ledger r (m now (rt_ledger r)).1, w') /\ res = Ok (m now (rt_ledger r)).2.
Proof.
  unfold ledger_now, world_call, ledger. unfold_monads. destruct (env_now_unix_ms w) as [w' now].
  destruct (m now (rt_ledger r)) as [st x] eqn:Hm. intros [= <- <-]. exists now, w'. by rewrite Hm.
Qed.
Lemma checked_run {A} (m : Auth W (result ProviderError A)) s s' res :
  checked m s = (s', res) ->
  (exists e, m s = (s', Err e) /\ res = Err e) \/
  exists x, m s = (s', Ok x) /\ res = map_err provider_rejection x.
Proof.
  unfold checked. intros [?|(x & s1 & Hm & Hl)]%bind_inv; [eauto|]. injection Hl as <- <-. eauto.
Qed.

Lemma bind_namespace_run c p r w s' res :
  (bind_namespace c p : Auth W unit) (r, w) = (s', res) ->
  exists owners, s' = (set_namespace_owners r owners, w).
Proof.
  unfold bind_namespace, namespace_denied, reject, get_runtime, update_runtime. unfold_monads.
  destruct (_ !! _); [case_match|]; intros [= <- _].
  - exists (rt_namespace_owners r). by destruct r.
  - exists (rt_namespace_owners r). by destruct r.
  - by eexists.
Qed.
Lemma acquire_Err now now' request st st' e :
  ResourceManager.acquire_lease now now' request st = (st', Err e) -> allocated st' = allocated st.
Proof.
  intros Ha. pose proof (outcome_unchanged (Acquire now now' request) st e) as Hu. simpl in Hu.
  rewrite Ha in Hu. simpl in Hu. destruct (Hu eq_refl) as [->|[t ->]]; [done|apply allocated_expire].
Qed.
Lemma daemon_acquire_run rq r w s' res :
  (daemon_acquire_lease rq : Auth W _) (r, w) = (s', res) ->
  exists st' w', s' = (set_ledger r st', w') /\
    match res with
    | Ok l => exists now now', ResourceManager.acquire_lease now now' rq (rt_ledger r) = (st', Ok l)
    | Err _ => allocated st' = allocated (rt_ledger r)
    end.
Proof.
  unfold daemon_acquire_lease, get_runtime, world_call, checked, ledger. unfold_monads.
  destruct (negb _); [intros [= <- <-]; exists (rt_ledger r), w; by destruct r|].
  destruct (env_now_unix_ms w) as [w1 now]. destruct (env_now_unix_ms w1) as [w2 now'].
  destruct (ResourceManager.acquire_lease now now' rq (rt_ledger r)) as [st' x] eqn:Ha. intros [= <- <-].
  exists st', w2. split; [done|]. destruct x as [l|e]; simpl; [eauto|]. by eapply acquire_Err.
Qed.

(** ** Acquisition *)

(** C10: a lease is visible only after its durable record: a successful
    [acquire_lease] appended the LEASE_ACQUIRED record of exactly the lease it
    publishes, which is active for the requested holder; a failed one publishes
    nothing and leaves the allocated resources as they were, except that a
    lease that expired before it could be taken back stays held for the expiry
    scan. *)
Theorem acquire_durable_before_visible c p holder q e r w r' w' res :
  Authority.acquire_lease c p holder q e (r, w) = ((r', w'), res) ->
  match res with
  | Ok lease => exists l w1,
      env_journal_append (mk_journal_record LeaseAcquired (rt_node_id r) (rt_node_epoch r) None (Some (rl_name l))
        (Some (rl_fence_token l)) "LEASE_ACQUIRED" None) w1 = (w', Ok tt) /\
      leases (rt_ledger r') !! rl_name l = Some l /\ rl_state l = Active /\ rl_holder l = holder /\
      rl_expires_at_unix_ms l = Some e /\ rl_fence_token l = next_fence_token (rt_ledger r) /\
      rt_leases r' = <[object_ref c (lease_name c) := rl_name l]> (rt_leases r) /\
      lease = semantic_lease (object_ref c (lease_name c)) l
  | Err _ =>
      rt_leases r' = rt_leases r /\
      (allocated (rt_ledger r') = allocated (rt_ledger r) \/
       exists l, leases (rt_ledger r') !! lease_internal_name c (lease_name c) = Some l /\ rl_state l = Expired)
  end.
Proof.
  unfold Authority.acquire_lease.
  intros [(x & [= -> ->]%validate_context_run & ->)|(? & ? & ->%validate_context_run & Hr)]%bind_inv; [auto|].
  apply bind_inv in Hr as [(err & Hb & ->)|(? & ? & Hb & Hr)]; apply bind_namespace_run in Hb as [owners Hb];
    [injection Hb as -> ->; auto|subst].
  apply bind_inv in Hr as [(err & Hb & ->)|(now & ? & Hb & Hr)]; apply world_call_run in Hb as (w1 & ? & Hb & ?);
    [done|subst].
  destruct (e <=? now)%N; [by injection Hr as <- <- <-; auto|]. unfold get_runtime in Hr.
  unfold mbind at 1, ste_bind, gets in Hr. cbn [fst] in Hr.
  apply bind_inv in Hr as [(err & Hb & ->)|(l & ? & Hb & Hr)];
    apply daemon_acquire_run in Hb as (st' & w2 & Hb & Hacq); [injection Hb as -> ->; auto|subst].
  destruct Hacq as (now1 & now2 & Hacq). simpl in Hacq. pose proof (acquire_Ok _ _ _ _ _ _ Hacq) as Hok.
  destruct Hok as (Hl & Hn & Hst & Hh & Hf & He & _). simpl in *.
  apply bind_inv in Hr as [(err & Hb & ->)|(rec & ? & Hb & Hr)]; unfold attempt in Hb;
    destruct (record_runtime _ _ _ _ _) as [s3 x3] eqn:Hrec; [discriminate Hb|injection Hb as <- <-].
  apply record_runtime_run in Hrec as (w3 & y & -> & -> & Hj). simpl in Hj. destruct y as [[]|e']; simpl in Hr.
  - injection Hr as <- <- <-. exists l, w2. simpl. rewrite Hl, Hn, lookup_insert_eq. split_and!; try done.
    by rewrite <- Hn.
  - apply bind_inv in Hr as [(err & Hb & ->)|(? & ? & Hb & Hr)]; apply ledger_now_run in Hb as (now3 & w4 & Hb & ?);
      [done|subst].
    pose proof (rollback_acquire now1 now2 now3 _ _ _ _ Hacq) as (l' & Hl' & Hcase).
    unfold ledger, mbind, ste_bind in Hr. simpl in *.
    destruct (complete_release (rl_name l) (rl_fence_token l) _) as [st5 y5] eqn:Hc in Hr. simpl in Hr.
    injection Hr as <- <- <-. simpl in *. rewrite Hc, Hn in *. split; [done|].
    destruct Hcase as [[_ ?]|Hexp]; [by left|right]. by exists l'.
Qed.

(** ** Launch *)
Lemma lease_for_run c i r w s' res :
  (lease_for c i : Auth W _) (r, w) = (s', res) ->
  exists st w', s' = (set_ledger r st, w') /\ unchanged (rt_ledger r) st /\
    forall l, res = Ok l -> exists n, rt_leases r !! object_ref c i = Some n /\ leases st !! n = Some l.
Proof.
  unfold lease_for, get_runtime, reject. unfold mbind at 1, ste_bind, gets. cbn [fst].
  destruct (rt_leases r !! object_ref c i) as [n|].
  - unfold daemon_lease. intros [(e & Hl & _)|(x & Hl & ->)]%checked_run;
      apply ledger_now_run in Hl as (now & w' & -> & Hx); [done|]. injection Hx as ->. simpl.
    eexists _, w'. split; [done|]. split; [right; by eexists|]. intros l. unfold lookup_lease.
    destruct (leases _ !! n) eqn:Hn; [|done]. intros [= <-]. eauto.
  - intros [= <- <-]. exists (rt_ledger r), w. split; [by destruct r|]. split; [by left|done].
Qed.
Lemma port_run {A} (m : STE W ProviderError A) r w s' res :
  port m (r, w) = (s', res) -> s' = (r, (m w).1) /\ res = map_err provider_rejection (m w).2.
Proof. unfold port. destruct (m w). by intros [= <- <-]. Qed.
Lemma local_actor_run {A} a (f : InstanceActor -> W -> InstanceActor * W * result ProviderError A) r w s' res :
  local_actor_call a f (r, w) = (s', res) -> exists a' w' x, f a w = (a', w', x) /\ s' = (r, w') /\ res = Ok (a', x).
Proof. unfold local_actor_call. destruct (f a w) as [[a' w'] x]. intros [= <- <-]. by exists a', w', x. Qed.

Lemma same_runtime_launch wk l a : respects eq (launch_worker wk l a : Auth W _).
Proof. repeat first [respects_step | respects_unfold]. Qed.

(** Intent, launch and outcome of a new process, each in the world the previous
    one left. *)
Lemma launch_worker_run wk l instance_name plan binding timeout r w s' a' :
  (launch_worker wk l (InstanceActor_new instance_name (rl_name l) (rl_fence_token l) plan binding timeout)
     : Auth W _) (r, w) = (s', Ok a') ->
  exists w1 w2 h ev,
    env_journal_append (mk_journal_record InstanceLaunching (rt_node_id r) (rt_node_epoch r)
      (Some (ident_id (wk_identity wk))) (Some (rl_name l)) (Some (rl_fence_token l)) "WORKER_LAUNCHING" None) w
      = (w1, Ok tt) /\
    env_launch plan binding w1 = (w2, Ok h) /\ recovery_evidence h = Ok ev /\
    env_journal_append (mk_journal_record InstanceLaunched (rt_node_id r) (rt_node_epoch r)
      (Some (ident_id (wk_identity wk))) (Some (rl_name l)) (Some (rl_fence_token l)) "WORKER_LAUNCHED" (Some ev))
      (env_instant w2).1 = (s'.2, Ok tt) /\
    sp_handle (ia_process a') = Some h /\ s'.1 = r.
Proof.
  intros Hr. assert (s'.1 = r) as Hs by (by apply same_runtime_launch in Hr). unfold launch_worker in Hr.
  apply bind_inv in Hr as [(err & _ & [=])|([] & ? & Hrec & Hr)].
  apply record_runtime_run in Hrec as (w1 & y & -> & Hx & Hj). destruct y as [[]|]; [clear Hx|done].
  apply bind_inv in Hr as [(err & _ & [=])|([a1 started] & ? & Hst & Hr)].
  apply local_actor_run in Hst as (a2 & w2 & y & Hst & -> & [= -> ->]).
  unfold actor_start, InstanceActor_new, actor_launch, process_start in Hst. simpl in Hst.
  destruct (env_launch plan binding w1) as [w3 [h|]] eqn:Hl.
  2: { destruct (env_instant w3). injection Hst as <- <- <-. done. }
  destruct (env_instant w3) as [w4 now] eqn:Hi. injection Hst as <- <- <-.
  unfold lift, mbind at 1, ste_bind in Hr. simpl in Hr. unfold actor_recovery_evidence in Hr. simpl in Hr.
  destruct (recovery_evidence h) as [ev|] eqn:Hev.
  2: { by apply bind_inv in Hr as [(err & _ & [=])|(? & ? & _ & [=])]. }
  apply bind_inv in Hr as [(err & _ & [=])|(rec & ? & Hb & Hr)].
  unfold attempt, record_runtime_launch, get_runtime, port in Hb. unfold mbind, ste_bind, gets in Hb. cbn [fst] in Hb.
  destruct (env_journal_append _ w4) as [w5 y] eqn:Hj2. injection Hb as <- <-. destruct y as [[]|]; simpl in Hr.
  - injection Hr as <- <-. exists w1, w3, h, ev. rewrite Hi. simpl. by split_and!.
  - by apply bind_inv in Hr as [(err & _ & [=])|(? & ? & _ & [=])].
Qed.

Definition same_workers (r r' : AuthorityRuntime) : Prop :=
  rt_workers r' = rt_workers r /\ rt_instances r' = rt_instances r /\ rt_operations r' = rt_operations r.
#[export] Instance same_workers_preorder : PreOrder same_workers.
Proof. split; [by intros r|]. intros ??? (?&?&?) (?&?&?). split_and!; congruence. Qed.
Ltac same_workers_tac :=
  first [respects_step | lazymatch goal with |- same_workers _ _ => by split_and! end | respects_unfold].

Lemma start_worker_error c p wk : on_error same_workers (start_worker c p wk : Auth W _).
Proof.
  unfold start_worker. cbv zeta.
  repeat first
    [ lazymatch goal with
      | |- on_error _ (_ ← set_instance _ _; _) => apply on_error_total; repeat total_step
      | |- on_error _ (mbind _ _) => apply on_error_bind; [apply _|solve [repeat same_workers_tac]|intros ?]
      | |- on_error _ (match ?x with _ => _ end) => destruct x
      | |- on_error _ _ => apply on_error_respects; solve [repeat same_workers_tac]
      end ].
Qed.

(** Steps that only read the runtime. *)
Ltac reads := solve [repeat first [respects_step | respects_unfold]].
Lemma lease_expired_reads l : respects eq (lease_expired l : Auth W bool).
Proof. reads. Qed.
Lemma worker_plan_reads r0 wk l b n plan : respects eq (worker_plan r0 wk l b n plan : Auth W _).
Proof. reads. Qed.

(** C8: a started worker holds the lease it named: active, held by this worker,
    in the generation it named.  The Kernel recorded the launch intent, then
    launched the process, then recorded the outcome with the process's recovery
    evidence, each in the world the previous step left, and only then made the
    worker, under the caller's principal, visible.  A start that is rejected
    leaves the workers, the processes and the operations as they were. *)
Theorem start_worker_sound c p wk r w r' w' res :
  start_worker c p wk (r, w) = ((r', w'), res) ->
  match res with
  | Err _ => same_workers r r'
  | Ok op =>
      let object := object_ref c (wk_identity wk) in
      let name := scoped_runtime_name "worker" object in
      rt_workers r !! object = None /\ rt_workers r' = <[object := name]> (rt_workers r) /\
      exists n l proc plan binding h ev w0 w1 w2 w3,
        rt_leases r !! object_ref c (wk_lease wk) = Some n /\ leases (rt_ledger r') !! n = Some l /\
        rl_state l = Active /\ rl_holder l = wk_identity wk /\ rl_generation l = ident_generation (wk_lease wk) /\
        env_journal_append (mk_journal_record InstanceLaunching (rt_node_id r) (rt_node_epoch r)
          (Some (ident_id (wk_identity wk))) (Some (rl_name l)) (Some (rl_fence_token l)) "WORKER_LAUNCHING" None) w0
          = (w1, Ok tt) /\
        env_launch plan binding w1 = (w2, Ok h) /\ recovery_evidence h = Ok ev /\
        env_journal_append (mk_journal_record InstanceLaunched (rt_node_id r) (rt_node_epoch r)
          (Some (ident_id (wk_identity wk))) (Some (rl_name l)) (Some (rl_fence_token l)) "WORKER_LAUNCHED" (Some ev))
          (env_instant w2).1 = (w3, Ok tt) /\
        rt_instances r' = <[name := proc]> (rt_instances r) /\
        sp_handle (ia_process (mp_actor proc)) = Some h /\
        mp_lease proc = Some (mk_lease_ref (rl_name l) (rl_fence_token l)) /\
        mp_semantic_worker proc = Some (mk_worker (wk_identity wk) (principal_identity p) (wk_provider wk)
          (wk_lease wk) WStarting (wk_execution_ref wk) (wk_limits wk)) /\
        op_state op = ORunning /\ rt_operations r' = <[object_ref c (op_identity op) := op]> (rt_operations r)
  end.
Proof.
  intros Hr. destruct res as [op|e]; [|by apply start_worker_error in Hr].
  unfold start_worker in Hr. cbv zeta in Hr.
  apply bind_ok in Hr as (? & ? & ->%validate_context_run & Hr).
  apply bind_ok in Hr as (? & ? & ->%require_owner_run & Hr).
  destruct (negb _); [done|]. unfold get_runtime in Hr. unfold mbind at 1, ste_bind, gets in Hr.
  cbn [fst wk_identity wk_lease wk_state wk_principal] in Hr.
  destruct (bool_decide_reflect (is_Some (rt_workers r !! object_ref c (wk_identity wk)))) as [|Hnone]; [done|].
  apply eq_None_not_Some in Hnone.
  apply bind_ok in Hr as (l & ? & Hl & Hr).
  apply lease_for_run in Hl as (st & w1 & -> & _ & Hl). destruct (Hl l eq_refl) as (n & Hn & Hst). clear Hl.
  apply bind_ok in Hr as (inactive & [r1 w2] & Hin & Hr). destruct inactive; [done|].
  assert (r1 = set_ledger r st /\ rl_state l = Active /\ rl_holder l = wk_identity wk /\
          rl_generation l = ident_generation (wk_lease wk)) as (-> & Hact & Hhold & Hgen).
  { destruct (_ || _) eqn:Hc; [by injection Hin|]. apply lease_expired_reads in Hin. simpl in Hin. subst r1.
    rewrite !orb_false_iff, !negb_false_iff, !bool_decide_eq_true, N.eqb_eq in Hc. naive_solver. }
  clear Hin. apply bind_ok in Hr as (binding & ? & [-> _]%port_run & Hr).
  apply bind_ok in Hr as (? & ? & [-> _]%port_run & Hr).
  apply bind_ok in Hr as (resolved & ? & [-> _]%port_run & Hr).
  apply bind_ok in Hr as (plan & [r2 w3] & Hp & Hr).
  apply worker_plan_reads in Hp. simpl in Hp. subst r2. apply bind_ok in Hr as (actor & [r3 w4] & Ha & Hr).
  apply launch_worker_run in Ha as (wa & wb & h & ev & Hj1 & Hlaunch & Hev & Hj2 & Hh & Hr3). simpl in *. subst r3.
  unfold set_instance in Hr. apply update_ok, update_ok in Hr.
  apply bind_ok in Hr as (? & [r4 w5] & Hp & Hr). apply publish_step in Hp as [_ [e1 Hp]%stream_step_events].
  simpl in Hp. subst r4.
  unfold remember_operation, put_operation in Hr. apply update_ok in Hr.
  apply bind_ok in Hr as (? & [r5 w6] & Hp2 & Hr). apply publish_step in Hp2 as [_ [e2 Hp2]%stream_step_events].
  simpl in Hp2. subst r5. injection Hr as <- <- <-.
  split; [done|]. split; [done|]. eexists n, l, _, plan, binding, h, ev, w3, wa, wb, w4. by split_and!.
Qed.

(** *** Without a durable intent nothing is launched *)
Section intent.
Context (P : W -> Prop).
Definition keeps {A} (m : Auth W A) : Prop := forall r w s' res, P w -> m (r, w) = (s', res) -> P s'.2.
Definition keeps_port {A} (m : STE W ProviderError A) : Prop := forall w, P w -> P (m w).1.

Lemma keeps_bind {A B} (m : Auth W A) (k : A -> Auth W B) : keeps m -> (forall a, keeps (k a)) -> keeps (m ≫= k).
Proof.
  intros Hm Hk r w s' res HP [(e & He & _)|(a & [r1 w1] & Ha & Hr)]%bind_inv; [by eapply Hm|].
  eapply Hk; [|exact Hr]. by eapply (Hm r w (r1, w1)).
Qed.
Lemma keeps_mret {A} (a : A) : keeps (mret a).
Proof. intros r w s' res HP [= <- <-]. done. Qed.
Lemma keeps_throw {A} e : keeps (throw e : Auth W A).
Proof. intros r w s' res HP [= <- <-]. done. Qed.
Lemma keeps_lift {A} (x : result Rejection A) : keeps (lift x).
Proof. intros r w s' res HP [= <- <-]. done. Qed.
Lemma keeps_get : keeps get_runtime.
Proof. intros r w s' res HP [= <- <-]. done. Qed.
Lemma keeps_ledger {A} (m : STE State ProviderError A) : keeps (ledger m).
Proof. intros r w s' res HP. unfold ledger. destruct (m _). by intros [= <- <-]. Qed.
Lemma keeps_of_port {A} (m : STE W ProviderError A) : keeps_port m -> keeps (port m).
Proof. intros Hm r w s' res HP [-> _]%port_run. by apply Hm. Qed.
Lemma port_bind_keeps {A B} (m : STE W ProviderError A) (k : A -> STE W ProviderError B) :
  keeps_port m -> (forall a, keeps_port (k a)) -> keeps_port (m ≫= k).
Proof.
  intros Hm Hk w HP. unfold mbind, ste_bind. specialize (Hm w HP). destruct (m w) as [w1 [a|e]]; [|done].
  by apply Hk.
Qed.
Lemma port_mret_keeps {A} (a : A) : keeps_port (mret a).
Proof. by intros w. Qed.
Lemma port_lift_keeps {A} (x : result ProviderError A) : keeps_port (lift x).
Proof. by intros w. Qed.

Context (Hnow : forall w, P w -> P (env_now_unix_ms w).1)
  (Hprobe : keeps_port env_probe_inventory)
  (Hcreate : forall resource n, keeps_port (env_create_binding_for_generation resource n))
  (Hpreflight : forall binding w, P w -> P (env_preflight_for_binding binding w).1)
  (Hresolve : forall wk, keeps_port (env_resolve_worker_launch_plan wk))
  (Hjournal : forall record, keeps_port (env_journal_append record))
  (Hfails : forall record w, P w -> is_err (env_journal_append record w).2 = true).

Lemma keeps_now : keeps (world_call env_now_unix_ms).
Proof.
  intros r w s' res HP. unfold world_call. specialize (Hnow w HP). destruct (env_now_unix_ms w). by intros [= <- <-].
Qed.
Lemma lease_bindings_keeps snapshot allocations : keeps_port (lease_bindings snapshot allocations).
Proof.
  induction allocations as [|a allocations IH]; simpl; [apply port_mret_keeps|].
  apply port_bind_keeps; [apply port_lift_keeps|intros resource].
  apply port_bind_keeps; [apply Hcreate|intros b]. apply port_bind_keeps; [done|intros bs]. apply port_mret_keeps.
Qed.
Lemma binding_for_lease_keeps l : keeps_port (binding_for_lease l).
Proof.
  apply port_bind_keeps; [done|intros snapshot].
  apply port_bind_keeps; [apply lease_bindings_keeps|intros b]. apply port_lift_keeps.
Qed.
Lemma preflight_keeps b : keeps_port (preflight_binding b).
Proof.
  intros w HP. unfold preflight_binding. specialize (Hpreflight b w HP).
  destruct (env_preflight_for_binding b w) as [w1 caps]. by case_match.
Qed.

Definition refusing {A} (m : Auth W A) : Prop :=
  forall r w s' res, P w -> m (r, w) = (s', res) -> P s'.2 /\ is_err res = true.
Lemma refusing_after {A B} (m : Auth W A) (k : A -> Auth W B) :
  keeps m -> (forall a, refusing (k a)) -> refusing (m ≫= k).
Proof.
  intros Hm Hk r w s' res HP [(e & He & ->)|(a & [r1 w1] & Ha & Hr)]%bind_inv; [split; [by eapply Hm|done]|].
  eapply Hk; [|exact Hr]. by eapply (Hm r w (r1, w1)).
Qed.
Lemma refusing_bind {A B} (m : Auth W A) (k : A -> Auth W B) : refusing m -> refusing (m ≫= k).
Proof.
  intros Hm r w s' res HP [(e & He & ->)|(a & s1 & Ha & _)]%bind_inv; [split; [|done]|].
  - by apply (Hm r w s' (Err e)).
  - by destruct (Hm r w s1 (Ok a) HP Ha).
Qed.
Lemma refusing_throw {A} e : refusing (throw e : Auth W A).
Proof. intros r w s' res HP [= <- <-]. done. Qed.
Lemma record_refused ev i l code : refusing (record_runtime ev i l code).
Proof.
  intros r w s' res HP (w1 & x & -> & -> & Hj)%record_runtime_run.
  match type of Hj with env_journal_append ?record _ = _ =>
    pose proof (Hjournal record w HP) as HP1; pose proof (Hfails record w HP) as Herr end.
  rewrite Hj in HP1, Herr. by destruct x.
Qed.
Ltac refusing_step :=
  lazymatch goal with
  | |- refusing (mbind _ (launch_worker _ _ _)) => apply refusing_bind
  | |- refusing (mbind _ (record_runtime _ _ _ _)) => apply refusing_bind, record_refused
  | |- refusing (mbind _ _) => apply refusing_after; [|intros ?]
  | |- refusing (throw _) => apply refusing_throw
  | |- refusing (match ?x with _ => _ end) => destruct x
  | |- refusing ?m => let h := head_of m in unfold h; cbv zeta
  | |- keeps (mbind _ _) => apply keeps_bind; [|intros ?]
  | |- keeps (mret _) => apply keeps_mret
  | |- keeps (throw _) => apply keeps_throw
  | |- keeps (lift _) => apply keeps_lift
  | |- keeps get_runtime => apply keeps_get
  | |- keeps (ledger _) => apply keeps_ledger
  | |- keeps (world_call env_now_unix_ms) => apply keeps_now
  | |- keeps (port (binding_for_lease _)) => apply keeps_of_port, binding_for_lease_keeps
  | |- keeps (port (preflight_binding _)) => apply keeps_of_port, preflight_keeps
  | |- keeps (port (env_resolve_worker_launch_plan _)) => apply keeps_of_port, Hresolve
  | |- keeps (match ?x with _ => _ end) => destruct x
  | |- keeps ?m => let h := head_of m in unfold h
  end.

(** C9: nothing is launched without a durable intent: if the journal accepts no
    record, then starting a worker is rejected, and every property of the world
    that the clock, the adapters, the resolver and the refused journal writes
    preserve still holds afterwards, so neither a launch nor a stop reached the
    sandbox. *)
Theorem launch_needs_durable_intent c p wk r w s' res :
  P w -> start_worker c p wk (r, w) = (s', res) -> P s'.2 /\ is_err res = true.
Proof. revert r w s' res. change (refusing (start_worker c p wk)). repeat refusing_step. Qed.
End intent.

(** ** Stop *)
Definition same_allocated (r r' : AuthorityRuntime) : Prop :=
  allocated (rt_ledger r') = allocated (rt_ledger r).
#[export] Instance same_allocated_preorder : PreOrder same_allocated.
Proof. split; [by intros r|]. unfold same_allocated. intros ???; congruence. Qed.
Lemma begin_allocated now n f st : allocated (begin_release now n f st).1 = allocated st.
Proof. unfold begin_release. run_method; apply allocated_expire. Qed.
Lemma fail_allocated n f st : allocated (fail_release n f st).1 = allocated st.
Proof. unfold fail_release. by run_method. Qed.
Lemma revoke_allocated now n f st : allocated (revoke now n f st).1 = allocated st.
Proof. unfold revoke. run_method; apply allocated_expire. Qed.
Lemma get_allocated now n st : allocated (get_lease now n st).1 = allocated st.
Proof. apply allocated_expire. Qed.
Ltac same_allocated_tac :=
  first [respects_step
        | lazymatch goal with |- same_allocated _ _ =>
            first [reflexivity | apply begin_allocated | apply fail_allocated | apply revoke_allocated | apply get_allocated]
          end
        | respects_unfold].

Lemma complete_release_error n f : on_error same_allocated (checked (ledger (complete_release n f)) : Auth W _).
Proof.
  intros r w s' e [(? & Hl & _)|(x & Hl & Hx)]%checked_run;
    unfold ledger in Hl; destruct (complete_release n f (rt_ledger r)) as [st y] eqn:Hc; [done|].
  injection Hl as <- <-. destruct y as [|e']; [done|]. unfold same_allocated. simpl.
  pose proof (outcome_unchanged (CompleteRelease n f) (rt_ledger r) e') as Hu. simpl in Hu. rewrite Hc in Hu.
  simpl in Hu. destruct (Hu eq_refl) as [->|[t ->]]; [done|apply allocated_expire].
Qed.

(** A rejected stop or release frees nothing, whatever the cleanup reported. *)
Ltac error_tac :=
  lazymatch goal with
  | |- on_error _ (checked (ledger (complete_release _ _))) => apply complete_release_error
  | |- on_error _ (_ ← (if _ then _ else _); _ ← publish _ _ _ _; _) =>
      apply on_error_then; [|intros ?; repeat total_step]
  | |- on_error _ (_ ← checked (ledger (complete_release _ _)); _) =>
      apply on_error_then; [|intros ?; unfold purge_endpoint_authority; repeat total_step]
  | |- on_error _ (mbind _ _) => apply on_error_bind; [apply _|solve [repeat same_allocated_tac]|intros ?]
  | |- on_error _ (match ?x with _ => _ end) => destruct x
  | |- on_error _ _ => apply on_error_respects; solve [repeat same_allocated_tac]
  end.
Lemma stop_worker_error c p wid lid f g : on_error same_allocated (stop_worker c p wid lid f g : Auth W _).
Proof. unfold stop_worker. cbv zeta. repeat error_tac. Qed.
Lemma release_error c i f : on_error same_allocated (release_with_cleanup c i f : Auth W _).
Proof. unfold release_with_cleanup. cbv zeta. repeat error_tac. Qed.

Lemma begin_release_Ok now n st st' l l' :
  leases st !! n = Some l -> rl_state l = Active ->
  begin_release now n (rl_fence_token l) st = (st', Ok l') ->
  l' = set_state Releasing l /\ leases st' !! n = Some l' /\ allocated st' = allocated st.
Proof.
  intros Hl Hs Hb. pose proof (begin_allocated now n (rl_fence_token l) st) as Ha. rewrite Hb in Ha. revert Hb.
  unfold begin_release. rewrite lookup_expire_due, Hl. simpl.
  destruct (expire_lease_cases now l) as [Hx|[_ Hx]]; rewrite Hx; simpl; rewrite N.eqb_refl; simpl; [|done].
  rewrite Hs. intros [= <- <-]. simpl in *. by rewrite lookup_insert_eq.
Qed.
Lemma complete_release_Ok n st st' l l' f :
  leases st !! n = Some l -> rl_state l = Releasing -> complete_release n f st = (st', Ok l') ->
  leases st' !! n = Some (set_state Released l) /\
  allocated st' = allocated st ∖ list_to_set (allocated_ids l).
Proof.
  intros Hl Hs. unfold complete_release. rewrite Hl, Hs. run_method; try done; intros [= <- <-].
  simpl. rewrite lookup_insert_eq. split; [done|]. by rewrite foldl_remove_ids.
Qed.
Lemma fail_release_Ok n st l :
  leases st !! n = Some l -> rl_state l = Releasing ->
  leases (fail_release n (rl_fence_token l) st).1 !! n = Some (set_state Failed l).
Proof. intros Hl Hs. unfold fail_release. rewrite Hl, N.eqb_refl, Hs. simpl. by rewrite lookup_insert_eq. Qed.

Lemma worker_instance_name_reads c i : respects eq (worker_instance_name c i : Auth W _).
Proof. reads. Qed.

Lemma stop_process_run name wid lid releasing f request r w r1 w1 wk report :
  (stop_process name wid lid releasing f request : Auth W _) (r, w) = ((r1, w1), Ok (wk, report)) ->
  exists process worker a,
    rt_instances r !! name = Some process /\ mp_semantic_worker process = Some worker /\
    wk_identity worker = wid /\ wk_lease worker = lid /\
    actor_stop request (mp_actor process) w = (a, w1, Ok report) /\ rt_ledger r1 = rt_ledger r /\
    exists process', rt_instances r1 = <[name := process']> (rt_instances r) /\ mp_actor process' = a /\
      wk = wk_with_state (if cr_complete report then WStopped else WFailed) worker /\
      mp_semantic_worker process' = Some wk.
Proof.
  unfold stop_process, get_runtime, fail_stop. unfold mbind at 1, ste_bind, gets. cbn [fst].
  destruct (rt_instances r !! name) as [process|] eqn:Hi.
  2: { by intros (? & ? & _ & [=])%bind_ok. }
  destruct (mp_semantic_worker process) as [worker|] eqn:Hw.
  2: { by intros (? & ? & _ & [=])%bind_ok. }
  destruct (_ || _) eqn:Hc.
  { by intros (? & ? & _ & [=])%bind_ok. }
  rewrite orb_false_iff, !negb_false_iff, !bool_decide_eq_true in Hc. destruct Hc as [Hid Hlease].
  unfold set_instance. intros Hr%update_ok.
  apply bind_ok in Hr as ([process' stopped] & ? & Ha & Hr). unfold actor_call in Ha. simpl in Ha.
  destruct (actor_stop request (mp_actor process) w) as [[a w2] y] eqn:Hs. injection Ha as <- <- <-.
  destruct y as [rep|err]. 2: { by apply bind_ok in Hr as (? & ? & _ & [=]). }
  apply update_ok in Hr. injection Hr as <- <- <- <-. exists process, worker, a. split_and!; try done.
  eexists. split; [simpl; by rewrite !insert_insert_eq|]. simpl. rewrite Hw. by destruct worker.
Qed.

(** The steps after the ledger decided. *)
Definition same_ledger (r r' : AuthorityRuntime) : Prop := rt_ledger r' = rt_ledger r.
#[export] Instance same_ledger_preorder : PreOrder same_ledger.
Proof. split; [by intros r|]. unfold same_ledger. intros ???; congruence. Qed.
Ltac same_ledger_tac :=
  first [respects_step | lazymatch goal with |- same_ledger _ _ => reflexivity end | respects_unfold].
Lemma remember_same_ledger c o : respects same_ledger (remember_operation c o : Auth W _).
Proof. repeat same_ledger_tac. Qed.
Lemma publish_same_ledger ns i k sch : respects same_ledger (publish ns i k sch : Auth W _).
Proof. repeat same_ledger_tac. Qed.
Lemma purge_same_ledger i : respects same_ledger (purge_endpoint_authority i : Auth W _).
Proof. repeat same_ledger_tac. Qed.
Lemma try_record_same_ledger e i l code : respects same_ledger (try_record_runtime e i l code : Auth W _).
Proof. repeat same_ledger_tac. Qed.

(** C7: resources return to the pool only after a complete cleanup: a stop that
    succeeds stopped the worker's own process through the sandbox; if the report
    was complete the lease is released and exactly its resources are freed,
    otherwise the lease is failed and nothing is freed.  A rejected stop frees
    nothing, wherever it failed. *)
Theorem stop_frees_after_cleanup c p wid lid f grace r w r' w' res :
  named (rt_ledger r) ->
  stop_worker c p wid lid f grace (r, w) = ((r', w'), res) ->
  match res with
  | Err _ => allocated (rt_ledger r') = allocated (rt_ledger r)
  | Ok op => exists n l name process worker w1 a w2 report,
      rt_leases r !! object_ref c lid = Some n /\ leases (rt_ledger r) !! n = Some l /\
      rl_state l = Active /\ rl_fence_token l = f /\ rl_holder l = wid /\
      rt_instances r !! name = Some process /\ mp_semantic_worker process = Some worker /\
      wk_identity worker = wid /\ wk_lease worker = lid /\
      actor_stop (mk_stop_request grace false) (mp_actor process) w1 = (a, w2, Ok report) /\
      leases (rt_ledger r') !! n = Some (set_state (if cr_complete report then Released else Failed) l) /\
      allocated (rt_ledger r') = (if cr_complete report then allocated (rt_ledger r) ∖ list_to_set (allocated_ids l)
                                  else allocated (rt_ledger r)) /\
      op_state op = (if cr_complete report then OSucceeded else OFailed)
  end.
Proof.
  intros Hnamed Hr. destruct res as [op|e]; [|by apply stop_worker_error in Hr].
  unfold stop_worker in Hr. cbv zeta in Hr.
  apply bind_ok in Hr as (? & ? & ->%validate_context_run & Hr).
  apply bind_ok in Hr as (? & ? & ->%require_owner_run & Hr).
  apply bind_ok in Hr as (l & ? & Hl & Hr).
  apply lease_for_run in Hl as (st & w1 & -> & Hu & Hl). destruct (Hl l eq_refl) as (n & Hn & Hst). clear Hl.
  apply bind_ok in Hr as (name & [r1 w2] & Hm & Hr). apply worker_instance_name_reads in Hm. simpl in Hm. subst r1.
  destruct (_ || _) eqn:Hc; [done|].
  rewrite !orb_false_iff, !negb_false_iff, !bool_decide_eq_true, !N.eqb_eq in Hc.
  destruct Hc as [[[_ Hf] Hh] Hact].
  assert (leases (rt_ledger r) !! n = Some l /\ rl_name l = n /\ allocated st = allocated (rt_ledger r))
    as (Hl0 & Hname & Hal).
  { destruct Hu as [->|[t ->]]; [by split_and!; [|apply Hnamed|]|]. rewrite lookup_expire_due in Hst.
    destruct (leases (rt_ledger r) !! n) as [l0|] eqn:Hl0; [|done]. injection Hst as <-.
    destruct (expire_lease_cases t l0) as [Hx|[_ Hx]]; rewrite Hx in *; [|done].
    by split_and!; [|apply Hnamed|apply allocated_expire]. }
  apply bind_ok in Hr as (? & ? & (w3 & ? & -> & _)%record_runtime_run & Hr).
  apply bind_ok in Hr as (releasing & ? & Hb & Hr). apply checked_run in Hb as [(? & _ & [=])|(y & Hb & Hy)].
  apply ledger_now_run in Hb as (now & w4 & -> & Heq). injection Heq as ->.
  simpl in Hy. destruct (begin_release now (rl_name l) f st) as [st2 [l2|]] eqn:Hbr; [|done]. injection Hy as ->.
  simpl in Hr. rewrite Hbr in Hr. simpl in Hr. subst f. rewrite Hname in Hbr. apply begin_release_Ok in Hbr as (-> & Hl2 & Ha2); [|done..].
  apply bind_ok in Hr as ([wk report] & [r5 w5] & Hs & Hr).
  apply stop_process_run in Hs as (process & worker & a & Hi & Hw & Hid & Hwl & Hstop & Hled & _). simpl in Hi, Hled.
  apply bind_ok in Hr as (? & [r6 w6] & Hout & Hr).
  assert (rt_ledger r' = rt_ledger r6 /\ op_state op = if cr_complete report then OSucceeded else OFailed) as [Hl6 Hop].
  { apply bind_ok in Hr as (? & [r7 w7] & Hp & Hr). apply publish_same_ledger in Hp.
    pose proof (remember_same_ledger _ _ _ _ _ _ Hr) as Hrem. split; [unfold same_ledger in *; simpl in *; congruence|].
    unfold remember_operation, put_operation in Hr. apply update_ok, bind_ok in Hr as (? & ? & _ & Hr).
    by injection Hr as _ <-. }
  clear Hr. assert (leases (rt_ledger r6) !! n = Some (set_state (if cr_complete report then Released else Failed) l) /\
    allocated (rt_ledger r6) = if cr_complete report then allocated (rt_ledger r) ∖ list_to_set (allocated_ids l)
                               else allocated (rt_ledger r)) as [Hlf Haf].
  { rewrite <- Hal, <- Ha2. rewrite Hname in Hout. destruct (cr_complete report).
    - apply bind_ok in Hout as (? & ? & (w7 & ? & -> & _)%record_runtime_run & Hout).
      apply bind_ok in Hout as (? & ? & (w8 & ? & -> & _)%record_runtime_run & Hout).
      apply bind_ok in Hout as (lz & ? & Hc & Hout). apply checked_run in Hc as [(? & _ & [=])|(y & Hc & Hy)].
      unfold ledger in Hc. rewrite Hled in Hc.
      destruct (complete_release n (rl_fence_token l) st2) as [st3 [l3|]] eqn:Hcr; injection Hc as <- <-; [|done].
      apply bind_ok in Hout as (? & [r7 w9] & Hp & Hout). apply purge_same_ledger in Hp.
      injection Hout as <- <-. unfold same_ledger in Hp. simpl in Hp. rewrite Hp.
      exact (complete_release_Ok _ _ _ _ _ _ Hl2 eq_refl Hcr).
    - apply bind_ok in Hout as (? & [r7 w9] & Hf & Hout). apply try_record_same_ledger in Hout.
      unfold same_ledger in Hout. simpl in Hout. rewrite Hout.
      unfold try_fail_release, ledger, mbind, ste_bind in Hf. rewrite Hled in Hf. simpl in Hf.
      pose proof (fail_release_Ok n st2 _ Hl2 eq_refl) as Hfl. pose proof (fail_allocated n (rl_fence_token l) st2) as Hfa.
      simpl in Hfl, Hf. rewrite Hname in Hf. destruct (fail_release n (rl_fence_token l) st2) as [st3 y].
      injection Hf as <- <- <-. by split. }
  exists n, l, name, process, worker, w4, a, w5, report. rewrite Hl6. by split_and!.
Qed.

(** ** Loss *)

(** What is left of a lost worker: its lease cannot be used, its process is
    marked lost without a control session, it owns no endpoint and no grant,
    and every operation that targets it and can be lost is lost. *)
Record fail_closed (name n : string) (l : ResourceLease) (worker : Worker) (r : AuthorityRuntime) : Prop := {
  fc_lease : exists l', leases (rt_ledger r) !! n = Some l' /\ revocation_required (rl_state l') = false /\
    (revocation_required (rl_state l) = true -> rl_state l' = Revoked /\
       ((rl_fence_token l < u64_max)%N -> (rl_fence_token l < rl_fence_token l')%N));
  fc_process : exists p worker', rt_instances r !! name = Some p /\ mp_semantic_worker p = Some worker' /\
    wk_state worker' = WLost /\ mp_control p = None /\ mp_semantic_control p = None;
  fc_endpoints : forall o e, rt_endpoints r !! o = Some e -> ep_owner e <> wk_identity worker;
  fc_grants : forall o g, rt_endpoint_grants r !! o = Some g -> grant_grantee g <> wk_identity worker;
  fc_operations : forall o x, rt_operations r !! o = Some x -> loses worker x = true -> op_state x = OLost;
}.

(** The records and events that follow keep all of it; confirming the cleanup
    returns the resources but leaves the lease revoked. *)
Definition after_loss (r r' : AuthorityRuntime) : Prop :=
  leases (rt_ledger r') = leases (rt_ledger r) /\ rt_instances r' = rt_instances r /\
  rt_endpoints r' = rt_endpoints r /\ rt_endpoint_grants r' = rt_endpoint_grants r /\
  rt_operations r' = rt_operations r.
#[export] Instance after_loss_preorder : PreOrder after_loss.
Proof. split; [by intros r|]. intros ??? (?&?&?&?&?) (?&?&?&?&?). split_and!; congruence. Qed.
Lemma complete_revocation_leases n f st : leases (complete_revocation n f st).1 = leases st.
Proof. unfold complete_revocation. by run_method. Qed.
Ltac after_loss_tac :=
  first [respects_step
        | lazymatch goal with |- after_loss _ _ =>
            split_and!; first [reflexivity | apply complete_revocation_leases] end
        | respects_unfold].
Lemma record_revocation_after name id l cleanup reason :
  respects after_loss (record_revocation name id l cleanup reason : Auth W _).
Proof. repeat after_loss_tac. Qed.
Lemma fail_closed_after name n l worker r r' :
  after_loss r r' -> fail_closed name n l worker r -> fail_closed name n l worker r'.
Proof. intros (H1 & H2 & H3 & H4 & H5) [? ? ? ? ?]. split; by rewrite ?H1, ?H2, ?H3, ?H4, ?H5. Qed.

Lemma revoke_Ok now n st l :
  leases st !! n = Some l -> revocation_required (rl_state l) = true ->
  exists st' l', revoke now n (rl_fence_token l) st = (st', Ok l') /\ leases st' !! n = Some l' /\
    rl_name l' = rl_name l /\ rl_state l' = Revoked /\
    ((rl_fence_token l < u64_max)%N -> (rl_fence_token l < rl_fence_token l')%N).
Proof.
  intros Hl Hs. unfold revoke. rewrite lookup_expire_due, Hl. simpl.
  assert (rl_fence_token (expire_lease now l) = rl_fence_token l /\ rl_name (expire_lease now l) = rl_name l /\
          revocable (rl_state (expire_lease now l)) = true) as (Hf & Hn & Hrev).
  { destruct (expire_lease_cases now l) as [Hx|[_ Hx]]; rewrite Hx; [|done]. by destruct (rl_state l). }
  rewrite Hf, N.eqb_refl, Hrev. simpl. eexists _, _. split; [done|]. simpl. rewrite lookup_insert_eq.
  split_and!; try done. unfold u64_saturating_add, u64_max in *. lia.
Qed.
Lemma daemon_is_allocated_run n s s' res : (daemon_is_allocated n : Auth W _) s = (s', res) ->
  s' = s /\ exists b, res = Ok b.
Proof. unfold daemon_is_allocated, get_runtime. unfold_monads. intros [= <- <-]. eauto. Qed.
Lemma lose_operations_run worker r w s' res :
  (lose_operations worker : Auth W _) (r, w) = (s', res) ->
  exists ops ids, s' = (set_operations r ops, w) /\ res = Ok ids /\
    forall o x, ops !! o = Some x -> loses worker x = true -> op_state x = OLost.
Proof.
  unfold lose_operations, get_runtime, update_runtime. unfold_monads. intros [= <- <-].
  exists ((fun o => if loses worker o then op_with_state OLost o else o) <$> rt_operations r). eexists.
  split; [done|]. split; [done|]. intros o x. rewrite lookup_fmap.
  destruct (rt_operations r !! o) as [y|]; [|done]. simpl. intros [= <-].
  destruct (loses worker y) eqn:Hy; [done|]. congruence.
Qed.
Lemma purge_run worker r w s' res :
  (purge_endpoint_authority worker : Auth W _) (r, w) = (s', res) ->
  s' = (purged worker r, w) /\ exists ids, res = Ok ids.
Proof. unfold purge_endpoint_authority, get_runtime, update_runtime. unfold_monads. intros [= <- <-]. eauto. Qed.
Lemma lose_process_run name r w s' res p worker :
  rt_instances r !! name = Some p -> mp_semantic_worker p = Some worker ->
  (lose_process name : Auth W _) (r, w) = (s', res) ->
  exists p' w' rep, s' = (set_instances r (<[name := p']> (rt_instances r)), w') /\ res = Ok rep /\
    mp_semantic_worker p' = Some (wk_with_state WLost worker) /\ mp_control p' = None /\ mp_semantic_control p' = None.
Proof.
  intros Hp Hw. unfold lose_process, get_runtime, set_instance, actor_call, update_runtime. unfold_monads.
  rewrite Hp, Hw. simpl. destruct (actor_stop immediate_stop (mp_actor p) w) as [[a w'] x]. intros [= <- <-]. eexists _, w', _.
  simpl. rewrite insert_insert_eq. split; [done|]. by split_and!.
Qed.

(** The worker is managed under the name, holds its lease, and is not lost and
    cleaned up already: its loss is to be recorded. *)
Record loss_due c wid (name n : string) (l : ResourceLease) (worker : Worker) (r : AuthorityRuntime) (now : N) : Prop := {
  ld_context : AuthorityCallContext_validate_for c ContractRevision_current = Ok tt;
  ld_name : rt_workers r !! object_ref c wid = Some name \/
    rt_workers r !! object_ref c wid = None /\ ctx_namespace c = NamespaceId_default /\ name = ident_id wid;
  ld_worker : (rt_instances r !! name ≫= mp_semantic_worker) = Some worker;
  ld_identity : wk_identity worker = wid;
  ld_leases : rt_leases r !! object_ref c (wk_lease worker) = Some n;
  ld_lease : leases (expire_due_leases now (rt_ledger r)) !! n = Some l;
  ld_holder : rl_holder l = wid;
  ld_allocated : wk_state worker = WLost -> is_allocated n (expire_due_leases now (rt_ledger r)) = true;
  ld_live : WorkerState_can_transition_to (wk_state worker) WLost = true \/ wk_state worker = WLost;
}.
Definition loss_record (r : AuthorityRuntime) (name n : string) (l : ResourceLease) (reason : string) : RuntimeJournalRecord :=
  mk_journal_record WorkerLost (rt_node_id r) (rt_node_epoch r) (Some name) (Some n) (Some (rl_fence_token l)) reason None.
Lemma worker_instance_name_run c wid r w s' res : (worker_instance_name c wid : Auth W _) (r, w) = (s', res) ->
  s' = (r, w) /\ forall name, res = Ok name <->
    rt_workers r !! object_ref c wid = Some name \/
    rt_workers r !! object_ref c wid = None /\ ctx_namespace c = NamespaceId_default /\ name = ident_id wid.
Proof.
  unfold worker_instance_name, get_runtime, reject. unfold_monads.
  destruct (rt_workers r !! object_ref c wid) as [x|]; [intros [= <- <-]; split; [done|]; naive_solver|].
  case_bool_decide; intros [= <- <-]; (split; [done|]); naive_solver.
Qed.
Lemma lease_for_reads c i r w s' res n (st := expire_due_leases (env_now_unix_ms w).2 (rt_ledger r)) :
  rt_leases r !! object_ref c i = Some n -> (lease_for c i : Auth W _) (r, w) = (s', res) ->
  s' = (set_ledger r st, (env_now_unix_ms w).1) /\ forall l, res = Ok l <-> leases st !! n = Some l.
Proof.
  intros Hn. unfold lease_for, get_runtime, daemon_lease, checked, ledger_now, world_call, ledger, get_lease, lookup_lease.
  unfold_monads. rewrite Hn. subst st. destruct (env_now_unix_ms w) as [w0 now]. cbn.
  destruct (leases _ !! n) as [x|]; cbn; intros [= <- <-]; (split; [done|]); naive_solver.
Qed.

(** C6: losing a worker is fail-closed.  When the worker is managed, holds its
    lease and is not lost and cleaned up already, the loss is recorded first, and
    the record decides: once the journal has accepted it, the lease is revoked
    under a newer token, the worker is marked lost and cut off from control, and
    its endpoints, its grants and its live operations are gone, whatever fails
    after that (a journal that stops accepting records, an incomplete cleanup);
    when the journal refuses it, the call is rejected and nothing has changed but
    the expiry of due leases.  In every other case the call is rejected or has
    nothing to do, and nothing is recorded. *)
Theorem lost_worker_fail_closed c wid reason r w r' w' res :
  named (rt_ledger r) ->
  mark_worker_lost c wid reason (r, w) = ((r', w'), res) ->
  let '(w0, now) := env_now_unix_ms w in
  (exists name n l worker, loss_due c wid name n l worker r now /\
     match env_journal_append (loss_record r name n l reason) w0 with
     | (_, Ok _) => fail_closed name n l worker r'
     | (w1, Err e) =>
         r' = set_ledger r (expire_due_leases now (rt_ledger r)) /\ w' = w1 /\ res = Err (provider_rejection e)
     end) \/
  ((forall name n l worker, ~ loss_due c wid name n l worker r now) /\
   ((r', w') = (r, w) \/ (r', w') = (set_ledger r (expire_due_leases now (rt_ledger r)), w0)) /\
   (is_err res = true \/ res = Ok [Noop])).
Proof.
  intros Hnamed Hr. unfold mark_worker_lost in Hr. destruct (env_now_unix_ms w) as [w0 now] eqn:Hnow.
  apply bind_inv in Hr as [(err & Hc & ->)|([] & ? & Hc & Hr)].
  { right. unfold validate_context, lift in Hc. injection Hc as <- <- Hc. split_and!; [|by left|by left].
    intros ? ? ? ? []. congruence. }
  unfold validate_context, lift in Hc. injection Hc as <- Hc.
  apply bind_inv in Hr as [(err & Hm & ->)|(name & s1 & Hm & Hr)];
    apply worker_instance_name_run in Hm as [-> Hname].
  { right. split_and!; [|by left|by left]. intros name ? ? ? []. by apply Hname in ld_name0. }
  pose proof (proj1 (Hname name) eq_refl) as Hld.
  assert (forall n0 n1 l1 worker1, loss_due c wid n0 n1 l1 worker1 r now -> n0 = name) as Huniq.
  { intros n0 ? ? ? []. by apply Hname in ld_name0 as [= <-]. }
  unfold get_runtime in Hr. unfold mbind at 1, ste_bind, gets in Hr. cbn [fst] in Hr.
  destruct (rt_instances r !! name ≫= mp_semantic_worker) as [worker|] eqn:Hw.
  2: { injection Hr as <- <- <-. right. split_and!; [|by left|by left].
       intros n0 ? ? ? Hdue. rewrite (Huniq _ _ _ _ Hdue) in Hdue. destruct Hdue. congruence. }
  destruct (bool_decide_reflect (wk_identity worker = wid)) as [Hid|Hid]; simpl in Hr.
  2: { injection Hr as <- <- <-. right. split_and!; [|by left|by left].
       intros n0 ? ? ? Hdue. rewrite (Huniq _ _ _ _ Hdue) in Hdue. destruct Hdue. congruence. }
  destruct (rt_leases r !! object_ref c (wk_lease worker)) as [n|] eqn:Hn.
  2: { right. unfold lease_for, get_runtime, reject in Hr. unfold mbind, ste_bind, gets, throw in Hr. cbn [fst] in Hr.
       rewrite Hn in Hr. injection Hr as <- <- <-. split_and!; [|by left|by left].
       intros n0 ? ? ? Hdue. rewrite (Huniq _ _ _ _ Hdue) in Hdue. destruct Hdue. congruence. }
  apply bind_inv in Hr as [(err & Hl & ->)|(l & s1 & Hl & Hr)];
    apply (lease_for_reads c _ _ _ _ _ n Hn) in Hl as [Hs Hl]; rewrite Hnow in Hs, Hl; cbn [fst snd] in Hs, Hl;
    set (st := expire_due_leases now (rt_ledger r)) in *.
  { right. injection Hs as -> ->. split_and!; [|by right|by left].
    intros n0 n1 l1 worker1 Hdue. rewrite (Huniq _ _ _ _ Hdue) in Hdue. destruct Hdue. rewrite Hw in ld_worker0.
    injection ld_worker0 as <-. rewrite Hn in ld_leases0. injection ld_leases0 as <-. by apply Hl in ld_lease0. }
  subst s1. pose proof (proj1 (Hl l) eq_refl) as Hst.
  assert (rl_name l = n) as Hname'. { by apply (named_expire now _ Hnamed). }
  assert (forall n0 n1 l1 worker1, loss_due c wid n0 n1 l1 worker1 r now -> n1 = n /\ l1 = l /\ worker1 = worker) as Hone.
  { intros n0 n1 l1 worker1 Hdue. rewrite (Huniq _ _ _ _ Hdue) in Hdue. destruct Hdue. rewrite Hw in ld_worker0.
    injection ld_worker0 as <-. rewrite Hn in ld_leases0. injection ld_leases0 as <-. apply Hl in ld_lease0. by simplify_eq. }
  unfold mbind at 1, ste_bind in Hr. rewrite Hname' in Hr.
  change (daemon_is_allocated n (set_ledger r st, w0)) with
    ((set_ledger r st, w0), @Ok Rejection bool (is_allocated n st)) in Hr. cbv beta iota in Hr.
  assert (forall x, (set_ledger r st, w0, x) = (r', w', res) -> (is_err x = true \/ x = Ok [Noop]) ->
    (forall name n l worker, ~ loss_due c wid name n l worker r now) ->
    (forall name n l worker, ~ loss_due c wid name n l worker r now) /\
    ((r', w') = (r, w) \/ (r', w') = (set_ledger r st, w0)) /\ (is_err res = true \/ res = Ok [Noop])) as Hquiet.
  { intros x [= <- <- <-] Hx Hno. split_and!; [done|by right|done]. }
  destruct (bool_decide (wk_state worker = WLost) && negb (is_allocated n st)) eqn:Hal.
  { right. eapply Hquiet; [exact Hr|by right|]. intros n0 n1 l1 worker1 Hdue. destruct (Hone _ _ _ _ Hdue) as (-> & -> & ->).
    apply andb_true_iff in Hal as [Hst' Hal]. apply bool_decide_eq_true in Hst'. apply negb_true_iff in Hal.
    pose proof (ld_allocated _ _ _ _ _ _ _ _ Hdue Hst') as Hx. fold st in Hx. congruence. }
  destruct (negb _ && _) eqn:Hlive.
  { right. eapply Hquiet; [exact Hr|by right|]. intros n0 n1 l1 worker1 Hdue. destruct (Hone _ _ _ _ Hdue) as (-> & -> & ->).
    apply andb_true_iff in Hlive as [Hx Hy]. apply negb_true_iff in Hx, Hy. apply bool_decide_eq_false in Hy.
    destruct (ld_live _ _ _ _ _ _ _ _ Hdue); congruence. }
  destruct (bool_decide_reflect (rl_holder l = wk_identity worker)) as [Hh|Hh].
  2: { right. eapply Hquiet; [exact Hr|by left|]. intros n0 n1 l1 worker1 Hdue. destruct (Hone _ _ _ _ Hdue) as (-> & -> & ->).
       apply Hh. by rewrite Hid, (ld_holder _ _ _ _ _ _ _ _ Hdue). }
  simpl in Hr. clear Hquiet Hone Huniq Hname Hl. left. exists name, n, l, worker. split.
  { split; try done; [congruence| |].
    - intros Hx. rewrite bool_decide_eq_true_2 in Hal by done. by apply negb_false_iff in Hal.
    - destruct (WorkerState_can_transition_to _ _); [by left|right]. by apply negb_false_iff, bool_decide_eq_true in Hlive. }
  apply bind_inv in Hr as [(err & Ha & ->)|([] & s1 & Ha & Hr)]; apply record_runtime_run in Ha as (w3 & x & Heq & Hx & Happ);
    cbn [fmap option_fmap option_map] in Happ; rewrite Hname' in Happ; unfold loss_record;
    change (rt_node_id (set_ledger r st)) with (rt_node_id r) in Happ;
    change (rt_node_epoch (set_ledger r st)) with (rt_node_epoch r) in Happ; rewrite Happ.
  { destruct x as [|e]; [done|]. injection Hx as ->. by injection Heq as -> ->. }
  destruct x as [[]|]; [|done]. subst s1. clear Happ Hx Hlive Hal Hnow.
  rename r into r1. rename Hname' into Hname. clearbody st.
  apply bind_inv in Hr as [(err & Ha & ->)|(revoked & [r2 w4] & Ha & Hr)].
  { exfalso. destruct (revocation_required (rl_state l)) eqn:Hreq; [|done]. apply checked_run in Ha as [(? & Ha & _)|(y & Ha & Hy)];
      apply ledger_now_run in Ha as (now' & w4 & _ & Heq); [done|]. injection Heq as ->. simpl in Hy. rewrite ?Hname in Hy.
    destruct (revoke_Ok now' n st l Hst Hreq) as (st' & l' & Hrev & _). by rewrite Hrev in Hy. }
  assert (exists st2 l2, r2 = set_ledger r1 st2 /\ leases st2 !! n = Some l2 /\ revocation_required (rl_state l2) = false /\
    (revocation_required (rl_state l) = true -> rl_state l2 = Revoked /\
       ((rl_fence_token l < u64_max)%N -> (rl_fence_token l < rl_fence_token l2)%N)))
    as (st2 & l2 & -> & Hl2 & Hreq2 & Hrev2).
  { destruct (revocation_required (rl_state l)) eqn:Hreq; [|injection Ha as <- <- <-; by exists st, l].
    apply checked_run in Ha as [(? & Ha & _)|(y & Ha & Hy)];
      apply ledger_now_run in Ha as (now' & w5 & Heq1 & Heq); [done|]. injection Heq1 as -> ->. simpl. rewrite ?Hname.
    destruct (revoke_Ok now' n st l Hst Hreq) as (st' & l' & Hrev & ? & ? & Hs & ?). rewrite Hrev.
    exists st', l'. split_and!; try done. by rewrite Hs. }
  clear Ha. destruct (rt_instances r1 !! name) as [proc|] eqn:Hp; [|done]. simpl in Hw.
  apply bind_inv in Hr as [(err & Ha & ->)|(cleanup & ? & Ha & Hr)];
    apply (lose_process_run name (set_ledger r1 st2) _ _ _ proc worker Hp Hw) in Ha as (p' & w5 & rep & Heq & Hres & Hpw & Hpc & Hps);
    [done|subst].
  apply bind_inv in Hr as [(err & Ha & ->)|(lost & ? & Ha & Hr)];
    apply lose_operations_run in Ha as (ops & ids & Heq & Hres' & Hops); [done|subst].
  apply bind_inv in Hr as [(err & Ha & ->)|(endpoints & ? & Ha & Hr)];
    apply purge_run in Ha as [Heq [ids' Hres'']]; [done|subst].
  eapply fail_closed_after.
  { change r' with ((r', w').1). revert Hr.
    match goal with |- ?m (?r, ?w) = _ -> _ => assert (respects after_loss m) as Hm end.
    { repeat first [apply record_revocation_after | after_loss_tac]. }
    intros Hr. by apply Hm in Hr. }
  split.
  - exists l2. by split_and!.
  - exists p'. eexists. simpl. rewrite lookup_insert_eq. by split_and!.
  - intros o e. rewrite purged_endpoints. simpl.
    destruct (rt_endpoints r1 !! o) as [e0|]; [|done]. destruct (decide _); [done|]. by intros [= <-].
  - intros o g (_ & _ & Hg)%map_lookup_filter_Some. exact Hg.
  - done.
Qed.
End runs.
