(* ===== verification/ProviderSpec.v ===== *)
(** * Provider sessions across actions

    A provider record belongs to the principal that registered it, its session
    generation never goes back, and within a session its facts do not change
    except to become unavailable. *)
From stdpp Require Import base gmap strings list sorting pretty.
From Stdlib Require Import Ascii Lia ZifyBool ZifyN.
From S2P Require Import Prelude Validation Contract KernelApi ResourceManager Binding Environment Instance.
From S2P Require Import AuthorityState Events EventsSpec Authority WorkerActions EndpointActions.
From S2P Require Import ProviderActions AuthorityFrame AuthoritySteps AuthoritySpec.

(** ** Sessions *)
Definition session (rec : ProviderRecord) : N := ident_generation (prov_identity (pr_provider rec)).
Record record_step (rec rec' : ProviderRecord) : Prop := {
  rs_principal : pr_principal rec' = pr_principal rec;
  rs_session : (session rec <= session rec')%N;
  rs_facts : session rec' = session rec -> pr_provider rec' = pr_provider rec \/
    (prov_state (pr_provider rec) <> ProviderUnavailable /\ prov_state (pr_provider rec') = ProviderUnavailable /\
     prov_capabilities (pr_provider rec') = prov_capabilities (pr_provider rec));
}.
#[export] Instance record_step_preorder : PreOrder record_step.
Proof.
  split; [intros rec; split; [done|lia|auto]|].
  intros r1 r2 r3 [H1 H2 H3] [K1 K2 K3]. split; [congruence|lia|]. intros Heq.
  destruct H3 as [H3|(H3 & H4 & H5)], K3 as [K3|(K3 & K4 & K5)]; try lia; [left; congruence|right..|done].
  - by rewrite <- H3.
  - by rewrite K3.
Qed.
Lemma record_same rec rec' :
  pr_principal rec' = pr_principal rec -> pr_provider rec' = pr_provider rec -> record_step rec rec'.
Proof. intros Hp Hf. split; [done|unfold session; rewrite Hf; lia|auto]. Qed.

Definition providers_step (r r' : AuthorityRuntime) : Prop :=
  forall key rec, rt_providers r !! key = Some rec ->
  exists rec', rt_providers r' !! key = Some rec' /\ record_step rec rec'.
#[export] Instance providers_step_preorder : PreOrder providers_step.
Proof.
  split; [intros r key rec Hr; exists rec; split; [done|reflexivity]|].
  intros r1 r2 r3 H1 H2 key rec Hr. destruct (H1 _ _ Hr) as (rec' & Hr' & Hs).
  destruct (H2 _ _ Hr') as (rec'' & Hr'' & Hs'). exists rec''. split; [done|by etransitivity].
Qed.
Definition same_providers (r r' : AuthorityRuntime) : Prop := rt_providers r' = rt_providers r.
#[export] Instance same_providers_preorder : PreOrder same_providers.
Proof. split; [by intros r|]. unfold same_providers. intros ???; congruence. Qed.
Lemma same_providers_step r r' : same_providers r r' -> providers_step r r'.
Proof. intros Hs key rec Hr. exists rec. rewrite Hs. split; [done|reflexivity]. Qed.
Lemma put_providers_step r r1 key rec' :
  same_providers r r1 ->
  (forall rec, rt_providers r !! key = Some rec -> record_step rec rec') ->
  providers_step r (set_providers r1 (<[key := rec']> (rt_providers r1))).
Proof.
  intros Hs Hrec key' rec Hr. simpl. rewrite Hs. destruct (decide (key' = key)) as [->|Hne].
  - exists rec'. rewrite lookup_insert_eq. auto.
  - exists rec. rewrite lookup_insert_ne by done. split; [done|reflexivity].
Qed.
Lemma alter_providers_step r key f :
  (forall rec, record_step rec (f rec)) -> providers_step r (set_providers r (alter f key (rt_providers r))).
Proof.
  intros Hf key' rec Hr. simpl. destruct (decide (key' = key)) as [->|Hne].
  - exists (f rec). rewrite lookup_alter_eq, Hr. auto.
  - exists rec. rewrite lookup_alter_ne by done. split; [done|reflexivity].
Qed.

Ltac providers_goal :=
  lazymatch goal with
  | |- providers_step ?r (set_providers ?r (alter _ _ _)) =>
      apply alter_providers_step; intros ?; by apply record_same
  | |- providers_step _ _ => apply same_providers_step; reflexivity
  | |- same_providers _ _ => reflexivity
  end.
Ltac providers_tac := first [respects_step | providers_goal | respects_unfold].

Section providers.
Context {W : Type} `{Environment W}.

(** A record is replaced on the evidence of the record read before. *)
Lemma post_put {B} key rec' (k : unit -> Auth W B) r r1 :
  same_providers r r1 -> respects providers_step (k tt) ->
  (forall rec, rt_providers r !! key = Some rec -> record_step rec rec') ->
  post (put_provider key rec' ≫= k) r1 (providers_step r).
Proof.
  intros Hr Hk Hrec. unfold put_provider. apply post_update.
  apply (post_respects providers_step _ _ r); [done| |done]. by apply put_providers_step.
Qed.
Lemma post_put_last key rec' r r1 :
  same_providers r r1 -> (forall rec, rt_providers r !! key = Some rec -> record_step rec rec') ->
  post (put_provider key rec' : Auth W unit) r1 (providers_step r).
Proof. intros Hr Hrec w s' res [= <- <-]. by apply put_providers_step. Qed.

Ltac put_tac :=
  lazymatch goal with
  | |- post (mbind _ (put_provider _ _)) _ _ => apply post_put; [done|solve [repeat providers_tac]|]
  | |- post (put_provider _ _) _ _ => apply post_put_last; [done|]
  | |- _ => keep_step same_providers providers_tac
  end.
Ltac from_here r :=
  apply respects_post; intros r; pose proof (reflexivity r : same_providers r r);
  assert (forall r', same_providers r r' -> providers_step r r') by apply same_providers_step.

Ltac read_back :=
  unfold same_providers in *; let rc := fresh "rc" in let Hrc := fresh "Hrc" in intros rc Hrc;
  match goal with E : rt_providers _ !! _ = Some ?p0 |- _ =>
    lazymatch p0 with rc => fail | _ => assert (p0 = rc) by congruence; subst p0 end
  | E : rt_providers _ !! _ = None |- _ => exfalso; congruence end.

Lemma register_provider_step c p prov : respects providers_step (register_provider c p prov : Auth W _).
Proof.
  unfold register_provider. cbv zeta. from_here r. repeat put_tac.
  all: read_back; unfold session, fresh_record in *; simpl.
  - rewrite !andb_true_iff, negb_true_iff, bool_decide_eq_false, !bool_decide_eq_true in *. split; unfold session; simpl; [|lia|].
    + match goal with E : negb _ = false |- _ => by apply negb_false_iff, bool_decide_eq_true in E end.
    + right. naive_solver.
  - match goal with E : negb _ = false |- _ => apply negb_false_iff, bool_decide_eq_true in E end.
    split; unfold session; simpl; [done|lia|lia].
Qed.
Lemma register_facts_step c p prov : respects providers_step (register_resource_facts_provider c p prov : Auth W _).
Proof.
  unfold register_resource_facts_provider. apply respects_bind; [apply _|apply register_provider_step|intros x].
  cbv zeta. from_here r. repeat put_tac. read_back. by apply record_same.
Qed.
Lemma publish_inventory_step c p snap : respects providers_step (publish_inventory c p snap : Auth W _).
Proof.
  unfold publish_inventory. cbv zeta. from_here r. repeat put_tac. read_back. by apply record_same.
Qed.
Lemma confirm_step c p i g wk t : respects providers_step (confirm_stale_worker_termination c p i g wk t : Auth W _).
Proof.
  unfold confirm_stale_worker_termination. cbv zeta. from_here r. repeat put_tac. read_back. by apply record_same.
Qed.

Lemma pend_stale_step c key g observed : respects providers_step (pend_stale_workers c key g observed : Auth W _).
Proof. unfold pend_stale_workers. cbv zeta. from_here r. repeat put_tac. read_back. by apply record_same. Qed.
Lemma lose_missing_step c observed b workers :
  respects providers_step (lose_missing c observed b workers : Auth W _).
Proof. induction workers as [|l workers IH]; simpl; repeat first [apply IH | providers_tac]. Qed.
Lemma reconcile_step c p i : respects providers_step (reconcile_provider c p i : Auth W _).
Proof.
  unfold reconcile_provider, drop_expired_inventory. cbv zeta. from_here r.
  repeat lazymatch goal with
  | |- post (mbind _ (put_provider _ _)) _ _ =>
      apply post_put; [done|solve [repeat first [apply pend_stale_step | apply lose_missing_step | providers_tac]]|]
  | |- _ => put_tac
  end.
  all: read_back; by apply record_same.
Qed.
Lemma enforce_expiries_step now leases : respects providers_step (enforce_expiries now leases : Auth W _).
Proof. induction leases as [|l leases IH]; simpl; repeat first [apply IH | providers_tac]. Qed.
Lemma snapshot_leases_step objects : respects providers_step (snapshot_leases objects : Auth W _).
Proof. induction objects as [|[o n] objects IH]; simpl; repeat first [apply IH | providers_tac]. Qed.

Lemma perform_providers (a : action) : respects providers_step (perform a : Auth W unit).
Proof.
  destruct a; unfold perform, done;
    repeat lazymatch goal with
    | |- respects _ (register_provider _ _ _) => apply register_provider_step
    | |- respects _ (register_resource_facts_provider _ _ _) => apply register_facts_step
    | |- respects _ (publish_inventory _ _ _) => apply publish_inventory_step
    | |- respects _ (reconcile_provider _ _ _) => apply reconcile_step
    | |- respects _ (confirm_stale_worker_termination _ _ _ _ _ _) => apply confirm_step
    | |- respects _ (enforce_expiries _ _) => apply enforce_expiries_step
    | |- respects _ (snapshot_leases _) => apply snapshot_leases_step
    | |- _ => providers_tac
    end.
Qed.

(** C19: whatever actions follow a provider's registration, its record keeps the
    principal that registered it, its session generation never goes back, and
    within one session its facts stay the same except that it may become
    unavailable, from which it does not recover. *)
Theorem provider_sessions_advance r w xs key rec :
  rt_providers r !! key = Some rec ->
  exists rec', rt_providers (perform_all xs (r, w)).1 !! key = Some rec' /\ record_step rec rec'.
Proof. apply (perform_all_respects providers_step perform_providers xs (r, w)). Qed.
End providers.
