(* ===== verification/OperationSpec.v ===== *)
(** * Operations across actions

    An operation keeps its authority fields (owner, executor, kind, deadline,
    parent) and moves along the contract's state machine, whatever actions
    follow: reports, cancellation, deadlines, the loss of its worker.  The names
    [operation/start/..] and [operation/stop/..] belong to the Kernel, which
    records the operations of worker starts and stops under them. *)
From stdpp Require Import base gmap strings list sorting pretty.
From Stdlib Require Import Ascii Lia ZifyBool ZifyN.
From S2P Require Import Prelude Validation Contract KernelApi ResourceManager Binding Environment Instance.
From S2P Require Import AuthorityState Events EventsSpec Authority WorkerActions EndpointActions.
From S2P Require Import ProviderActions AuthorityFrame AuthoritySteps AuthoritySpec.

Record operation_step (o o' : Operation) : Prop := {
  os_owner : op_owner o' = op_owner o;
  os_executor : op_executor o' = op_executor o;
  os_kind : op_kind o' = op_kind o;
  os_deadline : op_deadline_unix_ms o' = op_deadline_unix_ms o;
  os_parent : op_parent o' = op_parent o;
  os_state : rtc (fun s s' => OperationState_can_transition_to s s' = true) (op_state o) (op_state o');
}.
#[export] Instance operation_step_preorder : PreOrder operation_step.
Proof.
  split; [intros o; by split|]. intros o1 o2 o3 [? ? ? ? ? ?] [? ? ? ? ? ?].
  split; [congruence..|by etransitivity].
Qed.
Lemma operation_step_state s o :
  OperationState_can_transition_to (op_state o) s = true -> operation_step o (op_with_state s o).
Proof. intros Hs. split; try done. by apply rtc_once. Qed.

Definition kernel_name (key : ObjectRef) : Prop :=
  exists id, ident_id (obj_identity key) = "operation/start/" +:+ id \/
             ident_id (obj_identity key) = "operation/stop/" +:+ id.

Definition operations_step (r r' : AuthorityRuntime) : Prop :=
  forall key o, ~ kernel_name key -> rt_operations r !! key = Some o ->
  exists o', rt_operations r' !! key = Some o' /\ operation_step o o'.
#[export] Instance operations_step_preorder : PreOrder operations_step.
Proof.
  split; [intros r key o _ Hr; exists o; split; [done|reflexivity]|].
  intros r1 r2 r3 H1 H2 key o Hk Hr. destruct (H1 _ _ Hk Hr) as (o' & Hr' & Hs).
  destruct (H2 _ _ Hk Hr') as (o'' & Hr'' & Hs'). exists o''. split; [done|by etransitivity].
Qed.
Definition same_operations (r r' : AuthorityRuntime) : Prop := rt_operations r' = rt_operations r.
#[export] Instance same_operations_preorder : PreOrder same_operations.
Proof. split; [by intros r|]. unfold same_operations. intros ???; congruence. Qed.
Lemma same_operations_step r r' : same_operations r r' -> operations_step r r'.
Proof. intros Hs key o _ Hr. exists o. rewrite Hs. split; [done|reflexivity]. Qed.
Lemma put_operations_step r r1 key o' :
  same_operations r r1 ->
  (kernel_name key \/ forall o, rt_operations r !! key = Some o -> operation_step o o') ->
  operations_step r (set_operations r1 (<[key := o']> (rt_operations r1))).
Proof.
  intros Hs Ho key' o Hk Hr. simpl. rewrite Hs. destruct (decide (key' = key)) as [->|Hne].
  - exists o'. rewrite lookup_insert_eq. destruct Ho; [done|]. auto.
  - exists o. rewrite lookup_insert_ne by done. split; [done|reflexivity].
Qed.
Lemma lose_operations_step worker r :
  operations_step r (set_operations r
    ((fun o => if loses worker o then op_with_state OLost o else o) <$> rt_operations r)).
Proof.
  intros key o _ Hr. simpl. rewrite lookup_fmap, Hr. simpl. eexists. split; [done|].
  destruct (loses worker o) eqn:Hl; [|reflexivity]. apply operation_step_state.
  unfold loses in Hl. by apply andb_true_iff in Hl as [_ ?].
Qed.

Ltac operations_goal :=
  lazymatch goal with
  | |- operations_step ?r (set_operations ?r (_ <$> _)) => apply lose_operations_step
  | |- operations_step ?r (set_operations ?r (<[_ := _]> _)) =>
      apply put_operations_step; [reflexivity|left; unfold kernel_name; simpl; eauto; fail]
  | |- operations_step _ _ => apply same_operations_step; reflexivity
  | |- same_operations _ _ => reflexivity
  end.
Ltac operations_tac := first [respects_step | operations_goal | respects_unfold].

Section operations.
Context {W : Type} `{Environment W}.

Lemma post_put_operation {B} f key o' (k : unit -> Auth W B) r r1 :
  (forall r, f r = set_operations r (<[key := o']> (rt_operations r))) ->
  same_operations r r1 -> respects operations_step (k tt) ->
  (forall o, rt_operations r !! key = Some o -> operation_step o o') ->
  post (update_runtime f ≫= k) r1 (operations_step r).
Proof.
  intros Hf Hr Hk Ho. apply post_update. rewrite Hf.
  apply (post_respects operations_step _ _ r); [done| |done]. apply put_operations_step; auto.
Qed.

Ltac put_tac :=
  lazymatch goal with
  | |- post (mbind _ (update_runtime _)) _ _ =>
      eapply post_put_operation; [intros ?; reflexivity|done|solve [repeat operations_tac]|]
  | |- _ => keep_step same_operations operations_tac
  end.
Ltac from_here r :=
  apply respects_post; intros r; pose proof (reflexivity r : same_operations r r);
  assert (forall r', same_operations r r' -> operations_step r r') by apply same_operations_step.
Ltac read_back :=
  unfold same_operations in *; let o := fresh "o" in let Ho := fresh "Ho" in intros o Ho;
  match goal with E : rt_operations _ !! _ = Some ?p0 |- _ =>
    lazymatch p0 with o => fail | _ => assert (p0 = o) by congruence; subst p0 end
  | E : rt_operations _ !! _ = None |- _ => exfalso; congruence end.

Lemma create_operation_step c p o : respects operations_step (create_operation c p o : Auth W _).
Proof. unfold create_operation, put_operation. cbv zeta. from_here r. repeat put_tac. read_back. Qed.
Lemma report_operation_step c p o : respects operations_step (report_operation c p o : Auth W _).
Proof.
  unfold report_operation, put_operation. cbv zeta. from_here r. repeat put_tac. read_back.
  rewrite !orb_false_iff, !negb_false_iff, !bool_decide_eq_true in *. split; try naive_solver.
  apply rtc_once. naive_solver.
Qed.
Lemma mark_cancelling_step c i : respects operations_step (mark_cancelling_operation_lost c i : Auth W _).
Proof.
  unfold mark_cancelling_operation_lost. cbv zeta. from_here r. repeat put_tac. read_back.
  match goal with |- operation_step ?o _ =>
    destruct (bool_decide_reflect (op_state o = OCancelling)) as [Hc|]; [|reflexivity] end.
  apply operation_step_state. by rewrite Hc.
Qed.
Lemma cancel_operation_step c p i : respects operations_step (cancel_operation c p i : Auth W _).
Proof.
  unfold cancel_operation. cbv zeta. from_here r.
  repeat lazymatch goal with
  | |- post (mbind _ (update_runtime _)) _ _ =>
      eapply post_put_operation; [intros ?; reflexivity|done
        |solve [repeat lazymatch goal with |- respects _ (mark_cancelling_operation_lost _ _) =>
                            apply mark_cancelling_step | |- _ => operations_tac end]|]
  | |- _ => put_tac
  end.
  read_back. apply operation_step_state.
  match goal with E : negb _ = false |- _ => by apply negb_false_iff in E end.
Qed.
Lemma lose_missing_operations c observed b workers :
  respects operations_step (lose_missing c observed b workers : Auth W _).
Proof. induction workers as [|l workers IH]; simpl; repeat first [apply IH | operations_tac]. Qed.
Lemma enforce_expiries_operations now leases : respects operations_step (enforce_expiries now leases : Auth W _).
Proof. induction leases as [|l leases IH]; simpl; repeat first [apply IH | operations_tac]. Qed.
Lemma snapshot_leases_operations objects : respects operations_step (snapshot_leases objects : Auth W _).
Proof. induction objects as [|[o n] objects IH]; simpl; repeat first [apply IH | operations_tac]. Qed.

Lemma perform_operations (a : action) : respects operations_step (perform a : Auth W unit).
Proof.
  destruct a; unfold perform, done;
    repeat lazymatch goal with
    | |- respects _ (create_operation _ _ _) => apply create_operation_step
    | |- respects _ (report_operation _ _ _) => apply report_operation_step
    | |- respects _ (mark_cancelling_operation_lost _ _) => apply mark_cancelling_step
    | |- respects _ (cancel_operation _ _ _) => apply cancel_operation_step
    | |- respects _ (lose_missing _ _ _ _) => apply lose_missing_operations
    | |- respects _ (enforce_expiries _ _) => apply enforce_expiries_operations
    | |- respects _ (snapshot_leases _) => apply snapshot_leases_operations
    | |- _ => operations_tac
    end.
Qed.

(** C18: an operation a client created is never forgotten, never changes its
    owner, executor, kind, deadline or parent, and only moves along the
    contract's state machine, after any sequence of actions, the loss of its
    worker and a cancellation that cannot be delivered included.  Excepted are
    the names under which the Kernel records worker starts and stops. *)
Theorem operations_move_forward r w xs key o :
  ~ kernel_name key -> rt_operations r !! key = Some o ->
  exists o', rt_operations (perform_all xs (r, w)).1 !! key = Some o' /\ operation_step o o'.
Proof. apply (perform_all_respects operations_step perform_operations xs (r, w)). Qed.
End operations.
