(* ===== verification/AuthorityExamples.v ===== *)
(** * Concrete executions of the authority

    A Kernel with two GPUs in the concrete world: tenants that acquire leases,
    start workers, publish endpoints and lose them.  They instantiate the
    authority theorems. *)
From stdpp Require Import base gmap strings list sorting pretty.
From Stdlib Require Import Ascii Lia ZifyBool ZifyN.
From S2P Require Import Prelude Validation Contract KernelApi ResourceManager Ledger Ownership LedgerSpec.
From S2P Require Import LedgerExamples Binding Environment Instance World AuthorityState Events EventsSpec.
From S2P Require Import Authority WorkerActions EndpointActions ProviderActions AuthorityFrame AuthoritySteps.
From S2P Require Import AuthoritySpec EndpointSpec LeaseActionSpec ProviderSpec OperationSpec.

Definition ctx (ns key : string) : AuthorityCallContext := mk_context ContractRevision_current ns "request" key.
Definition alice : Principal := mk_principal (mk_identity "alice" 1).
Definition bob : Principal := mk_principal (mk_identity "bob" 1).
Definition worker_id (id : string) : Identity := mk_identity id 1.
Definition demo_query : ResourceQuery := mk_query "gpu.nvidia" 1 [] ∅.
Definition lease_id (key : string) : Identity := mk_identity ("lease-" +:+ key) 1.
Definition demo_worker (id key : string) : Worker :=
  mk_worker (worker_id id) (mk_identity "" 0) (mk_identity "provider" 1) (lease_id key) WRegistered "exec" ∅.

Definition boot : AuthorityRuntime := booted "node" 1 WorkerHeartbeatConfig_default demo_inventory 7.
Definition demo_world (cleanup : bool) : world := world_start cleanup demo_inventory.

Definition acquire (ns key id : string) (p : Principal) : action :=
  AcquireLease (ctx ns key) p (worker_id id) demo_query 1000.
Definition start (ns key id : string) (p : Principal) : action := StartWorker (ctx ns key) p (demo_worker id key).

Definition after (xs : list action) (cleanup : bool) : AuthorityRuntime * world :=
  perform_all xs (boot, demo_world cleanup).
Definition acquired : AuthorityRuntime * world := perform_all [acquire "default" "k" "w" alice] (boot, demo_world true).
Definition running : AuthorityRuntime * world :=
  perform_all [start "default" "k" "w" alice] (acquired.1, acquired.2).

(** ** Instances of the theorems *)
Lemma namespace_isolation_witness :
  (exists e, perform (acquire "default" "k2" "w2" bob) running = (running, Err e)) /\
  exists e, perform (ReconcileProvider (ctx "default" "k") bob (mk_identity "provider" 1)) running = (running, Err e).
Proof.
  pose proof (namespace_isolation acquired.1 acquired.2 [start "default" "k" "w" alice] "default" (mk_identity "alice" 1)) as Hi.
  split.
  - apply (Hi (acquire "default" "k2" "w2" bob) (ctx "default" "k2") bob); [vm_compute; reflexivity|reflexivity|discriminate|].
    reflexivity.
  - refine (proj2 (proj2 (Hi (ReconcileProvider (ctx "default" "k") bob (mk_identity "provider" 1)) (ctx "default" "k") bob
      _ _ _)) "provider" _ _); [vm_compute; reflexivity|reflexivity|discriminate|reflexivity|vm_compute; reflexivity].
Defined.

Lemma boot_streams : streams_ok boot.
Proof. intros ns h. change (rt_events boot) with (∅ : gmap NamespaceId NamespaceEventHistory). by rewrite lookup_empty. Qed.
Lemma streams_always_valid_witness : streams_ok acquired.1.
Proof. apply (streams_always_valid boot (demo_world true)). exact boot_streams.
Defined.

Definition demo_endpoint : Endpoint :=
  mk_endpoint (mk_identity "ep" 1) (mk_identity "provider" 1) (worker_id "w") "unix" "schema" [] ∅ "conn" None.
Definition demo_grant : EndpointGrant :=
  mk_grant (mk_identity "grant" 1) (mk_identity "ep" 1) (worker_id "w") (lease_id "k") 7 900.
Definition published : list action :=
  [acquire "default" "k" "w" alice; start "default" "k" "w" alice;
   PublishEndpoint (ctx "default" "k") alice demo_endpoint; AuthorizeEndpoint (ctx "default" "k") alice demo_grant].
Lemma boot_grants : grants_backed boot.
Proof.
  split; intros o x.
  - change (rt_endpoints boot) with (∅ : gmap ObjectRef Endpoint). by rewrite lookup_empty.
  - change (rt_endpoint_grants boot) with (∅ : gmap ObjectRef EndpointGrant). by rewrite lookup_empty.
Qed.
Lemma grants_always_backed_witness :
  grants_backed (after published true).1 /\
  rt_endpoint_grants (after published true).1 !! mk_object "default" (mk_identity "grant" 1) = Some demo_grant.
Proof.
  split; [|vm_compute; reflexivity].
  apply (grants_always_backed boot (demo_world true) published). exact boot_grants.
Defined.

Lemma acquire_durable_before_visible_witness :
  exists r' w' lease l w1,
    Authority.acquire_lease (ctx "default" "k") alice (worker_id "w") demo_query 1000 (boot, demo_world true)
      = ((r', w'), Ok lease) /\
    env_journal_append (mk_journal_record LeaseAcquired "node" 1 None (Some (rl_name l)) (Some (rl_fence_token l))
      "LEASE_ACQUIRED" None) w1 = (w', Ok tt) /\
    leases (rt_ledger r') !! rl_name l = Some l.
Proof.
  assert (is_ok (Authority.acquire_lease (ctx "default" "k") alice (worker_id "w") demo_query 1000
    (boot, demo_world true)).2 = true) as Hok by (vm_compute; reflexivity). revert Hok.
  destruct (Authority.acquire_lease (ctx "default" "k") alice (worker_id "w") demo_query 1000 (boot, demo_world true))
    as [[r' w'] [lease|e]] eqn:Hr; [intros _|done].
  destruct (acquire_durable_before_visible _ _ _ _ _ _ _ _ _ _ Hr) as (l & w1 & Hj & Hl & _).
  exists r', w', lease, l, w1. exact (conj eq_refl (conj Hj Hl)).
Defined.

Lemma start_worker_sound_witness :
  exists r' w' op, start_worker (ctx "default" "k") alice (demo_worker "w" "k") (acquired.1, acquired.2) = ((r', w'), Ok op) /\
    rt_workers r' = <[mk_object "default" (worker_id "w") := "w"]> (rt_workers acquired.1).
Proof.
  assert (is_ok (start_worker (ctx "default" "k") alice (demo_worker "w" "k") (acquired.1, acquired.2)).2 = true) as Hok
    by (vm_compute; reflexivity). revert Hok.
  destruct (start_worker (ctx "default" "k") alice (demo_worker "w" "k") (acquired.1, acquired.2)) as [[r' w'] [op|e]] eqn:Hr;
    [intros _|done]. exists r', w', op. split; [reflexivity|].
  destruct (start_worker_sound _ _ _ _ _ _ _ _ Hr) as (_ & Hw & _). exact Hw.
Defined.


(** The running Kernel, from its boot. *)
Definition started (cleanup : bool) : AuthorityRuntime * world :=
  perform_all [acquire "default" "k" "w" alice; start "default" "k" "w" alice] (boot, demo_world cleanup).

Lemma started_named cleanup : named (rt_ledger (started cleanup).1).
Proof. unfold started, boot. apply named_reachable. Qed.

Lemma stop_frees_after_cleanup_witness :
  exists r' w' op l,
    stop_worker (ctx "default" "k") alice (worker_id "w") (lease_id "k") 7 0 ((started true).1, (started true).2)
      = ((r', w'), Ok op) /\
    (allocated (rt_ledger r') = allocated (rt_ledger (started true).1) ∖ list_to_set (allocated_ids l) \/
     allocated (rt_ledger r') = allocated (rt_ledger (started true).1)).
Proof.
  assert (is_ok (stop_worker (ctx "default" "k") alice (worker_id "w") (lease_id "k") 7 0
    ((started true).1, (started true).2)).2 = true) as Hok by (vm_compute; reflexivity). revert Hok.
  destruct (stop_worker (ctx "default" "k") alice (worker_id "w") (lease_id "k") 7 0
    ((started true).1, (started true).2)) as [[r' w'] [op|e]] eqn:Hr; [intros _|done].
  destruct (stop_frees_after_cleanup _ _ _ _ _ _ _ _ _ _ _ (started_named true) Hr)
    as (n & l & name & process & worker & w1 & a & w2 & report & _ & _ & _ & _ & _ & _ & _ & _ & _ & _ & _ & Ha & _).
  exists r', w', op, l. split; [reflexivity|]. destruct (cr_complete report); [left|right]; exact Ha.
Defined.

Lemma lost_worker_fail_closed_witness :
  exists r' w' res,
    mark_worker_lost (ctx "default" "k") (worker_id "w") "LOST" ((started false).1, (started false).2)
      = ((r', w'), res) /\
    exists name n l worker,
      loss_due (ctx "default" "k") (worker_id "w") name n l worker (started false).1 (env_now_unix_ms (started false).2).2 /\
      fail_closed name n l worker r'.
Proof.
  assert (match (mark_worker_lost (ctx "default" "k") (worker_id "w") "LOST"
    ((started false).1, (started false).2)).2 with Ok [Noop] | Err _ => false | Ok _ => true end = true)
    as Hok by (vm_compute; reflexivity). revert Hok.
  destruct (mark_worker_lost (ctx "default" "k") (worker_id "w") "LOST" ((started false).1, (started false).2))
    as [[r' w'] res] eqn:Hr. cbn [snd]. intros Hok.
  pose proof (lost_worker_fail_closed _ _ _ _ _ _ _ _ (started_named false) Hr) as Hlost.
  destruct (env_now_unix_ms (started false).2) as [w0 now]. cbn [snd].
  destruct Hlost as [(name & n & l & worker & Hdue & Hm)|(_ & _ & Hq)].
  - destruct (env_journal_append _ _) as [w1 [[]|e]].
    + exists r', w', res. split; [reflexivity|]. exists name, n, l, worker. exact (conj Hdue Hm).
    + destruct Hm as (_ & _ & Hm). rewrite Hm in Hok. discriminate Hok.
  - destruct res as [acts|e]; [|discriminate Hok]. destruct Hq as [Hq|Hq]; [discriminate Hq|].
    injection Hq as ->. discriminate Hok.
Defined.

(** A world whose journal accepts nothing and that has launched nothing. *)
Definition idle (w : world) : Prop := wd_journal_budget w = 0%N /\ wd_launched w = [].
Definition full_journal (w : world) : world :=
  mk_world (wd_clock w) (wd_counter w) 0 (wd_journal w) (wd_store_ok w) (wd_store w) (wd_cleanup_complete w)
    (wd_launched w) (wd_inventory w).
Lemma launch_needs_durable_intent_witness :
  idle (start_worker (ctx "default" "k") alice (demo_worker "w" "k") (acquired.1, full_journal acquired.2)).1.2.
Proof.
  destruct (start_worker (ctx "default" "k") alice (demo_worker "w" "k") (acquired.1, full_journal acquired.2))
    as [s' res] eqn:Hr.
  refine (proj1 (launch_needs_durable_intent idle _ _ _ _ _ _ _ _ _ _ _ _ _ _ _ Hr)).
  - intros w Hw. exact Hw.
  - intros w Hw. exact Hw.
  - intros resource n w Hw. exact Hw.
  - intros binding w Hw. exact Hw.
  - intros wk w Hw. exact Hw.
  - intros record w [Hb Hl]. cbn. rewrite Hb. exact (conj Hb Hl).
  - intros record w [Hb Hl]. cbn. rewrite Hb. reflexivity.
  - split; vm_compute; reflexivity.
Defined.

Definition demo_provider (generation : N) (state : ProviderState) : Provider :=
  mk_provider (mk_identity "prov" generation) state [].
Definition registered : AuthorityRuntime * world :=
  perform_all [RegisterProvider (ctx "default" "p") alice (demo_provider 1 ProviderReady)] (boot, demo_world true).
Lemma provider_sessions_advance_witness :
  exists rec', rt_providers (perform_all [RegisterProvider (ctx "default" "p") bob (demo_provider 2 ProviderReady);
      RegisterProvider (ctx "default" "p") alice (demo_provider 2 ProviderReady)]
      (registered.1, registered.2)).1 !! (NamespaceId_default, "prov") = Some rec' /\
    record_step (fresh_record (demo_provider 1 ProviderReady) alice) rec'.
Proof. apply provider_sessions_advance. vm_compute. reflexivity. Defined.

Definition demo_operation : Operation :=
  mk_operation (mk_identity "op" 1) (mk_identity "alice" 1) (worker_id "w") "infer" OCreated None None ∅.
Definition submitted : AuthorityRuntime * world :=
  perform_all [CreateOperation (ctx "default" "o") alice demo_operation] (boot, demo_world true).
Lemma operations_move_forward_witness :
  exists o', rt_operations (perform_all [ReportOperation (ctx "default" "o") alice (op_with_state ORunning demo_operation);
      CancelOperation (ctx "default" "o") alice (mk_identity "op" 1)] (submitted.1, submitted.2)).1
      !! mk_object "default" (mk_identity "op" 1) = Some o' /\ operation_step demo_operation o'.
Proof.
  apply operations_move_forward.
  - intros [id [Hid|Hid]]; discriminate Hid.
  - vm_compute. reflexivity.
Defined.

Definition demo_source : Identity := semantic_event_source_for boot "default".
Lemma read_page_valid_witness :
  exists s' p, read_events_page "default" (mk_cursor demo_source 0) 10 (boot, demo_world true) = (s', Ok p) /\
    EventPage_validate p = Ok tt.
Proof.
  assert (is_ok (read_events_page "default" (mk_cursor demo_source 0) 10 (boot, demo_world true)).2 = true) as Hok
    by (vm_compute; reflexivity). revert Hok.
  destruct (read_events_page "default" (mk_cursor demo_source 0) 10 (boot, demo_world true)) as [s' [p|e]] eqn:Hr;
    [intros _|done].
  exists s', p. split; [reflexivity|]. refine (proj1 (read_page_valid _ _ _ _ _ _ _ boot_streams _ _ Hr)).
  - vm_compute. reflexivity.
  - unfold MAX_EVENTS_PER_PAGE. lia.
Defined.

Definition demo_event (n : N) : Event := mk_event n demo_source demo_source "worker.running" 100 "cyrene.worker.v1" [].
Lemma replay_resumes_witness :
  page_events (page_of_history demo_source [demo_event 1; demo_event 2; demo_event 3] (mk_cursor demo_source 0) 2)
  ++ page_events (page_of_history demo_source [demo_event 2; demo_event 3; demo_event 4] (mk_cursor demo_source 2) 5)
  = [demo_event 1; demo_event 2; demo_event 3; demo_event 4].
Proof.
  refine (replay_resumes demo_source [demo_event 1; demo_event 2; demo_event 3] [demo_event 4] 0 1
    (mk_cursor demo_source 0) 2 5 _ _ _ _ _).
  - repeat constructor; vm_compute; reflexivity.
  - right. reflexivity.
  - left. discriminate.
  - vm_compute. reflexivity.
  - vm_compute. reflexivity.
Defined.

Definition no_store (w : world) : world :=
  mk_world (wd_clock w) (wd_counter w) (wd_journal_budget w) (wd_journal w) false (wd_store w)
    (wd_cleanup_complete w) (wd_launched w) (wd_inventory w).
Definition demo_history : NamespaceEventHistory :=
  default (mk_history None []) (rt_events (started true).1 !! NamespaceId_default).
Lemma failed_append_degrades_witness :
  exists r', publish_semantic_event_in "default" (worker_id "w") "worker.running" "cyrene.worker.v1" []
    ((started true).1, no_store (started true).2) = ((r', no_store (started true).2), Ok tt) /\ degraded r' "default".
Proof.
  destruct (failed_append_degrades "default" (worker_id "w") "worker.running" "cyrene.worker.v1" [] (started true).1
    (no_store (started true).2) (no_store (started true).2) 100 (no_store (started true).2)
    (world_error "EVENT_WRITE_FAILED") demo_history 3) as (r' & Hp & _ & Hd & _).
  - vm_compute. reflexivity.
  - vm_compute. reflexivity.
  - vm_compute. reflexivity.
  - vm_compute. reflexivity.
  - vm_compute. reflexivity.
  - exists r'. exact (conj Hp Hd).
Defined.
