(* ===== verification/AuthorityFindings.v ===== *)
(** * Executions that depart from the documentation

    Concrete runs of the authority, evaluated in the concrete world, in which
    the code does something its documentation excludes. *)
From stdpp Require Import base gmap strings list sorting pretty.
From Stdlib Require Import Ascii Lia ZifyBool ZifyN.
From S2P Require Import Prelude Validation Contract KernelApi ResourceManager Ledger LedgerExamples.
From S2P Require Import Binding Environment Instance World AuthorityState Events EventsSpec.
From S2P Require Import Authority WorkerActions EndpointActions ProviderActions AuthorityFrame AuthoritySpec.
From S2P Require Import AuthorityExamples.

Definition at_time (now : N) (s : AuthorityRuntime * world) : AuthorityRuntime * world :=
  (s.1, mk_world now (wd_counter s.2) (wd_journal_budget s.2) (wd_journal s.2) (wd_store_ok s.2) (wd_store s.2)
          (wd_cleanup_complete s.2) (wd_launched s.2) (wd_inventory s.2)).
Definition with_journal_budget (n : N) (s : AuthorityRuntime * world) : AuthorityRuntime * world :=
  (s.1, mk_world (wd_clock s.2) (wd_counter s.2) n (wd_journal s.2) (wd_store_ok s.2) (wd_store s.2)
          (wd_cleanup_complete s.2) (wd_launched s.2) (wd_inventory s.2)).
Definition acquire_until (ns key id : string) (p : Principal) (expiry : N) : action :=
  AcquireLease (ctx ns key) p (worker_id id) demo_query expiry.

(** ** The expiry scan frees resources of other leases

    A lease that expired and was revoked stays in the ledger; [is_allocated]
    only asks whether its resources are allocated to anyone.  The next scan
    confirms its revocation again and frees the resource the next tenant holds. *)
Definition expired_then_reused : AuthorityRuntime * world :=
  perform_all [EnforceLeaseExpiry; acquire_until "default" "k2" "w2" alice 5000;
               EnforceLeaseExpiry; acquire_until "default" "k3" "w3" alice 5000]
    (at_time 2000 (perform_all [acquire "default" "k1" "w1" alice] (boot, demo_world true))).
(** After this run of calls two active leases hold the same GPU: the second
    expiry scan freed it under its holder. *)
Theorem lease_expiry_double_allocates :
  exists l2 l3, leases (rt_ledger expired_then_reused.1) !! "lease-k2" = Some l2 /\
    leases (rt_ledger expired_then_reused.1) !! "lease-k3" = Some l3 /\
    rl_state l2 = Active /\ rl_state l3 = Active /\
    allocated_ids l2 = ["gpu-0"] /\ allocated_ids l3 = ["gpu-0"].
Proof. eexists _, _. split_and!; vm_compute; reflexivity. Qed.

(** ** A lost outcome record leaves the lease releasing

    The journal accepts the release intent and then stops. *)
Definition outcome_lost : AuthorityRuntime * world :=
  perform_all [StopWorker (ctx "default" "k") alice (worker_id "w") (lease_id "k") 7 0]
    (with_journal_budget 1 (started true)).
Theorem lost_outcome_keeps_releasing :
  exists l, leases (rt_ledger outcome_lost.1) !! "lease-k" = Some l /\ rl_state l = Releasing /\
    "gpu-0" ∈ allocated (rt_ledger outcome_lost.1).
Proof. eexists. split_and!; [vm_compute; reflexivity|reflexivity|by vm_compute]. Qed.

(** ** Losing a worker reaches into other namespaces

    Worker identities are chosen by tenants; the purge matches them without the
    namespace. *)
Definition neighbours : list action :=
  published ++ [CreateOperation (ctx "default" "o") alice demo_operation;
                ReportOperation (ctx "default" "o") alice (op_with_state ORunning demo_operation);
                acquire "other" "k" "w" bob; start "other" "k" "w" bob].
Definition neighbour_lost : AuthorityRuntime * world :=
  perform_all [LoseWorker (ctx "other" "x") (worker_id "w") "HEARTBEAT_TIMEOUT"] (after neighbours true).
(** Losing worker [w] of namespace [other] removes the endpoint and the
    grant of the running worker [w] of namespace [default], and its operation
    is lost. *)
Theorem loss_crosses_namespaces :
  rt_endpoints (after neighbours true).1 !! mk_object "default" (mk_identity "ep" 1) = Some demo_endpoint /\
  rt_endpoints neighbour_lost.1 !! mk_object "default" (mk_identity "ep" 1) = None /\
  rt_endpoint_grants neighbour_lost.1 !! mk_object "default" (mk_identity "grant" 1) = None /\
  (op_state <$> rt_operations neighbour_lost.1 !! mk_object "default" (mk_identity "op" 1)) = Some OLost /\
  (wk_state <$> (rt_instances neighbour_lost.1 !! "w" ≫= mp_semantic_worker)) = Some WStarting.
Proof. split_and!; vm_compute; reflexivity. Qed.

(** ** A lease of another namespace is never expired

    The scan matches the bound worker by the lease id alone, then looks the
    worker up in the lease's namespace, where it does not exist. *)
Definition shadowed : AuthorityRuntime * world :=
  perform_all [EnforceLeaseExpiry; EnforceLeaseExpiry]
    (at_time 2000 (after [acquire_until "default" "k" "w" alice 5000; start "default" "k" "w" alice;
                          acquire "other" "k" "x" bob] true)).
Theorem shadowed_lease_never_revoked :
  exists l, leases (rt_ledger shadowed.1) !! "lease-n5-other-i7-lease-k-g1" = Some l /\
    rl_state l = Expired /\ allocated_ids l = ["gpu-1"] /\ "gpu-1" ∈ allocated (rt_ledger shadowed.1).
Proof. eexists. split_and!; [vm_compute; reflexivity|reflexivity|reflexivity|by vm_compute]. Qed.
