(* ===== verification/RuntimeJournal.v ===== *)
(** * The durable runtime journal

    [FileRuntimeJournal] of [runtime/cyrene-kernel/src/runtime_journal.rs]: an
    append-only file of JSON lines that carries the node's epochs, the fence
    tokens it issued and the processes it launched, and from which a fresh
    Kernel process seeds its fencing and decides what to reap.

    The file is the byte string the host holds; the JSON codec is serde's.
    Both are interfaces: [JournalHost] states what a write, a failed write and a
    read do to the file, [JournalCodec] states what serde_json documents.  The
    mutex around the file is not modelled: appends and replays are atomic
    steps, as the lock makes them. *)
From stdpp Require Import base gmap strings list sorting pretty.
From Stdlib Require Import Ascii Lia ZifyBool ZifyN.
From S2P Require Import Prelude Validation Contract KernelApi.

(** ** Recovery data *)
Record RuntimeProcessRecord := mk_process_record {
  rp_instance_name : string;
  rp_lease_name : option string;
  rp_fence_token : option N;
  rp_node_epoch : N;
  rp_runtime_evidence : option RuntimeProcessEvidence;
}.
#[export] Instance RuntimeProcessRecord_eq_dec : EqDecision RuntimeProcessRecord.
Proof. solve_decision. Defined.

Record RecoveryState := mk_recovery {
  rec_node_epoch : N;
  rec_next_fence_token : N;
  rec_runtime_processes : list RuntimeProcessRecord;
}.

Inductive RecoveryClassification := CValid | CStale | CUnknown | CForeign.
#[export] Instance RecoveryClassification_eq_dec : EqDecision RecoveryClassification.
Proof. solve_decision. Defined.

Record RecoveryCandidate := mk_candidate {
  cand_classification : RecoveryClassification;
  cand_record : option RuntimeProcessRecord;
  cand_observed : option RuntimeProcessEvidence;
}.

(** ** The persisted lines *)
Record PersistedRuntimeProcessEvidence := mk_persisted_evidence {
  ppe_cgroup_name : string;
  ppe_pid : N;
  ppe_start_time_ticks : N;
}.
Record PersistedSemanticEvent := mk_persisted_event {
  pse_namespace : string;
  pse_sequence : N;
  pse_source_id : string;
  pse_source_generation : N;
  pse_subject_id : string;
  pse_subject_generation : N;
  pse_kind : string;
  pse_observed_at_unix_ms : N;
  pse_schema_id : string;
  pse_body : list ascii;
}.
Record PersistedRuntimeRecord := mk_persisted {
  pst_observed_at_millis : N;
  pst_event : string;
  pst_node_id : string;
  pst_node_epoch : N;
  pst_instance_name : option string;
  pst_lease_name : option string;
  pst_fence_token : option N;
  pst_reason_code : string;
  pst_runtime_evidence : option PersistedRuntimeProcessEvidence;
  pst_semantic_event : option PersistedSemanticEvent;
}.

(** The integers of a record are values of the Rust type. *)
Definition u64 (n : N) : bool := (n <=? u64_max)%N.
Definition u32 (n : N) : bool := (n <=? u32_max)%N.
Definition evidence_in_range (e : RuntimeProcessEvidence) : bool :=
  u32 (rpe_pid e) && u64 (rpe_start_time_ticks e).
Definition event_in_range (e : Event) : bool :=
  u64 (ev_sequence e) && u64 (ident_generation (ev_source e)) && u64 (ident_generation (ev_subject e))
  && u64 (ev_observed_at_unix_ms e).
Definition all_some {A} (f : A -> bool) (o : option A) : bool :=
  match o with Some a => f a | None => true end.
Definition persisted_in_range (r : PersistedRuntimeRecord) : bool :=
  u64 (pst_observed_at_millis r) && u64 (pst_node_epoch r) && all_some u64 (pst_fence_token r)
  && all_some (fun e => u32 (ppe_pid e) && u64 (ppe_start_time_ticks e)) (pst_runtime_evidence r)
  && all_some (fun e => u64 (pse_sequence e) && u64 (pse_source_generation e)
                        && u64 (pse_subject_generation e) && u64 (pse_observed_at_unix_ms e))
       (pst_semantic_event r).

Definition newline : ascii := "010".
Definition carriage_return : ascii := "013".

(** [serde_json::to_writer] and [serde_json::from_str] on a record: a record is
    one compact object in which control characters are escaped; reading it back
    gives the record; an object that is cut short, or followed by more input, is
    an error.  An error is its display text. *)
Class JournalCodec := {
  encode_record : PersistedRuntimeRecord -> list ascii;
  decode_record : list ascii -> result string PersistedRuntimeRecord;
  decode_encode : forall r, persisted_in_range r = true -> decode_record (encode_record r) = Ok r;
  encode_no_control : forall r c, c ∈ encode_record r -> (32 <= N_of_ascii c)%N;
  decode_cut_short : forall r p c rest,
    encode_record r = p ++ c :: rest -> is_err (decode_record p) = true;
  decode_glued : forall r r' p rest, p <> [] ->
    encode_record r = p ++ rest -> is_err (decode_record (p ++ encode_record r')) = true;
}.

(** The host: the journal file ([None]: it does not exist), the clock, and the
    sandbox calls of restart recovery. *)
Class JournalHost (W : Type) := {
  host_contents : W -> option (list ascii);
  host_unix_millis : W -> W * N;
  host_open_append : STE W string unit;
  host_write_all : list ascii -> STE W string unit;
  host_sync_data : STE W string unit;
  host_read_to_string : STE W string (list ascii);
  host_discover_recovery_processes : STE W ProviderError (list RuntimeProcessEvidence);
  host_recover_stale_process : RuntimeProcessEvidence -> STE W ProviderError CleanupReport;

  host_unix_millis_file : forall w, host_contents (host_unix_millis w).1 = host_contents w;
  (** [OpenOptions::new().create(true).append(true)] creates an empty file or
      leaves the existing one as it is. *)
  host_open_append_file : forall w w' r, host_open_append w = (w', r) ->
    host_contents w' = host_contents w \/ (host_contents w = None /\ host_contents w' = Some []);
  host_open_append_ok : forall w w', host_open_append w = (w', Ok tt) -> is_Some (host_contents w');
  (** A write appends all its bytes, or fails after some of them. *)
  host_write_all_ok : forall bs w w' old, host_contents w = Some old ->
    host_write_all bs w = (w', Ok tt) -> host_contents w' = Some (old ++ bs);
  host_write_all_err : forall bs w w' old e, host_contents w = Some old ->
    host_write_all bs w = (w', Err e) ->
    exists p c rest, bs = p ++ c :: rest /\ host_contents w' = Some (old ++ p);
  host_sync_data_file : forall w w' r, host_sync_data w = (w', r) -> host_contents w' = host_contents w;
  host_read_file : forall w w' r, host_read_to_string w = (w', r) ->
    host_contents w' = host_contents w /\ forall bs, r = Ok bs -> host_contents w = Some bs;
  host_discover_file : forall w w' r, host_discover_recovery_processes w = (w', r) ->
    host_contents w' = host_contents w;
  host_recover_stale_file : forall ev w w' r, host_recover_stale_process ev w = (w', r) ->
    host_contents w' = host_contents w;

  (** The processes the sandbox was asked to terminate. *)
  host_reaped : W -> list RuntimeProcessEvidence;
  host_unix_millis_reaped : forall w, host_reaped (host_unix_millis w).1 = host_reaped w;
  host_open_append_reaped : forall w, host_reaped (host_open_append w).1 = host_reaped w;
  host_write_all_reaped : forall bs w, host_reaped (host_write_all bs w).1 = host_reaped w;
  host_sync_data_reaped : forall w, host_reaped (host_sync_data w).1 = host_reaped w;
  host_read_reaped : forall w, host_reaped (host_read_to_string w).1 = host_reaped w;
  host_discover_reaped : forall w, host_reaped (host_discover_recovery_processes w).1 = host_reaped w;
  host_recover_stale_reaped : forall ev w,
    host_reaped (host_recover_stale_process ev w).1 = host_reaped w ++ [ev];
}.

(** ** Lines

    [str::lines]: split after each newline; a newline, and a carriage return
    before it, is not part of the line; nothing follows a final newline. *)
Definition strip_carriage_return (line : list ascii) : list ascii :=
  match last line with
  | Some c => if decide (c = carriage_return) then take (length line - 1) line else line
  | None => line
  end.
Fixpoint lines_from (line : list ascii) (contents : list ascii) : list (list ascii) :=
  match contents with
  | [] => match line with [] => [] | _ => [line] end
  | c :: rest =>
      if decide (c = newline) then strip_carriage_return line :: lines_from [] rest
      else lines_from (line ++ [c]) rest
  end.
Definition lines (contents : list ascii) : list (list ascii) := lines_from [] contents.
Definition ends_with_newline (contents : list ascii) : bool := bool_decide (last contents = Some newline).

(** [event_name]: the label of a lifecycle event in the file. *)
Definition event_name (event : RuntimeJournalEvent) : string :=
  match event with
  | KernelStarted => "KERNEL_STARTED"
  | LeaseAcquired => "LEASE_ACQUIRED"
  | LeaseReleaseStarted => "LEASE_RELEASE_STARTED"
  | LeaseReleased => "LEASE_RELEASED"
  | LeaseRevoked => "LEASE_REVOKED"
  | FenceAdvanced => "FENCE_ADVANCED"
  | InstanceLaunching => "INSTANCE_LAUNCHING"
  | InstanceLaunched => "INSTANCE_LAUNCHED"
  | InstanceTerminated => "INSTANCE_TERMINATED"
  | InstanceCleanupFailed => "INSTANCE_CLEANUP_FAILED"
  | WatchdogReaped => "WATCHDOG_REAPED"
  | WorkerLost => "WORKER_LOST"
  | OperationLost => "OPERATION_LOST"
  | EndpointRevoked => "ENDPOINT_REVOKED"
  end.

Section journal.
Context {W : Type} `{JournalHost W} `{JournalCodec}.

(** [now_millis] *)
Definition now_millis (w : W) : W * N :=
  let '(w, millis) := host_unix_millis w in (w, N.min millis u64_max).
Definition tick {E} : STE W E N := fun w => let '(w, now) := now_millis w in (w, Ok now).

(** ** Writing *)
Definition append_persisted (record : PersistedRuntimeRecord) : STE W string unit :=
  _ ← host_open_append;
  _ ← host_write_all (encode_record record);
  _ ← host_write_all [newline];
  host_sync_data.

(** [map_err] on a call that also changed the host. *)
Definition map_error {E E' A} (f : E -> E') (m : STE W E A) : STE W E' A :=
  fun w => let '(w, r) := m w in (w, map_err f r).

Definition persist_evidence (e : RuntimeProcessEvidence) : PersistedRuntimeProcessEvidence :=
  mk_persisted_evidence (rpe_cgroup_name e) (rpe_pid e) (rpe_start_time_ticks e).
Definition persist_record (now : N) (record : RuntimeJournalRecord) : PersistedRuntimeRecord :=
  mk_persisted now (event_name (rj_event record)) (rj_node_id record) (rj_node_epoch record)
    (rj_instance_name record) (rj_lease_name record) (rj_fence_token record) (rj_reason_code record)
    (persist_evidence <$> rj_runtime_evidence record) None.
(** [RuntimeJournalSink::append] *)
Definition append (record : RuntimeJournalRecord) : STE W ProviderError unit :=
  now ← tick;
  map_error (fun error => provider_error "runtime-journal" "JOURNAL_WRITE_FAILED" error)
    (append_persisted (persist_record now record)).

Definition persist_event (now : N) (record : DurableEventRecord) : PersistedRuntimeRecord :=
  let event := der_event record in
  mk_persisted now "SEMANTIC_EVENT" (ident_id (ev_source event)) (ident_generation (ev_source event))
    None None None "EVENT_PUBLISHED" None
    (Some (mk_persisted_event (der_namespace record) (ev_sequence event)
             (ident_id (ev_source event)) (ident_generation (ev_source event))
             (ident_id (ev_subject event)) (ident_generation (ev_subject event))
             (ev_kind event) (ev_observed_at_unix_ms event) (ev_schema_id event) (ev_body event))).
(** [DurableEventStore::append_event] *)
Definition append_event (record : DurableEventRecord) : STE W ProviderError unit :=
  _ ← lift (map_err (fun error => provider_error "runtime-journal" "EVENT_WRITE_INVALID" (rej_message error))
              (NamespaceId_new (der_namespace record)));
  _ ← lift (map_err (fun error => provider_error "runtime-journal" "EVENT_WRITE_INVALID" (ce_message error))
              (Event_validate (der_event record)));
  now ← tick;
  map_error (fun error => provider_error "runtime-journal" "EVENT_WRITE_FAILED" error)
    (append_persisted (persist_event now record)).

(** ** Recovery

    What the loop of [recover] accumulates: [node_epoch], [max_fence_token] and
    the [BTreeMap] of processes. *)
Record Recovering := mk_recovering {
  rg_node_epoch : N;
  rg_max_fence_token : N;
  rg_runtime_processes : gmap string RuntimeProcessRecord;
}.
Definition recover_evidence (e : PersistedRuntimeProcessEvidence) : RuntimeProcessEvidence :=
  mk_evidence (ppe_cgroup_name e) (ppe_pid e) (ppe_start_time_ticks e).
Definition process_of (record : PersistedRuntimeRecord) (instance_name : string) : RuntimeProcessRecord :=
  mk_process_record instance_name (pst_lease_name record) (pst_fence_token record) (pst_node_epoch record)
    (recover_evidence <$> pst_runtime_evidence record).
(** The processes that share the lease and the token of a terminal record. *)
Definition same_lease (record : PersistedRuntimeRecord) (process : RuntimeProcessRecord) : bool :=
  match pst_lease_name record, pst_fence_token record with
  | Some lease_name, Some fence_token =>
      bool_decide (rp_lease_name process = Some lease_name)
      && bool_decide (rp_fence_token process = Some fence_token)
  | _, _ => false
  end.
Definition recover_process (record : PersistedRuntimeRecord)
    (processes : gmap string RuntimeProcessRecord) : gmap string RuntimeProcessRecord :=
  match pst_instance_name record with
  | Some instance_name =>
      if decide (pst_event record = "INSTANCE_LAUNCHED") then
        <[instance_name := process_of record instance_name]> processes
      else if decide (pst_event record = "INSTANCE_TERMINATED" \/ pst_event record = "WATCHDOG_REAPED") then
        filter (fun '(_, process) => same_lease record process = false) (delete instance_name processes)
      else processes
  | None => processes
  end.
Definition recover_record (node_id : string) (acc : Recovering) (record : PersistedRuntimeRecord)
    : Recovering :=
  if decide (pst_node_id record = node_id) then
    mk_recovering (N.max (rg_node_epoch acc) (pst_node_epoch record))
      (N.max (rg_max_fence_token acc) (default 0%N (pst_fence_token record)))
      (recover_process record (rg_runtime_processes acc))
  else acc.

(** The loop over the lines: a last line that does not parse and has no newline
    is skipped, any other line that does not parse stops the startup. *)
Fixpoint recover_lines (node_id : string) (terminal_newline : bool) (acc : Recovering)
    (ls : list (list ascii)) : result string Recovering :=
  match ls with
  | [] => Ok acc
  | line :: rest =>
      match decode_record line with
      | Ok record => recover_lines node_id terminal_newline (recover_record node_id acc record) rest
      | Err error =>
          if bool_decide (rest = []) && negb terminal_newline then
            recover_lines node_id terminal_newline acc rest
          else Err ("invalid runtime journal record: " +:+ error)
      end
  end.
Definition recovery_start : Recovering := mk_recovering 0 0 ∅.
Definition recovered (acc : Recovering) : RecoveryState :=
  mk_recovery (rg_node_epoch acc) (N.max (u64_saturating_add (rg_max_fence_token acc) 1) 1)
    (btree_values (rg_runtime_processes acc)).
Definition recover (node_id : string) : STE W string RecoveryState :=
  file ← gets host_contents;
  match file with
  | None => mret (mk_recovery 0 1 [])
  | Some _ =>
      contents ← host_read_to_string;
      acc ← lift (recover_lines node_id (ends_with_newline contents) recovery_start (lines contents));
      mret (recovered acc)
  end.

Definition begin_epoch (node_id : string) : STE W string RecoveryState :=
  recovery ← recover node_id;
  now ← tick;
  let node_epoch := N.max now (u64_saturating_add (rec_node_epoch recovery) 1) in
  now ← tick;
  _ ← append_persisted (mk_persisted now (event_name KernelStarted) node_id node_epoch None None None
                          "KERNEL_EPOCH_STARTED" None None);
  mret (mk_recovery node_epoch (rec_next_fence_token recovery) (rec_runtime_processes recovery)).

(** ** Replay of semantic events *)
Definition journal_corrupt {A} (message : string) : result ProviderError A :=
  Err (provider_error "runtime-journal" "JOURNAL_CORRUPT" message).
Definition recover_event (e : PersistedSemanticEvent) : DurableEventRecord :=
  mk_durable (pse_namespace e)
    (mk_event (pse_sequence e) (mk_identity (pse_source_id e) (pse_source_generation e))
       (mk_identity (pse_subject_id e) (pse_subject_generation e))
       (pse_kind e) (pse_observed_at_unix_ms e) (pse_schema_id e) (pse_body e)).
(** The checks on one line; [None]: not an event. *)
Definition replay_record (record : PersistedRuntimeRecord) : result ProviderError (option DurableEventRecord) :=
  match decide (pst_event record = "SEMANTIC_EVENT"), pst_semantic_event record with
  | left _, Some event =>
      _ ← map_err (fun error => provider_error "runtime-journal" "JOURNAL_CORRUPT" (rej_message error))
            (NamespaceId_new (pse_namespace event));
      let event := recover_event event in
      _ ← map_err (fun error => provider_error "runtime-journal" "JOURNAL_CORRUPT" (ce_message error))
            (Event_validate (der_event event));
      if negb (bool_decide (ident_id (ev_source (der_event event)) = pst_node_id record))
         || negb (ident_generation (ev_source (der_event event)) =? pst_node_epoch record)%N
      then journal_corrupt "semantic event source does not match its journal record"
      else Ok (Some event)
  | left _, None | right _, Some _ =>
      journal_corrupt "semantic event record has inconsistent record fields"
  | right _, None => Ok None
  end.
Definition stream_key (event : DurableEventRecord) : string * string * N :=
  (der_namespace event, ident_id (ev_source (der_event event)), ident_generation (ev_source (der_event event))).
Fixpoint replay_lines (source : Identity) (namespace : string) (terminal_newline : bool)
    (previous_sequences : gmap (string * string * N) N) (ls : list (list ascii))
    : result ProviderError (list DurableEventRecord) :=
  match ls with
  | [] => Ok []
  | line :: rest =>
      match decode_record line with
      | Err error =>
          if bool_decide (rest = []) && negb terminal_newline then
            replay_lines source namespace terminal_newline previous_sequences rest
          else journal_corrupt error
      | Ok record =>
          replayed ← replay_record record;
          match replayed with
          | None => replay_lines source namespace terminal_newline previous_sequences rest
          | Some event =>
              if is_some_and (fun previous => ev_sequence (der_event event) <=? previous)%N
                   (previous_sequences !! stream_key event)
              then journal_corrupt "semantic event sequence is not strictly ordered"
              else
                events ← replay_lines source namespace terminal_newline
                           (<[stream_key event := ev_sequence (der_event event)]> previous_sequences) rest;
                Ok (if decide (der_namespace event = namespace /\ ev_source (der_event event) = source)
                    then event :: events else events)
          end
      end
  end.
Definition semantic_events_for_source (source : Identity) (namespace : string)
    : STE W ProviderError (list DurableEventRecord) :=
  file ← gets host_contents;
  match file with
  | None => mret []
  | Some _ =>
      contents ← map_error (fun error => provider_error "runtime-journal" "JOURNAL_READ_FAILED" error)
                   host_read_to_string;
      lift (replay_lines source namespace (ends_with_newline contents) ∅ (lines contents))
  end.
Definition events_for_source (source : Identity) (namespace : string)
    : STE W ProviderError (option (list DurableEventRecord)) :=
  events ← semantic_events_for_source source namespace; mret (Some events).

(** ** Classification of leftover processes

    [matched] is the vector of flags of the code. *)
Definition find_unmatched (records : list RuntimeProcessRecord) (matched : list bool)
    (current : RuntimeProcessEvidence) : option (nat * (bool * RuntimeProcessRecord)) :=
  list_find (fun '(m, record) => m = false /\ rp_runtime_evidence record = Some current)
    (zip matched records).
Fixpoint classify_observed (recovery : RecoveryState) (matched : list bool)
    (observed : list RuntimeProcessEvidence) : list bool * list RecoveryCandidate :=
  match observed with
  | [] => (matched, [])
  | current :: rest =>
      match find_unmatched (rec_runtime_processes recovery) matched current with
      | Some (index, (_, record)) =>
          let '(matched, candidates) := classify_observed recovery (<[index := true]> matched) rest in
          (matched, mk_candidate (if (rp_node_epoch record <? rec_node_epoch recovery)%N then CStale else CValid)
                      (Some record) (Some current) :: candidates)
      | None =>
          let '(matched, candidates) := classify_observed recovery matched rest in
          (matched, mk_candidate CForeign None (Some current) :: candidates)
      end
  end.
Definition classify_recovery (recovery : RecoveryState) (observed : list RuntimeProcessEvidence)
    : list RecoveryCandidate :=
  let records := rec_runtime_processes recovery in
  let '(matched, candidates) := classify_observed recovery (replicate (length records) false) observed in
  candidates ++
  omap (fun '(m, record) => if m : bool then None else Some (mk_candidate CUnknown (Some record) None))
    (zip matched records).

(** ** The restart boundary *)
Definition terminal_record (node_id : string) (epoch : N) (record : RuntimeProcessRecord)
    (cleanup : CleanupReport) : RuntimeJournalRecord :=
  mk_journal_record (if cr_complete cleanup then InstanceTerminated else InstanceCleanupFailed)
    node_id epoch (Some (rp_instance_name record)) (rp_lease_name record) (rp_fence_token record)
    (cr_reason_code cleanup) None.
(** The reason that blocks the startup after one candidate; the [expect]s of the
    stale case abort the process. *)
Definition recover_candidate (node_id : string) (epoch : N) (blocked : option string)
    (candidate : RecoveryCandidate) : STE W ProviderError (option string) :=
  match cand_classification candidate with
  | CStale =>
      match cand_record candidate, cand_observed candidate with
      | Some record, Some evidence =>
          cleanup ← host_recover_stale_process evidence;
          _ ← append (terminal_record node_id epoch record cleanup);
          _ ← require (cr_complete cleanup)
                (provider_error "runtime-journal" "RECOVERY_CLEANUP_INCOMPLETE" (cr_reason_code cleanup));
          mret blocked
      | _, _ => throw (provider_error "panic" "panic" "stale candidate")
      end
  | CValid => mret (Some "RECOVERY_VALID_PROCESS_UNADOPTED")
  | CUnknown => mret (Some "RECOVERY_UNKNOWN_PROCESS")
  | CForeign => mret (Some "RECOVERY_FOREIGN_PROCESS")
  end.
Fixpoint recover_candidates (node_id : string) (epoch : N) (blocked : option string)
    (candidates : list RecoveryCandidate) : STE W ProviderError (option string) :=
  match candidates with
  | [] => mret blocked
  | candidate :: rest =>
      blocked ← recover_candidate node_id epoch blocked candidate;
      recover_candidates node_id epoch blocked rest
  end.
Definition recover_before_listeners (node_id : string) (recovery : RecoveryState) : STE W ProviderError unit :=
  observed ← host_discover_recovery_processes;
  blocked ← recover_candidates node_id (rec_node_epoch recovery) None (classify_recovery recovery observed);
  match blocked with
  | Some reason_code =>
      throw (provider_error "runtime-journal" reason_code
               "restart recovery refuses to adopt or terminate unverified runtime state")
  | None => mret tt
  end.

(** The restart of [main.rs] up to the listeners: a new epoch, then recovery. *)
Definition io_error_text (e : ProviderError) : string :=
  "restart recovery failed: " +:+ pe_reason_code e +:+ ": " +:+ pe_message e.
Definition restart (node_id : string) : STE W string RecoveryState :=
  recovery ← begin_epoch node_id;
  _ ← map_error io_error_text (recover_before_listeners node_id recovery);
  mret recovery.
End journal.
