(* ===== verification/JournalSpec.v ===== *)
(** * What the runtime journal promises

    The file as a list of records with a possibly torn end, recovery as a fold
    over that list, and the promises of a restart: later epochs, unused fence
    tokens, no process forgotten and none adopted. *)
From stdpp Require Import base gmap strings list sorting pretty.
From Stdlib Require Import Ascii Lia ZifyBool ZifyN.
From S2P Require Import Prelude Validation Contract KernelApi RuntimeJournal.

Section format.
Context `{JournalCodec}.

(** ** The file format *)
Definition file_of (rs : list PersistedRuntimeRecord) : list ascii :=
  concat ((fun r => encode_record r ++ [newline]) <$> rs).
Definition in_range (rs : list PersistedRuntimeRecord) : Prop :=
  Forall (fun r => persisted_in_range r = true) rs.

(** The files a sequence of appends can leave, and the records they hold: all
    lines complete; a last line cut short; a last line without its newline. *)
Inductive journal_file : list ascii -> list PersistedRuntimeRecord -> Prop :=
| jf_complete rs : in_range rs -> journal_file (file_of rs) rs
| jf_cut rs r p c rest : in_range rs -> p <> [] -> encode_record r = p ++ c :: rest ->
    journal_file (file_of rs ++ p) rs
| jf_unterminated rs r : in_range (rs ++ [r]) -> journal_file (file_of rs ++ encode_record r) (rs ++ [r]).

Lemma file_of_app rs rs' : file_of (rs ++ rs') = file_of rs ++ file_of rs'.
Proof. unfold file_of. by rewrite fmap_app, concat_app. Qed.
Lemma file_of_snoc rs r : file_of (rs ++ [r]) = file_of rs ++ encode_record r ++ [newline].
Proof. by rewrite file_of_app; unfold file_of; simpl; rewrite app_nil_r. Qed.

Definition plain (bs : list ascii) : Prop := forall c, c ∈ bs -> (32 <= N_of_ascii c)%N.
Lemma plain_encode r : plain (encode_record r).
Proof. intros c. apply encode_no_control. Qed.
Lemma plain_app p q : plain (p ++ q) <-> plain p /\ plain q.
Proof. unfold plain. set_solver. Qed.
Lemma plain_newline bs : plain bs -> newline ∉ bs.
Proof. intros Hp Hin. specialize (Hp _ Hin). vm_compute in Hp. lia. Qed.

Lemma strip_plain line : plain line -> strip_carriage_return line = line.
Proof.
  intros Hp. unfold strip_carriage_return. destruct (last line) as [c|] eqn:Hl; [|done].
  case_decide as Hc; [|done]. subst c. exfalso.
  assert (carriage_return ∈ line) as Hin by (apply last_Some_elem_of; done).
  specialize (Hp _ Hin). vm_compute in Hp. lia.
Qed.
Lemma lines_from_plain line bs rest :
  plain bs -> lines_from line (bs ++ rest) = lines_from (line ++ bs) rest.
Proof.
  revert line. induction bs as [|c bs IH]; intros line Hp; simpl; [by rewrite app_nil_r|].
  rewrite decide_False.
  - rewrite IH; [by rewrite <- app_assoc|]. intros d Hd. apply Hp. set_solver.
  - intros ->. by apply (plain_newline _ Hp); left.
Qed.
Lemma lines_file rs tail : lines (file_of rs ++ tail) = (encode_record <$> rs) ++ lines tail.
Proof.
  unfold lines. induction rs as [|r rs IH]; [done|].
  change (file_of (r :: rs)) with ((encode_record r ++ [newline]) ++ file_of rs).
  rewrite <- !app_assoc, (lines_from_plain [] (encode_record r)) by apply plain_encode. simpl.
  by rewrite strip_plain, IH by apply plain_encode.
Qed.
Lemma lines_plain bs : plain bs -> bs <> [] -> lines bs = [bs].
Proof.
  intros Hp Hne. unfold lines. rewrite <- (app_nil_r bs) at 1. rewrite lines_from_plain by done.
  destruct bs; [done|]. done.
Qed.
Lemma ends_plain bs : plain bs -> bs <> [] -> forall pre, ends_with_newline (pre ++ bs) = false.
Proof.
  intros Hp Hne pre. apply bool_decide_eq_false. rewrite last_app.
  destruct (last bs) as [c|] eqn:Hl.
  - intros [= ->]. apply (plain_newline _ Hp). by apply last_Some_elem_of.
  - by apply last_None in Hl.
Qed.

(** No record is the empty line. *)
Lemma encode_nonempty r : persisted_in_range r = true -> encode_record r <> [].
Proof.
  intros Hr Hnil.
  set (blank := fun s => mk_persisted 0 s "" 0 None None None "" None None).
  assert (forall s, encode_record (blank s) = []) as Hblank.
  { intros s. destruct (encode_record (blank s)) as [|c rest] eqn:He; [done|].
    pose proof (decode_cut_short (blank s) [] c rest He) as Herr.
    rewrite <- Hnil, decode_encode in Herr by done. done. }
  assert (Ok (E := string) (blank "") = Ok (blank "a")) as Heq.
  { rewrite <- (decode_encode (blank "")), <- (decode_encode (blank "a")) by done. by rewrite !Hblank. }
  discriminate Heq.
Qed.
End format.

(** ** Recovery is a fold over the records *)
Definition replay (node_id : string) (rs : list PersistedRuntimeRecord) : Recovering :=
  foldl (recover_record node_id) recovery_start rs.

Section recovery.
Context `{JournalCodec}.

Lemma recover_lines_encoded node t acc rs ls : in_range rs ->
  recover_lines node t acc ((encode_record <$> rs) ++ ls) =
  recover_lines node t (foldl (recover_record node) acc rs) ls.
Proof.
  revert acc. induction rs as [|r rs IH]; intros acc Hr; [done|]. simpl.
  apply Forall_cons in Hr as [Hr Hrs]. by rewrite decode_encode, IH.
Qed.
Lemma recover_lines_file node bs rs : journal_file bs rs ->
  recover_lines node (ends_with_newline bs) recovery_start (lines bs) = Ok (replay node rs).
Proof.
  intros [rs0 Hr|rs0 r p c rest Hr Hp He|rs0 r Hr].
  - rewrite <- (app_nil_r (file_of rs0)), lines_file, recover_lines_encoded by done. done.
  - assert (plain p) as Hpl by (pose proof (plain_encode r) as Hpe; rewrite He in Hpe; by apply plain_app in Hpe as [? _]).
    rewrite lines_file, recover_lines_encoded, lines_plain by done. simpl.
    pose proof (decode_cut_short r p c rest He) as Herr.
    destruct (decode_record p); [done|]. by rewrite ends_plain.
  - apply Forall_app in Hr as [Hrs [Hr _]%Forall_cons].
    rewrite lines_file, recover_lines_encoded, lines_plain
      by first [done | by apply plain_encode | by apply encode_nonempty].
    unfold replay. rewrite foldl_app. simpl. by rewrite decode_encode.
Qed.
End recovery.

(** ** The declarative meaning of the recovered state *)
Definition launches (node_id : string) (r : PersistedRuntimeRecord) (p : RuntimeProcessRecord) : Prop :=
  pst_node_id r = node_id /\ pst_event r = "INSTANCE_LAUNCHED" /\
  pst_instance_name r = Some (rp_instance_name p) /\ p = process_of r (rp_instance_name p).
Definition is_terminal (r : PersistedRuntimeRecord) : Prop :=
  pst_event r = "INSTANCE_TERMINATED" \/ pst_event r = "WATCHDOG_REAPED".
(** A record after which the process is no longer outstanding: its instance was
    launched again, or ended, or a process under its lease and token ended. *)
Definition closes (node_id : string) (p : RuntimeProcessRecord) (r : PersistedRuntimeRecord) : Prop :=
  pst_node_id r = node_id /\ exists name, pst_instance_name r = Some name /\
  ((pst_event r = "INSTANCE_LAUNCHED" /\ name = rp_instance_name p) \/
   (is_terminal r /\ (name = rp_instance_name p \/ same_lease r p = true))).
Definition outstanding (node_id : string) (rs : list PersistedRuntimeRecord) (p : RuntimeProcessRecord) : Prop :=
  exists pre r post, rs = pre ++ r :: post /\ launches node_id r p /\ Forall (fun q => ~ closes node_id p q) post.

Lemma outstanding_snoc node rs r p :
  outstanding node (rs ++ [r]) p <-> launches node r p \/ (outstanding node rs p /\ ~ closes node p r).
Proof.
  split.
  - intros (pre & q & post & Heq & Hl & Hpost). destruct post as [|x post _] using rev_ind.
    + apply app_inj_tail in Heq as [_ ->]. by left.
    + rewrite app_comm_cons, app_assoc in Heq. apply app_inj_tail in Heq as [-> ->].
      apply Forall_app in Hpost as [Hpost [Hx _]%Forall_cons]. right. split; [|done]. by exists pre, q, post.
  - intros [Hl|[(pre & q & post & -> & Hl & Hpost) Hc]].
    + by exists rs, r, [].
    + exists pre, q, (post ++ [r]). rewrite <- app_assoc. split_and!; [done|done|].
      apply Forall_app; by repeat constructor.
Qed.

Lemma recover_process_lookup (r : PersistedRuntimeRecord) m name p :
  (forall n q, m !! n = Some q -> rp_instance_name q = n) ->
  recover_process r m !! name = Some p <->
  (launches (pst_node_id r) r p /\ rp_instance_name p = name) \/
  (m !! name = Some p /\ ~ closes (pst_node_id r) p r).
Proof.
  intros Hm. unfold recover_process, launches, closes, is_terminal.
  destruct (pst_instance_name r) as [n|]; [|naive_solver].
  repeat case_decide.
  - rewrite lookup_insert_Some. split.
    + intros [[<- <-]|[Hne Hl]]; [left; naive_solver|]. right. split; [done|].
      specialize (Hm _ _ Hl). intros (_ & n' & [= <-] & [[_ ->]|[[Ht|Ht] _]]); congruence.
    + intros [((_ & _ & [= ->] & Hp) & <-)|[Hl Hc]]; [by left|].
      right. split; [|done]. intros ->. apply Hc. split; [done|]. exists name. split; [done|]. left.
      split; [done|]. symmetry. by apply Hm.
  - rewrite map_lookup_filter_Some, lookup_delete_Some. split.
    + intros [[Hne Hl] Hs]. right. split; [done|]. specialize (Hm _ _ Hl).
      intros (_ & n' & [= <-] & [[? _]|[_ [->|Hs']]]); congruence.
    + intros [((_ & ? & _) & _)|[Hl Hc]]; [done|]. specialize (Hm _ _ Hl).
      split; [split; [|done]|].
      * intros ->. apply Hc. split; [done|]. exists name. naive_solver.
      * destruct (same_lease r p) eqn:Hs; [|done]. exfalso. apply Hc. split; [done|]. exists n. naive_solver.
  - naive_solver.
Qed.

Lemma replay_snoc node rs r : replay node (rs ++ [r]) = recover_record node (replay node rs) r.
Proof. unfold replay. by rewrite foldl_app. Qed.
Lemma replay_names node rs n q : rg_runtime_processes (replay node rs) !! n = Some q -> rp_instance_name q = n.
Proof.
  revert n q. induction rs as [|r rs IH] using rev_ind; intros n q; [done|].
  rewrite replay_snoc. unfold recover_record. case_decide; [|by apply IH]. simpl.
  rewrite (recover_process_lookup r _ n q IH). intros [[_ ?]|[? _]]; eauto.
Qed.
Lemma replay_lookup node rs n p :
  rg_runtime_processes (replay node rs) !! n = Some p <-> outstanding node rs p /\ rp_instance_name p = n.
Proof.
  revert n p. induction rs as [|r rs IH] using rev_ind; intros n p.
  { split; [done|]. intros [(pre & r & post & Heq & _) _]. by destruct pre. }
  rewrite replay_snoc, outstanding_snoc. unfold recover_record. case_decide as Hn.
  - simpl. rewrite recover_process_lookup by apply replay_names. rewrite IH, <- Hn. naive_solver.
  - rewrite IH. unfold launches, closes. naive_solver.
Qed.

Section operations.
Context {W : Type} `{JournalHost W} `{JournalCodec}.
Implicit Types (w : W) (rs : list PersistedRuntimeRecord) (r : PersistedRuntimeRecord).

(** The journal holds the records; [clean]: with all lines complete. *)
Definition holds w rs : Prop :=
  (host_contents w = None /\ rs = []) \/ exists bs, host_contents w = Some bs /\ journal_file bs rs.
Definition clean w rs : Prop :=
  in_range rs /\ ((host_contents w = None /\ rs = []) \/ host_contents w = Some (file_of rs)).
(** Recovery from here sees exactly these records, unless the file cannot be
    read at all. *)
Definition recovers_as (node_id : string) w rs : Prop :=
  forall w' res, recover node_id w = (w', res) ->
    res = Ok (recovered (replay node_id rs)) \/
    exists e, host_read_to_string w = (w', Err e) /\ res = Err e.

Lemma clean_holds w rs : clean w rs -> holds w rs.
Proof. intros [Hr [?|Hf]]; [by left|]. right. eexists. split; [exact Hf|by constructor]. Qed.
Lemma clean_file w w' rs : host_contents w' = host_contents w -> clean w rs -> clean w' rs.
Proof. unfold clean. by intros ->. Qed.

Lemma recover_file node w w' res : recover node w = (w', res) -> host_contents w' = host_contents w.
Proof.
  unfold recover. unfold_monads. destruct (host_contents w) as [bs|] eqn:Hc; [|by intros [= <- <-]].
  destruct (host_read_to_string w) as [w1 [c|e]] eqn:Hrd.
  - pose proof (host_read_file _ _ _ Hrd) as [Hf _]. case_match; intros [= <- <-]; congruence.
  - pose proof (host_read_file _ _ _ Hrd) as [Hf _]. intros [= <- <-]. congruence.
Qed.
Lemma recover_holds node w rs : holds w rs -> recovers_as node w rs.
Proof.
  intros Hh w' res. unfold recover. unfold_monads.
  destruct Hh as [[-> ->]|(bs & Hc & Hj)]; [by intros [= <- <-]; left|]. rewrite Hc.
  destruct (host_read_to_string w) as [w1 [c|e]] eqn:Hrd; [|intros [= <- <-]; right; by exists e].
  pose proof (host_read_file _ _ _ Hrd) as [_ Hf]. specialize (Hf _ eq_refl). rewrite Hc in Hf.
  injection Hf as <-. rewrite (recover_lines_file node bs rs Hj). intros [= <- <-]. by left.
Qed.

(** ** One append *)
Lemma opened w w' rs : clean w rs -> host_open_append w = (w', Ok tt) -> host_contents w' = Some (file_of rs).
Proof.
  intros [_ Hc] Ho. pose proof (host_open_append_ok _ _ Ho) as [bs Hbs].
  destruct (host_open_append_file _ _ _ Ho) as [Hf|[Hf' Hf]]; destruct Hc as [[Hn ->]|Hc]; [congruence..|done|congruence].
Qed.
Lemma not_opened w w' rs e : clean w rs -> host_open_append w = (w', Err e) -> clean w' rs.
Proof.
  intros [Hr Hc] Ho. split; [done|].
  destruct (host_open_append_file _ _ _ Ho) as [->|[Hn Hf]]; [done|]. right.
  destruct Hc as [[_ ->]|Hc]; [done|congruence].
Qed.
Lemma append_ok r w w' rs : clean w rs -> persisted_in_range r = true ->
  append_persisted r w = (w', Ok tt) -> clean w' (rs ++ [r]).
Proof.
  intros Hc Hr. unfold append_persisted. unfold_monads.
  destruct (host_open_append w) as [w1 [[]|e]] eqn:Ho; [|done]. pose proof (opened _ _ _ Hc Ho) as H1.
  destruct (host_write_all (encode_record r) w1) as [w2 [[]|e]] eqn:Hw1; [|done].
  pose proof (host_write_all_ok _ _ _ _ H1 Hw1) as H2.
  destruct (host_write_all [newline] w2) as [w3 [[]|e]] eqn:Hw2; [|done].
  pose proof (host_write_all_ok _ _ _ _ H2 Hw2) as H3. intros Hs. apply host_sync_data_file in Hs.
  split; [apply Forall_app; split; [apply Hc|by repeat constructor]|].
  right. by rewrite Hs, H3, file_of_snoc, <- app_assoc.
Qed.
Lemma append_err r w w' rs e : clean w rs -> persisted_in_range r = true ->
  append_persisted r w = (w', Err e) -> holds w' rs \/ holds w' (rs ++ [r]).
Proof.
  intros Hc Hr. unfold append_persisted. unfold_monads.
  assert (in_range (rs ++ [r])) as Hrs.
  { apply Forall_app; split; [apply Hc|by repeat constructor]. }
  destruct (host_open_append w) as [w1 [[]|e1]] eqn:Ho.
  2:{ intros [= <- _]. left. eauto using clean_holds, not_opened. }
  pose proof (opened _ _ _ Hc Ho) as H1.
  destruct (host_write_all (encode_record r) w1) as [w2 [[]|e2]] eqn:Hw1.
  2:{ pose proof (host_write_all_err _ _ _ _ _ H1 Hw1) as (p & c & rest & Hp & H2). intros [= <- _]. left.
      right. eexists. split; [exact H2|]. destruct p as [|d p].
      - rewrite app_nil_r. constructor. apply Hc.
      - eapply jf_cut; [apply Hc|done|exact Hp]. }
  pose proof (host_write_all_ok _ _ _ _ H1 Hw1) as H2.
  destruct (host_write_all [newline] w2) as [w3 [[]|e3]] eqn:Hw2.
  2:{ pose proof (host_write_all_err _ _ _ _ _ H2 Hw2) as (p & c & rest & Hp & H3). intros [= <- _]. right.
      right. eexists. split; [exact H3|]. destruct p as [|d p]; [|by destruct p].
      rewrite app_nil_r. by constructor. }
  pose proof (host_write_all_ok _ _ _ _ H2 Hw2) as H3. intros Hs. apply host_sync_data_file in Hs. right.
  right. eexists. split; [by rewrite Hs|]. rewrite <- app_assoc, <- file_of_snoc. by constructor.
Qed.
Lemma appends_ok rs' w w' rs : clean w rs -> in_range rs' ->
  for_each append_persisted rs' w = (w', Ok tt) -> clean w' (rs ++ rs').
Proof.
  revert w rs. induction rs' as [|r rs' IH]; intros w rs Hc Hr; simpl; unfold_monads.
  { intros [= <-]. by rewrite app_nil_r. }
  apply Forall_cons in Hr as [Hr Hrs]. destruct (append_persisted r w) as [w1 [[]|e]] eqn:Ha; [|done].
  intros Hrest. rewrite cons_middle, app_assoc. eapply IH; [|done|exact Hrest]. by eapply append_ok.
Qed.

(** C11: what was appended is what recovery reads: after any records were
    appended to a fresh journal, recovery folds over exactly those records, and
    if a further append fails at any point, it folds over them with or without
    the record that failed, unless the file cannot be read at all. *)
Theorem journal_roundtrip node rs r w w1 :
  host_contents w = None -> in_range (rs ++ [r]) -> for_each append_persisted rs w = (w1, Ok tt) ->
  recovers_as node w1 rs /\
  forall w2 e, append_persisted r w1 = (w2, Err e) -> recovers_as node w2 rs \/ recovers_as node w2 (rs ++ [r]).
Proof.
  intros Hn [Hrs [Hr _]%Forall_cons]%Forall_app Ha.
  assert (clean w1 rs) as Hc by (eapply (appends_ok rs w w1 []); [split; [constructor|by left]|done|done]).
  split; [by apply recover_holds, clean_holds|]. intros w2 e He.
  destruct (append_err _ _ _ _ _ Hc Hr He); [left|right]; by apply recover_holds.
Qed.

(** ** A new epoch *)
Lemma replay_bounds node rs : in_range rs ->
  (rg_node_epoch (replay node rs) <= u64_max)%N /\ (rg_max_fence_token (replay node rs) <= u64_max)%N /\
  forall r, r ∈ rs -> pst_node_id r = node ->
    (pst_node_epoch r <= rg_node_epoch (replay node rs))%N /\
    forall t, pst_fence_token r = Some t -> (t <= rg_max_fence_token (replay node rs))%N.
Proof.
  induction rs as [|r rs IH] using rev_ind; [by intros; split_and!; [| |set_solver]|].
  intros [Hrs [Hr _]%Forall_cons]%Forall_app. destruct (IH Hrs) as (He & Hf & Hall). clear IH.
  rewrite replay_snoc. unfold recover_record.
  assert ((pst_node_epoch r <= u64_max)%N /\ forall t, pst_fence_token r = Some t -> (t <= u64_max)%N) as [Hre Hrf].
  { unfold persisted_in_range, u64 in Hr. split; [lia|]. intros t Ht. rewrite Ht in Hr. simpl in Hr. unfold u64 in Hr. lia. }
  case_decide as Hn; simpl.
  - assert (default 0%N (pst_fence_token r) <= u64_max)%N as Hd.
    { destruct (pst_fence_token r); simpl; [eauto|]. unfold u64_max. lia. }
    split_and!; [lia..|]. intros q [Hq|Hq]%elem_of_app Hnode.
    + destruct (Hall q Hq Hnode) as [H1 H2]. split; [lia|]. intros t Ht. specialize (H2 t Ht). lia.
    + apply list_elem_of_singleton in Hq as ->. split; [lia|]. intros t ->. simpl. lia.
  - split_and!; [done..|]. intros q [Hq|Hq]%elem_of_app Hnode; [by apply Hall|].
    apply list_elem_of_singleton in Hq as ->. congruence.
Qed.
Lemma tick_file {E} w w' (x : result E N) :
  tick w = (w', x) -> host_contents w' = host_contents w /\ exists now, x = Ok now /\ (now <= u64_max)%N.
Proof.
  unfold tick, now_millis. pose proof (host_unix_millis_file w) as Hf. destruct (host_unix_millis w) as [w1 now].
  intros [= <- <-]. split; [done|]. exists (N.min now u64_max). split; [done|]. lia.
Qed.

(** What a recovery promises for the records the journal holds. *)
Record supersedes (node_id : string) rs (rec : RecoveryState) : Prop := {
  sup_epoch : forall r, r ∈ rs -> pst_node_id r = node_id ->
    (pst_node_epoch r < rec_node_epoch rec)%N \/ rec_node_epoch rec = u64_max;
  sup_fence : forall r t, r ∈ rs -> pst_node_id r = node_id -> pst_fence_token r = Some t ->
    (t < rec_next_fence_token rec)%N \/ rec_next_fence_token rec = u64_max;
  sup_bounds : (rec_node_epoch rec <= u64_max)%N /\ (1 <= rec_next_fence_token rec <= u64_max)%N;
  sup_processes : forall p, p ∈ rec_runtime_processes rec <-> outstanding node_id rs p;
}.
Definition started_record (now : N) (node_id : string) (epoch : N) : PersistedRuntimeRecord :=
  mk_persisted now (event_name KernelStarted) node_id epoch None None None "KERNEL_EPOCH_STARTED" None None.

Lemma begin_epoch_ok node w rs w' rec : clean w rs -> begin_epoch node w = (w', Ok rec) ->
  supersedes node rs rec /\ exists now, clean w' (rs ++ [started_record now node (rec_node_epoch rec)]).
Proof.
  intros Hc. unfold begin_epoch, mbind, ste_bind.
  destruct (recover node w) as [w1 [rc|e]] eqn:Hrec; [|done].
  assert (clean w1 rs) as Hc1 by (by eapply clean_file; [eapply recover_file|]).
  destruct (recover_holds node w rs (clean_holds _ _ Hc) _ _ Hrec) as [[= ->]|(e & _ & ?)]; [|done].
  destruct (tick w1) as [w2 x] eqn:Ht1. apply tick_file in Ht1 as (Hf1 & now1 & -> & Hn1).
  destruct (tick w2) as [w3 x] eqn:Ht2. apply tick_file in Ht2 as (Hf2 & now2 & -> & Hn2).
  destruct (replay_bounds node rs (proj1 Hc)) as (He & Hf & Hall).
  destruct (append_persisted _ w3) as [w4 [[]|e]] eqn:Ha; [|done]. intros [= <- <-]. simpl.
  assert (clean w3 rs) as Hc3 by (by eapply clean_file; [exact Hf2|eapply clean_file]).
  assert (1 <= u64_max)%N as Hmax by (unfold u64_max; lia).
  split; [|exists now2; eapply append_ok; [exact Hc3| |exact Ha]].
  - split; simpl.
    + intros r Hr Hn. destruct (Hall r Hr Hn) as [Hle _]. unfold u64_saturating_add. lia.
    + intros r t Hr Hn Ht. destruct (Hall r Hr Hn) as [_ Hle]. specialize (Hle t Ht). unfold u64_saturating_add. lia.
    + unfold u64_saturating_add. lia.
    + intros p. rewrite elem_of_btree_values. setoid_rewrite replay_lookup. naive_solver.
  - unfold persisted_in_range, u64; simpl. pose proof (u64_saturating_add_le (rg_node_epoch (replay node rs)) 1). lia.
Qed.

(** A new epoch supersedes everything the journal holds for the node: it is
    later than every recorded epoch and its first fence token is above every
    recorded token, short of saturation at [u64::MAX]; both fit their type, and
    the recovered processes are exactly those whose launch was recorded with
    nothing after it that ends them.  The file then also holds the new epoch. *)
Theorem epoch_supersedes node w rs w' rec : clean w rs -> begin_epoch node w = (w', Ok rec) ->
  supersedes node rs rec /\ exists now, clean w' (rs ++ [started_record now node (rec_node_epoch rec)]).
Proof. apply begin_epoch_ok. Qed.
End operations.

(** ** Classification accounts for everything *)
Lemma omap_none {A B} (f : A -> option B) (l : list A) : (forall x, x ∈ l -> f x = None) -> omap f l = [].
Proof. induction l as [|x l IH]; intros Hf; [done|]. csimpl. rewrite Hf, IH; set_solver. Qed.
Section classification.
Context (recovery : RecoveryState).
Abbreviation records := (rec_runtime_processes recovery).

Definition unmatched (matched : list bool) (rs : list RuntimeProcessRecord) : list RuntimeProcessRecord :=
  omap (fun '(m, r) => if m : bool then None else Some r) (zip matched rs).
Definition verified (c : RecoveryCandidate) (P : RuntimeProcessRecord -> Prop) : Prop :=
  exists r ev, cand_record c = Some r /\ cand_observed c = Some ev /\ rp_runtime_evidence r = Some ev /\ P r.
(** The meaning of a verdict: only exact evidence is verified, and by epoch. *)
Definition verdict_ok (c : RecoveryCandidate) : Prop :=
  match cand_classification c with
  | CStale => verified c (fun r => rp_node_epoch r < rec_node_epoch recovery)%N
  | CValid => verified c (fun r => rec_node_epoch recovery <= rp_node_epoch r)%N
  | CForeign => cand_record c = None /\ is_Some (cand_observed c)
  | CUnknown => is_Some (cand_record c) /\ cand_observed c = None
  end.

Lemma unmatched_insert matched rs i r :
  zip matched rs !! i = Some (false, r) ->
  unmatched matched rs ≡ₚ r :: unmatched (<[i := true]> matched) rs.
Proof.
  revert rs i. induction matched as [|m matched IH]; intros [|q rs] i Hi; try done.
  destruct i as [|i]; simpl in *; [by simplify_eq|]. specialize (IH rs i Hi).
  unfold unmatched in *. destruct m; simpl; rewrite IH; [done|]. apply Permutation_swap.
Qed.
Lemma find_unmatched_Some matched current i m r :
  find_unmatched records matched current = Some (i, (m, r)) ->
  zip matched records !! i = Some (false, r) /\ rp_runtime_evidence r = Some current.
Proof. unfold find_unmatched. rewrite list_find_Some. naive_solver. Qed.

Lemma classify_observed_spec observed matched matched' cs :
  classify_observed recovery matched observed = (matched', cs) ->
  omap cand_observed cs = observed /\ Forall verdict_ok cs /\ length matched' = length matched /\
  omap cand_record cs ++ unmatched matched' records ≡ₚ unmatched matched records /\
  Forall (fun c => cand_classification c <> CUnknown) cs.
Proof.
  revert matched matched' cs. induction observed as [|current observed IH]; intros matched matched' cs; simpl.
  { intros [= <- <-]. done. }
  destruct (find_unmatched records matched current) as [[i [m r]]|] eqn:Hfind.
  - apply find_unmatched_Some in Hfind as [Hzip Hev].
    destruct (classify_observed recovery (<[i := true]> matched) observed) as [m1 cs1] eqn:Hrest.
    intros [= <- <-]. apply IH in Hrest as (Hobs & Hok & Hlen & Hperm & Hno).
    csimpl. rewrite length_insert in Hlen. rewrite Hobs. split_and!; [done| |done| |].
    + constructor; [|done]. unfold verdict_ok, verified.
      destruct (N.ltb_spec (rp_node_epoch r) (rec_node_epoch recovery)); simpl; eauto 8.
    + by rewrite Hperm, <- (unmatched_insert _ _ _ _ Hzip).
    + constructor; [|done]. simpl. by case_match.
  - destruct (classify_observed recovery matched observed) as [m1 cs1] eqn:Hrest.
    intros [= <- <-]. apply IH in Hrest as (Hobs & Hok & Hlen & Hperm & Hno).
    csimpl. rewrite Hobs. split_and!; [done| |done|done|]; constructor; try done.
Qed.

(** A foreign process matches no record. *)
Lemma classify_observed_foreign observed matched :
  length matched = length records -> NoDup observed ->
  (forall i r, zip matched records !! i = Some (true, r) -> exists ev, rp_runtime_evidence r = Some ev /\ ev ∉ observed) ->
  Forall (fun c => cand_classification c = CForeign -> forall r, r ∈ records -> rp_runtime_evidence r <> cand_observed c)
    (classify_observed recovery matched observed).2.
Proof.
  revert matched. induction observed as [|current observed IH]; intros matched Hlen Hnd Hm; [constructor|]. simpl.
  apply NoDup_cons in Hnd as [Hcur Hnd].
  destruct (find_unmatched records matched current) as [[i [m r]]|] eqn:Hfind.
  - apply find_unmatched_Some in Hfind as [Hzip Hev].
    specialize (IH (<[i := true]> matched)). rewrite length_insert in IH.
    destruct (classify_observed recovery (<[i := true]> matched) observed) as [m1 cs1]. simpl in *.
    constructor; [simpl; by case_match|]. apply IH; [done|done|]. intros j q Hj.
    apply lookup_zip_Some in Hj as [Hj Hq]. apply lookup_zip_Some in Hzip as [Hi Hr].
    destruct (decide (i = j)) as [<-|Hne]; [|rewrite list_lookup_insert_ne in Hj by done].
    + exists current. split; [congruence|done].
    + destruct (Hm j q) as (ev & He & Hni); [by apply lookup_zip_Some|]. exists ev. set_solver.
  - specialize (IH matched Hlen Hnd).
    destruct (classify_observed recovery matched observed) as [m1 cs1]. simpl in *.
    constructor; [|apply IH; intros j q Hj; destruct (Hm j q Hj) as (ev & He & Hni); exists ev; set_solver].
    intros _ r Hr Hev. apply list_elem_of_lookup in Hr as [j Hj].
    assert (is_Some (matched !! j)) as [b Hb].
    { apply lookup_lt_is_Some. rewrite Hlen. by eapply lookup_lt_Some. }
    unfold find_unmatched in Hfind. apply list_find_None in Hfind. rewrite Forall_lookup in Hfind.
    assert (zip matched records !! j = Some (b, r)) as Hz by (by apply lookup_zip_Some).
    destruct b.
    + destruct (Hm j r Hz) as (ev & He & Hni). simpl in Hev. rewrite He in Hev. simplify_eq. set_solver.
    + by apply (Hfind j _ Hz).
Qed.

Lemma unknown_records (z : list (bool * RuntimeProcessRecord)) :
  omap cand_record (omap (fun '(m, record) => if m : bool then None
                      else Some (mk_candidate CUnknown (Some record) None)) z) =
  omap (fun '(m, r) => if m : bool then None else Some r) z.
Proof. induction z as [|[[] r] z IH]; [done|exact IH|]. csimpl. by rewrite IH. Qed.

Lemma classify_recovery_spec observed :
  let cs := classify_recovery recovery observed in
  omap cand_observed cs = observed /\ omap cand_record cs ≡ₚ records /\ Forall verdict_ok cs /\
  (NoDup observed -> Forall (fun c => cand_classification c = CForeign ->
     forall r, r ∈ records -> rp_runtime_evidence r <> cand_observed c) cs).
Proof.
  unfold classify_recovery. set (start := replicate (length records) false).
  assert (unmatched start records = records) as Hstart.
  { unfold start, unmatched. induction records as [|r rs IH]; [done|]. csimpl. by rewrite IH. }
  assert (forall i r, zip start records !! i = Some (true, r) -> False) as Hfalse.
  { intros i r [Hi _]%lookup_zip_Some. by apply lookup_replicate in Hi as [? _]. }
  pose proof (classify_observed_foreign observed start (length_replicate _ _)) as Hfor.
  destruct (classify_observed recovery start observed) as [m cs] eqn:Hc.
  apply classify_observed_spec in Hc as (Hobs & Hok & Hlen & Hperm & _). rewrite Hstart in Hperm. simpl in Hfor.
  set (rest := omap _ (zip m records)).
  assert (forall c, c ∈ rest -> exists r, c = mk_candidate CUnknown (Some r) None) as Hrest.
  { intros c. unfold rest. rewrite list_elem_of_omap. intros ([[] r] & _ & [= <-]). by exists r. }
  split_and!.
  - rewrite omap_app, Hobs. rewrite (omap_none cand_observed rest); [by rewrite app_nil_r|].
    by intros c (r & ->)%Hrest.
  - rewrite omap_app, <- Hperm. apply Permutation_app_head. unfold rest, unmatched.
    apply reflexive_eq, unknown_records.
  - apply Forall_app. split; [done|]. apply Forall_forall. intros c (r & ->)%Hrest. by split; [eexists|].
  - intros Hnd. apply Forall_app. split; [apply Hfor; [done|]; by intros i r Hi%Hfalse|].
    apply Forall_forall. by intros c (r & ->)%Hrest.
Qed.

(** The classification of leftover processes accounts for everything: each
    process the sandbox observed gets one verdict, in order, each recorded
    process gets one, a stale or valid verdict needs evidence equal to the
    recorded one (pid, start time and cgroup) and is decided by the epoch, and a
    process called foreign matches no record. *)
Theorem classification_accounts observed :
  let cs := classify_recovery recovery observed in
  omap cand_observed cs = observed /\ omap cand_record cs ≡ₚ records /\ Forall verdict_ok cs /\
  (NoDup observed -> Forall (fun c => cand_classification c = CForeign ->
     forall r, r ∈ records -> rp_runtime_evidence r <> cand_observed c) cs).
Proof. apply classify_recovery_spec. Qed.
End classification.

(** ** The restart boundary *)
Lemma outstanding_app node a b p : outstanding node (a ++ b) p -> (forall r, r ∈ b -> ~ launches node r p) ->
  outstanding node a p /\ Forall (fun r => ~ closes node p r) b.
Proof.
  induction b as [|r b IH] using rev_ind; intros Ho Hb; [by rewrite app_nil_r in Ho|].
  rewrite app_assoc in Ho. apply outstanding_snoc in Ho as [Hl|[Ho Hc]]; [by apply Hb in Hl; set_solver|].
  destruct IH as [Ha Hall]; [done|set_solver|]. split; [done|]. apply Forall_app. by repeat constructor.
Qed.

Section boundary.
Context {W : Type} `{JournalHost W} `{JournalCodec}.
Implicit Types (w : W) (rs : list PersistedRuntimeRecord).

(** The end of a process: the sandbox terminated the process with the recorded
    evidence and reported a complete cleanup, and [t] records it under the epoch. *)
Record closing (node_id : string) (epoch : N) (p : RuntimeProcessRecord) (ev : RuntimeProcessEvidence)
    (t : PersistedRuntimeRecord) : Prop := {
  cl_evidence : rp_runtime_evidence p = Some ev;
  cl_cleanup : exists w w' cleanup, host_recover_stale_process ev w = (w', Ok cleanup) /\
    cr_complete cleanup = true /\ pst_reason_code t = cr_reason_code cleanup;
  cl_event : pst_event t = "INSTANCE_TERMINATED";
  cl_node : pst_node_id t = node_id /\ pst_node_epoch t = epoch;
  cl_process : pst_instance_name t = Some (rp_instance_name p) /\ pst_lease_name t = rp_lease_name p /\
    pst_fence_token t = rp_fence_token p;
}.
Definition token_in_range (p : RuntimeProcessRecord) : bool := all_some u64 (rp_fence_token p).

Lemma closing_closes node epoch p ev t : closing node epoch p ev t -> closes node p t.
Proof.
  intros [_ _ He [Hn _] [Hi _]]. split; [done|]. exists (rp_instance_name p). split; [done|].
  right. split; [by left|by left].
Qed.
Lemma closing_not_launch node node' epoch p q ev t : closing node epoch p ev t -> ~ launches node' t q.
Proof. intros [_ _ He _ _] (_ & He' & _). by rewrite He in He'. Qed.

Lemma append_record_ok record w w' rs : clean w rs -> u64 (rj_node_epoch record) = true ->
  all_some u64 (rj_fence_token record) = true -> rj_runtime_evidence record = None ->
  append record w = (w', Ok tt) -> exists now, clean w' (rs ++ [persist_record now record]).
Proof.
  intros Hc He Hf Hn. unfold append, mbind, ste_bind, map_error.
  destruct (tick w) as [w1 x] eqn:Ht. apply tick_file in Ht as (Hfile & now & -> & Hnow).
  destruct (append_persisted _ w1) as [w2 [[]|e]] eqn:Ha; [|done]. intros [= <-]. exists now.
  eapply append_ok; [by eapply clean_file| |exact Ha].
  unfold persisted_in_range, persist_record. simpl. rewrite He, Hf, Hn. unfold u64. simpl. lia.
Qed.

(** What leaves the list of reaped processes alone. *)
Lemma tick_reaped {E} w : host_reaped (tick (E := E) w).1 = host_reaped w.
Proof.
  unfold tick, now_millis. pose proof (host_unix_millis_reaped w). by destruct (host_unix_millis w).
Qed.
Lemma append_persisted_reaped r w : host_reaped (append_persisted r w).1 = host_reaped w.
Proof.
  unfold append_persisted, mbind, ste_bind. pose proof (host_open_append_reaped w) as H1.
  destruct (host_open_append w) as [w1 [[]|e]]; [|done].
  pose proof (host_write_all_reaped (encode_record r) w1) as H2. destruct (host_write_all _ w1) as [w2 [[]|e]]; [|simpl in *; congruence].
  pose proof (host_write_all_reaped [newline] w2) as H3. destruct (host_write_all _ w2) as [w3 [[]|e]]; [|simpl in *; congruence].
  rewrite host_sync_data_reaped. simpl in *. congruence.
Qed.
Lemma append_reaped record w : host_reaped (append record w).1 = host_reaped w.
Proof.
  unfold append, mbind, ste_bind, map_error. pose proof (tick_reaped (E := ProviderError) w) as H1.
  destruct (tick w) as [w1 [now|e]]; [|done]. rewrite <- H1. simpl.
  pose proof (append_persisted_reaped (persist_record now record) w1) as H2. by destruct (append_persisted _ w1).
Qed.
Lemma begin_epoch_reaped node w : host_reaped (begin_epoch node w).1 = host_reaped w.
Proof.
  unfold begin_epoch, mbind, ste_bind.
  assert (host_reaped (recover node w).1 = host_reaped w) as H1.
  { unfold recover, mbind, ste_bind, gets. destruct (host_contents w); [|done]. pose proof (host_read_reaped w) as Hr.
    destruct (host_read_to_string w) as [w1 [bs|e]]; [|done]. unfold lift. by destruct (recover_lines _ _ _ _). }
  destruct (recover node w) as [w1 [rc|e]]; [|done]. rewrite <- H1. cbn [fst].
  pose proof (tick_reaped (E := string) w1) as H2. destruct (tick w1) as [w2 [now|e]]; [|done]. rewrite <- H2. cbn [fst].
  pose proof (tick_reaped (E := string) w2) as H3. destruct (tick w2) as [w3 [now'|e]]; [|done]. rewrite <- H3. cbn [fst].
  match goal with |- context [append_persisted ?r w3] => pose proof (append_persisted_reaped r w3) as H4;
    by destruct (append_persisted r w3) as [w4 [[]|e]] end.
Qed.

Lemma recover_candidates_ok recovery node cs b w w' rs : clean w rs -> u64 (rec_node_epoch recovery) = true ->
  Forall (verdict_ok recovery) cs ->
  Forall (fun c => forall p, cand_record c = Some p -> token_in_range p = true) cs ->
  recover_candidates node (rec_node_epoch recovery) b cs w = (w', Ok None) ->
  b = None /\ exists evs ts, clean w' (rs ++ ts) /\ host_reaped w' = host_reaped w ++ evs /\
    Forall3 (closing node (rec_node_epoch recovery)) (omap cand_record cs) evs ts.
Proof.
  intros Hc He. revert b w rs Hc. induction cs as [|c cs IH]; intros b w rs Hc Hv Htok.
  { intros [= <- ->]. split; [done|]. exists [], []. rewrite !app_nil_r. by split_and!; [| |constructor]. }
  apply Forall_cons in Htok as [Hp Htok]. apply Forall_cons in Hv as [Hv Hvs]. simpl. unfold mbind, ste_bind.
  destruct (recover_candidate node (rec_node_epoch recovery) b c w) as [w1 [b1|e]] eqn:H1; [|done]. intros Hrest.
  unfold recover_candidate in H1. unfold verdict_ok in Hv.
  destruct (cand_classification c);
    try (injection H1 as <- <-; by destruct (IH _ _ _ Hc Hvs Htok Hrest) as [? _]).
  destruct Hv as (p & ev & Hrec & Hobs & Hev & _). csimpl. rewrite Hrec in *. rewrite Hobs in H1.
  unfold mbind, ste_bind in H1. pose proof (host_recover_stale_reaped ev w) as Hr2.
  destruct (host_recover_stale_process ev w) as [w2 [cleanup|e]] eqn:H2; [|done].
  pose proof (append_reaped (terminal_record node (rec_node_epoch recovery) p cleanup) w2) as Hr3.
  destruct (append (terminal_record node (rec_node_epoch recovery) p cleanup) w2) as [w3 [[]|e]] eqn:H3; [|done].
  unfold require, lift, ensure in H1. destruct (cr_complete cleanup) eqn:Hcc; [|done]. injection H1 as <- <-.
  apply (append_record_ok _ _ _ rs) in H3 as [now H3];
    [|eapply clean_file; [by eapply host_recover_stale_file|done]|done|by apply Hp|done].
  destruct (IH _ _ _ H3 Hvs Htok Hrest) as [-> (evs & ts & Hts & Hreap & Hall)]. split; [done|].
  eexists (ev :: evs), (_ :: ts). rewrite cons_middle, app_assoc. split; [exact Hts|]. split.
  - simpl in Hr2, Hr3. by rewrite Hreap, Hr3, Hr2, <- app_assoc.
  - constructor; [|done]. split; try done; [by exists w, w2, cleanup|].
    unfold persist_record, terminal_record. simpl. by rewrite Hcc.
Qed.

(** C12: a restart that succeeds has closed every process of the previous epoch.
    The sandbox was asked to terminate the recorded processes, each under exactly
    the recorded evidence, and nothing else, and reported each cleanup complete.
    Everything the journal held is still there; it is followed by the record of
    the new epoch and one terminal record for each of these processes, and
    recovery from the result knows no running process. *)
Theorem restart_closes_every_process node w rs w' rec : clean w rs -> restart node w = (w', Ok rec) ->
  supersedes node rs rec /\
  exists now processes evs ts,
    processes ≡ₚ rec_runtime_processes rec /\
    Forall3 (closing node (rec_node_epoch rec)) processes evs ts /\
    host_reaped w' = host_reaped w ++ evs /\
    clean w' (rs ++ started_record now node (rec_node_epoch rec) :: ts) /\
    rec_runtime_processes (recovered (replay node (rs ++ started_record now node (rec_node_epoch rec) :: ts))) = [].
Proof.
  intros Hc. unfold restart, mbind, ste_bind. pose proof (begin_epoch_reaped node w) as Hr1.
  destruct (begin_epoch node w) as [w1 [rec1|e]] eqn:Hb; [|done].
  destruct (begin_epoch_ok _ _ _ _ _ Hc Hb) as [Hsup [now Hc1]]. unfold map_error.
  destruct (recover_before_listeners node rec1 w1) as [w2 [[]|e]] eqn:Hl; [|done]. intros [= <- <-].
  split; [done|]. unfold recover_before_listeners, mbind, ste_bind in Hl. pose proof (host_discover_reaped w1) as Hr2.
  destruct (host_discover_recovery_processes w1) as [w3 [observed|e]] eqn:Hd; [|done].
  destruct (recover_candidates _ _ _ _ w3) as [w4 [[reason|]|e]] eqn:Hr; [done| |done]. injection Hl as <-.
  destruct (classify_recovery_spec rec1 observed) as (_ & Hperm & Hok & _).
  assert (forall p, p ∈ rec_runtime_processes rec1 -> token_in_range p = true) as Htok.
  { intros p (pre & r & post & -> & (_ & _ & _ & ->) & _)%(sup_processes _ _ _ Hsup).
    destruct Hc as [Hrange _]. apply Forall_app in Hrange as [_ [Hrange _]%Forall_cons].
    unfold persisted_in_range in Hrange. unfold token_in_range. simpl.
    destruct (all_some u64 (pst_fence_token r)); [done|]. lia. }
  apply (recover_candidates_ok _ _ _ _ _ _ (rs ++ [started_record now node (rec_node_epoch rec1)])) in Hr
    as [_ (evs & ts & Hts & Hreap & Hall)]; [| | |done|].
  2:{ eapply clean_file; [by eapply host_discover_file|done]. }
  2:{ unfold u64. pose proof (sup_bounds _ _ _ Hsup). lia. }
  2:{ apply Forall_forall. intros c Hin p Hp. apply Htok. rewrite <- Hperm. apply list_elem_of_omap. eauto. }
  exists now, (omap cand_record (classify_recovery rec1 observed)), evs, ts.
  rewrite cons_middle, app_assoc. simpl in Hr1, Hr2. split_and!; [done|done|congruence|exact Hts|].
  apply elem_of_nil_inv. intros p. simpl. rewrite elem_of_btree_values. intros [n (Ho & _)%replay_lookup].
  rewrite <- app_assoc in Ho. apply outstanding_app in Ho as [Ho Hnone].
  - apply Forall_app in Hnone as [_ Hnone]. apply (sup_processes _ _ _ Hsup) in Ho. rewrite <- Hperm in Ho.
    apply list_elem_of_lookup in Ho as [i Hi]. destruct (Forall3_lookup_l _ _ _ _ _ _ Hall Hi) as (ev & t & _ & Ht & Hcl).
    rewrite Forall_lookup in Hnone. apply (Hnone i t Ht). by eapply closing_closes.
  - intros r [Hr|Hr]%elem_of_app; [apply list_elem_of_singleton in Hr as ->; intros (_ & ? & _); done|].
    apply list_elem_of_lookup in Hr as [i Hi]. destruct (Forall3_lookup_r _ _ _ _ _ _ Hall Hi) as (q & ev & _ & _ & Hcl).
    by eapply closing_not_launch.
Qed.

Lemma recover_candidate_reaped recovery node b c w : verdict_ok recovery c ->
  exists evs, host_reaped (recover_candidate node (rec_node_epoch recovery) b c w).1 = host_reaped w ++ evs /\
    Forall (fun ev => exists p, cand_record c = Some p /\ rp_runtime_evidence p = Some ev /\
              (rp_node_epoch p < rec_node_epoch recovery)%N) evs.
Proof.
  intros Hv. unfold recover_candidate, verdict_ok in *.
  destruct (cand_classification c); try (exists []; rewrite app_nil_r; by split; [|constructor]).
  destruct Hv as (p & ev & -> & -> & Hev & Hep). exists [ev]. split.
  - unfold mbind, ste_bind. pose proof (host_recover_stale_reaped ev w) as H1.
    destruct (host_recover_stale_process ev w) as [w1 [cleanup|e]]; [|done]. simpl in H1. rewrite <- H1.
    pose proof (append_reaped (terminal_record node (rec_node_epoch recovery) p cleanup) w1) as H2.
    destruct (append _ w1) as [w2 [[]|e]]; [|done]. simpl in H2. rewrite <- H2.
    unfold require, lift, ensure. by destruct (cr_complete cleanup).
  - repeat constructor. by exists p.
Qed.
Lemma recover_candidates_reaped recovery node cs b w : Forall (verdict_ok recovery) cs ->
  exists evs, host_reaped (recover_candidates node (rec_node_epoch recovery) b cs w).1 = host_reaped w ++ evs /\
    Forall (fun ev => exists p, p ∈ omap cand_record cs /\ rp_runtime_evidence p = Some ev /\
              (rp_node_epoch p < rec_node_epoch recovery)%N) evs.
Proof.
  revert b w. induction cs as [|c cs IH]; intros b w; [exists []; rewrite app_nil_r; by split; [|constructor]|].
  intros [Hc Hcs]%Forall_cons. destruct (recover_candidate_reaped recovery node b c w Hc) as (evs & Hr & Hevs).
  cbn [recover_candidates]. unfold mbind, ste_bind.
  assert (Forall (fun ev => exists p, p ∈ omap cand_record (c :: cs) /\ rp_runtime_evidence p = Some ev /\
              (rp_node_epoch p < rec_node_epoch recovery)%N) evs) as Hevs'.
  { eapply Forall_impl; [exact Hevs|]. intros ev (p & Hp & ?). exists p. split; [|done].
    apply list_elem_of_omap. exists c. split; [set_solver|done]. }
  destruct (recover_candidate node (rec_node_epoch recovery) b c w) as [w1 [b1|e]]; [|by exists evs].
  destruct (IH b1 w1 Hcs) as (evs' & Hr' & Hall). exists (evs ++ evs'). simpl in Hr.
  split; [by rewrite Hr', Hr, app_assoc|]. apply Forall_app. split; [done|].
  eapply Forall_impl; [exact Hall|]. intros ev (p & Hp & ?). exists p. split; [|done].
  apply list_elem_of_omap in Hp as (d & Hd & ?). apply list_elem_of_omap. exists d. split; [set_solver|done].
Qed.

(** Restart recovery terminates only processes it can prove to be its own
    and stale: whatever the outcome, each process the sandbox was asked to
    terminate has exactly the evidence of a recorded process of an earlier
    epoch.  Unknown, foreign and current processes are never touched. *)
Theorem recovery_reaps_only_recorded node recovery w :
  exists evs, host_reaped (recover_before_listeners node recovery w).1 = host_reaped w ++ evs /\
    Forall (fun ev => exists p, p ∈ rec_runtime_processes recovery /\ rp_runtime_evidence p = Some ev /\
              (rp_node_epoch p < rec_node_epoch recovery)%N) evs.
Proof.
  unfold recover_before_listeners, mbind, ste_bind. pose proof (host_discover_reaped w) as H1.
  destruct (host_discover_recovery_processes w) as [w1 [observed|e]]; simpl in H1; rewrite <- H1;
    [|exists []; rewrite app_nil_r; by split; [|constructor]].
  destruct (classify_recovery_spec recovery observed) as (_ & Hperm & Hok & _).
  destruct (recover_candidates_reaped recovery node _ None w1 Hok) as (evs & Hr & Hevs). exists evs. split.
  - rewrite <- Hr. destruct (recover_candidates _ _ _ _ w1) as [w2 [[reason|]|e]]; done.
  - eapply Forall_impl; [exact Hevs|]. intros ev (p & Hp & ?). exists p. split; [|done]. by rewrite <- Hperm.
Qed.
End boundary.
