(* ===== verification/JournalReplay.v ===== *)
(** * The journal as an event store, and the end of a torn journal

    The journal is also the durable event store of the authority: what was
    published is what replay returns.  The last part shows what a restart on a
    journal with a torn last line leads to. *)
From stdpp Require Import base gmap strings list sorting pretty.
From Stdlib Require Import Ascii Lia ZifyBool ZifyN.
From S2P Require Import Prelude Validation Contract KernelApi RuntimeJournal JournalSpec.

(** ** Publishing and replay *)
Inductive entry :=
| Lifecycle (record : RuntimeJournalRecord)
| Published (event : DurableEventRecord).
Definition published (e : entry) : option DurableEventRecord :=
  match e with Published event => Some event | Lifecycle _ => None end.
Definition entry_in_range (e : entry) : bool :=
  match e with
  | Lifecycle r => u64 (rj_node_epoch r) && all_some u64 (rj_fence_token r)
                   && all_some evidence_in_range (rj_runtime_evidence r)
  | Published event => event_in_range (der_event event)
  end.
(** In each stream (namespace and source) the sequence grows. *)
Definition sequences_grow (events : list DurableEventRecord) : Prop :=
  forall i j e e', i < j -> events !! i = Some e -> events !! j = Some e' ->
    stream_key e = stream_key e' -> (ev_sequence (der_event e) < ev_sequence (der_event e'))%N.
Lemma sequences_grow_cons e events : sequences_grow (e :: events) <->
  (forall e', e' ∈ events -> stream_key e = stream_key e' ->
     (ev_sequence (der_event e) < ev_sequence (der_event e'))%N) /\ sequences_grow events.
Proof.
  unfold sequences_grow. split.
  - intros Hg. split.
    + intros e' [j Hj]%list_elem_of_lookup Hk. by apply (Hg 0 (S j) e e'); [lia|..].
    + intros i j a b Hij Ha Hb. apply (Hg (S i) (S j)); [lia|done..].
  - intros [Hhead Htail] [|i] [|j] a b Hij Ha Hb Hk; simpl in *; try lia.
    + injection Ha as <-. apply Hhead; [by eapply list_elem_of_lookup_2|done].
    + apply (Htail i j); [lia|done..].
Qed.

Section store.
Context {W : Type} `{JournalHost W} `{JournalCodec}.
Implicit Types w : W.

Definition append_entry (e : entry) : STE W ProviderError unit :=
  match e with Lifecycle record => append record | Published event => append_event event end.

(** The line an entry becomes, and what the append checked of it. *)
Definition line_of (e : entry) (t : PersistedRuntimeRecord) : Prop :=
  match e with
  | Lifecycle record => exists now, t = persist_record now record
  | Published event => (exists now, t = persist_event now event) /\
      is_ok (NamespaceId_new (der_namespace event)) = true /\ Event_validate (der_event event) = Ok tt
  end.

Lemma append_entry_ok e w w' rs : clean w rs -> entry_in_range e = true ->
  append_entry e w = (w', Ok tt) -> exists t, clean w' (rs ++ [t]) /\ line_of e t.
Proof.
  intros Hc Hr. destruct e as [record|event]; simpl.
  - unfold append, mbind, ste_bind, map_error. destruct (tick w) as [w1 x] eqn:Ht.
    apply tick_file in Ht as (Hf & now & -> & Hnow).
    destruct (append_persisted _ w1) as [w2 [[]|e]] eqn:Ha; [|done]. intros [= <-].
    eexists. split; [|by exists now]. eapply append_ok; [by eapply clean_file| |exact Ha].
    simpl in Hr. unfold persisted_in_range, persist_record. simpl. unfold evidence_in_range in Hr.
    destruct (rj_runtime_evidence record); simpl in *; unfold u64 in *; lia.
  - unfold append_event, mbind, ste_bind, lift, map_error.
    destruct (NamespaceId_new (der_namespace event)) as [ns|] eqn:Hns; [|done].
    destruct (Event_validate (der_event event)) as [[]|] eqn:Hv; [|done]. simpl.
    destruct (tick w) as [w1 x] eqn:Ht. apply tick_file in Ht as (Hf & now & -> & Hnow).
    destruct (append_persisted _ w1) as [w2 [[]|e]] eqn:Ha; [|done]. intros [= <-].
    eexists. split; [|split; [by exists now|done]]. eapply append_ok; [by eapply clean_file| |exact Ha].
    simpl in Hr. unfold event_in_range, u64 in Hr. unfold persisted_in_range, u64. simpl. unfold u64. lia.
Qed.
Lemma append_entries_ok es w w' rs : clean w rs -> Forall (fun e => entry_in_range e = true) es ->
  for_each append_entry es w = (w', Ok tt) -> exists ts, clean w' (rs ++ ts) /\ Forall2 line_of es ts.
Proof.
  revert w rs. induction es as [|e es IH]; intros w rs Hc Hr; simpl; unfold mbind, ste_bind.
  { intros [= <-]. exists []. rewrite app_nil_r. by split; [|constructor]. }
  apply Forall_cons in Hr as [Hr Hrs]. destruct (append_entry e w) as [w1 [[]|err]] eqn:Ha; [|done].
  intros Hrest. destruct (append_entry_ok _ _ _ _ Hc Hr Ha) as (t & Ht & Hl).
  destruct (IH _ _ Ht Hrs Hrest) as (ts & Hts & Hall). exists (t :: ts).
  rewrite cons_middle, app_assoc. split; [done|by constructor].
Qed.

Lemma replay_record_line e t : line_of e t -> replay_record t = Ok (published e).
Proof.
  destruct e as [record|event]; simpl.
  - intros [now ->]. unfold replay_record. simpl. destruct (rj_event record); reflexivity.
  - intros ((now & ->) & Hns & Hv). unfold replay_record. simpl.
    destruct (NamespaceId_new (der_namespace event)); [|done]. simpl.
    destruct event as [ns [seq [sid sgen] [] ? ? ? ?]]. simpl in *.
    rewrite Hv. simpl. rewrite bool_decide_true, N.eqb_refl by done. done.
Qed.

Lemma replay_lines_ok source ns t es ts prev : in_range ts -> Forall2 line_of es ts ->
  sequences_grow (omap published es) ->
  (forall e n, e ∈ omap published es -> prev !! stream_key e = Some n -> (n < ev_sequence (der_event e))%N) ->
  replay_lines source ns t prev (encode_record <$> ts) =
  Ok (filter (fun e => der_namespace e = ns /\ ev_source (der_event e) = source) (omap published es)).
Proof.
  intros Hr Hall. revert prev. induction Hall as [|e t' es ts Hl Hall IH]; intros prev Hg Hp; [done|].
  apply Forall_cons in Hr as [Hr Hrs]. cbn [replay_lines fmap list_fmap]. rewrite decode_encode by done.
  cbn [mbind result_bind]. rewrite (replay_record_line e t' Hl). cbn [mbind result_bind].
  destruct e as [record|event]; [by apply IH|]. csimpl in *.
  apply sequences_grow_cons in Hg as [Hhead Hg].
  assert (is_some_and (fun previous => ev_sequence (der_event event) <=? previous)%N (prev !! stream_key event) = false) as ->.
  { destruct (prev !! stream_key event) as [n|] eqn:Hn; [|done]. simpl. specialize (Hp event n). set_unfold. specialize (Hp (or_introl eq_refl) Hn). lia. }
  rewrite IH; [|done|done|].
  - cbn [mbind result_bind]. rewrite filter_cons. by repeat case_decide.
  - intros e n He. destruct (decide (stream_key event = stream_key e)) as [Hk|Hk].
    + rewrite Hk, lookup_insert_eq. intros [= <-]. by apply Hhead.
    + rewrite lookup_insert_ne by done. apply Hp. set_solver.
Qed.

(** C14: what was published is what replay returns: after any lifecycle records
    and events were accepted by a fresh journal, in any interleaving and with
    growing sequences in each stream, the events of a source in a namespace are
    returned unchanged, completely and in order, unless the file cannot be
    read. *)
Theorem event_store_roundtrip source ns es w w1 w2 res :
  host_contents w = None -> Forall (fun e => entry_in_range e = true) es ->
  sequences_grow (omap published es) -> for_each append_entry es w = (w1, Ok tt) ->
  events_for_source source ns w1 = (w2, res) ->
  res = Ok (Some (filter (fun e => der_namespace e = ns /\ ev_source (der_event e) = source) (omap published es)))
  \/ exists e, host_read_to_string w1 = (w2, Err e) /\
     res = Err (provider_error "runtime-journal" "JOURNAL_READ_FAILED" e).
Proof.
  intros Hn Hr Hg Ha. assert (clean w []) as Hc by (split; [constructor|by left]).
  destruct (append_entries_ok _ _ _ _ Hc Hr Ha) as (ts & [Hts Hfile] & Hall). simpl in *.
  unfold events_for_source, semantic_events_for_source, mbind, ste_bind, gets, map_error.
  destruct Hfile as [[-> ->]|Hfile].
  { inversion Hall; subst. intros [= <- <-]. by left. }
  rewrite Hfile. destruct (host_read_to_string w1) as [w3 [c|e]] eqn:Hrd;
    [|intros [= <- <-]; right; by exists e].
  pose proof (host_read_file _ _ _ Hrd) as [_ Hf]. specialize (Hf _ eq_refl). rewrite Hfile in Hf.
  injection Hf as <-. simpl. unfold lift. rewrite <- (app_nil_r (file_of ts)) at 2. rewrite lines_file. simpl.
  rewrite app_nil_r, (replay_lines_ok source ns _ es ts ∅ Hts Hall Hg) by done. intros [= <- <-]. by left.
Qed.
End store.

(** ** A torn last line

    [append_persisted] appends after whatever the file ends with. *)
Section torn.
Context {W : Type} `{JournalHost W} `{JournalCodec}.
Implicit Types (w : W) (rs : list PersistedRuntimeRecord).

Lemma append_after r w w' old : host_contents w = Some old -> append_persisted r w = (w', Ok tt) ->
  host_contents w' = Some (old ++ encode_record r ++ [newline]).
Proof.
  intros Hold. unfold append_persisted, mbind, ste_bind.
  destruct (host_open_append w) as [w1 [[]|e]] eqn:Ho; [|done].
  assert (host_contents w1 = Some old) as H1.
  { destruct (host_open_append_file _ _ _ Ho) as [->|[? _]]; [done|congruence]. }
  destruct (host_write_all (encode_record r) w1) as [w2 [[]|e]] eqn:Hw1; [|done].
  pose proof (host_write_all_ok _ _ _ _ H1 Hw1) as H2.
  destruct (host_write_all [newline] w2) as [w3 [[]|e]] eqn:Hw2; [|done].
  pose proof (host_write_all_ok _ _ _ _ H2 Hw2) as H3. intros Hs%host_sync_data_file.
  by rewrite Hs, H3, <- app_assoc.
Qed.
Lemma appends_after rs w w' old : host_contents w = Some old -> for_each append_persisted rs w = (w', Ok tt) ->
  host_contents w' = Some (old ++ file_of rs).
Proof.
  revert w old. induction rs as [|r rs IH]; intros w old Hold; simpl; unfold mbind, ste_bind.
  { intros [= <-]. by rewrite app_nil_r. }
  destruct (append_persisted r w) as [w1 [[]|e]] eqn:Ha; [|done]. intros Hrest.
  rewrite (IH w1 _ (append_after _ _ _ _ Hold Ha) Hrest). unfold file_of. simpl. by rewrite <- !app_assoc.
Qed.
(** A line that does not parse, with a newline behind it, stops recovery. *)
Lemma recover_lines_corrupt node acc rs bad ls : in_range rs -> is_err (decode_record bad) = true ->
  is_err (recover_lines node true acc ((encode_record <$> rs) ++ bad :: ls)) = true.
Proof.
  intros Hr Hbad. rewrite recover_lines_encoded by done. simpl. destruct (decode_record bad); [done|].
  by rewrite andb_false_r.
Qed.
Lemma ends_file pre r rs : ends_with_newline (pre ++ [newline] ++ file_of (r :: rs)) = true /\
  ends_with_newline (pre ++ [newline]) = true.
Proof.
  assert (forall l, ends_with_newline (l ++ [newline]) = true) as Hl.
  { intros l. apply bool_decide_eq_true. by rewrite last_snoc. }
  split; [|apply Hl]. destruct (rs) as [|q qs _] using rev_ind.
  - unfold file_of. simpl. rewrite app_nil_r, cons_middle, !app_assoc. apply Hl.
  - rewrite app_comm_cons, file_of_snoc, !app_assoc. apply Hl.
Qed.

Lemma begin_epoch_corrupt node w bs : host_contents w = Some bs ->
  is_err (recover_lines node (ends_with_newline bs) recovery_start (lines bs)) = true ->
  is_err (begin_epoch node w).2 = true.
Proof.
  intros Hf Hbad. assert (is_err (recover node w).2 = true) as Hrec.
  { unfold recover. unfold_monads. rewrite Hf. destruct (host_read_to_string w) as [w1 [c|e]] eqn:Hrd; [|done].
    pose proof (host_read_file _ _ _ Hrd) as [_ Hc]. specialize (Hc _ eq_refl). rewrite Hf in Hc. injection Hc as <-.
    by destruct (recover_lines _ _ _ _). }
  unfold begin_epoch, mbind, ste_bind. by destruct (recover node w) as [w1 [rc|e]].
Qed.
(** The file after a record was glued to torn bytes. *)
Lemma glued_corrupt node rs r p rest started rs' :
  in_range rs -> p <> [] -> encode_record r = p ++ rest ->
  let bs := (file_of rs ++ p) ++ encode_record started ++ [newline] ++ file_of rs' in
  is_err (recover_lines node (ends_with_newline bs) recovery_start (lines bs)) = true.
Proof.
  intros Hr Hp He bs. unfold bs. clear bs.
  assert (plain p) as Hpl by (pose proof (plain_encode r) as Hpe; rewrite He in Hpe; by apply plain_app in Hpe as [? _]).
  assert (plain (p ++ encode_record started)) as Hg by (apply plain_app; split; [done|apply plain_encode]).
  assert (ends_with_newline ((file_of rs ++ p) ++ encode_record started ++ [newline] ++ file_of rs') = true) as ->.
  { rewrite (app_assoc _ (encode_record started)). destruct rs' as [|q rs']; [|apply ends_file].
    rewrite app_nil_r. apply (ends_file _ started []). }
  rewrite <- app_assoc, lines_file. unfold lines. rewrite app_assoc, lines_from_plain by done.
  simpl. rewrite strip_plain by done. apply recover_lines_corrupt; [done|]. by eapply decode_glued.
Qed.

(** C15: a journal whose last line was torn survives one restart only.  Recovery
    skips the torn bytes, but the record of the new epoch is written right
    behind them; the line that results has a newline and does not parse, and
    from then on, whatever is appended, no later start of the Kernel gets past
    the journal. *)
Theorem torn_tail_stops_second_restart node node' w rs r p rest w1 rec rs' w2 :
  in_range rs -> p <> [] -> encode_record r = p ++ rest -> host_contents w = Some (file_of rs ++ p) ->
  begin_epoch node w = (w1, Ok rec) -> for_each append_persisted rs' w1 = (w2, Ok tt) ->
  is_err (begin_epoch node' w2).2 = true.
Proof.
  intros Hr Hp He Hf. unfold begin_epoch at 1. unfold mbind at 1, ste_bind at 1.
  destruct (recover node w) as [wa [rc|]] eqn:Ha; [|done]. apply recover_file in Ha. unfold mbind, ste_bind.
  destruct (tick wa) as [wb x] eqn:Ht1. apply tick_file in Ht1 as (Hf1 & now1 & -> & _).
  destruct (tick wb) as [wc x] eqn:Ht2. apply tick_file in Ht2 as (Hf2 & now2 & -> & _).
  destruct (append_persisted _ wc) as [wd [[]|e]] eqn:Hap; [|done]. intros [= <- <-] Hrest.
  eapply append_after in Hap; [|by rewrite Hf2, Hf1, Ha, Hf].
  apply (appends_after _ _ _ _ Hap) in Hrest. rewrite <- (app_assoc (_ ++ p)), <- (app_assoc (encode_record _)) in Hrest.
  eapply begin_epoch_corrupt; [exact Hrest|]. by eapply glued_corrupt.
Qed.
End torn.
