(* ===== verification/JournalExamples.v ===== *)
(** * A concrete journal

    A host whose disk can fill up and a line codec that satisfies the laws of
    the JSON one.  They instantiate the journal's theorems. *)
From stdpp Require Import base gmap strings list sorting pretty countable.
From Stdlib Require Import Ascii Lia ZifyBool ZifyN.
From S2P Require Import Prelude Validation Contract KernelApi RuntimeJournal JournalSpec JournalReplay.

(** ** A line codec

    A record is a number, a number is its bits between braces. *)
Definition event_fields (e : PersistedSemanticEvent) : list positive :=
  [encode (pse_namespace e); encode (pse_sequence e); encode (pse_source_id e); encode (pse_source_generation e);
   encode (pse_subject_id e); encode (pse_subject_generation e); encode (pse_kind e);
   encode (pse_observed_at_unix_ms e); encode (pse_schema_id e); encode (of_bytes (pse_body e))].
Definition fields_event (l : list positive) : option PersistedSemanticEvent :=
  match l with
  | [a; b; c; d; e; f; g; h; i; j] =>
      a ← decode a; b ← decode b; c ← decode c; d ← decode d; e ← decode e; f ← decode f; g ← decode g;
      h ← decode h; i ← decode i; j ← decode j;
      Some (mk_persisted_event a b c d e f g h i (bytes j))
  | _ => None
  end.
Definition evidence_fields (e : PersistedRuntimeProcessEvidence) : string * (N * N) :=
  (ppe_cgroup_name e, (ppe_pid e, ppe_start_time_ticks e)).
Definition record_fields (r : PersistedRuntimeRecord) : list positive :=
  [encode (pst_observed_at_millis r); encode (pst_event r); encode (pst_node_id r); encode (pst_node_epoch r);
   encode (pst_instance_name r); encode (pst_lease_name r); encode (pst_fence_token r); encode (pst_reason_code r);
   encode (evidence_fields <$> pst_runtime_evidence r); encode (event_fields <$> pst_semantic_event r)].
Definition fields_record (l : list positive) : option PersistedRuntimeRecord :=
  match l with
  | [a; b; c; d; e; f; g; h; i; j] =>
      a ← decode a; b ← decode b; c ← decode c; d ← decode d; e ← decode e; f ← decode f; g ← decode g;
      h ← decode h; i ← decode (A := option (string * (N * N))) i; j ← decode (A := option (list positive)) j;
      ev ← match j with Some l => Some <$> fields_event l | None => Some None end;
      Some (mk_persisted a b c d e f g h
              ((fun '(name, (pid, ticks)) => mk_persisted_evidence name pid ticks) <$> i) ev)
  | _ => None
  end.
Lemma fields_event_fields e : fields_event (event_fields e) = Some e.
Proof.
  destruct e. unfold fields_event, event_fields. rewrite !countable.decode_encode. simpl.
  unfold bytes, of_bytes. by rewrite String.list_ascii_of_string_of_list_ascii.
Qed.
#[local] Arguments fields_event : simpl never.
Lemma fields_record_fields r : fields_record (record_fields r) = Some r.
Proof.
  destruct r as [? ? ? ? ? ? ? ? ev se]. unfold fields_record, record_fields.
  rewrite !countable.decode_encode. simpl.
  destruct se as [e|]; csimpl; [rewrite fields_event_fields|]; csimpl; by destruct ev as [[]|].
Qed.

Fixpoint number_bits (p : positive) : list ascii :=
  match p with
  | xI p => "1"%char :: number_bits p
  | xO p => "0"%char :: number_bits p
  | xH => ["}"%char]
  end.
Fixpoint bits_number (bs : list ascii) : option positive :=
  match bs with
  | [] => None
  | c :: rest =>
      if decide (c = "}"%char) then match rest with [] => Some xH | _ => None end
      else if decide (c = "1"%char) then xI <$> bits_number rest
      else if decide (c = "0"%char) then xO <$> bits_number rest
      else None
  end.
Definition line_encode (r : PersistedRuntimeRecord) : list ascii :=
  "{"%char :: number_bits (encode (record_fields r)).
Definition line_decode (bs : list ascii) : result string PersistedRuntimeRecord :=
  match bs with
  | c :: rest =>
      if decide (c = "{"%char) then
        ok_or "malformed" (p ← bits_number rest; l ← decode (A := list positive) p; fields_record l)
      else Err "malformed"
  | [] => Err "end of input"
  end.

Lemma bits_number_bits p : bits_number (number_bits p) = Some p.
Proof. by induction p as [p IH|p IH|]; simpl; rewrite ?IH. Qed.
Lemma bits_cut p q c rest : number_bits p = q ++ c :: rest -> bits_number q = None.
Proof.
  revert q. induction p as [p IH|p IH|]; intros [|d q]; simpl; try done; intros [= <- Hq].
  - by rewrite (IH q).
  - by rewrite (IH q).
  - by destruct q.
Qed.
Lemma bits_glued p q rest more : number_bits p = q ++ rest -> bits_number (q ++ "{"%char :: more) = None.
Proof.
  revert q. induction p as [p IH|p IH|]; intros [|d q]; simpl; try done; intros [= <- Hq].
  - by rewrite (IH q).
  - by rewrite (IH q).
  - by destruct q.
Qed.
Lemma bits_no_control p c : c ∈ number_bits p -> (32 <= N_of_ascii c)%N.
Proof.
  induction p as [p IH|p IH|]; simpl; rewrite ?elem_of_cons; intros [->|Hc]; try (vm_compute; discriminate); auto.
  by apply not_elem_of_nil in Hc.
Qed.

#[export] Instance line_codec : JournalCodec.
Proof.
  refine {| encode_record := line_encode; decode_record := line_decode |}.
  - intros r _. unfold line_decode, line_encode. rewrite decide_True, bits_number_bits by done. cbn [mbind option_bind].
    by rewrite countable.decode_encode; cbn [mbind option_bind]; rewrite fields_record_fields.
  - intros r c. unfold line_encode. rewrite elem_of_cons. intros [->|Hc]; [vm_compute; discriminate|].
    by eapply bits_no_control.
  - intros r [|d p] c rest; [done|]. unfold line_encode. intros [= <- Hp]. simpl. by rewrite (bits_cut _ _ _ _ Hp).
  - intros r r' [|d p] rest; [done|]. unfold line_encode. intros _ [= <- Hp]. simpl.
    by rewrite (bits_glued _ _ _ _ Hp).
Defined.

(** ** A host *)
Record disk := mk_disk {
  dk_file : option (list ascii);
  dk_clock : N;
  dk_space : N;
  dk_observed : list RuntimeProcessEvidence;
  dk_complete : bool;
  dk_reaped : list RuntimeProcessEvidence;
}.
Definition with_file (d : disk) (f : option (list ascii)) (space : N) : disk :=
  mk_disk f (dk_clock d) space (dk_observed d) (dk_complete d) (dk_reaped d).
Definition disk_write (bs : list ascii) : STE disk string unit := fun d =>
  match dk_file d with
  | Some old =>
      if decide (N.of_nat (length bs) <= dk_space d)%N then
        (with_file d (Some (old ++ bs)) (dk_space d - N.of_nat (length bs)), Ok tt)
      else (with_file d (Some (old ++ take (N.to_nat (dk_space d)) bs)) 0, Err "no space left on device")
  | None => (d, Err "bad file descriptor")
  end.

#[export] Instance disk_host : JournalHost disk.
Proof.
  refine {|
    host_contents := dk_file;
    host_unix_millis d := (mk_disk (dk_file d) (dk_clock d + 1) (dk_space d) (dk_observed d) (dk_complete d) (dk_reaped d), dk_clock d);
    host_open_append d := (with_file d (Some (default [] (dk_file d))) (dk_space d), Ok tt);
    host_write_all := disk_write;
    host_sync_data d := (d, Ok tt);
    host_read_to_string d := (d, ok_or "not found" (dk_file d));
    host_discover_recovery_processes d := (d, Ok (dk_observed d));
    host_recover_stale_process ev d :=
      (mk_disk (dk_file d) (dk_clock d) (dk_space d) (filter (fun o => o <> ev) (dk_observed d)) (dk_complete d) (dk_reaped d ++ [ev]),
       Ok (mk_cleanup (dk_complete d) None false [] (if dk_complete d then "RECOVERY_CLEANUP_COMPLETE" else "CGROUP_BUSY")));
    host_reaped := dk_reaped |}; try done.
  - intros w w' r [= <- <-]. simpl. destruct (dk_file w); [by left|by right].
  - intros w w' [= <-]. simpl. eauto.
  - intros bs w w' old Hf. unfold disk_write. rewrite Hf. case_decide; intros [= <-]. done.
  - intros bs w w' old e Hf. unfold disk_write. rewrite Hf. case_decide as Hl; [done|]. intros [= <- _].
    destruct (lookup_lt_is_Some_2 bs (N.to_nat (dk_space w))) as [c Hc]; [lia|].
    exists (take (N.to_nat (dk_space w)) bs), c, (drop (S (N.to_nat (dk_space w))) bs). split; [|done]. by rewrite take_drop_middle.
  - intros w w' r [= <- <-]. done.
  - intros w w' r [= <- <-]. split; [done|]. intros bs. destruct (dk_file w); simpl; congruence.
  - intros w w' r [= <- <-]. done.
  - intros ev w w' r [= <- <-]. done.
  - intros bs w. unfold disk_write. destruct (dk_file w); [by case_decide|done].
Defined.

(** ** Runs *)
Definition node : string := "node-1".
Definition fresh_disk (space : N) (observed : list RuntimeProcessEvidence) : disk :=
  mk_disk None 100 space observed true [].
Definition worker_evidence : RuntimeProcessEvidence := mk_evidence "w" 42 7.
Definition launch_record : RuntimeJournalRecord :=
  mk_journal_record InstanceLaunched node 5 (Some "w") (Some "lease-k") (Some 41%N) "WORKER_LAUNCHED" (Some worker_evidence).
Definition launched : PersistedRuntimeRecord := persist_record 100 launch_record.
Definition after_launch (space : N) : disk :=
  (for_each append_persisted [launched] (fresh_disk space [worker_evidence])).1.

Lemma journal_roundtrip_witness :
  recovers_as node (after_launch 1000) [launched] /\
  (recovers_as node (append_persisted launched (after_launch 1000)).1 [launched] \/
   recovers_as node (append_persisted launched (after_launch 1000)).1 [launched; launched]).
Proof.
  assert (recovers_as node (after_launch 1000) [launched] /\
          forall w2 e, append_persisted launched (after_launch 1000) = (w2, Err e) ->
            recovers_as node w2 [launched] \/ recovers_as node w2 ([launched] ++ [launched])) as [Hr He].
  { apply (journal_roundtrip node [launched] launched (fresh_disk 1000 [worker_evidence]) (after_launch 1000)).
    - reflexivity.
    - repeat constructor.
    - vm_compute. reflexivity. }
  split; [exact Hr|].
  assert (is_err (append_persisted launched (after_launch 1000)).2 = true) as Herr by (vm_compute; reflexivity).
  destruct (append_persisted launched (after_launch 1000)) as [w2 [|e]] eqn:Ha; [discriminate Herr|].
  exact (He w2 e eq_refl).
Defined.

Lemma after_launch_clean : clean (after_launch 100000) [launched].
Proof. split; [repeat constructor|]. right. vm_compute. reflexivity. Qed.

Lemma epoch_supersedes_witness :
  exists w' rec, begin_epoch node (after_launch 100000) = (w', Ok rec) /\ rec_node_epoch rec = 100%N /\
    rec_next_fence_token rec = 42%N /\ supersedes node [launched] rec.
Proof.
  assert ((fun rec => (rec_node_epoch rec, rec_next_fence_token rec)) <$> (begin_epoch node (after_launch 100000)).2
          = Ok (100%N, 42%N)) as Hval by (vm_compute; reflexivity).
  destruct (begin_epoch node (after_launch 100000)) as [w' [rec|]] eqn:Hb; [|discriminate Hval].
  injection Hval as He Hf. exists w', rec. split_and!; [reflexivity|exact He|exact Hf|].
  exact (proj1 (epoch_supersedes node _ _ _ _ after_launch_clean Hb)).
Defined.

Lemma restart_closes_every_process_witness :
  exists w' rec now processes ts, restart node (after_launch 100000) = (w', Ok rec) /\
    length processes = 1 /\ host_reaped w' = [worker_evidence] /\
    Forall3 (closing node (rec_node_epoch rec)) processes (host_reaped w') ts /\
    clean w' ([launched] ++ started_record now node (rec_node_epoch rec) :: ts).
Proof.
  assert (let '(w', res) := restart node (after_launch 100000) in
    (fun rec => length (rec_runtime_processes rec)) <$> res = Ok 1 /\ dk_reaped w' = [worker_evidence]) as Hval
    by (vm_compute; split; reflexivity). revert Hval.
  destruct (restart node (after_launch 100000)) as [w' [rec|]] eqn:Hb; [|intros [Hval _]; discriminate Hval].
  intros [Hval Hreap]. injection Hval as Hval.
  destruct (restart_closes_every_process node _ _ _ _ after_launch_clean Hb)
    as [_ (now & processes & evs & ts & Hperm & Hall & Hevs & Hc & _)].
  exists w', rec, now, processes, ts. split_and!; [reflexivity| |exact Hreap| |exact Hc].
  - rewrite Hperm. exact Hval.
  - rewrite Hevs. exact Hall.
Defined.

(** Two namespaces with a stream each, and a lifecycle record in between. *)
Definition stored_event (namespace : string) (sequence : N) : DurableEventRecord :=
  mk_durable namespace (mk_event sequence (mk_identity node 5) (mk_identity "w" 1) "cyrene.worker.started" 100
                          "cyrene.event.v1" []).
Definition entries : list entry :=
  [Published (stored_event "default" 1); Published (stored_event "other" 1); Lifecycle launch_record;
   Published (stored_event "default" 2)].
Definition after_entries : disk := (for_each append_entry entries (fresh_disk 100000 [])).1.
Lemma event_store_roundtrip_witness :
  (events_for_source (mk_identity node 5) "default" after_entries).2 =
  Ok (Some [stored_event "default" 1; stored_event "default" 2]).
Proof.
  destruct (events_for_source (mk_identity node 5) "default" after_entries) as [w2 res] eqn:Hr.
  assert (sequences_grow (omap JournalReplay.published entries)) as Hg.
  { unfold entries. csimpl. rewrite !sequences_grow_cons. split_and!.
    - intros e'. rewrite !elem_of_cons. intros [->|[->|[]%not_elem_of_nil]]; [discriminate|done].
    - intros e'. rewrite !elem_of_cons. intros [->|[]%not_elem_of_nil]. discriminate.
    - intros e' []%not_elem_of_nil.
    - intros i j e e' _ He. by rewrite lookup_nil in He. }
  destruct (event_store_roundtrip (mk_identity node 5) "default" entries (fresh_disk 100000 []) after_entries w2 res)
    as [->|(e & He & _)].
  - reflexivity.
  - repeat constructor.
  - exact Hg.
  - vm_compute. reflexivity.
  - exact Hr.
  - vm_compute. reflexivity.
  - exfalso. assert (is_ok (host_read_to_string after_entries).2 = true) as Hok by (vm_compute; reflexivity).
    by rewrite He in Hok.
Defined.

(** The disk fills up in the middle of the second record and is freed again. *)
Definition torn_disk : disk :=
  let d := (append_persisted launched (after_launch 1000)).1 in with_file d (dk_file d) 100000.
Definition after_restart : disk := (begin_epoch node torn_disk).1.
Lemma torn_tail_stops_second_restart_witness :
  is_ok (begin_epoch node torn_disk).2 = true /\ is_err (begin_epoch node after_restart).2 = true.
Proof.
  split; [vm_compute; reflexivity|].
  assert (is_ok (begin_epoch node torn_disk).2 = true) as Hok by (vm_compute; reflexivity).
  assert (after_restart = (begin_epoch node torn_disk).1) as Hw by reflexivity. revert Hok Hw.
  destruct (begin_epoch node torn_disk) as [w1 [rec|]] eqn:Hb; [|discriminate]. intros _ ->.
  apply (torn_tail_stops_second_restart node node torn_disk [launched] launched
           (take 173 (encode_record launched)) (drop 173 (encode_record launched)) w1 rec [] w1).
  - repeat constructor.
  - vm_compute. discriminate.
  - by rewrite take_drop.
  - vm_compute. reflexivity.
  - exact Hb.
  - reflexivity.
Defined.
