(* ===== verification/Service.v ===== *)
(** * Generic services

    [kernel/crates/cy-kernel-api/src/service.rs]: restart policies with
    exponential back-off, readiness probes, service specifications, states and
    events.  A [Duration] is its number of nanoseconds; an [f64] is a binary64 of
    [SpecFloat]. *)
From stdpp Require Import base gmap strings list sorting pretty.
From Stdlib Require Import Ascii Lia ZifyBool ZifyN ZArith SpecFloat.
From S2P Require Import Prelude Validation Contract KernelApi.

(** ** Floating point

    What the code uses of [f64]: conversion from an unsigned integer,
    multiplication, [powi] and the saturating cast to [u128]. *)
Definition f64 : Type := spec_float.
Definition f64_of_N (n : N) : f64 := binary_normalize 53 1024 (Z.of_N n) 0 false.
Definition f64_mul : f64 -> f64 -> f64 := SFmul 53 1024.
Definition f64_div : f64 -> f64 -> f64 := SFdiv 53 1024.
Definition f64_gt0 (x : f64) : bool := SFltb (S754_zero false) x.
Definition u128_max : N := 340282366920938463463374607431768211455.
Definition f64_to_u128 (x : f64) : N :=
  match x with
  | S754_infinity false => u128_max
  | S754_finite false m e =>
      N.min u128_max
        (if (0 <=? e)%Z then N.shiftl (Npos m) (Z.to_N e) else N.shiftr (Npos m) (Z.to_N (- e)))
  | _ => 0
  end.
(** [f64::powi]: the squaring loop of the runtime library, then the reciprocal
    for a negative exponent. *)
Fixpoint powi_loop (a r : f64) (b : positive) : f64 :=
  match b with
  | xH => f64_mul r a
  | xO b => powi_loop (f64_mul a a) r b
  | xI b => powi_loop (f64_mul a a) (f64_mul r a) b
  end.
Definition f64_powi (a : f64) (b : Z) : f64 :=
  let one := f64_of_N 1 in
  match b with
  | Z0 => one
  | Zpos p => powi_loop a one p
  | Zneg p => f64_div one (powi_loop a one p)
  end.
(** [x as i32] for an [x] of type [u32]. *)
Definition u32_as_i32 (x : N) : Z :=
  if (x <=? 2147483647)%N then Z.of_N x else Z.of_N x - 4294967296.

(** ** Durations *)
Definition millis (n : N) : N := n * 1000000.
Definition seconds (n : N) : N := n * 1000000000.

(** [Debug] of a [Duration]: the largest unit that is not zero, with the rest as
    decimals. *)
Definition drop_trailing_zeros (digits : list ascii) : list ascii :=
  rev ((fix go (l : list ascii) := match l with
        | "0"%char :: l => go l | l => l end) (rev digits)).
Definition decimals (width : nat) (fraction : N) : string :=
  let digits := bytes (pretty fraction) in
  of_bytes (drop_trailing_zeros (replicate (width - length digits) "0"%char ++ digits)).
Definition fmt_decimal (integer fraction : N) (width : nat) (suffix : string) : string :=
  pretty integer +:+ (if (fraction =? 0)%N then "" else "." +:+ decimals width fraction) +:+ suffix.
Definition duration_debug (d : N) : string :=
  let secs := (d / 1000000000)%N in
  let nanos := (d mod 1000000000)%N in
  if (0 <? secs)%N then fmt_decimal secs nanos 9 "s"
  else if (1000000 <=? nanos)%N then fmt_decimal (nanos / 1000000) (nanos mod 1000000) 6 "ms"
  else if (1000 <=? nanos)%N then fmt_decimal (nanos / 1000) (nanos mod 1000) 3 "µs"
  else fmt_decimal nanos 0 1 "ns".

(** ** Back-off *)
Record BackoffConfig := mk_backoff {
  bo_initial_delay : N;
  bo_max_delay : N;
  bo_multiplier : f64;
  bo_reset_after : N;
}.
Definition BackoffConfig_default : BackoffConfig :=
  mk_backoff (millis 100) (seconds 30) (f64_of_N 2) (seconds 60).
Definition BackoffConfig_exponential (initial_delay max_delay : N) : BackoffConfig :=
  mk_backoff initial_delay max_delay (f64_of_N 2) (seconds 60).
Definition compute_delay (b : BackoffConfig) (attempt : N) : N :=
  if (attempt =? 0)%N then 0
  else
    let exp := (attempt - 1)%N in
    let factor := f64_powi (bo_multiplier b) (u32_as_i32 exp) in
    let delay_nanos := f64_to_u128 (f64_mul (f64_of_N (bo_initial_delay b)) factor) in
    N.min (N.min delay_nanos u64_max) (bo_max_delay b).

Inductive RestartPolicy :=
| RestartNever
| RestartAlways (max_retries : option N) (backoff : BackoffConfig)
| RestartOnFailure (max_retries : option N) (backoff : BackoffConfig).
Definition RestartPolicy_default : RestartPolicy := RestartOnFailure (Some 5%N) BackoffConfig_default.

(** ** Readiness *)
Inductive ReadinessProbe :=
| ProcessAlive
| TcpSocket (host : string) (port : N)
| HttpGet (host : string) (port : N) (path : string) (expected_status : option N)
| WorkerControl.
Record ProbeConfig := mk_probe_config {
  pc_initial_delay : N;
  pc_period : N;
  pc_timeout : N;
  pc_success_threshold : N;
  pc_failure_threshold : N;
}.
Definition ProbeConfig_default : ProbeConfig := mk_probe_config (millis 10) (millis 50) (millis 500) 1 60.

(** ** Specifications, states, events *)
Record ServiceEndpointSpec := mk_endpoint_spec {
  es_transport : string;
  es_schema_id : string;
  es_port : option N;
  es_path : option string;
  es_attributes : gmap string string;
  es_connection_ref : string;
  es_credential_ref : option string;
}.
Record ServiceSpec := mk_service_spec {
  ss_name : string;
  ss_plan : LaunchPlan;
  ss_readiness_probe : option (ReadinessProbe * ProbeConfig);
  ss_restart_policy : RestartPolicy;
  ss_graceful_stop_timeout : N;
  ss_endpoint : option ServiceEndpointSpec;
}.
Definition ServiceSpec_new (name : string) (plan : LaunchPlan) : ServiceSpec :=
  mk_service_spec name plan (Some (ProcessAlive, ProbeConfig_default)) RestartPolicy_default (seconds 5) None.
Definition with_readiness_probe (s : ServiceSpec) (probe : ReadinessProbe) (config : ProbeConfig) : ServiceSpec :=
  mk_service_spec (ss_name s) (ss_plan s) (Some (probe, config)) (ss_restart_policy s)
    (ss_graceful_stop_timeout s) (ss_endpoint s).
Definition with_restart_policy (s : ServiceSpec) (policy : RestartPolicy) : ServiceSpec :=
  mk_service_spec (ss_name s) (ss_plan s) (ss_readiness_probe s) policy (ss_graceful_stop_timeout s) (ss_endpoint s).
Definition with_graceful_stop_timeout (s : ServiceSpec) (timeout : N) : ServiceSpec :=
  mk_service_spec (ss_name s) (ss_plan s) (ss_readiness_probe s) (ss_restart_policy s) timeout (ss_endpoint s).
Definition with_endpoint (s : ServiceSpec) (endpoint : ServiceEndpointSpec) : ServiceSpec :=
  mk_service_spec (ss_name s) (ss_plan s) (ss_readiness_probe s) (ss_restart_policy s)
    (ss_graceful_stop_timeout s) (Some endpoint).

Inductive ServiceState :=
| SStarting | SReady | SRunning | SStopping | SStopped | SFailed | SRestarting | SQuarantined.
#[export] Instance ServiceState_eq_dec : EqDecision ServiceState.
Proof. solve_decision. Defined.
Definition ServiceState_is_terminal (s : ServiceState) : bool :=
  match s with SStopped | SFailed | SQuarantined => true | _ => false end.
Definition ServiceState_is_active (s : ServiceState) : bool :=
  match s with SStarting | SReady | SRunning | SRestarting => true | _ => false end.
Definition as_reason_code (s : ServiceState) : string :=
  match s with
  | SStarting => "SERVICE_STARTING"
  | SReady => "SERVICE_READY"
  | SRunning => "SERVICE_RUNNING"
  | SStopping => "SERVICE_STOPPING"
  | SStopped => "SERVICE_STOPPED"
  | SFailed => "SERVICE_FAILED"
  | SRestarting => "SERVICE_RESTARTING"
  | SQuarantined => "SERVICE_QUARANTINED"
  end.

Record ServiceStatus := mk_service_status {
  st_name : string;
  st_state : ServiceState;
  st_restart_count : N;
  st_last_exit_report : option CleanupReport;
  st_published_endpoint : option Endpoint;
  st_last_error : option string;
}.
Record ServiceEvent := mk_service_event {
  se_service_name : string;
  se_state : ServiceState;
  se_timestamp_unix_ms : N;
  se_reason_code : string;
  se_message : string;
}.
