(* ===== verification/Supervisor.v ===== *)
(** * Service supervisor

    [cy-kernel-daemon/src/watchdog/supervisor.rs]: [ServiceSupervisor] launches
    the process of a service, waits for its readiness probe, publishes its
    endpoint, restarts it with back-off after a failure and quarantines it when
    the restart budget is spent.

    The methods take [&mut self] behind a mutex, so each is one step.  The
    readiness loop has no bound of its own: the model runs it with fuel, and
    [None] means that the method has not returned yet.  Broadcast events are kept
    as the list of all events sent. *)
From stdpp Require Import base gmap strings list sorting pretty.
From Stdlib Require Import Ascii Lia ZifyBool ZifyN.
From S2P Require Import Prelude Validation Contract KernelApi Environment Instance Service.

(** Sleeping and the sockets of the probes. *)
Class ServiceHost (W : Type) := {
  host_sleep : N -> W -> W;
  (** [probe_tcp]: connect within the timeout. *)
  host_probe_tcp : string -> N -> N -> STE W string unit;
  (** The exchange of [probe_http] up to the parsed status code. *)
  host_http_status : string -> N -> string -> N -> STE W string N;
}.

Record ServiceSupervisor := mk_supervisor {
  sv_spec : ServiceSpec;
  sv_binding : DeviceBinding;
  sv_process : option SandboxedProcess;
  sv_state : ServiceState;
  sv_generation : N;
  sv_restart_count : N;
  sv_last_launch_at : option N;
  sv_last_exit_report : option CleanupReport;
  sv_published_endpoint : option Endpoint;
  sv_last_error : option string;
  sv_events : list ServiceEvent;
}.
Definition ServiceSupervisor_new (spec : ServiceSpec) (binding : DeviceBinding) : ServiceSupervisor :=
  mk_supervisor spec binding None SStopped 0 0 None None None None [].

Definition status (s : ServiceSupervisor) : ServiceStatus :=
  mk_service_status (ss_name (sv_spec s)) (sv_state s) (sv_restart_count s) (sv_last_exit_report s)
    (sv_published_endpoint s) (sv_last_error s).
Definition handle (s : ServiceSupervisor) : option ProcessHandle := sv_process s ≫= sp_handle.

(** Assignments to one field. *)
Definition set_sv_state (s : ServiceSupervisor) (st : ServiceState) (events : list ServiceEvent) : ServiceSupervisor :=
  mk_supervisor (sv_spec s) (sv_binding s) (sv_process s) st (sv_generation s) (sv_restart_count s)
    (sv_last_launch_at s) (sv_last_exit_report s) (sv_published_endpoint s) (sv_last_error s) events.
Definition set_sv_process (s : ServiceSupervisor) (p : option SandboxedProcess) : ServiceSupervisor :=
  mk_supervisor (sv_spec s) (sv_binding s) p (sv_state s) (sv_generation s) (sv_restart_count s)
    (sv_last_launch_at s) (sv_last_exit_report s) (sv_published_endpoint s) (sv_last_error s) (sv_events s).
Definition set_sv_generation (s : ServiceSupervisor) (g : N) : ServiceSupervisor :=
  mk_supervisor (sv_spec s) (sv_binding s) (sv_process s) (sv_state s) g (sv_restart_count s)
    (sv_last_launch_at s) (sv_last_exit_report s) (sv_published_endpoint s) (sv_last_error s) (sv_events s).
Definition set_sv_restart_count (s : ServiceSupervisor) (n : N) : ServiceSupervisor :=
  mk_supervisor (sv_spec s) (sv_binding s) (sv_process s) (sv_state s) (sv_generation s) n
    (sv_last_launch_at s) (sv_last_exit_report s) (sv_published_endpoint s) (sv_last_error s) (sv_events s).
Definition set_sv_last_launch_at (s : ServiceSupervisor) (t : option N) : ServiceSupervisor :=
  mk_supervisor (sv_spec s) (sv_binding s) (sv_process s) (sv_state s) (sv_generation s) (sv_restart_count s)
    t (sv_last_exit_report s) (sv_published_endpoint s) (sv_last_error s) (sv_events s).
Definition set_sv_last_exit_report (s : ServiceSupervisor) (r : option CleanupReport) : ServiceSupervisor :=
  mk_supervisor (sv_spec s) (sv_binding s) (sv_process s) (sv_state s) (sv_generation s) (sv_restart_count s)
    (sv_last_launch_at s) r (sv_published_endpoint s) (sv_last_error s) (sv_events s).
Definition set_sv_published_endpoint (s : ServiceSupervisor) (e : option Endpoint) : ServiceSupervisor :=
  mk_supervisor (sv_spec s) (sv_binding s) (sv_process s) (sv_state s) (sv_generation s) (sv_restart_count s)
    (sv_last_launch_at s) (sv_last_exit_report s) e (sv_last_error s) (sv_events s).
Definition set_sv_last_error (s : ServiceSupervisor) (e : option string) : ServiceSupervisor :=
  mk_supervisor (sv_spec s) (sv_binding s) (sv_process s) (sv_state s) (sv_generation s) (sv_restart_count s)
    (sv_last_launch_at s) (sv_last_exit_report s) (sv_published_endpoint s) e (sv_events s).

(** [Display] of a provider error, [Debug] of an exit code and of a flag. *)
Definition error_text (e : ProviderError) : string := pe_reason_code e +:+ ": " +:+ pe_message e.
Definition exit_code_debug (c : option Z) : string :=
  match c with Some c => "Some(" +:+ pretty c +:+ ")" | None => "None" end.
Definition bool_text (b : bool) : string := if b then "true" else "false".

Definition endpoint_attributes (e : ServiceEndpointSpec) : gmap string string :=
  let attrs := es_attributes e in
  let attrs := match es_port e with Some port => <["port" := pretty port]> attrs | None => attrs end in
  match es_path e with Some path => <["path" := path]> attrs | None => attrs end.
Definition service_endpoint (s : ServiceSupervisor) (e : ServiceEndpointSpec) : Endpoint :=
  mk_endpoint (mk_identity ("endpoint/" +:+ ss_name (sv_spec s)) (sv_generation s))
    (mk_identity "provider/kernel-supervisor" 1)
    (mk_identity ("service/" +:+ ss_name (sv_spec s)) (sv_generation s))
    (es_transport e) (es_schema_id e) [] (endpoint_attributes e) (es_connection_ref e) (es_credential_ref e).
Definition publish_endpoint_if_configured (s : ServiceSupervisor) : ServiceSupervisor :=
  match ss_endpoint (sv_spec s) with
  | Some e => set_sv_published_endpoint s (Some (service_endpoint s e))
  | None => s
  end.
Definition unpublish_endpoint (s : ServiceSupervisor) : ServiceSupervisor := set_sv_published_endpoint s None.

Section supervisor.
Context {W : Type} `{Environment W} `{ServiceHost W}.
Implicit Types (s : ServiceSupervisor) (w : W).

Definition transition_state (st : ServiceState) (reason_code message : string) s w : ServiceSupervisor * W :=
  let '(w, now) := env_now_unix_ms w in
  (set_sv_state s st
     (sv_events s ++ [mk_service_event (ss_name (sv_spec s)) st now reason_code message]), w).

Definition spawn_process s w : ServiceSupervisor * W * result ProviderError unit :=
  let s := set_sv_generation s (N.max (u64_wrapping_add (sv_generation s) 1) 1) in
  let p := ss_plan (sv_spec s) in
  let plan := mk_plan (ss_name (sv_spec s) +:+ "-" +:+ pretty (sv_generation s)) (plan_executable p) (plan_args p)
    (plan_environment p) (plan_cgroup_name p) (plan_limits p) (plan_working_dir p) (plan_transport_socket p) in
  match process_start (SandboxedProcess_new plan (sv_binding s)) w with
  | (process, w, Ok _) =>
      let '(w, now) := env_instant w in
      (set_sv_last_launch_at (set_sv_process s (Some process)) (Some now), w, Ok tt)
  | (_, w, Err error) => (s, w, Err error)
  end.

Definition cleanup_current_process (grace_period : N) s w
    : ServiceSupervisor * W * result ProviderError CleanupReport :=
  match sv_process s with
  | Some process =>
      let s := set_sv_process s None in
      match process_stop (mk_stop_request grace_period (grace_period =? 0)%N) process w with
      | (_, w, Ok report) => (set_sv_last_exit_report s (Some report), w, Ok report)
      | (_, w, Err error) => (s, w, Err error)
      end
  | None => (set_sv_last_exit_report s (Some not_running_report), w, Ok not_running_report)
  end.

(** ** Readiness *)
Definition probe_http (host : string) (port : N) (path : string) (expected_status : option N) (timeout : N)
    : STE W string unit :=
  status_code ← host_http_status host port path timeout;
  match expected_status with
  | Some expected =>
      require (status_code =? expected)%N
        ("unexpected http status code: " +:+ pretty status_code +:+ " (expected " +:+ pretty expected +:+ ")")
  | None =>
      require ((200 <=? status_code) && (status_code <=? 299))%N
        ("http status code is not 2xx: " +:+ pretty status_code)
  end.
Definition probe_once (process : option SandboxedProcess) (probe : ReadinessProbe) (timeout : N)
    : STE W string unit :=
  match probe with
  | ProcessAlive =>
      match process with
      | Some p => require (bool_decide (is_Some (sp_handle p))) "process handle missing"
      | None => throw "process not initialized"
      end
  | TcpSocket host port => host_probe_tcp host port timeout
  | HttpGet host port path expected_status => probe_http host port path expected_status timeout
  | WorkerControl => mret tt
  end.
Fixpoint probe_loop (fuel : nat) (process : option SandboxedProcess) (probe : ReadinessProbe)
    (config : ProbeConfig) (consecutive_successes consecutive_failures : N) w : option (W * bool) :=
  match fuel with
  | O => None
  | S fuel =>
      if (consecutive_failures <? pc_failure_threshold config)%N then
        match probe_once process probe (pc_timeout config) w with
        | (w, Ok _) =>
            if (pc_success_threshold config <=? consecutive_successes + 1)%N then Some (w, true)
            else probe_loop fuel process probe config (consecutive_successes + 1) 0
                   (host_sleep (pc_period config) w)
        | (w, Err _) =>
            probe_loop fuel process probe config 0 (consecutive_failures + 1)
              (host_sleep (pc_period config) w)
        end
      else Some (w, false)
  end.
Definition readiness_timeout (name : string) (attempts : N) : ProviderError :=
  provider_error "service-supervisor" "READINESS_TIMEOUT"
    ("readiness probe for service " +:+ name +:+ " failed after " +:+ pretty attempts +:+ " attempts").
Definition probe_readiness (fuel : nat) s w : option (W * result ProviderError unit) :=
  match ss_readiness_probe (sv_spec s) with
  | None => Some (w, Ok tt)
  | Some (probe, config) =>
      let w := if (0 <? pc_initial_delay config)%N then host_sleep (pc_initial_delay config) w else w in
      '(w, ready) ← probe_loop fuel (sv_process s) probe config 0 0 w;
      Some (w, if ready : bool then Ok tt
               else Err (readiness_timeout (ss_name (sv_spec s)) (pc_failure_threshold config)))
  end.

(** ** Restart *)
Definition execute_restart_or_quarantine (max_retries : option N) (backoff : BackoffConfig) s w
    : ServiceSupervisor * W :=
  let attempt := ((sv_restart_count s + 1) mod (u32_max + 1))%N in
  if is_some_and (fun max => max <? attempt)%N max_retries then
    transition_state SQuarantined "RESTART_EXHAUSTED"
      ("Maximum restart limit (" +:+ pretty (default 0%N max_retries) +:+ ") exhausted for service "
       +:+ ss_name (sv_spec s)) s w
  else
    let s := set_sv_restart_count s attempt in
    let delay := compute_delay backoff attempt in
    let '(s, w) := transition_state SRestarting "RESTART_BACKOFF"
      ("Restart attempt " +:+ pretty attempt +:+ " for service " +:+ ss_name (sv_spec s)
       +:+ " scheduled after " +:+ duration_debug delay) s w in
    (s, host_sleep delay w).
Definition handle_exit_policy (clean_exit : bool) s w : ServiceSupervisor * W :=
  match ss_restart_policy (sv_spec s) with
  | RestartNever => (s, w)
  | RestartOnFailure max_retries backoff =>
      if clean_exit then (s, w) else execute_restart_or_quarantine max_retries backoff s w
  | RestartAlways max_retries backoff => execute_restart_or_quarantine max_retries backoff s w
  end.

(** ** Operations *)
Definition start (fuel : nat) s w : option (ServiceSupervisor * W * result ProviderError ServiceStatus) :=
  if ServiceState_is_active (sv_state s) && negb (bool_decide (sv_state s = SRestarting)) then
    Some (s, w, Ok (status s))
  else
  match spawn_process s w with
  | (s, w, Err err) =>
      let s := set_sv_last_error s (Some (error_text err)) in
      let '(s, w) := transition_state SFailed "PROCESS_SPAWN_FAILED"
        ("Process spawn failed: " +:+ error_text err) s w in
      Some (s, w, Err err)
  | (s, w, Ok _) =>
      let '(s, w) := transition_state SStarting "PROCESS_SPAWNED" "Service process spawned" s w in
      '(w, ready) ← probe_readiness fuel s w;
      match ready with
      | Ok _ =>
          let '(s, w) := transition_state SReady "READINESS_PROBE_PASSED" "Service readiness probe succeeded" s w in
          let s := publish_endpoint_if_configured s in
          let '(s, w) := transition_state SRunning "SERVICE_RUNNING" "Service is actively running" s w in
          Some (s, w, Ok (status s))
      | Err err =>
          let s := set_sv_last_error s (Some (error_text err)) in
          let '(s, w) := transition_state SFailed "READINESS_PROBE_FAILED"
            ("Readiness probe failed: " +:+ error_text err) s w in
          let '(s, w, _) := cleanup_current_process (seconds 1) s w in
          let '(s, w) := handle_exit_policy false s w in
          Some (s, w, Err err)
      end
  end.

Definition stop s w : ServiceSupervisor * W * result ProviderError ServiceStatus :=
  if ServiceState_is_terminal (sv_state s) && negb (bool_decide (sv_state s = SRestarting)) then
    (s, w, Ok (status s))
  else
  let '(s, w) := transition_state SStopping "STOP_REQUESTED" "Graceful service stop requested" s w in
  let s := unpublish_endpoint s in
  match cleanup_current_process (ss_graceful_stop_timeout (sv_spec s)) s w with
  | (s, w, Err err) => (s, w, Err err)
  | (s, w, Ok report) =>
      let '(s, w) :=
        if cr_complete report then transition_state SStopped "CLEANUP_COMPLETE" "Service stopped cleanly" s w
        else transition_state SFailed "CLEANUP_INCOMPLETE"
               ("Service cleanup incomplete: " +:+ cr_reason_code report) s w in
      (s, w, Ok (status s))
  end.

Definition cancel s w : ServiceSupervisor * W * result ProviderError ServiceStatus :=
  let '(s, w) := transition_state SStopping "CANCEL_REQUESTED" "Immediate cancellation requested" s w in
  let s := unpublish_endpoint s in
  match cleanup_current_process 0 s w with
  | (s, w, Err err) => (s, w, Err err)
  | (s, w, Ok report) =>
      let '(s, w) := transition_state SStopped "CANCELLED"
        ("Service cancelled: " +:+ cr_reason_code report) s w in
      (s, w, Ok (status s))
  end.

Definition reset_after (policy : RestartPolicy) : N :=
  match policy with
  | RestartAlways _ backoff | RestartOnFailure _ backoff => bo_reset_after backoff
  | RestartNever => seconds 60
  end.
(** The reset of the restart counter after a healthy window. *)
Definition reset_restart_count s w : ServiceSupervisor * W :=
  match sv_last_launch_at s with
  | Some launch_at =>
      if bool_decide (sv_state s = SRunning) then
        let '(w, now) := env_instant w in
        (if ((reset_after (ss_restart_policy (sv_spec s)) <=? now - launch_at) && (0 <? sv_restart_count s))%N
         then set_sv_restart_count s 0 else s, w)
      else (s, w)
  | None => (s, w)
  end.
Definition step_supervision (fuel : nat) s w : option (ServiceSupervisor * W * result ProviderError ServiceStatus) :=
  let '(s, w) := reset_restart_count s w in
  if bool_decide (sv_state s = SRestarting) then start fuel s w
  else Some (s, w, Ok (status s)).

Definition clean_exit (r : CleanupReport) : bool :=
  bool_decide (cr_exit_code r = Some 0%Z) && negb (cr_oom_killed r).
Definition handle_observed_exit (exit_report : CleanupReport) s w : ServiceSupervisor * W * ServiceStatus :=
  let s := unpublish_endpoint s in
  let s := set_sv_last_exit_report s (Some exit_report) in
  let clean := clean_exit exit_report in
  let '(s, w) :=
    if clean then transition_state SStopped "CLEAN_EXIT" "Process exited cleanly with status 0" s w
    else transition_state SFailed (cr_reason_code exit_report)
           ("Process crashed (exit_code=" +:+ exit_code_debug (cr_exit_code exit_report) +:+ ", oom_killed="
            +:+ bool_text (cr_oom_killed exit_report) +:+ ")") s w in
  let '(s, w) := handle_exit_policy clean s w in
  (s, w, status s).

(** ** Sequences of calls *)
Inductive service_op := OpStart | OpStop | OpCancel | OpStep | OpExit (report : CleanupReport).
Definition perform_op (fuel : nat) (o : service_op) (sw : ServiceSupervisor * W) : option (ServiceSupervisor * W) :=
  match o with
  | OpStart => fst <$> start fuel sw.1 sw.2
  | OpStop => Some (stop sw.1 sw.2).1
  | OpCancel => Some (cancel sw.1 sw.2).1
  | OpStep => fst <$> step_supervision fuel sw.1 sw.2
  | OpExit report => Some (handle_observed_exit report sw.1 sw.2).1
  end.
Fixpoint perform_ops (fuel : nat) (os : list service_op) (sw : ServiceSupervisor * W)
    : option (ServiceSupervisor * W) :=
  match os with
  | [] => Some sw
  | o :: os => sw ← perform_op fuel o sw; perform_ops fuel os sw
  end.
End supervisor.
