(* ===== verification/SupervisorSpec.v ===== *)
(** * What the service supervisor guarantees

    The invariant its methods keep (the theorem over every interleaving is in
    [ServiceSessionsSpec]), when readiness probing ends, how a service that keeps
    failing ends, and what a failed stop leaves behind. *)
From stdpp Require Import base gmap strings list sorting pretty.
From Stdlib Require Import Ascii Lia ZifyBool ZifyN.
From S2P Require Import Prelude Validation Contract KernelApi Environment Instance Service Supervisor.

(** ** The invariant *)
Definition restart_budget (p : RestartPolicy) : option N :=
  match p with
  | RestartNever => Some 0%N
  | RestartAlways max_retries _ | RestartOnFailure max_retries _ => max_retries
  end.
Record supervised (spec : ServiceSpec) (s : ServiceSupervisor) : Prop := {
  sup_spec : sv_spec s = spec;
  (** The state is the one announced last, under the service's name. *)
  sup_announced : sv_state s = default SStopped (se_state <$> last (sv_events s));
  sup_named : Forall (fun e => se_service_name e = ss_name spec) (sv_events s);
  (** An endpoint is published only while the service runs, and it is the one
      of the running incarnation. *)
  sup_endpoint : forall e, sv_published_endpoint s = Some e ->
    sv_state s = SRunning /\ exists es, ss_endpoint spec = Some es /\ e = service_endpoint s es;
  sup_budget : forall m, restart_budget (ss_restart_policy spec) = Some m -> (sv_restart_count s <= m)%N;
  sup_generation : is_Some (sv_process s) -> (1 <= sv_generation s)%N;
  sup_width : (sv_generation s <= u64_max)%N /\ (sv_restart_count s <= u32_max)%N;
}.

Section invariant.
Context {W : Type} `{Environment W} `{ServiceHost W}.
Implicit Types (s : ServiceSupervisor) (w : W) (spec : ServiceSpec).

Lemma supervised_new spec binding : supervised spec (ServiceSupervisor_new spec binding).
Proof. split; simpl; try done; lia || by intros []. Qed.

(** A transition announces the state; it is the only way to change it. *)
Lemma transition_inv st rc msg s w s' w' : transition_state st rc msg s w = (s', w') ->
  exists now, s' = set_sv_state s st (sv_events s ++ [mk_service_event (ss_name (sv_spec s)) st now rc msg]).
Proof. unfold transition_state. destruct (env_now_unix_ms w) as [w1 now]. intros [= <- <-]. by exists now. Qed.

(** The parts of the invariant that do not mention state and events. *)
Record quiet (spec : ServiceSpec) (s : ServiceSupervisor) : Prop := {
  q_spec : sv_spec s = spec;
  q_named : Forall (fun e => se_service_name e = ss_name spec) (sv_events s);
  q_endpoint : sv_published_endpoint s = None;
  q_budget : forall m, restart_budget (ss_restart_policy spec) = Some m -> (sv_restart_count s <= m)%N;
  q_generation : is_Some (sv_process s) -> (1 <= sv_generation s)%N;
  q_width : (sv_generation s <= u64_max)%N /\ (sv_restart_count s <= u32_max)%N;
}.
Lemma supervised_quiet spec s : supervised spec s -> sv_state s <> SRunning -> quiet spec s.
Proof.
  intros [H1 H2 H3 H4 H5 H6 H7] Hr. split; try done.
  destruct (sv_published_endpoint s) as [e|]; [|done]. by destruct (H4 e eq_refl) as [? _].
Qed.
Lemma unpublish_quiet spec s : supervised spec s -> quiet spec (unpublish_endpoint s).
Proof. intros [H1 H2 H3 H4 H5 H6 H7]. by split. Qed.
Lemma quiet_supervised spec s :
  quiet spec s -> sv_state s = default SStopped (se_state <$> last (sv_events s)) -> supervised spec s.
Proof. intros [H1 H2 H3 H4 H5 H6] Hs. split; try done. congruence. Qed.
Lemma quiet_transition spec st rc msg s w s' w' : quiet spec s -> transition_state st rc msg s w = (s', w') ->
  quiet spec s' /\ supervised spec s' /\ sv_state s' = st /\ sv_process s' = sv_process s.
Proof.
  intros [H1 H2 H3 H4 H5 H6] [now ->]%transition_inv.
  assert (Forall (fun e => se_service_name e = ss_name spec)
            (sv_events s ++ [mk_service_event (ss_name (sv_spec s)) st now rc msg])) as Hev.
  { apply Forall_app. split; [done|]. repeat constructor. simpl. by rewrite H1. }
  split_and!; [by split|split; simpl; try done|done|done]; [by rewrite last_snoc|congruence].
Qed.

Lemma quiet_spawn spec s w s' w' r : quiet spec s -> spawn_process s w = (s', w', r) -> quiet spec s'.
Proof.
  intros [H1 H2 H3 H4 H5 H6]. unfold spawn_process.
  assert (1 <= N.max (u64_wrapping_add (sv_generation s) 1) 1 <= u64_max)%N as Hg.
  { unfold u64_wrapping_add. pose proof (N.mod_lt (sv_generation s + 1) (u64_max + 1)).
    unfold u64_max in *. lia. }
  destruct (process_start _ w) as [[p w1] [h|e]].
  - destruct (env_instant w1) as [w2 now]. intros [= <- <- <-]. split; simpl; try done; lia.
  - intros [= <- <- <-]. split; simpl; try done; lia.
Qed.
Lemma quiet_cleanup spec g s w s' w' r : quiet spec s -> cleanup_current_process g s w = (s', w', r) ->
  quiet spec s' /\ sv_state s' = sv_state s /\ sv_events s' = sv_events s.
Proof.
  intros [H1 H2 H3 H4 H5 H6]. unfold cleanup_current_process.
  destruct (sv_process s) as [p|] eqn:Hp.
  - destruct (process_stop _ p w) as [[p1 w1] [rep|e]]; intros [= <- <- <-];
      (split; [split; simpl; try done; by intros []|done]).
  - intros [= <- <- <-]. split; [split; simpl; try done; by rewrite Hp; intros []|done].
Qed.
(** [stop] and [cancel] announce, then unpublish. *)
Lemma stopping_quiet spec st rc msg s w s' w' : supervised spec s -> transition_state st rc msg s w = (s', w') ->
  quiet spec (unpublish_endpoint s') /\ supervised spec (unpublish_endpoint s').
Proof.
  intros [H1 H2 H3 H4 H5 H6 H7] [now ->]%transition_inv.
  assert (Forall (fun e => se_service_name e = ss_name spec)
            (sv_events s ++ [mk_service_event (ss_name (sv_spec s)) st now rc msg])).
  { apply Forall_app. split; [done|]. repeat constructor. simpl. by rewrite H1. }
  split; split; simpl; try done. by rewrite last_snoc.
Qed.
Lemma quiet_exit_policy spec c s w s' w' : quiet spec s -> supervised spec s ->
  handle_exit_policy c s w = (s', w') -> supervised spec s'.
Proof.
  intros Hq Hs. unfold handle_exit_policy.
  assert (forall mr b, restart_budget (ss_restart_policy spec) = mr ->
            execute_restart_or_quarantine mr b s w = (s', w') -> supervised spec s') as Hex.
  { intros mr b Hmr. unfold execute_restart_or_quarantine.
    set (attempt := ((sv_restart_count s + 1) mod (u32_max + 1))%N).
    destruct (is_some_and (fun max => max <? attempt)%N mr) eqn:Hmax.
    - intros Ht. by eapply quiet_transition.
    - assert (quiet spec (set_sv_restart_count s attempt)) as Hq'.
      { destruct Hq as [H1 H2 H3 H4 H5 H6]. split; simpl; try done.
        - intros m Hm. rewrite Hmr in Hm. rewrite Hm in Hmax. simpl in Hmax. lia.
        - split; [apply H6|]. unfold attempt. pose proof (N.mod_lt (sv_restart_count s + 1) (u32_max + 1)).
          unfold u32_max in *. lia. }
      destruct (transition_state _ _ _ (set_sv_restart_count s attempt) w) as [s1 w1] eqn:Ht. intros [= <- <-].
      by eapply quiet_transition in Ht as (_ & ? & _). }
  rewrite (q_spec _ _ Hq). destruct (ss_restart_policy spec) as [|mr b|mr b]; simpl in *.
  - by intros [= <- <-].
  - by apply Hex.
  - destruct c; [by intros [= <- <-]|by apply Hex].
Qed.

Lemma stop_supervised spec s w s' w' r : supervised spec s -> stop s w = (s', w', r) -> supervised spec s'.
Proof.
  intros Hs. unfold stop. case_match; [by intros [= <- <- <-]|].
  destruct (transition_state SStopping _ _ s w) as [s1 w1] eqn:Ht.
  apply (stopping_quiet spec) in Ht as [Hq1 Hs1]; [|done].
  destruct (cleanup_current_process _ _ w1) as [[s2 w2] r2] eqn:Hc.
  pose proof (quiet_cleanup spec _ _ _ _ _ _ Hq1 Hc) as (Hq2 & Hst & Hev).
  destruct r2 as [rep|err].
  - destruct (if cr_complete rep then _ else _) as [s3 w3] eqn:Hif. intros [= <- <- <-].
    destruct (cr_complete rep); by eapply (quiet_transition spec) in Hif as (_ & ? & _).
  - intros [= <- <- <-]. apply quiet_supervised; [done|]. rewrite Hst, Hev. apply (sup_announced _ _ Hs1).
Qed.
Lemma cancel_supervised spec s w s' w' r : supervised spec s -> cancel s w = (s', w', r) -> supervised spec s'.
Proof.
  intros Hs. unfold cancel. destruct (transition_state SStopping _ _ s w) as [s1 w1] eqn:Ht.
  apply (stopping_quiet spec) in Ht as [Hq1 Hs1]; [|done].
  destruct (cleanup_current_process _ _ w1) as [[s2 w2] r2] eqn:Hc.
  pose proof (quiet_cleanup spec _ _ _ _ _ _ Hq1 Hc) as (Hq2 & Hst & Hev). destruct r2 as [rep|err].
  - destruct (transition_state SStopped _ _ s2 w2) as [s3 w3] eqn:Ht3. intros [= <- <- <-].
    by eapply (quiet_transition spec) in Ht3 as (_ & ? & _).
  - intros [= <- <- <-]. apply quiet_supervised; [done|]. rewrite Hst, Hev. apply (sup_announced _ _ Hs1).
Qed.
Lemma reset_supervised spec s w s' w' : supervised spec s -> reset_restart_count s w = (s', w') -> supervised spec s'.
Proof.
  intros Hs. unfold reset_restart_count. destruct (sv_last_launch_at s); [|by intros [= <- <-]].
  case_bool_decide; [|by intros [= <- <-]]. destruct (env_instant w) as [w2 now]. intros [= <- <-].
  case_match; [|done]. destruct Hs as [K1 K2 K3 K4 K5 K6 K7]. split; simpl; try done; [intros; lia|].
  split; [apply K7|]. lia.
Qed.
Lemma exit_supervised report spec s w s' w' r : supervised spec s ->
  handle_observed_exit report s w = (s', w', r) -> supervised spec s'.
Proof.
  intros Hs. unfold handle_observed_exit.
  assert (quiet spec (set_sv_last_exit_report (unpublish_endpoint s) (Some report))) as Hq
    by (destruct Hs; by split).
  destruct (if clean_exit report then _ else _) as [s1 w1] eqn:Hif.
  assert (quiet spec s1 /\ supervised spec s1) as [Hq1 Hs1].
  { destruct (clean_exit report); by eapply (quiet_transition spec) in Hif as (? & ? & _). }
  destruct (handle_exit_policy (clean_exit report) s1 w1) as [s2 w2] eqn:Hp. intros [= <- <- <-].
  by eapply quiet_exit_policy.
Qed.
End invariant.

(** ** Readiness probing *)
Section probing.
Context {W : Type} `{ServiceHost W}.

Lemma probing_ends_by_failures fuel process probe config ok ko (w : W) :
  (pc_success_threshold config <= 1)%N -> (N.to_nat (pc_failure_threshold config - ko) < fuel)%nat ->
  is_Some (probe_loop fuel process probe config ok ko w).
Proof.
  intros Hs. revert ok ko w. induction fuel as [|fuel IH]; intros ok ko w Hf; [lia|]. simpl.
  destruct (N.ltb_spec ko (pc_failure_threshold config)); [|done].
  destruct (probe_once process probe (pc_timeout config) w) as [w1 [u|e]]; [|apply IH; lia].
  destruct (N.leb_spec (pc_success_threshold config) (ok + 1)); [done|lia].
Qed.
Lemma probing_ends_by_successes fuel process probe config ok ko (w : W) :
  (pc_failure_threshold config <= 1)%N -> (N.to_nat (pc_success_threshold config - ok) + 1 < fuel)%nat ->
  is_Some (probe_loop fuel process probe config ok ko w).
Proof.
  intros Hs. revert ok ko w. induction fuel as [|fuel IH]; intros ok ko w Hf; [lia|]. simpl.
  destruct (N.ltb_spec ko (pc_failure_threshold config)); [|done].
  destruct (probe_once process probe (pc_timeout config) w) as [w1 [u|e]].
  - destruct (N.leb_spec (pc_success_threshold config) (ok + 1)); [done|]. apply IH. lia.
  - destruct fuel as [|fuel]; [lia|]. simpl. destruct (N.ltb_spec (ko + 1) (pc_failure_threshold config)); [lia|done].
Qed.
End probing.

(** A service that answers every second probe. *)
Definition flapping : ServiceHost bool := {|
  host_sleep _ up := up;
  host_probe_tcp _ _ _ up := (negb up, if up then Ok tt else Err "connection refused");
  host_http_status _ _ _ _ up := (negb up, if up then Ok 200%N else Err "connection refused");
|}.
Lemma flapping_probe_loop fuel config (up : bool) :
  (1 < pc_success_threshold config)%N -> (1 < pc_failure_threshold config)%N ->
  @probe_loop _ flapping fuel None (TcpSocket "host" 80) config
    (if up : bool then 0 else 1)%N (if up : bool then 1 else 0)%N up = None.
Proof.
  intros Hs Hf. revert up. induction fuel as [|fuel IH]; intros up; [done|].
  destruct up; simpl; destruct (N.ltb_spec (if true then 1 else 0)%N (pc_failure_threshold config)) as [_|?]; try lia.
  - destruct (N.leb_spec (pc_success_threshold config) (0 + 1)); [lia|]. apply (IH false).
  - destruct (N.ltb_spec 0 (pc_failure_threshold config)); [|lia]. apply (IH true).
Qed.

(** C34: when one of the thresholds is at most one, readiness probing ends for
    every behaviour of the service, within the sum of both plus two rounds.
    When both are larger, a service that answers every second probe keeps the
    loop probing for ever: no number of rounds is enough. *)
Theorem readiness_probing_ends_iff config :
  ((pc_success_threshold config <= 1 \/ pc_failure_threshold config <= 1)%N ->
   forall (W : Type) (host : ServiceHost W) process probe (w : W),
     is_Some (probe_loop (N.to_nat (pc_success_threshold config + pc_failure_threshold config + 2))
                process probe config 0 0 w)) /\
  ((1 < pc_success_threshold config /\ 1 < pc_failure_threshold config)%N ->
   exists (W : Type) (host : ServiceHost W) process probe (w : W),
     forall fuel, probe_loop fuel process probe config 0 0 w = None).
Proof.
  split.
  - intros [Hs|Hf] W host process probe w; [apply probing_ends_by_failures|apply probing_ends_by_successes]; lia.
  - intros [Hs Hf]. exists bool, flapping, None, (TcpSocket "host" 80), true. intros [|fuel]; [done|]. simpl.
    destruct (N.ltb_spec 0 (pc_failure_threshold config)) as [_|?]; [|lia].
    destruct (N.leb_spec (pc_success_threshold config) (0 + 1)); [lia|].
    apply (flapping_probe_loop fuel config false Hs Hf).
Qed.

(** ** A service that keeps failing *)
Section crash_loop.
Context {W : Type} `{Environment W} `{ServiceHost W}.
Context (spec : ServiceSpec) (probe : ReadinessProbe) (config : ProbeConfig) (m : N) (fuel : nat).
Context (Hprobe : ss_readiness_probe spec = Some (probe, config)).
Context (Hpolicy : exists backoff, ss_restart_policy spec = RestartAlways (Some m) backoff \/
                                   ss_restart_policy spec = RestartOnFailure (Some m) backoff).
Context (Hm : (m < u32_max)%N) (Hfuel : (N.to_nat (pc_failure_threshold config) < fuel)%nat).
Context (Hlaunch : forall plan binding (w : W), is_ok (env_launch plan binding w).2 = true).
Context (Hdown : forall process (w : W), is_err (probe_once process probe (pc_timeout config) w).2 = true).
Implicit Types (s : ServiceSupervisor) (w : W).

Lemma never_ready n process ok ko w : (N.to_nat (pc_failure_threshold config - ko) < n)%nat ->
  exists w', probe_loop n process probe config ok ko w = Some (w', false).
Proof.
  revert ok ko w. induction n as [|n IH]; intros ok ko w Hn; [lia|]. simpl.
  destruct (N.ltb_spec ko (pc_failure_threshold config)); [|by exists w].
  specialize (Hdown process w). destruct (probe_once process probe (pc_timeout config) w) as [w1 [u|e]]; [done|].
  apply IH. lia.
Qed.

(** The steps of a failed start. *)
Lemma spawn_ok s w : (sv_generation s < u64_max)%N -> exists s' w', spawn_process s w = (s', w', Ok tt) /\
  sv_spec s' = sv_spec s /\ sv_generation s' = (sv_generation s + 1)%N /\ sv_restart_count s' = sv_restart_count s.
Proof.
  intros Hg. unfold spawn_process, process_start. simpl.
  set (plan := mk_plan _ _ _ _ _ _ _ _). specialize (Hlaunch plan (sv_binding s) w).
  destruct (env_launch plan (sv_binding s) w) as [w1 [h|e]]; [|done]. destruct (env_instant w1) as [w2 now].
  eexists _, _. split_and!; [reflexivity|done| |done]. simpl. unfold u64_wrapping_add. rewrite N.mod_small; lia.
Qed.
Lemma cleanup_keeps g s w s' w' r : cleanup_current_process g s w = (s', w', r) ->
  sv_spec s' = sv_spec s /\ sv_generation s' = sv_generation s /\ sv_restart_count s' = sv_restart_count s.
Proof.
  unfold cleanup_current_process. destruct (sv_process s); [|by intros [= <- _ _]].
  destruct (process_stop _ _ w) as [[? ?] [?|?]]; by intros [= <- _ _].
Qed.
Lemma exit_policy_steps s w s' w' : sv_spec s = spec -> (sv_restart_count s <= m)%N ->
  handle_exit_policy false s w = (s', w') ->
  sv_spec s' = spec /\ sv_generation s' = sv_generation s /\
  ((sv_restart_count s < m)%N /\ sv_state s' = SRestarting /\ sv_restart_count s' = (sv_restart_count s + 1)%N \/
   sv_restart_count s = m /\ sv_state s' = SQuarantined /\ sv_restart_count s' = m).
Proof.
  intros Hs Hc Hp. assert (exists b, execute_restart_or_quarantine (Some m) b s w = (s', w')) as [b Hb].
  { unfold handle_exit_policy in Hp. rewrite Hs in Hp. destruct Hpolicy as [b [Hpol|Hpol]]; rewrite Hpol in Hp; by exists b. }
  unfold execute_restart_or_quarantine in Hb. rewrite N.mod_small in Hb by lia. simpl in Hb.
  destruct (N.ltb_spec m (sv_restart_count s + 1)).
  - apply transition_inv in Hb as [now ->]. simpl. split_and!; [done|done|]. right. split_and!; [lia|done|lia].
  - destruct (transition_state SRestarting _ _ _ w) as [s1 w1] eqn:Ht. injection Hb as <- <-.
    apply transition_inv in Ht as [now ->]. simpl. split_and!; [done|done|]. left. split_and!; [lia|done|done].
Qed.
(** One failed start. *)
Lemma failed_start s w : sv_spec s = spec -> sv_state s = SStopped \/ sv_state s = SRestarting ->
  (sv_restart_count s <= m)%N -> (sv_generation s < u64_max)%N ->
  exists s' w' r, start fuel s w = Some (s', w', r) /\ sv_spec s' = spec /\
    sv_generation s' = (sv_generation s + 1)%N /\
    ((sv_restart_count s < m)%N /\ sv_state s' = SRestarting /\ sv_restart_count s' = (sv_restart_count s + 1)%N \/
     sv_restart_count s = m /\ sv_state s' = SQuarantined /\ sv_restart_count s' = m).
Proof.
  intros Hspec Hst Hc Hg. unfold start.
  assert (ServiceState_is_active (sv_state s) && negb (bool_decide (sv_state s = SRestarting)) = false) as ->
    by (destruct Hst as [-> | ->]; done).
  destruct (spawn_ok s w Hg) as (s1 & w1 & -> & Hs1 & Hg1 & Hc1).
  destruct (transition_state SStarting _ _ s1 w1) as [s2 w2] eqn:Ht2. apply transition_inv in Ht2 as [now2 ->].
  unfold probe_readiness. simpl. rewrite Hs1, Hspec, Hprobe.
  edestruct (never_ready fuel) as [w4 ->]; [lia|]. simpl.
  destruct (transition_state SFailed _ _ _ w4) as [s5 w5] eqn:Ht5. apply transition_inv in Ht5 as [now5 Hs5].
  destruct (cleanup_current_process (seconds 1) s5 w5) as [[s6 w6] r6] eqn:Hcl. apply cleanup_keeps in Hcl as (H6 & H6g & H6c).
  destruct (handle_exit_policy false s6 w6) as [s7 w7] eqn:Hp.
  subst s5. simpl in *. rewrite Hs1, Hspec in H6. rewrite Hc1 in H6c.
  apply exit_policy_steps in Hp as (H7 & H7g & Hcase); [|done|lia].
  eexists s7, w7, _. split_and!; [reflexivity|done|congruence|]. rewrite H6c in Hcase. done.
Qed.

(** C33: a service that launches but never becomes ready ends in quarantine: with
    a budget of [m] restarts, after the first start and [k] supervision steps it
    has been launched [k + 1] times, but never more than [m + 1] times, and once
    the budget is spent it is quarantined for good. *)
Theorem crash_loop_ends_in_quarantine binding w (k : nat) : exists s' w',
  perform_ops fuel (OpStart :: replicate k OpStep) (ServiceSupervisor_new spec binding, w) = Some (s', w') /\
  sv_generation s' = (N.min (N.of_nat k) m + 1)%N /\
  sv_restart_count s' = N.min (N.of_nat k + 1) m /\
  sv_state s' = (if (N.of_nat k <? m)%N then SRestarting else SQuarantined).
Proof.
  assert (forall os o sw, perform_ops fuel (os ++ [o]) sw = (sw ← perform_ops fuel os sw; perform_op fuel o sw)) as Happ.
  { induction os as [|o' os IH]; intros o sw; simpl; [by destruct (perform_op fuel o sw)|].
    destruct (perform_op fuel o' sw); simpl; [apply IH|done]. }
  assert (m + 1 < u64_max)%N as Hmax by (unfold u32_max, u64_max in *; lia).
  cut (exists s' w',
    perform_ops fuel (OpStart :: replicate k OpStep) (ServiceSupervisor_new spec binding, w) = Some (s', w') /\
    sv_spec s' = spec /\ sv_generation s' = (N.min (N.of_nat k) m + 1)%N /\
    sv_restart_count s' = N.min (N.of_nat k + 1) m /\
    sv_state s' = (if (N.of_nat k <? m)%N then SRestarting else SQuarantined)).
  { intros (s' & w' & ? & _ & ?). by exists s', w'. }
  induction k as [|k IH].
  - destruct (failed_start (ServiceSupervisor_new spec binding) w) as (s1 & w1 & r & Hr & H1 & Hg & Hcase);
      [done|by left|simpl; lia|simpl; unfold u64_max; lia|].
    exists s1, w1. simpl. rewrite Hr. simpl in *. split_and!; [done|done|lia|lia|].
    destruct Hcase as [(? & -> & ?)|(? & -> & ?)]; destruct (N.ltb_spec (N.of_nat 0) m); done || lia.
  - destruct IH as (s1 & w1 & Hr & H1 & Hg & Hc & Hst).
    rewrite replicate_S_end, app_comm_cons, Happ, Hr. simpl. unfold step_supervision.
    assert (exists w2, reset_restart_count s1 w1 = (s1, w2)) as [w2 ->].
    { unfold reset_restart_count. destruct (sv_last_launch_at s1); [|by exists w1].
      rewrite bool_decide_false; [by exists w1|]. rewrite Hst. by case_match. }
    destruct (N.ltb_spec (N.of_nat k) m) as [Hk|Hk].
    + rewrite bool_decide_true by done.
      destruct (failed_start s1 w2) as (s2 & w3 & r & Hr2 & H2 & Hg2 & Hcase); [done|by right|lia|lia|].
      exists s2, w3. rewrite Hr2. simpl. split_and!; [done|done|lia|lia|].
      destruct Hcase as [(? & -> & ?)|(? & -> & ?)]; destruct (N.ltb_spec (N.of_nat (S k)) m); done || lia.
    + rewrite bool_decide_false by (by rewrite Hst). exists s1, w2. simpl.
      split_and!; [done|done|lia|lia|]. destruct (N.ltb_spec (N.of_nat (S k)) m); [lia|done].
Qed.
End crash_loop.

(** ** A stop that fails

    [cleanup_current_process] takes the process out of the supervisor before it
    asks the sandbox to stop it. *)
Section failed_stop.
Context {W : Type} `{Environment W} `{ServiceHost W}.
Implicit Types (s : ServiceSupervisor) (w : W).

(** When the sandbox fails to stop the process, [stop] returns the error and
    the supervisor has forgotten the process: called again, in any world, it
    does not reach the sandbox, and reports a stopped service with a complete
    cleanup. *)
Theorem retried_stop_claims_cleanup s w s1 w1 e : stop s w = (s1, w1, Err e) ->
  sv_state s1 = SStopping /\ handle s1 = None /\
  forall w2, exists s2 w3 st, stop s1 w2 = (s2, w3, Ok st) /\ st_state st = SStopped /\
    st_last_exit_report st = Some not_running_report /\ cr_complete not_running_report = true.
Proof.
  unfold stop. case_match; [done|].
  destruct (transition_state SStopping _ _ s w) as [sa wa] eqn:Ht. apply transition_inv in Ht as [now ->].
  unfold cleanup_current_process, unpublish_endpoint. simpl.
  destruct (sv_process s) as [p|]; [|by destruct (transition_state _ _ _ _ _)].
  destruct (process_stop _ p wa) as [[p1 w1'] [rep|err]]; [by destruct (if cr_complete rep then _ else _)|].
  intros [= <- <- <-]. split_and!; [done|done|]. intros w2. simpl.
  unfold transition_state. destruct (env_now_unix_ms w2) as [w3 now3]. simpl.
  destruct (env_now_unix_ms w3) as [w4 now4]. by eexists _, _, _.
Qed.

(** [cancel] reports a stopped service whatever the cleanup report says. *)
Lemma cancel_always_stopped s w s' w' st : cancel s w = (s', w', Ok st) -> st_state st = SStopped.
Proof.
  unfold cancel. destruct (transition_state SStopping _ _ s w) as [s1 w1].
  destruct (cleanup_current_process _ _ w1) as [[s2 w2] [rep|err]]; [|done].
  destruct (transition_state SStopped _ _ s2 w2) as [s3 w3] eqn:Ht. intros [= <- <- <-].
  apply transition_inv in Ht as [now ->]. done.
Qed.
End failed_stop.

(** ** Back-off *)

(** The default policy doubles from 100 ms to its ceiling of 30 s. *)
Lemma default_backoff_schedule :
  forallb (fun attempt => compute_delay BackoffConfig_default attempt
                          =? N.min (millis 100 * 2 ^ (attempt - 1)) (seconds 30))%N
    (N.of_nat <$> seq 1 100) = true.
Proof. vm_compute. reflexivity. Qed.
(** The exponent is cast to [i32]: after 2^31 restarts the delay is zero. *)
Lemma backoff_exponent_wraps : compute_delay BackoffConfig_default 2147483649 = 0%N.
Proof. vm_compute. reflexivity. Qed.
Lemma compute_delay_bounded b attempt :
  (compute_delay b attempt <= bo_max_delay b)%N /\ (compute_delay b attempt <= u64_max)%N.
Proof. unfold compute_delay. case_match; lia. Qed.
