(* ===== verification/SupervisorExamples.v ===== *)
(** * The service supervisor on concrete hosts

    A host whose sockets refuse every connection, one that accepts them, and a
    sandbox that cannot stop a process instantiate the theorems of
    [SupervisorSpec]. *)
From stdpp Require Import base gmap strings list sorting pretty.
From Stdlib Require Import Ascii Lia ZifyBool ZifyN.
From S2P Require Import Prelude Validation Contract KernelApi Environment Instance World.
From S2P Require Import Service Supervisor SupervisorSpec.

Definition world_host (up : bool) : ServiceHost world := {|
  host_sleep _ w := w;
  host_probe_tcp _ _ _ w := (w, if up then Ok tt else Err "connection refused");
  host_http_status _ _ _ _ w := (w, if up then Ok 200%N else Err "connection refused");
|}.

(** The world with a sandbox that fails to stop anything. *)
Definition stuck_environment : Environment world := {|
  env_now_unix_ms := env_now_unix_ms;
  env_instant := env_instant;
  env_uuid := env_uuid;
  env_backend_id := env_backend_id;
  env_preflight_for_binding := env_preflight_for_binding;
  env_launch := env_launch;
  env_stop _ _ w := (w, Err (world_error "CGROUP_KILL_FAILED"));
  env_probe_inventory := env_probe_inventory;
  env_create_binding_for_generation := env_create_binding_for_generation;
  env_resolve_worker_launch_plan := env_resolve_worker_launch_plan;
  env_journal_append := env_journal_append;
  env_append_event := env_append_event;
  env_events_for_source := env_events_for_source;
  env_try_send := env_try_send;
  env_hash_order := env_hash_order;
  env_hash_order_permutation := env_hash_order_permutation;
|}.

Definition web_endpoint : ServiceEndpointSpec :=
  mk_endpoint_spec "http" "cyrene.web.v1" (Some 8080%N) (Some "/") ∅ "127.0.0.1:8080" None.
Definition web_config : ProbeConfig := mk_probe_config (millis 10) (millis 50) (millis 500) 1 3.
Definition web_service : ServiceSpec :=
  with_endpoint
    (with_restart_policy
       (with_readiness_probe (ServiceSpec_new "web" world_plan) (TcpSocket "127.0.0.1" 8080) web_config)
       (RestartAlways (Some 2%N) BackoffConfig_default))
    web_endpoint.
Definition crash_report : CleanupReport := mk_cleanup true (Some 1%Z) false [] "PROCESS_CRASHED".
Definition web_ops : list service_op := [OpStart; OpExit crash_report; OpStep; OpStop; OpStart].
Definition web_new : ServiceSupervisor := ServiceSupervisor_new web_service world_binding.

(** With two restarts the third launch is the last. *)
Lemma crash_loop_ends_in_quarantine_witness : exists s w,
  @perform_ops _ _ (world_host false) 10 (OpStart :: replicate 7 OpStep) (web_new, world_start true []) = Some (s, w) /\
  sv_generation s = 3%N /\ sv_restart_count s = 2%N /\ sv_state s = SQuarantined.
Proof.
  destruct (@crash_loop_ends_in_quarantine _ _ (world_host false) web_service (TcpSocket "127.0.0.1" 8080) web_config 2 10
              eq_refl) with (binding := world_binding) (w := world_start true []) (k := 7%nat) as (s & w & Hr & Hk).
  - exists BackoffConfig_default. left. reflexivity.
  - reflexivity.
  - vm_compute. lia.
  - intros. reflexivity.
  - intros. reflexivity.
  - exists s, w. split; [exact Hr|exact Hk].
Defined.

Definition web_running : ServiceSupervisor * world :=
  default (web_new, world_start true [])
    (@perform_ops _ _ (world_host true) 10 [OpStart] (web_new, world_start true [])).
Lemma retried_stop_claims_cleanup_witness :
  let '(s1, w1, _) := @stop _ stuck_environment web_running.1 web_running.2 in
  handle web_running.1 <> None /\
  sv_state s1 = SStopping /\ handle s1 = None /\
  exists s2 w3 st, @stop _ stuck_environment s1 w1 = (s2, w3, Ok st) /\ st_state st = SStopped.
Proof.
  destruct (@stop _ stuck_environment web_running.1 web_running.2) as [[s1 w1] r] eqn:Hs.
  assert (r = Err (world_error "CGROUP_KILL_FAILED")) as ->.
  { change r with ((s1, w1, r).2). rewrite <- Hs. vm_compute. reflexivity. }
  destruct (@retried_stop_claims_cleanup _ stuck_environment _ _ _ _ _ Hs) as (Hst & Hh & Hagain).
  split; [vm_compute; discriminate|]. split; [exact Hst|]. split; [exact Hh|].
  destruct (Hagain w1) as (s2 & w3 & st & He & Hstopped & _). exists s2, w3, st. split; [exact He|exact Hstopped].
Defined.
