(* ===== verification/Messages.v ===== *)
(** * Protobuf messages

    The messages of [contracts/proto/cyrene] that the Kernel's conversions read
    and write, as the generated Rust structs hold them: a message field is an
    [option], an enumeration is the [i32] on the wire with [try_from] and
    [as i32], a map field is a map.  Fields that no conversion reads (traces,
    the isolation of an accelerator) are left out. *)
From stdpp Require Import base gmap strings list.
From Stdlib Require Import Ascii SpecFloat.

Module Proto.

(** [google.protobuf.Timestamp] and [google.protobuf.Duration]: [i64] seconds
    and [i32] nanoseconds. *)
Record Timestamp := timestamp { ts_seconds : Z; ts_nanos : Z }.
Record Duration := duration { du_seconds : Z; du_nanos : Z }.

(** ** [semantic/v1/kernel_contract.proto] *)
Record ContractRevisionMessage := contract_revision { cr_contract_id : string; cr_major : N; cr_minor : N }.
Record IdentityMessage := identity { id_id : string; id_generation : N }.
Record CapabilityMessage := capability { cap_id : string; cap_revision : N; cap_properties : gmap string string }.
Record CapabilityRequirementMessage := requirement {
  req_id : string;
  req_minimum_revision : N;
  req_required_properties : gmap string string;
}.
Record QuantityMessage := quantity { qty_value : N; qty_unit : string }.

Inductive ProviderStateEnum := PsUnspecified | PsReady | PsDegraded | PsUnavailable.
Definition ProviderState_try_from (value : Z) : option ProviderStateEnum :=
  match value with
  | 0 => Some PsUnspecified | 1 => Some PsReady | 2 => Some PsDegraded | 3 => Some PsUnavailable
  | _ => None
  end%Z.
Definition ProviderState_as_i32 (s : ProviderStateEnum) : Z :=
  match s with PsUnspecified => 0 | PsReady => 1 | PsDegraded => 2 | PsUnavailable => 3 end.
Record ProviderMessage := provider {
  pv_identity : option IdentityMessage;
  pv_state : Z;
  pv_capabilities : list CapabilityMessage;
}.

Inductive ResourceStateEnum := RsUnspecified | RsReady | RsDegraded | RsUnavailable.
Definition ResourceState_try_from (value : Z) : option ResourceStateEnum :=
  match value with
  | 0 => Some RsUnspecified | 1 => Some RsReady | 2 => Some RsDegraded | 3 => Some RsUnavailable
  | _ => None
  end%Z.
Definition ResourceState_as_i32 (s : ResourceStateEnum) : Z :=
  match s with RsUnspecified => 0 | RsReady => 1 | RsDegraded => 2 | RsUnavailable => 3 end.
Record TopologyLinkMessage := topology_link {
  tl_peer : option IdentityMessage;
  tl_kind : string;
  tl_properties : gmap string string;
}.
Record ResourceMessage := resource {
  rs_identity : option IdentityMessage;
  rs_provider : option IdentityMessage;
  rs_resource_class : string;
  rs_capabilities : list CapabilityMessage;
  rs_capacity : gmap string QuantityMessage;
  rs_attributes : gmap string string;
  rs_state : Z;
  rs_reason_code : string;
  rs_summary : string;
  rs_links : list TopologyLinkMessage;
}.
Record ResourceQueryMessage := resource_query {
  rq_resource_class : string;
  rq_count : N;
  rq_required_capabilities : list CapabilityRequirementMessage;
  rq_minimum_capacity : gmap string QuantityMessage;
}.

Inductive LeaseStateEnum := LsUnspecified | LsActive | LsReleasing | LsReleased | LsExpired | LsRevoked | LsFailed.
Definition LeaseState_as_i32 (s : LeaseStateEnum) : Z :=
  match s with
  | LsUnspecified => 0 | LsActive => 1 | LsReleasing => 2 | LsReleased => 3 | LsExpired => 4 | LsRevoked => 5
  | LsFailed => 6
  end.
Record LeaseMessage := lease {
  le_identity : option IdentityMessage;
  le_holder : option IdentityMessage;
  le_resources : list IdentityMessage;
  le_state : Z;
  le_fence_token : N;
  le_expires_at : option Timestamp;
}.

Inductive WorkerStateEnum :=
| WsUnspecified | WsRegistered | WsStarting | WsRunning | WsDraining | WsStopped | WsFailed | WsLost.
Definition WorkerState_try_from (value : Z) : option WorkerStateEnum :=
  match value with
  | 0 => Some WsUnspecified | 1 => Some WsRegistered | 2 => Some WsStarting | 3 => Some WsRunning
  | 4 => Some WsDraining | 5 => Some WsStopped | 6 => Some WsFailed | 7 => Some WsLost
  | _ => None
  end%Z.
Definition WorkerState_as_i32 (s : WorkerStateEnum) : Z :=
  match s with
  | WsUnspecified => 0 | WsRegistered => 1 | WsStarting => 2 | WsRunning => 3 | WsDraining => 4 | WsStopped => 5
  | WsFailed => 6 | WsLost => 7
  end.
Record WorkerMessage := worker {
  wk_identity : option IdentityMessage;
  wk_principal : option IdentityMessage;
  wk_provider : option IdentityMessage;
  wk_lease : option IdentityMessage;
  wk_state : Z;
  wk_execution_ref : string;
  wk_limits : gmap string QuantityMessage;
}.

Inductive OperationStateEnum :=
| OsUnspecified | OsCreated | OsPending | OsRunning | OsSucceeded | OsFailed | OsCancelling | OsCancelled | OsLost.
Definition OperationState_try_from (value : Z) : option OperationStateEnum :=
  match value with
  | 0 => Some OsUnspecified | 1 => Some OsCreated | 2 => Some OsPending | 3 => Some OsRunning
  | 4 => Some OsSucceeded | 5 => Some OsFailed | 6 => Some OsCancelling | 7 => Some OsCancelled | 8 => Some OsLost
  | _ => None
  end%Z.
Definition OperationState_as_i32 (s : OperationStateEnum) : Z :=
  match s with
  | OsUnspecified => 0 | OsCreated => 1 | OsPending => 2 | OsRunning => 3 | OsSucceeded => 4 | OsFailed => 5
  | OsCancelling => 6 | OsCancelled => 7 | OsLost => 8
  end.
Record OperationMessage := operation {
  op_identity : option IdentityMessage;
  op_owner : option IdentityMessage;
  op_executor : option IdentityMessage;
  op_kind : string;
  op_state : Z;
  op_deadline : option Timestamp;
  op_parent : option IdentityMessage;
  op_metadata : gmap string string;
}.

Record EndpointMessage := endpoint {
  ep_identity : option IdentityMessage;
  ep_provider : option IdentityMessage;
  ep_owner : option IdentityMessage;
  ep_transport : string;
  ep_schema_id : string;
  ep_capabilities : list CapabilityMessage;
  ep_public_attributes : gmap string string;
  ep_connection_ref : string;
  ep_credential_ref : string;
}.
Record EndpointGrantMessage := endpoint_grant {
  eg_identity : option IdentityMessage;
  eg_endpoint : option IdentityMessage;
  eg_grantee : option IdentityMessage;
  eg_lease : option IdentityMessage;
  eg_fence_token : N;
  eg_expires_at : option Timestamp;
}.

Record EventMessage := event {
  ev_sequence : N;
  ev_subject : option IdentityMessage;
  ev_kind : string;
  ev_observed_at : option Timestamp;
  ev_schema_id : string;
  ev_body : list ascii;
  ev_source : option IdentityMessage;
}.
Record EventCursorMessage := event_cursor { ec_source : option IdentityMessage; ec_sequence : N }.
Inductive ReplayStatusEnum := RpUnspecified | RpCurrent | RpGap | RpSourceChanged.
Definition ReplayStatus_as_i32 (s : ReplayStatusEnum) : Z :=
  match s with RpUnspecified => 0 | RpCurrent => 1 | RpGap => 2 | RpSourceChanged => 3 end.
Record EventPageMessage := event_page {
  pg_source : option IdentityMessage;
  pg_status : Z;
  pg_events : list EventMessage;
  pg_oldest_available_sequence : N;
  pg_latest_available_sequence : N;
  pg_next_sequence : N;
}.
Record EventContinuityMessage := event_continuity {
  co_source : option IdentityMessage;
  co_status : Z;
  co_oldest_available_sequence : N;
  co_latest_available_sequence : N;
  co_next_sequence : N;
}.
Record ProviderSnapshotMessage := provider_snapshot {
  sn_provider : option IdentityMessage;
  sn_snapshot_generation : N;
  sn_resources : list ResourceMessage;
  sn_workers : list WorkerMessage;
  sn_endpoints : list EndpointMessage;
  sn_sampled_at : option Timestamp;
  sn_expires_at : option Timestamp;
}.

(** ** Call contexts ([core/v1], [core/v2] and [provider/v1]) *)
Record AuthorityCallContextV1 := context_v1 {
  c1_contract : option ContractRevisionMessage;
  c1_request_id : string;
  c1_idempotency_key : string;
}.
Record AuthorityCallContextV2 := context_v2 {
  c2_namespace : string;
  c2_contract : option ContractRevisionMessage;
  c2_request_id : string;
  c2_idempotency_key : string;
}.
Record ProviderCallContext := provider_context {
  cp_contract : option ContractRevisionMessage;
  cp_namespace : string;
  cp_request_id : string;
  cp_idempotency_key : string;
}.

(** ** Legacy resource requirements ([core/v1/resource.proto], [core/v1/common.proto]) *)
Inductive AcceleratorKind := AkUnspecified | AkGpu | AkNpu | AkTpu | AkOther.
Definition AcceleratorKind_try_from (value : Z) : option AcceleratorKind :=
  match value with
  | 0 => Some AkUnspecified | 1 => Some AkGpu | 2 => Some AkNpu | 3 => Some AkTpu | 100 => Some AkOther
  | _ => None
  end%Z.
Definition AcceleratorVendor_Unspecified : Z := 0.
Record CpuRequirements := cpu_requirements { cpu_request_millicores : N; cpu_limit_millicores : N }.
Record MemoryRequirements := memory_requirements { mem_request_bytes : N; mem_limit_bytes : N }.
Record AcceleratorRequirements := accelerator_requirements {
  ac_kind : Z;
  ac_vendor : Z;
  ac_other_vendor_id : string;
  ac_count : N;
  ac_min_memory_bytes_per_device : N;
  ac_required_features : list string;
}.
Record ResourceRequirements := resource_requirements {
  rr_cpu : option CpuRequirements;
  rr_memory : option MemoryRequirements;
  rr_accelerators : list AcceleratorRequirements;
}.
Inductive EnforcementModeEnum := EmUnspecified | EmHard | EmSoft | EmVisibilityOnly | EmObserveOnly | EmUnenforced.
Record RequestContext := request_context { rc_request_id : string; rc_tenant_id : string; rc_project_id : string }.
Record MutationContext := mutation_context { mc_request : option RequestContext }.

(** ** Service supervision ([core/v1/service_supervision.proto])

    A [double] is a binary64 of [SpecFloat]. *)
Inductive Probe :=
| ProbeProcessAlive
| ProbeTcpSocket (host : string) (port : N)
| ProbeHttpGet (host : string) (port : N) (path : string) (expected_status : option N)
| ProbeWorkerControl.
Record ProbeConfigMessage := probe_config {
  pr_initial_delay : option Duration;
  pr_period : option Duration;
  pr_timeout : option Duration;
  pr_success_threshold : N;
  pr_failure_threshold : N;
}.
Record BackoffConfigMessage := backoff_config {
  bk_initial_delay : option Duration;
  bk_max_delay : option Duration;
  bk_multiplier : spec_float;
  bk_reset_after : option Duration;
}.
Inductive Policy :=
| PolicyNever
| PolicyOnFailure (max_retries : option N) (backoff : option BackoffConfigMessage)
| PolicyAlways (max_retries : option N) (backoff : option BackoffConfigMessage).
Record ServiceEndpointSpecMessage := service_endpoint_spec {
  sp_transport : string;
  sp_schema_id : string;
  sp_port : option N;
  sp_path : option string;
  sp_attributes : gmap string string;
  sp_connection_ref : string;
  sp_credential_ref : option string;
}.
(** A [oneof] inside a message field: the message may be there without a
    choice. *)
Record ServiceSpecMessage := service_spec {
  se_name : string;
  se_executable : string;
  se_args : list string;
  se_environment : gmap string string;
  se_cgroup_name : string;
  se_working_dir : option string;
  se_transport_socket : option string;
  se_readiness_probe : option (option Probe);
  se_probe_config : option ProbeConfigMessage;
  se_restart_policy : option (option Policy);
  se_graceful_stop_timeout : option Duration;
  se_endpoint : option ServiceEndpointSpecMessage;
}.
Inductive ServiceStateEnum :=
| SsUnspecified | SsStarting | SsReady | SsRunning | SsStopping | SsStopped | SsFailed | SsRestarting | SsQuarantined.
Definition ServiceState_as_i32 (s : ServiceStateEnum) : Z :=
  match s with
  | SsUnspecified => 0 | SsStarting => 1 | SsReady => 2 | SsRunning => 3 | SsStopping => 4 | SsStopped => 5
  | SsFailed => 6 | SsRestarting => 7 | SsQuarantined => 8
  end.
Record ServiceStatusMessage := service_status {
  su_name : string;
  su_state : Z;
  su_restart_count : N;
  su_exit_code : option Z;
  su_oom_killed : bool;
  su_reason_code : string;
  su_published_endpoint : option EndpointMessage;
  su_last_error : option string;
}.
Record ServiceEventMessage := service_event {
  sv_service_name : string;
  sv_state : Z;
  sv_timestamp_unix_ms : N;
  sv_reason_code : string;
  sv_message : string;
}.
Record StopServiceRequest := stop_service_request { ss_service_name : string; ss_grace_period : option Duration }.

End Proto.
