(* ===== verification/Wire.v ===== *)
(** * Wire conversions

    [cy-kernel-daemon/src/convert]: every message that reaches the authority is
    decoded into an object of the semantic contract here, and every object it
    returns is encoded here. *)
From stdpp Require Import base gmap strings list sorting pretty.
From Stdlib Require Import Ascii Lia ZifyBool ZifyN.
From S2P Require Import Prelude Validation Contract KernelApi Environment Instance AuthorityState Messages.

(** ** Statuses *)
Inductive Code := CodeInvalidArgument | CodeNotFound | CodeFailedPrecondition | CodeUnavailable
  | CodeAlreadyExists | CodeInternal.
#[export] Instance Code_eq_dec : EqDecision Code.
Proof. solve_decision. Defined.
(** [tonic::Status] with the [x-cyrene-reason-code] entry of its metadata. *)
Record Status := mk_status {
  sta_code : Code;
  sta_message : string;
  sta_reason_code : option string;
}.
Definition invalid_argument (message : string) : Status := mk_status CodeInvalidArgument message None.
Definition failed_precondition (message : string) : Status := mk_status CodeFailedPrecondition message None.

(** The transport library decides whether a string can be a metadata value. *)
Class Metadata := { metadata_accepts : string -> bool }.

(** ** Casts *)
Definition as_i64 (x : N) : Z :=
  let x := (Z.of_N x mod 2 ^ 64)%Z in if (x <? 2 ^ 63)%Z then x else (x - 2 ^ 64)%Z.
Definition as_i32 (x : N) : Z :=
  let x := (Z.of_N x mod 2 ^ 32)%Z in if (x <? 2 ^ 31)%Z then x else (x - 2 ^ 32)%Z.
Definition as_u64 (x : Z) : N := Z.to_N (x mod 2 ^ 64).
Definition as_u32 (x : Z) : N := Z.to_N (x mod 2 ^ 32).
Definition u64_checked_mul (a b : N) : option N := if (a * b <=? u64_max)%N then Some (a * b)%N else None.
Definition u32_checked_add (a b : N) : option N := if (a + b <=? u32_max)%N then Some (a + b)%N else None.

(** [.collect::<Result<Vec<_>, _>>()] *)
Fixpoint collect {E A B} (f : A -> result E B) (xs : list A) : result E (list B) :=
  match xs with
  | [] => Ok []
  | x :: xs => y ← f x; ys ← collect f xs; Ok (y :: ys)
  end.
(** [.map(f).transpose()] *)
Definition transpose {E A B} (f : A -> result E B) (o : option A) : result E (option B) :=
  match o with Some a => Some <$> f a | None => Ok None end.

(** ** Times ([common.rs]) *)

(** A [Duration] is its number of nanoseconds. *)
Definition proto_duration (d : Proto.Duration) : result Status N :=
  if ((Proto.du_seconds d <? 0) || (Proto.du_nanos d <? 0))%Z then
    Err (invalid_argument "duration seconds and nanos must be non-negative")
  else if ((315576000000 <? Proto.du_seconds d) || (1000000000 <=? Proto.du_nanos d))%Z then
    Err (invalid_argument "duration exceeds the protobuf range")
  else Ok (as_u64 (Proto.du_seconds d) * 1000000000 + as_u32 (Proto.du_nanos d))%N.
Definition to_proto_duration (d : N) : Proto.Duration :=
  Proto.duration (as_i64 (d / 1000000000)) (as_i32 (d mod 1000000000)).

Definition unix_ms_from_timestamp (t : Proto.Timestamp) (field : string) : result Status N :=
  if ((Proto.ts_seconds t <? 0) || (Proto.ts_nanos t <? 0))%Z then
    Err (invalid_argument (field +:+ " timestamp must be non-negative"))
  else
    ok_or (invalid_argument (field +:+ " timestamp overflowed u64 ms"))
      (ms ← u64_checked_mul (as_u64 (Proto.ts_seconds t)) 1000;
       u64_checked_add ms (as_u64 (Proto.ts_nanos t) / 1000000)).
Definition timestamp_from_unix_ms (unix_ms : N) : Proto.Timestamp :=
  Proto.timestamp (as_i64 (unix_ms / 1000)) (as_i32 (unix_ms mod 1000 * 1000000)).

(** ** Common objects ([common.rs]) *)
Definition to_semantic_proto_identity (i : Identity) : Proto.IdentityMessage :=
  Proto.identity (ident_id i) (ident_generation i).
(** [Status::invalid_argument(format!("{}: {}", error.reason_code, error.message))] *)
Definition invalid_object (e : ContractError) : Status :=
  invalid_argument (ce_reason_code e +:+ ": " +:+ ce_message e).
Definition semantic_identity_from_proto (i : option Proto.IdentityMessage) (field : string) : result Status Identity :=
  i ← ok_or (invalid_argument (field +:+ " is required")) i;
  let i := mk_identity (Proto.id_id i) (Proto.id_generation i) in
  _ ← map_err invalid_object (Identity_validate i);
  Ok i.
Definition semantic_contract_revision_from_proto (r : Proto.ContractRevisionMessage) : option ContractRevision :=
  let r := mk_revision (Proto.cr_contract_id r) (Proto.cr_major r) (Proto.cr_minor r) in
  if is_ok (ContractRevision_validate r) then Some r else None.
Definition to_semantic_proto_contract_revision (r : ContractRevision) : Proto.ContractRevisionMessage :=
  Proto.contract_revision (rev_contract_id r) (rev_major r) (rev_minor r).

(** The closures that the decoders and encoders repeat. *)
Definition capability_from_proto (c : Proto.CapabilityMessage) : Capability :=
  mk_capability (Proto.cap_id c) (Proto.cap_revision c) (Proto.cap_properties c).
Definition capability_to_proto (c : Capability) : Proto.CapabilityMessage :=
  Proto.capability (cap_id c) (cap_revision c) (cap_properties c).
Definition requirement_from_proto (r : Proto.CapabilityRequirementMessage) : CapabilityRequirement :=
  mk_requirement (Proto.req_id r) (Proto.req_minimum_revision r) (Proto.req_required_properties r).
Definition quantity_from_proto (q : Proto.QuantityMessage) : Quantity := mk_quantity (Proto.qty_value q) (Proto.qty_unit q).
Definition quantity_to_proto (q : Quantity) : Proto.QuantityMessage := Proto.quantity (qty_value q) (qty_unit q).

(** A call that may panic. *)
Inductive may_panic (A : Type) := Returned (a : A) | Panicked.
Arguments Returned {A}.
Arguments Panicked {A}.

Section conversions.
Context {M : Metadata}.

Definition semantic_status (code : Code) (reason_code message : string) : Status :=
  mk_status code message (if metadata_accepts reason_code then Some reason_code else None).
Definition rejected_object (e : ContractError) : Status :=
  semantic_status CodeInvalidArgument (ce_reason_code e) (ce_message e).
Definition unknown_enum (message : string) : Status :=
  semantic_status CodeInvalidArgument "UNKNOWN_ENUM_VALUE" message.

Definition provider_status (e : ProviderError) : Status :=
  let code :=
    if bool_decide (pe_reason_code e = "RESOURCE_NOT_FOUND") then CodeNotFound
    else if bool_decide (pe_reason_code e ∈ ["ADAPTER_REGISTRATION_INVALID"; "ADAPTER_ENDPOINT_INVALID";
              "ADAPTER_REGISTRATION_EMPTY"; "ADAPTER_RESOURCE_ID_COLLISION";
              "ADAPTER_BINDING_PROVENANCE_MISMATCH"; "RESOURCE_PROVENANCE_MISSING"])
    then CodeInvalidArgument else CodeUnavailable in
  semantic_status code (pe_reason_code e) (pe_message e).

(** ** Call contexts ([common.rs], [provider.rs]) *)
Definition validate_authority_context (context : option Proto.AuthorityCallContextV1)
    : result Status Proto.AuthorityCallContextV1 :=
  context ← ok_or (semantic_status CodeInvalidArgument "AUTHORITY_CONTEXT_REQUIRED"
                     "a negotiated authority call context is required") context;
  offered ← ok_or (semantic_status CodeFailedPrecondition "CONTRACT_NEGOTIATION_REQUIRED"
                     "a selected semantic contract revision is required") (Proto.c1_contract context);
  offered ← ok_or (semantic_status CodeInvalidArgument "CONTRACT_REVISION_INVALID"
                     "authority call contains an invalid semantic contract revision")
              (semantic_contract_revision_from_proto offered);
  if negb (bool_decide (ContractRevision_negotiate ContractRevision_current offered = Some offered)) then
    Err (semantic_status CodeFailedPrecondition "CONTRACT_INCOMPATIBLE"
           "authority call did not use a revision selected by this Kernel")
  else if bool_decide (Proto.c1_request_id context = "") && bool_decide (Proto.c1_idempotency_key context = "") then
    Err (semantic_status CodeInvalidArgument "REQUEST_ID_REQUIRED"
           "authority call requires request_id or idempotency_key")
  else Ok context.
(** The two [expect]s after the validation may panic. *)
Definition authority_call_context_from_proto (context : option Proto.AuthorityCallContextV1)
    : may_panic (result Status AuthorityCallContext) :=
  match validate_authority_context context with
  | Err e => Returned (Err e)
  | Ok context =>
      match Proto.c1_contract context ≫= semantic_contract_revision_from_proto with
      | None => Panicked
      | Some contract =>
          Returned (Ok (mk_context contract NamespaceId_default (Proto.c1_request_id context)
                          (Proto.c1_idempotency_key context)))
      end
  end.
Definition authority_call_context_from_v2_proto (context : option Proto.AuthorityCallContextV2)
    : result Status AuthorityCallContext :=
  context ← ok_or (semantic_status CodeInvalidArgument "AUTHORITY_CONTEXT_REQUIRED"
                     "a negotiated authority call context is required") context;
  _ ← ensure (negb (bool_decide (Proto.c2_namespace context = "")))
        (semantic_status CodeInvalidArgument "NAMESPACE_REQUIRED"
           "Core v2 authority calls require an explicit namespace");
  namespace ← map_err (fun e => semantic_status CodeInvalidArgument (rej_reason_code e) (rej_message e))
                (NamespaceId_new (Proto.c2_namespace context));
  offered ← ok_or (semantic_status CodeFailedPrecondition "CONTRACT_NEGOTIATION_REQUIRED"
                     "a selected semantic contract revision is required") (Proto.c2_contract context);
  contract ← ok_or (semantic_status CodeInvalidArgument "CONTRACT_REVISION_INVALID"
                     "authority call contains an invalid semantic contract revision")
              (semantic_contract_revision_from_proto offered);
  if negb (bool_decide (ContractRevision_negotiate ContractRevision_current contract = Some contract)) then
    Err (semantic_status CodeFailedPrecondition "CONTRACT_INCOMPATIBLE"
           "authority call did not use a revision selected by this Kernel")
  else if bool_decide (Proto.c2_request_id context = "") && bool_decide (Proto.c2_idempotency_key context = "") then
    Err (semantic_status CodeInvalidArgument "REQUEST_ID_REQUIRED"
           "authority call requires request_id or idempotency_key")
  else Ok (mk_context contract namespace (Proto.c2_request_id context) (Proto.c2_idempotency_key context)).
Definition provider_call_context_from_proto (context : option Proto.ProviderCallContext)
    : result Status AuthorityCallContext :=
  context ← ok_or (semantic_status CodeInvalidArgument "AUTHORITY_CONTEXT_REQUIRED"
                     "a negotiated provider call context is required") context;
  namespace ← map_err (fun e => semantic_status CodeInvalidArgument (rej_reason_code e) (rej_message e))
                (NamespaceId_new (Proto.cp_namespace context));
  contract ← ok_or (semantic_status CodeFailedPrecondition "CONTRACT_NEGOTIATION_REQUIRED"
                     "a selected semantic contract revision is required") (Proto.cp_contract context);
  let contract := mk_revision (Proto.cr_contract_id contract) (Proto.cr_major contract) (Proto.cr_minor contract) in
  if negb (bool_decide (ContractRevision_negotiate ContractRevision_current contract = Some contract)) then
    Err (semantic_status CodeFailedPrecondition "CONTRACT_INCOMPATIBLE"
           "provider call did not use a compatible semantic contract revision")
  else if bool_decide (Proto.cp_request_id context = "") && bool_decide (Proto.cp_idempotency_key context = "") then
    Err (semantic_status CodeInvalidArgument "REQUEST_ID_REQUIRED"
           "provider call requires request_id or idempotency_key")
  else Ok (mk_context contract namespace (Proto.cp_request_id context) (Proto.cp_idempotency_key context)).

(** ** Operations and endpoints ([operation.rs]) *)
Definition semantic_endpoint_from_proto (e : Proto.EndpointMessage) : result Status Endpoint :=
  identity ← semantic_identity_from_proto (Proto.ep_identity e) "endpoint identity";
  provider ← semantic_identity_from_proto (Proto.ep_provider e) "endpoint provider";
  owner ← semantic_identity_from_proto (Proto.ep_owner e) "endpoint owner";
  let endpoint := mk_endpoint identity provider owner (Proto.ep_transport e) (Proto.ep_schema_id e)
    (capability_from_proto <$> Proto.ep_capabilities e) (Proto.ep_public_attributes e) (Proto.ep_connection_ref e)
    (if bool_decide (Proto.ep_credential_ref e = "") then None else Some (Proto.ep_credential_ref e)) in
  _ ← map_err invalid_object (Endpoint_validate endpoint);
  Ok endpoint.
Definition to_semantic_proto_endpoint (e : Endpoint) : Proto.EndpointMessage :=
  Proto.endpoint (Some (to_semantic_proto_identity (ep_identity e))) (Some (to_semantic_proto_identity (ep_provider e)))
    (Some (to_semantic_proto_identity (ep_owner e))) (ep_transport e) (ep_schema_id e)
    (capability_to_proto <$> ep_capabilities e) (ep_public_attributes e) (ep_connection_ref e)
    (default "" (ep_credential_ref e)).

Definition semantic_endpoint_grant_from_proto (g : Proto.EndpointGrantMessage) : result Status EndpointGrant :=
  identity ← semantic_identity_from_proto (Proto.eg_identity g) "endpoint grant identity";
  endpoint ← semantic_identity_from_proto (Proto.eg_endpoint g) "endpoint grant endpoint";
  grantee ← semantic_identity_from_proto (Proto.eg_grantee g) "endpoint grant grantee";
  lease ← semantic_identity_from_proto (Proto.eg_lease g) "endpoint grant lease";
  expires_at ← ok_or (invalid_argument "endpoint grant expiry is required") (Proto.eg_expires_at g);
  expires_at ← unix_ms_from_timestamp expires_at "endpoint grant expiry";
  let grant := mk_grant identity endpoint grantee lease (Proto.eg_fence_token g) expires_at in
  _ ← map_err invalid_object (EndpointGrant_validate grant);
  Ok grant.
Definition to_semantic_proto_endpoint_grant (g : EndpointGrant) : Proto.EndpointGrantMessage :=
  Proto.endpoint_grant (Some (to_semantic_proto_identity (grant_identity g)))
    (Some (to_semantic_proto_identity (grant_endpoint g))) (Some (to_semantic_proto_identity (grant_grantee g)))
    (Some (to_semantic_proto_identity (grant_lease g))) (grant_fence_token g)
    (Some (timestamp_from_unix_ms (grant_expires_at_unix_ms g))).

Definition operation_state_from_proto (s : Proto.OperationStateEnum) : result Status OperationState :=
  match s with
  | Proto.OsCreated => Ok OCreated
  | Proto.OsPending => Ok OPending
  | Proto.OsRunning => Ok ORunning
  | Proto.OsSucceeded => Ok OSucceeded
  | Proto.OsFailed => Ok OFailed
  | Proto.OsCancelling => Ok OCancelling
  | Proto.OsCancelled => Ok OCancelled
  | Proto.OsLost => Ok OLost
  | Proto.OsUnspecified => Err (unknown_enum "operation state cannot be UNSPECIFIED")
  end.
Definition operation_state_to_proto (s : OperationState) : Proto.OperationStateEnum :=
  match s with
  | OCreated => Proto.OsCreated
  | OPending => Proto.OsPending
  | ORunning => Proto.OsRunning
  | OSucceeded => Proto.OsSucceeded
  | OFailed => Proto.OsFailed
  | OCancelling => Proto.OsCancelling
  | OCancelled => Proto.OsCancelled
  | OLost => Proto.OsLost
  end.
Definition semantic_operation_from_proto (o : Proto.OperationMessage) : result Status Operation :=
  state ← ok_or (unknown_enum "operation state is unknown") (Proto.OperationState_try_from (Proto.op_state o));
  state ← operation_state_from_proto state;
  identity ← semantic_identity_from_proto (Proto.op_identity o) "operation identity";
  owner ← semantic_identity_from_proto (Proto.op_owner o) "operation owner";
  executor ← semantic_identity_from_proto (Proto.op_executor o) "operation executor";
  deadline ← transpose (fun t => unix_ms_from_timestamp t "operation deadline") (Proto.op_deadline o);
  parent ← transpose (fun i => semantic_identity_from_proto (Some i) "operation parent") (Proto.op_parent o);
  let operation := mk_operation identity owner executor (Proto.op_kind o) state deadline parent (Proto.op_metadata o) in
  _ ← map_err rejected_object (Operation_validate operation);
  Ok operation.
Definition to_semantic_proto_operation (o : Operation) : Proto.OperationMessage :=
  Proto.operation (Some (to_semantic_proto_identity (op_identity o))) (Some (to_semantic_proto_identity (op_owner o)))
    (Some (to_semantic_proto_identity (op_executor o))) (op_kind o)
    (Proto.OperationState_as_i32 (operation_state_to_proto (op_state o)))
    (timestamp_from_unix_ms <$> op_deadline_unix_ms o) (to_semantic_proto_identity <$> op_parent o) (op_metadata o).

(** ** Workers ([worker.rs], [provider.rs]) *)
Definition worker_state_from_proto (s : Proto.WorkerStateEnum) : option WorkerState :=
  match s with
  | Proto.WsRegistered => Some WRegistered
  | Proto.WsStarting => Some WStarting
  | Proto.WsRunning => Some WRunning
  | Proto.WsDraining => Some WDraining
  | Proto.WsStopped => Some WStopped
  | Proto.WsFailed => Some WFailed
  | Proto.WsLost => Some WLost
  | Proto.WsUnspecified => None
  end.
Definition worker_state_to_proto (s : WorkerState) : Proto.WorkerStateEnum :=
  match s with
  | WRegistered => Proto.WsRegistered
  | WStarting => Proto.WsStarting
  | WRunning => Proto.WsRunning
  | WDraining => Proto.WsDraining
  | WStopped => Proto.WsStopped
  | WFailed => Proto.WsFailed
  | WLost => Proto.WsLost
  end.
(** The principal is the one of the connection; the message's own is ignored. *)
Definition semantic_worker_from_proto (w : Proto.WorkerMessage) (principal : Identity) : result Status Worker :=
  state ← ok_or (unknown_enum "worker state is unknown") (Proto.WorkerState_try_from (Proto.wk_state w));
  state ← ok_or (unknown_enum "worker state cannot be UNSPECIFIED") (worker_state_from_proto state);
  identity ← semantic_identity_from_proto (Proto.wk_identity w) "worker identity";
  provider ← semantic_identity_from_proto (Proto.wk_provider w) "worker provider";
  lease ← semantic_identity_from_proto (Proto.wk_lease w) "worker lease";
  let worker := mk_worker identity principal provider lease state (Proto.wk_execution_ref w)
    (quantity_from_proto <$> Proto.wk_limits w) in
  _ ← map_err rejected_object (Worker_validate worker);
  Ok worker.
Definition semantic_observed_worker_from_proto (w : Proto.WorkerMessage) : result Status Worker :=
  state ← ok_or (unknown_enum "worker state cannot be unspecified or unknown")
            (Proto.WorkerState_try_from (Proto.wk_state w) ≫= worker_state_from_proto);
  identity ← semantic_identity_from_proto (Proto.wk_identity w) "worker identity";
  principal ← semantic_identity_from_proto (Proto.wk_principal w) "worker principal";
  provider ← semantic_identity_from_proto (Proto.wk_provider w) "worker provider";
  lease ← semantic_identity_from_proto (Proto.wk_lease w) "worker lease";
  let worker := mk_worker identity principal provider lease state (Proto.wk_execution_ref w)
    (quantity_from_proto <$> Proto.wk_limits w) in
  _ ← map_err rejected_object (Worker_validate worker);
  Ok worker.
Definition to_semantic_proto_worker (w : Worker) : Proto.WorkerMessage :=
  Proto.worker (Some (to_semantic_proto_identity (wk_identity w))) (Some (to_semantic_proto_identity (wk_principal w)))
    (Some (to_semantic_proto_identity (wk_provider w))) (Some (to_semantic_proto_identity (wk_lease w)))
    (Proto.WorkerState_as_i32 (worker_state_to_proto (wk_state w))) (wk_execution_ref w)
    (quantity_to_proto <$> wk_limits w).

(** ** Providers, resources and snapshots ([provider.rs], [resource.rs]) *)
Definition semantic_provider_from_proto (p : Proto.ProviderMessage) : result Status Provider :=
  state ← match Proto.ProviderState_try_from (Proto.pv_state p) with
          | Some Proto.PsReady => Ok ProviderReady
          | Some Proto.PsDegraded => Ok ProviderDegraded
          | Some Proto.PsUnavailable => Ok ProviderUnavailable
          | _ => Err (unknown_enum "provider state cannot be unspecified or unknown")
          end;
  identity ← semantic_identity_from_proto (Proto.pv_identity p) "provider identity";
  let provider := mk_provider identity state (capability_from_proto <$> Proto.pv_capabilities p) in
  _ ← map_err rejected_object (Provider_validate provider);
  Ok provider.
Definition to_semantic_proto_provider (p : Provider) : Proto.ProviderMessage :=
  Proto.provider (Some (to_semantic_proto_identity (prov_identity p)))
    (Proto.ProviderState_as_i32
       match prov_state p with
       | ProviderReady => Proto.PsReady
       | ProviderDegraded => Proto.PsDegraded
       | ProviderUnavailable => Proto.PsUnavailable
       end)
    (capability_to_proto <$> prov_capabilities p).

Definition link_from_proto (l : Proto.TopologyLinkMessage) : result Status TopologyLink :=
  peer ← semantic_identity_from_proto (Proto.tl_peer l) "topology peer";
  Ok (mk_link peer (Proto.tl_kind l) (Proto.tl_properties l)).
Definition link_to_proto (l : TopologyLink) : Proto.TopologyLinkMessage :=
  Proto.topology_link (Some (to_semantic_proto_identity (link_peer l))) (link_kind l) (link_properties l).
Definition semantic_resource_from_proto (r : Proto.ResourceMessage) : result Status Resource :=
  state ← match Proto.ResourceState_try_from (Proto.rs_state r) with
          | Some Proto.RsReady => Ok ResourceReady
          | Some Proto.RsDegraded => Ok ResourceDegraded
          | Some Proto.RsUnavailable => Ok ResourceUnavailable
          | _ => Err (unknown_enum "resource state cannot be unspecified or unknown")
          end;
  identity ← semantic_identity_from_proto (Proto.rs_identity r) "resource identity";
  provider ← semantic_identity_from_proto (Proto.rs_provider r) "resource provider";
  links ← collect link_from_proto (Proto.rs_links r);
  let resource := mk_resource identity provider (Proto.rs_resource_class r)
    (capability_from_proto <$> Proto.rs_capabilities r) (quantity_from_proto <$> Proto.rs_capacity r)
    (Proto.rs_attributes r) state (Proto.rs_reason_code r) (Proto.rs_summary r) links in
  _ ← map_err rejected_object (Resource_validate resource);
  Ok resource.
Definition to_semantic_proto_resource (r : Resource) : Proto.ResourceMessage :=
  Proto.resource (Some (to_semantic_proto_identity (res_identity r))) (Some (to_semantic_proto_identity (res_provider r)))
    (res_resource_class r) (capability_to_proto <$> res_capabilities r) (quantity_to_proto <$> res_capacity r)
    (res_attributes r)
    (Proto.ResourceState_as_i32
       match res_state r with
       | ResourceReady => Proto.RsReady
       | ResourceDegraded => Proto.RsDegraded
       | ResourceUnavailable => Proto.RsUnavailable
       end)
    (res_reason_code r) (res_summary r) (link_to_proto <$> res_links r).
Definition semantic_query_from_proto (q : Proto.ResourceQueryMessage) : result Status ResourceQuery :=
  let query := mk_query (Proto.rq_resource_class q) (Proto.rq_count q)
    (requirement_from_proto <$> Proto.rq_required_capabilities q)
    (quantity_from_proto <$> Proto.rq_minimum_capacity q) in
  _ ← map_err invalid_object (ResourceQuery_validate query);
  Ok query.

Definition semantic_provider_snapshot_from_proto (s : Proto.ProviderSnapshotMessage) : result Status ProviderSnapshot :=
  provider ← semantic_identity_from_proto (Proto.sn_provider s) "snapshot provider";
  resources ← collect semantic_resource_from_proto (Proto.sn_resources s);
  workers ← collect semantic_observed_worker_from_proto (Proto.sn_workers s);
  endpoints ← collect semantic_endpoint_from_proto (Proto.sn_endpoints s);
  sampled_at ← ok_or (invalid_argument "provider snapshot sampled_at is required") (Proto.sn_sampled_at s);
  sampled_at ← unix_ms_from_timestamp sampled_at "provider snapshot sampled_at";
  expires_at ← ok_or (invalid_argument "provider snapshot expires_at is required") (Proto.sn_expires_at s);
  expires_at ← unix_ms_from_timestamp expires_at "provider snapshot expires_at";
  let snapshot := mk_snapshot provider (Proto.sn_snapshot_generation s) resources workers endpoints sampled_at expires_at in
  _ ← map_err rejected_object (ProviderSnapshot_validate snapshot);
  Ok snapshot.
Definition to_semantic_proto_provider_snapshot (s : ProviderSnapshot) : Proto.ProviderSnapshotMessage :=
  Proto.provider_snapshot (Some (to_semantic_proto_identity (snap_provider s))) (snap_snapshot_generation s)
    (to_semantic_proto_resource <$> snap_resources s) (to_semantic_proto_worker <$> snap_workers s)
    (to_semantic_proto_endpoint <$> snap_endpoints s) (Some (timestamp_from_unix_ms (snap_sampled_at_unix_ms s)))
    (Some (timestamp_from_unix_ms (snap_expires_at_unix_ms s))).

(** ** Events ([event.rs]) *)
Definition semantic_event_cursor_from_proto (c : option Proto.EventCursorMessage) : result Status EventCursor :=
  c ← ok_or (semantic_status CodeInvalidArgument "REQUIRED_FIELD_MISSING" "event cursor is required") c;
  source ← semantic_identity_from_proto (Proto.ec_source c) "event cursor source";
  let cursor := mk_cursor source (Proto.ec_sequence c) in
  _ ← map_err rejected_object (EventCursor_validate cursor);
  Ok cursor.
Definition to_semantic_proto_event (e : Event) : Proto.EventMessage :=
  Proto.event (ev_sequence e) (Some (to_semantic_proto_identity (ev_subject e))) (ev_kind e)
    (Some (timestamp_from_unix_ms (ev_observed_at_unix_ms e))) (ev_schema_id e) (ev_body e)
    (Some (to_semantic_proto_identity (ev_source e))).
Definition replay_status_to_proto (s : ReplayStatus) : Proto.ReplayStatusEnum :=
  match s with
  | Current => Proto.RpCurrent
  | Gap => Proto.RpGap
  | SourceChanged => Proto.RpSourceChanged
  end.
Definition to_semantic_proto_event_page (p : EventPage) : Proto.EventPageMessage :=
  Proto.event_page (Some (to_semantic_proto_identity (page_source p)))
    (Proto.ReplayStatus_as_i32 (replay_status_to_proto (page_status p))) (to_semantic_proto_event <$> page_events p)
    (page_oldest_available_sequence p) (page_latest_available_sequence p) (page_next_sequence p).
Definition to_semantic_proto_event_continuity (c : EventContinuity) : Proto.EventContinuityMessage :=
  Proto.event_continuity (Some (to_semantic_proto_identity (cont_source c)))
    (Proto.ReplayStatus_as_i32 (replay_status_to_proto (cont_status c)))
    (cont_oldest_available_sequence c) (cont_latest_available_sequence c) (cont_next_sequence c).

(** ** Leases ([lease.rs]) *)
Definition to_semantic_proto_lease (l : ResourceLease) : Proto.LeaseMessage :=
  Proto.lease (Some (Proto.identity (rl_name l) (rl_generation l))) (Some (to_semantic_proto_identity (rl_holder l)))
    ((fun a => to_semantic_proto_identity (al_resource a)) <$> rl_allocations l)
    (Proto.LeaseState_as_i32
       match rl_state l with
       | Active => Proto.LsActive
       | Releasing => Proto.LsReleasing
       | Released => Proto.LsReleased
       | Expired => Proto.LsExpired
       | Revoked => Proto.LsRevoked
       | Failed | Quarantined => Proto.LsFailed
       end)
    (rl_fence_token l) (timestamp_from_unix_ms <$> rl_expires_at_unix_ms l).
Definition to_semantic_proto_contract_lease (l : Lease) : Proto.LeaseMessage :=
  Proto.lease (Some (to_semantic_proto_identity (lease_identity l))) (Some (to_semantic_proto_identity (lease_holder l)))
    (to_semantic_proto_identity <$> lease_resources l)
    (Proto.LeaseState_as_i32
       match lease_state l with
       | LActive => Proto.LsActive
       | LReleasing => Proto.LsReleasing
       | LReleased => Proto.LsReleased
       | LExpired => Proto.LsExpired
       | LRevoked => Proto.LsRevoked
       | LFailed => Proto.LsFailed
       end)
    (lease_fence_token l) (timestamp_from_unix_ms <$> lease_expires_at_unix_ms l).
End conversions.

Definition legacy_holder (mutation : option Proto.MutationContext) (fallback : string) : Identity :=
  let id := match mutation ≫= Proto.mc_request with
            | Some request =>
                if negb (bool_decide (Proto.rc_tenant_id request = ""))
                   || negb (bool_decide (Proto.rc_project_id request = "")) then
                  "legacy/" +:+ Proto.rc_tenant_id request +:+ "/" +:+ Proto.rc_project_id request
                else if negb (bool_decide (Proto.rc_request_id request = "")) then
                  "legacy/request/" +:+ Proto.rc_request_id request
                else "legacy/" +:+ fallback
            | None => "legacy/" +:+ fallback
            end in
  mk_identity id 1.

Definition positive (n : N) : option N := if (0 <? n)%N then Some n else None.
(** The two checks that [cgroup_limits] and [resource_request] share. *)
Definition check_cpu (cpu : option Proto.CpuRequirements) : result Status unit :=
  match cpu with
  | Some cpu =>
      ensure (negb ((0 <? Proto.cpu_limit_millicores cpu) && (0 <? Proto.cpu_request_millicores cpu)
                    && (Proto.cpu_limit_millicores cpu <? Proto.cpu_request_millicores cpu))%N)
        (invalid_argument "cpu request_millicores cannot exceed limit_millicores")
  | None => Ok tt
  end.
Definition check_memory (memory : option Proto.MemoryRequirements) : result Status unit :=
  match memory with
  | Some memory =>
      ensure (negb ((0 <? Proto.mem_limit_bytes memory) && (0 <? Proto.mem_request_bytes memory)
                    && (Proto.mem_limit_bytes memory <? Proto.mem_request_bytes memory))%N)
        (invalid_argument "memory request_bytes cannot exceed limit_bytes")
  | None => Ok tt
  end.
Definition cgroup_limits (cpu : option Proto.CpuRequirements) (memory : option Proto.MemoryRequirements)
    : result Status CgroupLimits :=
  _ ← check_cpu cpu;
  _ ← check_memory memory;
  Ok (mk_limits (cpu ≫= fun c => positive (Proto.cpu_limit_millicores c))
        (memory ≫= fun m => positive (Proto.mem_limit_bytes m)) None).

(** ** Legacy resource requests ([resource.rs]) *)
Definition to_proto_enforcement (mode : EnforcementMode) : Proto.EnforcementModeEnum :=
  match mode with
  | EHard => Proto.EmHard
  | ESoft => Proto.EmSoft
  | EVisibilityOnly => Proto.EmVisibilityOnly
  | EObserveOnly => Proto.EmObserveOnly
  | EUnenforced => Proto.EmUnenforced
  end.
Definition kind_capability (k : Proto.AcceleratorKind) : string :=
  match k with
  | Proto.AkUnspecified => "accelerator.compute"
  | Proto.AkGpu => "accelerator.kind.gpu"
  | Proto.AkNpu => "accelerator.kind.npu"
  | Proto.AkTpu => "accelerator.kind.tpu"
  | Proto.AkOther => "accelerator.kind.other"
  end.
Definition at_least_revision_1 (id : string) : CapabilityRequirement := mk_requirement id 1 ∅.
(** The mutable locals of the loop over the accelerators. *)
Record accelerator_loop := mk_accelerator_loop {
  al_count : N;
  al_kind_capability : option string;
  al_required_capabilities : gmap string CapabilityRequirement;
  al_min_memory_bytes : option N;
}.
Fixpoint require_features (features : list string) (required : gmap string CapabilityRequirement)
    : result Status (gmap string CapabilityRequirement) :=
  match features with
  | [] => Ok required
  | capability_id :: features =>
      if negb (existsb (fun c => bool_decide (c = "."%char)) (bytes capability_id)) then
        Err (failed_precondition "legacy bare feature names are ambiguous; use a namespaced Capability id")
      else require_features features (<[capability_id := at_least_revision_1 capability_id]> required)
  end.
Definition accelerator_step (l : accelerator_loop) (a : Proto.AcceleratorRequirements) : result Status accelerator_loop :=
  count ← ok_or (invalid_argument "accelerator count overflow") (u32_checked_add (al_count l) (Proto.ac_count a));
  if negb (bool_decide (Proto.ac_vendor a = Proto.AcceleratorVendor_Unspecified))
     || negb (bool_decide (Proto.ac_other_vendor_id a = "")) then
    Err (failed_precondition
           "legacy vendor selectors are not interpreted by Kernel; use AcquireLease with a namespaced Capability")
  else
    kind ← ok_or (invalid_argument "unknown accelerator kind") (Proto.AcceleratorKind_try_from (Proto.ac_kind a));
    let requested_kind := kind_capability kind in
    if is_some_and (fun current => negb (bool_decide (current = requested_kind))) (al_kind_capability l) then
      Err (invalid_argument "one legacy request cannot mix accelerator kinds")
    else
      required ← require_features (Proto.ac_required_features a) (al_required_capabilities l);
      Ok (mk_accelerator_loop count (Some requested_kind) required
            (Some (match al_min_memory_bytes l with
                   | Some current => N.max current (Proto.ac_min_memory_bytes_per_device a)
                   | None => Proto.ac_min_memory_bytes_per_device a
                   end))).
Fixpoint accelerators_loop (l : accelerator_loop) (xs : list Proto.AcceleratorRequirements) : result Status accelerator_loop :=
  match xs with
  | [] => Ok l
  | a :: xs => l ← accelerator_step l a; accelerators_loop l xs
  end.
Definition resource_request (lease_name : string) (generation : N) (holder : Identity) (expires_at_unix_ms : option N)
    (requirements : Proto.ResourceRequirements) : result Status ResourceRequest :=
  l ← accelerators_loop (mk_accelerator_loop 0 None ∅ None) (Proto.rr_accelerators requirements);
  _ ← ensure (negb (al_count l =? 0)%N) (invalid_argument "at least one accelerator resource is required");
  let kind := default "accelerator.compute" (al_kind_capability l) in
  let required := <[kind := at_least_revision_1 kind]> (al_required_capabilities l) in
  let cpu_max_millicores := Proto.rr_cpu requirements ≫= fun c => positive (Proto.cpu_limit_millicores c) in
  _ ← check_cpu (Proto.rr_cpu requirements);
  let memory_max_bytes := Proto.rr_memory requirements ≫= fun m => positive (Proto.mem_limit_bytes m) in
  _ ← check_memory (Proto.rr_memory requirements);
  Ok (mk_request lease_name generation holder
        (mk_query "accelerator" (al_count l) (btree_values required)
           match al_min_memory_bytes l ≫= positive with
           | Some value => {["memory.allocatable" := mk_quantity value "byte"]}
           | None => ∅
           end)
        expires_at_unix_ms (mk_limits cpu_max_millicores memory_max_bytes None)).
