(* ===== verification/WireSpec.v ===== *)
(** * What crosses the wire

    Decoding and encoding are inverse to each other on exactly the valid
    objects: nothing invalid gets in, nothing valid is refused or changed.  The
    three call-context decoders admit what the authority's own check admits. *)
From stdpp Require Import base gmap strings list sorting pretty.
From Stdlib Require Import Ascii Lia ZifyBool ZifyN.
From S2P Require Import Prelude Validation Contract ContractSpec KernelApi Environment Instance AuthorityState.
From S2P Require Import Messages Wire.

(** ** Error plumbing *)
Lemma ok_or_Ok {E A} (e : E) (o : option A) a : ok_or e o = Ok a <-> o = Some a.
Proof. destruct o; simpl; naive_solver. Qed.
Lemma map_err_Ok {E E' A} (f : E -> E') (r : result E A) a : map_err f r = Ok a <-> r = Ok a.
Proof. destruct r; simpl; naive_solver. Qed.
Lemma validated_Ok {E E' A} (f : E -> E') (r : result E unit) (x y : A) :
  (_ ← map_err f r; Ok x) = Ok y <-> r = Ok tt /\ x = y.
Proof. destruct r as [[]|]; simpl; naive_solver. Qed.
Lemma fmap_Ok {E A B} (f : A -> B) (r : result E A) b : f <$> r = Ok b <-> exists a, r = Ok a /\ b = f a.
Proof. destruct r; simpl; naive_solver. Qed.

Lemma collect_Ok {E A B} (f : A -> result E B) xs ys :
  collect f xs = Ok ys <-> Forall2 (fun x y => f x = Ok y) xs ys.
Proof.
  revert ys. induction xs as [|x xs IH]; intros ys; simpl.
  - split; [by intros [= <-]|]. intros Hall. by inversion Hall.
  - rewrite result_bind_Ok. setoid_rewrite result_bind_Ok. setoid_rewrite IH. split.
    + intros (y & Hy & zs & Hzs & [= <-]). by constructor.
    + intros Hall. inversion Hall as [|? y ? zs Hy Hzs]; subst. exists y. split; [done|]. by exists zs.
Qed.
(** A decoder that inverts an encoder does so on lists. *)
Lemma collect_iff {E A B} (from : B -> result E A) (to : A -> B) (P : A -> Prop) :
  (forall m x, from m = Ok x <-> P x /\ m = to x) ->
  forall ms xs, collect from ms = Ok xs <-> Forall P xs /\ ms = to <$> xs.
Proof.
  intros Hiff ms xs. rewrite collect_Ok. split.
  - induction 1 as [|m x ms xs [? ->]%Hiff _ [IH1 IH2]]; [done|]. split; [by constructor|]. csimpl. by rewrite IH2.
  - intros [Hall ->]. induction Hall; csimpl; constructor; [by apply Hiff|done].
Qed.
Lemma transpose_Ok {E A B} (f : A -> result E B) o o' :
  transpose f o = Ok o' <->
  match o, o' with Some a, Some b => f a = Ok b | None, None => True | _, _ => False end.
Proof. destruct o, o'; simpl; rewrite ?fmap_Ok; naive_solver. Qed.

(** One step of decoding in a hypothesis. *)
Ltac decode H :=
  repeat first
    [ apply validated_Ok in H as [? <-]
    | apply result_bind_Ok in H as (? & ?E & H) ].

(** ** Numbers and times *)
Lemma as_u64_small x : (0 <= x < 2 ^ 64)%Z -> as_u64 x = Z.to_N x.
Proof. intros. unfold as_u64. by rewrite Z.mod_small. Qed.
Lemma as_u32_small x : (0 <= x < 2 ^ 32)%Z -> as_u32 x = Z.to_N x.
Proof. intros. unfold as_u32. by rewrite Z.mod_small. Qed.
Lemma as_i64_small x : (x < 2 ^ 63)%N -> as_i64 x = Z.of_N x.
Proof. intros. unfold as_i64. rewrite Z.mod_small by lia. case_match; lia. Qed.
Lemma as_i32_small x : (x < 2 ^ 31)%N -> as_i32 x = Z.of_N x.
Proof. intros. unfold as_i32. rewrite Z.mod_small by lia. case_match; lia. Qed.

Lemma unix_ms_from_timestamp_Ok t field ms :
  (Proto.ts_seconds t < 2 ^ 63)%Z -> (Proto.ts_nanos t < 2 ^ 31)%Z ->
  unix_ms_from_timestamp t field = Ok ms <->
  (0 <= Proto.ts_seconds t)%Z /\ (0 <= Proto.ts_nanos t)%Z /\ (ms <= u64_max)%N /\
  Z.of_N ms = (Proto.ts_seconds t * 1000 + Proto.ts_nanos t / 1000000)%Z.
Proof.
  intros Hs Hn. unfold unix_ms_from_timestamp. destruct t as [s n]. simpl in *.
  destruct (Z.ltb_spec s 0); [split; [done|lia]|]. destruct (Z.ltb_spec n 0); [split; [done|lia]|]. simpl.
  rewrite ok_or_Ok, !as_u64_small by lia. unfold u64_checked_mul, u64_checked_add.
  assert (Z.of_N (Z.to_N n / 1000000) = n / 1000000)%Z as Hd by (rewrite N2Z.inj_div; lia).
  pose proof (Z.div_pos n 1000000). unfold u64_max in *.
  destruct (N.leb_spec (Z.to_N s * 1000) 18446744073709551615); simpl; [|split; [done|lia]].
  case_match; (split; [intros [= <-] || done|intros (_ & _ & ? & ?)]); [split_and!; lia|f_equal; lia|lia].
Qed.
Lemma timestamp_roundtrip ms field : (ms <= u64_max)%N ->
  unix_ms_from_timestamp (timestamp_from_unix_ms ms) field = Ok ms.
Proof.
  intros Hms. unfold timestamp_from_unix_ms.
  pose proof (N.mod_lt ms 1000). pose proof (N.Div0.div_le_upper_bound ms 1000 (2 ^ 63)).
  pose proof (N.div_mod ms 1000). unfold u64_max in *.
  rewrite as_i64_small, as_i32_small by lia.
  apply unix_ms_from_timestamp_Ok; simpl; [lia|lia|]. split_and!; [lia|lia|unfold u64_max; lia|].
  rewrite N2Z.inj_mul, Z.div_mul by lia. lia.
Qed.
Lemma valid_timestamp_roundtrip ms f field : validate_timestamp f ms = Ok tt ->
  unix_ms_from_timestamp (timestamp_from_unix_ms ms) field = Ok ms.
Proof.
  intros [? ?]%validate_timestamp_Ok. apply timestamp_roundtrip.
  unfold MAX_TIMESTAMP_UNIX_MS, u64_max in *. lia.
Qed.

(** ** Identities, capabilities and quantities *)
Lemma identity_from_proto_Ok m field i :
  semantic_identity_from_proto m field = Ok i <->
  Identity_validate i = Ok tt /\ m = Some (to_semantic_proto_identity i).
Proof.
  unfold semantic_identity_from_proto. rewrite result_bind_Ok. setoid_rewrite ok_or_Ok.
  setoid_rewrite validated_Ok. split.
  - by intros ([id g] & -> & ? & <-).
  - intros [? ->]. exists (to_semantic_proto_identity i). by destruct i.
Qed.
Lemma identity_to_proto_inj i j : to_semantic_proto_identity i = to_semantic_proto_identity j -> i = j.
Proof. destruct i, j. by intros [= -> ->]. Qed.
Lemma capabilities_roundtrip (cs : list Capability) : capability_from_proto <$> (capability_to_proto <$> cs) = cs.
Proof. rewrite <- list_fmap_compose. rewrite <- (list_fmap_id cs) at 2. apply list_fmap_ext. by intros _ [] _. Qed.
Lemma capabilities_roundtrip' (cs : list Proto.CapabilityMessage) : capability_to_proto <$> (capability_from_proto <$> cs) = cs.
Proof. rewrite <- list_fmap_compose. rewrite <- (list_fmap_id cs) at 2. apply list_fmap_ext. by intros _ [] _. Qed.
Lemma quantities_roundtrip (m : gmap string Quantity) : quantity_from_proto <$> (quantity_to_proto <$> m) = m.
Proof. rewrite <- map_fmap_compose. rewrite <- (map_fmap_id m) at 2. apply map_fmap_ext. by intros _ [] _. Qed.
Lemma quantities_roundtrip' (m : gmap string Proto.QuantityMessage) : quantity_to_proto <$> (quantity_from_proto <$> m) = m.
Proof. rewrite <- map_fmap_compose. rewrite <- (map_fmap_id m) at 2. apply map_fmap_ext. by intros _ [] _. Qed.
Create Rewrite HintDb wire.
#[export] Hint Rewrite capabilities_roundtrip capabilities_roundtrip' quantities_roundtrip quantities_roundtrip' : wire.

(** Encoded identities of a valid object are accepted. *)
Ltac present := repeat
  match goal with
  | H : Identity_validate ?i = Ok tt |- context [semantic_identity_from_proto (Some (to_semantic_proto_identity ?i)) ?f] =>
      rewrite (proj2 (identity_from_proto_Ok (Some (to_semantic_proto_identity i)) f i) (conj H eq_refl)); simpl
  end.

(** ** Objects *)
Section objects.
Context {M : Metadata}.

Lemma endpoint_from_proto_Ok m e :
  semantic_endpoint_from_proto m = Ok e <-> Endpoint_validate e = Ok tt /\ m = to_semantic_proto_endpoint e.
Proof.
  split.
  - unfold semantic_endpoint_from_proto. intros Hd. decode Hd.
    apply identity_from_proto_Ok in E as [_ Hi], E0 as [_ Hp], E1 as [_ Ho]. split; [done|].
    destruct m as [mi mp mo tr sc caps attrs cref cred]. simpl in *. subst.
    unfold to_semantic_proto_endpoint. simpl. autorewrite with wire. f_equal. by case_bool_decide.
  - intros [Hv ->]. pose proof Hv as Hv'. unfold Endpoint_validate in Hv'. rewrite !result_bind_unit in Hv'.
    destruct Hv' as (? & ? & ? & ? & ? & ? & ? & ? & Hcred). unfold semantic_endpoint_from_proto. simpl. present.
    autorewrite with wire. apply validated_Ok.
    assert (mk_endpoint (ep_identity e) (ep_provider e) (ep_owner e) (ep_transport e) (ep_schema_id e)
      (ep_capabilities e) (ep_public_attributes e) (ep_connection_ref e)
      (if bool_decide (default "" (ep_credential_ref e) = "") then None
       else Some (default "" (ep_credential_ref e))) = e) as ->; [|done].
    destruct e as [i p o tr sc caps attrs cref [cred|]]; simpl in *; [|done].
    rewrite bool_decide_false; [done|]. intros ->. done.
Qed.

Lemma provider_from_proto_Ok m p :
  semantic_provider_from_proto m = Ok p <-> Provider_validate p = Ok tt /\ m = to_semantic_proto_provider p.
Proof.
  split.
  - unfold semantic_provider_from_proto. intros Hd. decode Hd. apply identity_from_proto_Ok in E0 as [_ Hi].
    split; [done|]. destruct m as [mi st caps]. simpl in *. subst. unfold to_semantic_proto_provider. simpl.
    autorewrite with wire. f_equal. unfold Proto.ProviderState_try_from in E.
    repeat (case_match; try done); by injection E as <-.
  - intros [Hv ->]. pose proof Hv as Hv'. unfold Provider_validate in Hv'. rewrite !result_bind_unit in Hv'.
    destruct Hv' as (? & ?). unfold semantic_provider_from_proto. simpl.
    destruct p as [i [] caps]; simpl in *; present; autorewrite with wire; by apply validated_Ok.
Qed.

Lemma worker_state_from_proto_Ok z s :
  Proto.WorkerState_try_from z ≫= worker_state_from_proto = Some s <->
  z = Proto.WorkerState_as_i32 (worker_state_to_proto s).
Proof.
  split; [|by intros ->; destruct s].
  unfold Proto.WorkerState_try_from. repeat (case_match; try done); simpl; by intros [= <-].
Qed.
Lemma observed_worker_from_proto_Ok m w :
  semantic_observed_worker_from_proto m = Ok w <-> Worker_validate w = Ok tt /\ m = to_semantic_proto_worker w.
Proof.
  split.
  - unfold semantic_observed_worker_from_proto. intros Hd. decode Hd.
    apply ok_or_Ok, worker_state_from_proto_Ok in E.
    apply identity_from_proto_Ok in E0 as [_ Hi], E1 as [_ Hp], E2 as [_ Hpr], E3 as [_ Hl]. split; [done|].
    destruct m as [mi mp mo ml st ex lim]. simpl in *. subst. unfold to_semantic_proto_worker. simpl.
    by autorewrite with wire.
  - intros [Hv ->]. pose proof Hv as Hv'. unfold Worker_validate in Hv'. rewrite !result_bind_unit in Hv'.
    destruct Hv' as (? & ? & ? & ? & _). unfold semantic_observed_worker_from_proto. simpl.
    rewrite (proj2 (worker_state_from_proto_Ok _ (wk_state w))) by done. simpl. present.
    autorewrite with wire. apply validated_Ok. by destruct w.
Qed.

Lemma link_from_proto_Ok m l :
  link_from_proto m = Ok l <-> Identity_validate (link_peer l) = Ok tt /\ m = link_to_proto l.
Proof.
  unfold link_from_proto. rewrite result_bind_Ok. setoid_rewrite identity_from_proto_Ok. split.
  - intros (i & [? Hi] & [= <-]). destruct m as [p k ps]. simpl in *. by subst.
  - intros [? ->]. exists (link_peer l). by destruct l.
Qed.
Lemma resource_from_proto_Ok m r :
  semantic_resource_from_proto m = Ok r <-> Resource_validate r = Ok tt /\ m = to_semantic_proto_resource r.
Proof.
  split.
  - unfold semantic_resource_from_proto. intros Hd. decode Hd.
    apply identity_from_proto_Ok in E0 as [_ Hi], E1 as [_ Hp]. apply (collect_iff _ _ _ link_from_proto_Ok) in E2 as [_ Hl].
    split; [done|]. destruct m as [mi mp cl caps cap attrs st rc su li]. simpl in *. subst.
    unfold to_semantic_proto_resource. simpl. autorewrite with wire. f_equal.
    unfold Proto.ResourceState_try_from in E. repeat (case_match; try done); by injection E as <-.
  - intros [Hv ->]. pose proof Hv as Hv'. unfold Resource_validate in Hv'. rewrite !result_bind_unit in Hv'.
    destruct Hv' as (? & ? & ? & ? & ? & ? & ? & ? & ? & ? & [Hlinks _]%for_unique_Ok).
    assert (Forall (fun l => Identity_validate (link_peer l) = Ok tt) (res_links r)) as Hpeers.
    { eapply Forall_impl; [exact Hlinks|]. intros l. unfold Resource_validate_link, TopologyLink_validate.
      rewrite !result_bind_unit. tauto. }
    unfold semantic_resource_from_proto. simpl.
    destruct r as [i p cl caps cap attrs [] rc su li]; simpl in *; present;
      rewrite (proj2 (collect_iff _ _ _ link_from_proto_Ok (link_to_proto <$> li) li) (conj Hpeers eq_refl)); simpl;
      autorewrite with wire; by apply validated_Ok.
Qed.

(** What validation says about the members of a snapshot. *)
Lemma snapshot_valid_parts s : ProviderSnapshot_validate s = Ok tt ->
  Identity_validate (snap_provider s) = Ok tt /\
  validate_timestamp "provider snapshot sample time" (snap_sampled_at_unix_ms s) = Ok tt /\
  validate_timestamp "provider snapshot expiry" (snap_expires_at_unix_ms s) = Ok tt /\
  Forall (fun r => Resource_validate r = Ok tt) (snap_resources s) /\
  Forall (fun w => Worker_validate w = Ok tt) (snap_workers s) /\
  Forall (fun e => Endpoint_validate e = Ok tt) (snap_endpoints s).
Proof.
  unfold ProviderSnapshot_validate. rewrite !result_bind_unit.
  intros (? & _ & _ & ? & ? & _ & [Hr _]%for_unique_Ok & _ & [Hw _]%for_unique_Ok & _ & [He _]%for_unique_Ok).
  split_and!; try done; (eapply Forall_impl; [eassumption|]; intros x Hx; by apply snapshot_member_Ok in Hx as [? _]).
Qed.

(** ** Objects with times

    A timestamp has many representations on the wire (milliseconds are kept,
    the rest of the nanoseconds is dropped). *)
Definition with_expiry (t : Proto.Timestamp) (g : Proto.EndpointGrantMessage) : Proto.EndpointGrantMessage :=
  Proto.endpoint_grant (Proto.eg_identity g) (Proto.eg_endpoint g) (Proto.eg_grantee g) (Proto.eg_lease g)
    (Proto.eg_fence_token g) (Some t).
Definition with_deadline (t : option Proto.Timestamp) (o : Proto.OperationMessage) : Proto.OperationMessage :=
  Proto.operation (Proto.op_identity o) (Proto.op_owner o) (Proto.op_executor o) (Proto.op_kind o) (Proto.op_state o)
    t (Proto.op_parent o) (Proto.op_metadata o).
Definition with_window (t t' : Proto.Timestamp) (s : Proto.ProviderSnapshotMessage) : Proto.ProviderSnapshotMessage :=
  Proto.provider_snapshot (Proto.sn_provider s) (Proto.sn_snapshot_generation s) (Proto.sn_resources s)
    (Proto.sn_workers s) (Proto.sn_endpoints s) (Some t) (Some t').
(** [t] is a representation of [ms]. *)
Definition denotes (t : Proto.Timestamp) (ms : N) : Prop := forall field, unix_ms_from_timestamp t field = Ok ms.
Definition denotes_option (t : option Proto.Timestamp) (ms : option N) : Prop :=
  match t, ms with Some t, Some ms => denotes t ms | None, None => True | _, _ => False end.

Lemma denotes_from t ms field : unix_ms_from_timestamp t field = Ok ms -> denotes t ms.
Proof.
  unfold denotes, unix_ms_from_timestamp. intros Ht field'. case_match; [done|].
  apply ok_or_Ok in Ht. by rewrite Ht.
Qed.
Lemma denotes_encoded ms f : validate_timestamp f ms = Ok tt -> denotes (timestamp_from_unix_ms ms) ms.
Proof. intros Hv field. by eapply valid_timestamp_roundtrip. Qed.

Lemma grant_from_proto_Ok m g :
  semantic_endpoint_grant_from_proto m = Ok g <->
  EndpointGrant_validate g = Ok tt /\
  exists t, denotes t (grant_expires_at_unix_ms g) /\ m = with_expiry t (to_semantic_proto_endpoint_grant g).
Proof.
  split.
  - unfold semantic_endpoint_grant_from_proto. intros Hd. decode Hd. apply ok_or_Ok in E3.
    apply identity_from_proto_Ok in E as [_ Hi], E0 as [_ He], E1 as [_ Hg], E2 as [_ Hl].
    split; [done|]. exists x3. split; [by eapply denotes_from|].
    destruct m as [mi me mg ml f ex]. simpl in *. by subst.
  - intros (Hv & t & Ht & ->). pose proof Hv as Hv'. unfold EndpointGrant_validate in Hv'.
    rewrite !result_bind_unit in Hv'. destruct Hv' as (? & ? & ? & ? & _).
    unfold semantic_endpoint_grant_from_proto. simpl. present. rewrite Ht. simpl. apply validated_Ok. by destruct g.
Qed.

Lemma operation_state_from_proto_Ok z (s : OperationState) (e : Status) :
  (state ← ok_or e (Proto.OperationState_try_from z); operation_state_from_proto state) = Ok s <->
  z = Proto.OperationState_as_i32 (operation_state_to_proto s).
Proof.
  split; [|by intros ->; destruct s].
  unfold Proto.OperationState_try_from. repeat (case_match; try done); simpl; by intros [= <-].
Qed.
Lemma parent_from_proto_Ok (m : option Proto.IdentityMessage) field o :
  transpose (fun i => semantic_identity_from_proto (Some i) field) m = Ok o <->
  (forall i, o = Some i -> Identity_validate i = Ok tt) /\ m = to_semantic_proto_identity <$> o.
Proof.
  rewrite transpose_Ok. destruct m, o; simpl; rewrite ?identity_from_proto_Ok; naive_solver.
Qed.
Lemma deadline_from_proto_Ok (m : option Proto.Timestamp) field o :
  transpose (fun t => unix_ms_from_timestamp t field) m = Ok o <-> denotes_option m o.
Proof.
  rewrite transpose_Ok. destruct m, o; simpl; try done. split; [apply denotes_from|]. intros Hd. apply Hd.
Qed.
Lemma operation_from_proto_Ok m o :
  semantic_operation_from_proto m = Ok o <->
  Operation_validate o = Ok tt /\
  exists t, denotes_option t (op_deadline_unix_ms o) /\ m = with_deadline t (to_semantic_proto_operation o).
Proof.
  split.
  - unfold semantic_operation_from_proto. intros Hd. decode Hd.
    assert (Proto.op_state m = Proto.OperationState_as_i32 (operation_state_to_proto x0)) as Hst.
    { apply (operation_state_from_proto_Ok _ _ (unknown_enum "operation state is unknown")). by rewrite E. }
    apply identity_from_proto_Ok in E1 as [_ Hi], E2 as [_ Ho], E3 as [_ He].
    apply deadline_from_proto_Ok in E4. apply parent_from_proto_Ok in E5 as [_ Hp].
    split; [done|]. exists (Proto.op_deadline m). split; [done|].
    destruct m as [mi mo me k st dl pa md]. simpl in *. by subst.
  - intros (Hv & t & Ht & ->). pose proof Hv as Hv'. unfold Operation_validate in Hv'.
    rewrite !result_bind_unit in Hv'. destruct Hv' as (? & ? & ? & ? & ? & Hparent & _).
    assert (forall i, op_parent o = Some i -> Identity_validate i = Ok tt) as Hpv.
    { intros i Hi. rewrite Hi in Hparent. by apply result_bind_unit in Hparent as [? _]. }
    unfold semantic_operation_from_proto. simpl.
    assert (Proto.OperationState_try_from (Proto.OperationState_as_i32 (operation_state_to_proto (op_state o)))
              = Some (operation_state_to_proto (op_state o))) as -> by (by destruct (op_state o)).
    assert (operation_state_from_proto (operation_state_to_proto (op_state o)) = Ok (op_state o)) as Hst
      by (by destruct (op_state o)).
    simpl. rewrite Hst. simpl. present.
    rewrite (proj2 (deadline_from_proto_Ok t _ _) Ht). simpl.
    rewrite (proj2 (parent_from_proto_Ok _ _ (op_parent o)) (conj Hpv eq_refl)). simpl.
    apply validated_Ok. by destruct o.
Qed.

Lemma snapshot_from_proto_Ok m s :
  semantic_provider_snapshot_from_proto m = Ok s <->
  ProviderSnapshot_validate s = Ok tt /\
  exists t t', denotes t (snap_sampled_at_unix_ms s) /\ denotes t' (snap_expires_at_unix_ms s) /\
    m = with_window t t' (to_semantic_proto_provider_snapshot s).
Proof.
  split.
  - unfold semantic_provider_snapshot_from_proto. intros Hd. decode Hd. apply ok_or_Ok in E3, E5.
    apply identity_from_proto_Ok in E as [_ Hi].
    apply (collect_iff _ _ _ resource_from_proto_Ok) in E0 as [_ Hr].
    apply (collect_iff _ _ _ observed_worker_from_proto_Ok) in E1 as [_ Hw].
    apply (collect_iff _ _ _ endpoint_from_proto_Ok) in E2 as [_ He].
    split; [done|]. exists x3, x5. split_and!; [by eapply denotes_from..|].
    destruct m as [mi g rs ws es t t']. simpl in *. by subst.
  - intros (Hv & t & t' & Ht & Ht' & ->). pose proof Hv as (Hp & _ & _ & Hr & Hw & He)%snapshot_valid_parts.
    unfold semantic_provider_snapshot_from_proto. simpl. present.
    rewrite (proj2 (collect_iff _ _ _ resource_from_proto_Ok _ (snap_resources s)) (conj Hr eq_refl)). simpl.
    rewrite (proj2 (collect_iff _ _ _ observed_worker_from_proto_Ok _ (snap_workers s)) (conj Hw eq_refl)). simpl.
    rewrite (proj2 (collect_iff _ _ _ endpoint_from_proto_Ok _ (snap_endpoints s)) (conj He eq_refl)). simpl.
    rewrite Ht. simpl. rewrite Ht'. simpl. apply validated_Ok. by destruct s.
Qed.

(** [from] is the inverse of [to], defined on exactly the valid objects. *)
Definition inverse_of {A B} (from : B -> result Status A) (to : A -> B) (validate : A -> result ContractError unit)
    : Prop :=
  forall m x, from m = Ok x <-> validate x = Ok tt /\ m = to x.

(** C28: for endpoints, providers, resources and reported workers the decoder is
    the exact inverse of the encoder on the valid objects: a message is
    accepted as an object when and only when the object passes the contract's
    validator and the message is its encoding. *)
Theorem decoding_inverts_encoding :
  inverse_of semantic_endpoint_from_proto to_semantic_proto_endpoint Endpoint_validate /\
  inverse_of semantic_provider_from_proto to_semantic_proto_provider Provider_validate /\
  inverse_of semantic_resource_from_proto to_semantic_proto_resource Resource_validate /\
  inverse_of semantic_observed_worker_from_proto to_semantic_proto_worker Worker_validate.
Proof.
  split_and!; intros m x; [apply endpoint_from_proto_Ok|apply provider_from_proto_Ok|apply resource_from_proto_Ok
    |apply observed_worker_from_proto_Ok].
Qed.

(** [from] accepts only valid objects, every valid one, and gives it back
    unchanged. *)
Definition faithful_to {A B} (from : B -> result Status A) (to : A -> B) (validate : A -> result ContractError unit)
    : Prop :=
  (forall x, from (to x) = Ok x <-> validate x = Ok tt) /\
  (forall m x, from m = Ok x -> validate x = Ok tt /\ from (to x) = Ok x).

(** C29: objects that carry times (endpoint grants, operations, provider
    snapshots) survive the wire: an object is decoded from its encoding
    unchanged exactly when it is valid, although a timestamp is split into
    seconds and nanoseconds of other widths; and whatever message is accepted,
    the object is valid and its own encoding means the same. *)
Theorem timed_objects_roundtrip :
  faithful_to semantic_endpoint_grant_from_proto to_semantic_proto_endpoint_grant EndpointGrant_validate /\
  faithful_to semantic_operation_from_proto to_semantic_proto_operation Operation_validate /\
  faithful_to semantic_provider_snapshot_from_proto to_semantic_proto_provider_snapshot ProviderSnapshot_validate.
Proof.
  assert (forall A B (from : B -> result Status A) to validate,
    (forall m x, from m = Ok x -> validate x = Ok tt) -> (forall x, validate x = Ok tt -> from (to x) = Ok x) ->
    faithful_to from to validate) as Hf.
  { intros A B from to validate Hs Hc. split; [split; eauto|]. intros m x Hx. split; eauto. }
  split_and!; apply Hf.
  - by intros m x [? _]%grant_from_proto_Ok.
  - intros g Hv. apply grant_from_proto_Ok. split; [done|]. eexists. split; [|by destruct g].
    unfold EndpointGrant_validate in Hv. rewrite !result_bind_unit in Hv. eapply denotes_encoded. apply Hv.
  - by intros m x [? _]%operation_from_proto_Ok.
  - intros o Hv. apply operation_from_proto_Ok. split; [done|]. exists (timestamp_from_unix_ms <$> op_deadline_unix_ms o).
    split; [|by destruct o]. unfold Operation_validate in Hv. rewrite !result_bind_unit in Hv.
    destruct Hv as (_ & _ & _ & _ & Hd & _). destruct (op_deadline_unix_ms o); [|done]. by eapply denotes_encoded.
  - by intros m x [? _]%snapshot_from_proto_Ok.
  - intros s Hv. apply snapshot_from_proto_Ok. split; [done|].
    apply snapshot_valid_parts in Hv as (_ & ? & ? & _). eexists _, _.
    split_and!; [by eapply denotes_encoded..|by destruct s].
Qed.

(** ** Workers and principals *)
Definition claiming (principal : option Proto.IdentityMessage) (w : Proto.WorkerMessage) : Proto.WorkerMessage :=
  Proto.worker (Proto.wk_identity w) principal (Proto.wk_provider w) (Proto.wk_lease w) (Proto.wk_state w)
    (Proto.wk_execution_ref w) (Proto.wk_limits w).

(** C30: a worker sent by a client acts for the principal of the connection: a
    message is accepted exactly when it encodes a valid worker of that
    principal, whatever principal it claims itself, or none. *)
Theorem principal_comes_from_connection m principal w :
  semantic_worker_from_proto m principal = Ok w <->
  Worker_validate w = Ok tt /\ wk_principal w = principal /\
  exists claimed, m = claiming claimed (to_semantic_proto_worker w).
Proof.
  split.
  - unfold semantic_worker_from_proto. intros Hd. decode Hd. apply ok_or_Ok in E, E0.
    assert (Proto.wk_state m = Proto.WorkerState_as_i32 (worker_state_to_proto x0)) as Hst
      by (apply worker_state_from_proto_Ok; by rewrite E).
    apply identity_from_proto_Ok in E1 as [_ Hi], E2 as [_ Hp], E3 as [_ Hl]. split_and!; [done|done|].
    exists (Proto.wk_principal m). destruct m as [mi mp mo ml st ex lim]. simpl in *. subst.
    unfold claiming. simpl. by autorewrite with wire.
  - intros (Hv & <- & claimed & ->). pose proof Hv as Hv'. unfold Worker_validate in Hv'.
    rewrite !result_bind_unit in Hv'. destruct Hv' as (? & _ & ? & ? & _). unfold semantic_worker_from_proto. simpl.
    pose proof (proj2 (worker_state_from_proto_Ok _ (wk_state w)) eq_refl) as Hst.
    destruct (Proto.WorkerState_try_from _) as [st|]; simpl in *; [|done]. rewrite Hst. simpl. present.
    autorewrite with wire. apply validated_Ok. by destruct w.
Qed.

(** ** Call contexts *)
Definition context_to_v1 (c : AuthorityCallContext) : Proto.AuthorityCallContextV1 :=
  Proto.context_v1 (Some (to_semantic_proto_contract_revision (ctx_contract c))) (ctx_request_id c)
    (ctx_idempotency_key c).
Definition context_to_v2 (c : AuthorityCallContext) : Proto.AuthorityCallContextV2 :=
  Proto.context_v2 (ctx_namespace c) (Some (to_semantic_proto_contract_revision (ctx_contract c))) (ctx_request_id c)
    (ctx_idempotency_key c).
Definition context_to_provider (c : AuthorityCallContext) : Proto.ProviderCallContext :=
  Proto.provider_context (Some (to_semantic_proto_contract_revision (ctx_contract c))) (ctx_namespace c)
    (ctx_request_id c) (ctx_idempotency_key c).
Definition admissible (c : AuthorityCallContext) : Prop :=
  AuthorityCallContext_validate_for c ContractRevision_current = Ok tt.

Lemma admissible_iff c : admissible c <->
  ContractRevision_negotiate ContractRevision_current (ctx_contract c) = Some (ctx_contract c) /\
  (bool_decide (ctx_request_id c = "") && bool_decide (ctx_idempotency_key c = "") = false) /\
  NamespaceId_new (ctx_namespace c) = Ok (ctx_namespace c).
Proof.
  unfold admissible, AuthorityCallContext_validate_for.
  destruct (bool_decide_reflect (ContractRevision_negotiate ContractRevision_current (ctx_contract c)
    = Some (ctx_contract c))); simpl; [|naive_solver].
  destruct (bool_decide (ctx_request_id c = "") && _); [naive_solver|].
  unfold NamespaceId_new. case_match; simpl; naive_solver.
Qed.
Lemma negotiated_valid r : ContractRevision_negotiate ContractRevision_current r = Some r ->
  ContractRevision_validate r = Ok tt.
Proof.
  unfold ContractRevision_negotiate. destruct (ContractRevision_validate r) as [[]|]; [done|].
  rewrite orb_true_r. done.
Qed.
Lemma revision_from_proto_Some m r :
  semantic_contract_revision_from_proto m = Some r <->
  ContractRevision_validate r = Ok tt /\ m = to_semantic_proto_contract_revision r.
Proof.
  unfold semantic_contract_revision_from_proto. split.
  - destruct (ContractRevision_validate _) as [[]|] eqn:Hv; [|done]. intros [= <-]. split; [done|]. by destruct m.
  - intros [Hv ->]. destruct r. simpl in *. by rewrite Hv.
Qed.
Lemma namespace_new_Ok v ns : NamespaceId_new v = Ok ns <-> NamespaceId_new v = Ok v /\ ns = v.
Proof. unfold NamespaceId_new. case_match; naive_solver. Qed.
Lemma namespace_nonempty v : NamespaceId_new v = Ok v -> bool_decide (v = "") = false.
Proof. unfold NamespaceId_new. by destruct (bool_decide (v = "")). Qed.
(** The two tests all three decoders end with. *)
Lemma guarded_Ok {A} (b1 b2 : bool) (e1 e2 : Status) (x y : A) :
  (if negb b1 then Err e1 else if b2 then Err e2 else Ok x) = Ok y <-> b1 = true /\ b2 = false /\ x = y.
Proof. destruct b1, b2; simpl; naive_solver. Qed.

Lemma v2_context_Ok m c :
  authority_call_context_from_v2_proto m = Ok c <-> admissible c /\ m = Some (context_to_v2 c).
Proof.
  rewrite admissible_iff. unfold authority_call_context_from_v2_proto. split.
  - intros Hd. decode Hd. apply guarded_Ok in Hd as (Hn & Hr & <-). apply bool_decide_eq_true in Hn.
    apply ok_or_Ok in E, E2, E3. apply map_err_Ok, namespace_new_Ok in E1 as [Hns ->].
    apply revision_from_proto_Some in E3 as [_ ->]. simpl. split; [done|]. subst m.
    destruct x. simpl in *. by subst.
  - intros [(Hn & Hr & Hns) ->]. simpl. rewrite (namespace_nonempty (ctx_namespace c) Hns). simpl. rewrite Hns. simpl.
    rewrite (proj2 (revision_from_proto_Some _ (ctx_contract c)) (conj (negotiated_valid _ Hn) eq_refl)). simpl.
    rewrite Hr, bool_decide_true by done. by destruct c.
Qed.
Lemma provider_context_Ok m c :
  provider_call_context_from_proto m = Ok c <-> admissible c /\ m = Some (context_to_provider c).
Proof.
  rewrite admissible_iff. unfold provider_call_context_from_proto. split.
  - intros Hd. decode Hd. apply guarded_Ok in Hd as (Hn & Hr & <-). apply bool_decide_eq_true in Hn.
    apply ok_or_Ok in E, E1. apply map_err_Ok, namespace_new_Ok in E0 as [Hns ->].
    simpl. split; [done|]. subst m. destruct x as [ct ns rid idem], x1. simpl in *. by subst.
  - intros [(Hn & Hr & Hns) ->]. simpl. rewrite Hns. simpl.
    destruct c as [[cid ma mi] ns rid idem]. simpl in *. by rewrite Hr, bool_decide_true by done.
Qed.
Lemma default_namespace_valid : NamespaceId_new NamespaceId_default = Ok NamespaceId_default.
Proof. vm_compute. reflexivity. Qed.
Lemma v1_context_Ok m : exists r, authority_call_context_from_proto m = Returned r /\
  forall c, r = Ok c <-> admissible c /\ ctx_namespace c = NamespaceId_default /\ m = Some (context_to_v1 c).
Proof.
  assert (forall ctx, validate_authority_context m = Ok ctx <->
    exists c, admissible c /\ ctx_namespace c = NamespaceId_default /\ m = Some ctx /\ ctx = context_to_v1 c) as Hv.
  { intros ctx. unfold validate_authority_context. split.
    - intros Hd. decode Hd. apply guarded_Ok in Hd as (Hn & Hr & <-). apply bool_decide_eq_true in Hn.
      apply ok_or_Ok in E, E0, E1. apply revision_from_proto_Some in E1 as [_ ->].
      exists (mk_context x1 NamespaceId_default (Proto.c1_request_id x) (Proto.c1_idempotency_key x)).
      rewrite admissible_iff. split_and!; simpl; try done. destruct x. simpl in *. by subst.
    - intros (c & (Hn & Hr & _)%admissible_iff & Hns & -> & ->). simpl.
      rewrite (proj2 (revision_from_proto_Some _ (ctx_contract c)) (conj (negotiated_valid _ Hn) eq_refl)). simpl.
      by rewrite Hr, bool_decide_true by done. }
  unfold authority_call_context_from_proto. destruct (validate_authority_context m) as [ctx|e].
  - destruct (proj1 (Hv ctx) eq_refl) as (c & Hc & Hns & -> & ->). simpl.
    pose proof Hc as (Hn & _ & _)%admissible_iff.
    rewrite (proj2 (revision_from_proto_Some _ (ctx_contract c)) (conj (negotiated_valid _ Hn) eq_refl)).
    eexists. split; [reflexivity|]. intros c'. split.
    + intros [= <-]. rewrite <- Hns. by destruct c.
    + intros (_ & Hns' & Heq). destruct c as [[] ? ? ?], c' as [[] ? ? ?]. simpl in *. naive_solver.
  - eexists. split; [reflexivity|]. intros c. split; [done|]. intros (Hc & Hns & ->).
    specialize (proj2 (Hv (context_to_v1 c))) as Hx. discriminate Hx. by exists c.
Qed.

(** C31: the three transports admit the same calls as the authority: a Core v2 or
    provider envelope is decoded into a context exactly when it encodes one
    that passes the authority's own check for this Kernel's revision, so the
    check behind the port never fires for a decoded call; a Core v1 envelope
    likewise for the default namespace, and its two [expect]s never panic. *)
Theorem context_decoders_agree :
  (forall m c, authority_call_context_from_v2_proto m = Ok c <-> admissible c /\ m = Some (context_to_v2 c)) /\
  (forall m c, provider_call_context_from_proto m = Ok c <-> admissible c /\ m = Some (context_to_provider c)) /\
  (forall m, exists r, authority_call_context_from_proto m = Returned r /\
     forall c, r = Ok c <-> admissible c /\ ctx_namespace c = NamespaceId_default /\ m = Some (context_to_v1 c)).
Proof. split_and!; [apply v2_context_Ok|apply provider_context_Ok|apply v1_context_Ok]. Qed.
End objects.

(** ** Times *)

(** Durations and times keep their value across the wire: a duration message
    is accepted exactly when it is the encoding of a duration within the range
    Protobuf allows, so a longer one, whose seconds may not even fit the signed
    field, is refused and never shortened; every 64-bit millisecond time is
    decoded from its encoding; and what a timestamp with fields of the wire's
    widths is decoded to is its time in milliseconds, rounded down, or nothing
    if it is negative or does not fit. *)
Theorem times_keep_their_value :
  (forall m d, proto_duration m = Ok d <-> (d / 1000000000 <= 315576000000)%N /\ m = to_proto_duration d) /\
  (forall ms field, (ms <= u64_max)%N -> unix_ms_from_timestamp (timestamp_from_unix_ms ms) field = Ok ms) /\
  (forall t field ms, (Proto.ts_seconds t < 2 ^ 63)%Z -> (Proto.ts_nanos t < 2 ^ 31)%Z ->
     unix_ms_from_timestamp t field = Ok ms <->
     (0 <= Proto.ts_seconds t)%Z /\ (0 <= Proto.ts_nanos t)%Z /\ (ms <= u64_max)%N /\
     Z.of_N ms = (Proto.ts_seconds t * 1000 + Proto.ts_nanos t / 1000000)%Z).
Proof.
  split_and!; [|apply timestamp_roundtrip|intros; by apply unix_ms_from_timestamp_Ok].
  intros [s n] d. unfold proto_duration, to_proto_duration. simpl.
  pose proof (N.mod_lt d 1000000000). pose proof (N.div_mod d 1000000000). split.
  - destruct (Z.ltb_spec s 0); [done|]. destruct (Z.ltb_spec n 0); [done|]. simpl.
    destruct (Z.ltb_spec 315576000000 s); [done|]. destruct (Z.leb_spec 1000000000 n); [done|]. simpl.
    rewrite as_u64_small, as_u32_small by lia. intros [= <-].
    rewrite N.div_add_l, N.div_small, N.add_0_r by lia.
    replace ((Z.to_N s * 1000000000 + Z.to_N n) mod 1000000000)%N with (Z.to_N n)
      by (rewrite N.add_comm, N.Div0.mod_add, N.mod_small; lia).
    rewrite as_i64_small, as_i32_small by lia. split; [lia|]. f_equal; lia.
  - intros [Hd [= -> ->]]. rewrite as_i64_small, as_i32_small by lia.
    destruct (Z.ltb_spec (Z.of_N (d / 1000000000)) 0); [lia|].
    destruct (Z.ltb_spec (Z.of_N (d mod 1000000000)) 0); [lia|]. simpl.
    destruct (Z.ltb_spec 315576000000 (Z.of_N (d / 1000000000))); [lia|].
    destruct (Z.leb_spec 1000000000 (Z.of_N (d mod 1000000000))); [lia|]. simpl.
    rewrite as_u64_small, as_u32_small by lia. f_equal. lia.
Qed.

(** ** Legacy resource requests *)
Definition total_count (xs : list Proto.AcceleratorRequirements) : N :=
  foldr (fun a n => Proto.ac_count a + n)%N 0%N xs.
Definition has_dot (id : string) : bool := existsb (fun c => bool_decide (c = "."%char)) (bytes id).
Definition requested_kind (a : Proto.AcceleratorRequirements) : option string :=
  kind_capability <$> Proto.AcceleratorKind_try_from (Proto.ac_kind a).
(** An accelerator entry without vendor selector, of a known kind, with
    namespaced features. *)
Definition plain_entry (kind : string) (a : Proto.AcceleratorRequirements) : Prop :=
  Proto.ac_vendor a = Proto.AcceleratorVendor_Unspecified /\ Proto.ac_other_vendor_id a = "" /\
  requested_kind a = Some kind /\ Forall (fun id => has_dot id = true) (Proto.ac_required_features a).

Definition add_features (features : list string) (required : gmap string CapabilityRequirement)
    : gmap string CapabilityRequirement :=
  foldl (fun m id => <[id := at_least_revision_1 id]> m) required features.
Lemma require_features_Ok features required r :
  require_features features required = Ok r <->
  Forall (fun id => has_dot id = true) features /\ r = add_features features required.
Proof.
  revert required. induction features as [|id features IH]; intros required; simpl; [naive_solver|].
  rewrite Forall_cons. unfold has_dot at 1. destruct (existsb _ (bytes id)); simpl; [|naive_solver].
  rewrite IH. naive_solver.
Qed.
Definition add_entry (l : accelerator_loop) (a : Proto.AcceleratorRequirements) : accelerator_loop :=
  mk_accelerator_loop (al_count l + Proto.ac_count a) (requested_kind a)
    (add_features (Proto.ac_required_features a) (al_required_capabilities l))
    (Some (N.max (default 0 (al_min_memory_bytes l)) (Proto.ac_min_memory_bytes_per_device a)))%N.
Lemma accelerator_step_Ok l a l' :
  accelerator_step l a = Ok l' <->
  (al_count l + Proto.ac_count a <= u32_max)%N /\
  (exists kind, plain_entry kind a /\ default kind (al_kind_capability l) = kind) /\ l' = add_entry l a.
Proof.
  unfold accelerator_step, u32_checked_add, plain_entry, add_entry, requested_kind.
  destruct (N.leb_spec (al_count l + Proto.ac_count a) u32_max); simpl; [|split; [done|lia]].
  case_bool_decide; simpl; [|naive_solver]. case_bool_decide; simpl; [|naive_solver].
  destruct (Proto.AcceleratorKind_try_from (Proto.ac_kind a)) as [k|]; simpl; [|naive_solver].
  assert (is_some_and (fun current => negb (bool_decide (current = kind_capability k))) (al_kind_capability l) = false
    <-> default (kind_capability k) (al_kind_capability l) = kind_capability k) as Hk.
  { destruct (al_kind_capability l) as [cur|]; simpl; [|done]. by case_bool_decide. }
  destruct (is_some_and _ _).
  { split; [done|]. intros (_ & (kind & (_ & _ & [= <-] & _) & Hd) & _). by apply Hk in Hd. }
  rewrite result_bind_Ok. setoid_rewrite require_features_Ok. split.
  - intros (r & [Hf ->] & [= <-]). split_and!; [done| |].
    + exists (kind_capability k). split_and!; try done. by apply Hk.
    + f_equal. destruct (al_min_memory_bytes l); simpl; f_equal; lia.
  - intros (_ & (kind & (_ & _ & _ & Hf) & _) & ->). eexists. split; [by split|].
    do 2 f_equal. destruct (al_min_memory_bytes l); simpl; f_equal; lia.
Qed.
Lemma accelerators_loop_Ok l xs l' : (al_count l <= u32_max)%N ->
  accelerators_loop l xs = Ok l' <->
  (al_count l + total_count xs <= u32_max)%N /\
  (xs = [] \/ exists kind, Forall (plain_entry kind) xs /\ default kind (al_kind_capability l) = kind) /\
  l' = foldl add_entry l xs.
Proof.
  revert l. induction xs as [|a xs IH]; intros l Hl; simpl.
  { split; [|by intros (_ & _ & ->)]. intros [= <-]. split_and!; [lia|by left|done]. }
  rewrite result_bind_Ok. setoid_rewrite accelerator_step_Ok. split.
  - intros (l1 & (Hc & (kind & Hp & Hk) & ->) & Hrest%IH); [|done]. simpl in Hrest.
    destruct Hrest as (Ht & Hxs & ->). split_and!; [lia| |done]. right. exists kind. split; [|done].
    constructor; [done|]. destruct Hxs as [->|(kind' & Hf & Hd)]; [done|].
    destruct Hp as (_ & _ & Hr & _). rewrite Hr in Hd. simpl in Hd. by subst.
  - intros (Ht & [?|(kind & Hf & Hk)] & ->); [done|]. apply Forall_cons in Hf as [Hp Hf].
    exists (add_entry l a). split; [split_and!; [lia|by exists kind|done]|]. apply IH; simpl; [lia|].
    split_and!; [lia| |done]. right. exists kind. split; [done|]. destruct Hp as (_ & _ & -> & _). done.
Qed.

(** What the loop computes. *)
Lemma add_features_lookup features required id c :
  add_features features required !! id = Some c <->
  (id ∈ features /\ c = at_least_revision_1 id) \/ (~ (id ∈ features) /\ required !! id = Some c).
Proof.
  revert required. induction features as [|f features IH]; intros required; simpl; [set_solver|].
  unfold add_features in *. simpl. rewrite IH. rewrite lookup_insert_Some. rewrite elem_of_cons.
  destruct (decide (f = id)) as [->|]; destruct (decide (id ∈ features)); naive_solver.
Qed.
Record loop_of (l : accelerator_loop) (xs : list Proto.AcceleratorRequirements) : Prop := {
  lo_count : al_count l = total_count xs;
  lo_kind : al_kind_capability l = (last xs ≫= requested_kind);
  lo_required : forall id c, al_required_capabilities l !! id = Some c <->
    c = at_least_revision_1 id /\ exists a, a ∈ xs /\ id ∈ Proto.ac_required_features a;
  lo_memory : forall n, (default 0 (al_min_memory_bytes l) <= n)%N <->
    Forall (fun a => Proto.ac_min_memory_bytes_per_device a <= n)%N xs;
}.
Lemma total_count_app xs ys : total_count (xs ++ ys) = (total_count xs + total_count ys)%N.
Proof. induction xs as [|x xs IH]; simpl; [done|]. rewrite IH. lia. Qed.
Lemma loop_of_entries xs : loop_of (foldl add_entry (mk_accelerator_loop 0 None ∅ None) xs) xs.
Proof.
  induction xs as [|a xs [IH1 IH2 IH3 IH4]] using rev_ind.
  { split; simpl; [done|done| |].
    - intros id c. rewrite lookup_empty. set_solver.
    - intros n. split; [done|lia]. }
  rewrite foldl_app. simpl. split; simpl.
  - rewrite total_count_app, IH1. simpl. lia.
  - by rewrite last_snoc.
  - intros id c. rewrite add_features_lookup, IH3. setoid_rewrite elem_of_app. setoid_rewrite list_elem_of_singleton.
    destruct (decide (id ∈ Proto.ac_required_features a)); naive_solver.
  - intros n. rewrite Forall_app, Forall_singleton, <- IH4. lia.
Qed.

Definition acceptable (q : Proto.ResourceRequirements) : Prop :=
  (0 < total_count (Proto.rr_accelerators q) <= u32_max)%N /\
  (exists kind, Forall (plain_entry kind) (Proto.rr_accelerators q)) /\
  is_ok (cgroup_limits (Proto.rr_cpu q) (Proto.rr_memory q)) = true.
(** What a request asks of the ledger, for the entries [xs] of kind [kind]. *)
Record request_of (kind : string) (xs : list Proto.AcceleratorRequirements) (q : ResourceQuery) : Prop := {
  ro_class : query_resource_class q = "accelerator";
  ro_count : query_count q = total_count xs;
  (** The kind and every feature, each once and at any revision. *)
  ro_capabilities : forall c, c ∈ query_required_capabilities q <->
    exists id, c = at_least_revision_1 id /\ (id = kind \/ exists a, a ∈ xs /\ id ∈ Proto.ac_required_features a);
  ro_distinct : NoDup (req_id <$> query_required_capabilities q);
  (** A device with memory [m] has the capacity exactly when every entry fits. *)
  ro_capacity : forall m, (forall k minimum, query_minimum_capacity q !! k = Some minimum ->
      k = "memory.allocatable" /\ Quantity_satisfies (mk_quantity m "byte") minimum = true) <->
    Forall (fun a => Proto.ac_min_memory_bytes_per_device a <= m)%N xs;
}.
Lemma required_values (required : gmap string CapabilityRequirement) :
  (forall id c, required !! id = Some c -> c = at_least_revision_1 id) ->
  NoDup (req_id <$> btree_values required) /\
  forall c, c ∈ btree_values required <-> exists id, c = at_least_revision_1 id /\ is_Some (required !! id).
Proof.
  intros Hkeys. split.
  - assert (req_id <$> btree_values required = btree_keys required) as ->; [|apply btree_keys_NoDup].
    unfold btree_values, btree_keys. rewrite <- list_fmap_compose. apply list_fmap_ext.
    intros i [id c] Hin%list_elem_of_lookup_2. apply elem_of_btree_iter, Hkeys in Hin as ->. done.
  - intros c. rewrite elem_of_btree_values. split.
    + intros [id Hid]. exists id. split; [by apply Hkeys|done].
    + intros (id & -> & c' & Hc). exists id. by rewrite Hc, (Hkeys _ _ Hc).
Qed.

Lemma request_of_loop kind l xs : loop_of l xs -> Forall (plain_entry kind) xs -> xs <> [] ->
  request_of kind xs
    (mk_query "accelerator" (total_count xs)
       (btree_values (<[default "accelerator.compute" (al_kind_capability l) :=
          at_least_revision_1 (default "accelerator.compute" (al_kind_capability l))]> (al_required_capabilities l)))
       match al_min_memory_bytes l ≫= positive with
       | Some value => {["memory.allocatable" := mk_quantity value "byte"]}
       | None => ∅
       end).
Proof.
  intros [L1 L2 L3 L4] Hf Hne.
  assert (default "accelerator.compute" (al_kind_capability l) = kind) as ->.
  { destruct xs as [|a xs _] using rev_ind; [done|]. rewrite L2, last_snoc. simpl.
    apply Forall_app in Hf as [_ Hf]. apply Forall_singleton in Hf as (_ & _ & -> & _). done. }
  destruct (required_values (<[kind := at_least_revision_1 kind]> (al_required_capabilities l))) as [Hnd Hin].
  { intros id c. rewrite lookup_insert_Some, L3. naive_solver. }
  split; simpl; [done|done| |done|].
  - intros c. rewrite Hin. apply exist_proper. intros id. rewrite lookup_insert_is_Some'.
    assert (is_Some (al_required_capabilities l !! id) <->
      exists a, a ∈ xs /\ id ∈ Proto.ac_required_features a) as ->; [|naive_solver].
    unfold is_Some. setoid_rewrite L3. naive_solver.
  - intros m. rewrite <- L4. destruct (al_min_memory_bytes l) as [v|]; simpl.
    2:{ split; [lia|]. intros _ k minimum. by rewrite lookup_empty. }
    unfold positive. destruct (N.ltb_spec 0 v); simpl.
    2:{ split; [lia|]. intros _ k minimum. by rewrite lookup_empty. }
    unfold Quantity_satisfies. setoid_rewrite lookup_singleton_Some. split.
    + intros Hk. destruct (Hk _ _ (conj eq_refl eq_refl)) as [_ Hs]. simpl in Hs. lia.
    + intros Hm k minimum [<- <-]. simpl. split; [done|]. lia.
Qed.

(** A legacy requirement list is translated exactly when its counts add up to
    a positive 32-bit number, no entry selects a vendor, all entries are of one
    known kind, every feature is namespaced, and no request exceeds its limit;
    then the ledger is asked for the sum of the counts, for devices with the
    kind and all features of all entries, each once, and with enough memory for
    every entry, and the limits are those of [cgroup_limits]. *)
Theorem legacy_request_meaning name generation holder expires q :
  match resource_request name generation holder expires q with
  | Err _ => ~ acceptable q
  | Ok r =>
      acceptable q /\ rq_lease_name r = name /\ rq_expected_inventory_generation r = generation /\
      rq_holder r = holder /\ rq_expires_at_unix_ms r = expires /\
      (forall kind, Forall (plain_entry kind) (Proto.rr_accelerators q) ->
         request_of kind (Proto.rr_accelerators q) (rq_query r)) /\
      cgroup_limits (Proto.rr_cpu q) (Proto.rr_memory q) = Ok (rq_limits r)
  end.
Proof.
  unfold resource_request, acceptable. set (xs := Proto.rr_accelerators q).
  pose proof (accelerators_loop_Ok (mk_accelerator_loop 0 None ∅ None) xs) as Hloop. simpl in Hloop.
  pose proof (loop_of_entries xs) as Hl.
  destruct (accelerators_loop _ xs) as [l|e]; simpl.
  2:{ intros ((Ht & Hmax) & (kind & Hf) & _).
      discriminate (proj2 (Hloop (foldl add_entry (mk_accelerator_loop 0 None ∅ None) xs) ltac:(unfold u32_max; lia))).
      split_and!; [lia| |done]. right. by exists kind. }
  destruct (proj1 (Hloop l ltac:(unfold u32_max; lia)) eq_refl) as (Ht & Hkind & ->).
  destruct Hl as [L1 L2 L3 L4]. revert L1 L2 L3 L4. generalize (foldl add_entry (mk_accelerator_loop 0 None ∅ None) xs).
  intros l L1 L2 L3 L4. rewrite L1. destruct (N.eqb_spec (total_count xs) 0) as [Hz|Hz]; simpl; [lia|].
  destruct Hkind as [->|(kind & Hf & _)]; [done|].
  unfold cgroup_limits. destruct (check_cpu (Proto.rr_cpu q)) as [[]|]; simpl; [|naive_solver].
  destruct (check_memory (Proto.rr_memory q)) as [[]|]; simpl; [|naive_solver].
  split_and!; try done; [lia|by exists kind|]. intros kind' Hf'. apply request_of_loop; [by split|done|].
  intros ->. done.
Qed.
