(* ===== verification/ServiceManager.v ===== *)
(** * Service supervision manager

    [cy-kernel-daemon/src/service_manager.rs]: the calls of clients that submit,
    observe, stop and cancel services.  Each service has its own supervisor
    behind a mutex; here a call is one step on the supervisor it names, and
    [ServiceSessions] interleaves the calls of several clients. *)
From stdpp Require Import base gmap strings list sorting pretty.
From Stdlib Require Import Ascii Lia ZifyBool ZifyN SpecFloat.
From S2P Require Import Prelude Validation Contract KernelApi Environment Instance Service Supervisor.
From S2P Require Import Messages Wire.

(** [s.trim().is_empty()]: nothing but Unicode white space, in UTF-8. *)
Fixpoint blank (bs : list ascii) : bool :=
  match bs with
  | [] => true
  | c :: rest =>
      if byte_in 9 13 c || byte_in 32 32 c then blank rest
      else
        match rest with
        | [] => false
        | c2 :: rest2 =>
            if byte_in 194 194 c && (byte_in 133 133 c2 || byte_in 160 160 c2) then blank rest2
            else
              match rest2 with
              | [] => false
              | c3 :: rest3 =>
                  if (byte_in 225 225 c && byte_in 154 154 c2 && byte_in 128 128 c3)
                     || (byte_in 226 226 c && byte_in 128 128 c2
                         && (byte_in 128 138 c3 || byte_in 168 169 c3 || byte_in 175 175 c3))
                     || (byte_in 226 226 c && byte_in 129 129 c2 && byte_in 159 159 c3)
                     || (byte_in 227 227 c && byte_in 128 128 c2 && byte_in 128 128 c3)
                  then blank rest3 else false
              end
        end
  end.
Definition u16_try_from (n : N) (message : string) : result Status N :=
  if (n <=? 65535)%N then Ok n else Err (invalid_argument message).
Definition non_empty (s : option string) : option string :=
  s ≫= fun s => if bool_decide (s = "") then None else Some s.
(** [d.map(proto_duration).transpose()?.unwrap_or(otherwise)] *)
Definition duration_or (otherwise : N) (d : option Proto.Duration) : result Status N :=
  default otherwise <$> transpose proto_duration d.

Definition backoff_config_from_proto (c : Proto.BackoffConfigMessage) : result Status BackoffConfig :=
  initial_delay ← duration_or (millis 100) (Proto.bk_initial_delay c);
  max_delay ← duration_or (seconds 30) (Proto.bk_max_delay c);
  let multiplier := if f64_gt0 (Proto.bk_multiplier c) then Proto.bk_multiplier c else f64_of_N 2 in
  reset_after ← duration_or (seconds 60) (Proto.bk_reset_after c);
  Ok (mk_backoff initial_delay max_delay multiplier reset_after).
Definition backoff_or_default (b : option Proto.BackoffConfigMessage) : result Status BackoffConfig :=
  default BackoffConfig_default <$> transpose backoff_config_from_proto b.

(** The parts of [proto_spec_to_domain]. *)
Definition launch_plan_of (spec : Proto.ServiceSpecMessage) : LaunchPlan :=
  mk_plan (Proto.se_name spec) (Proto.se_executable spec) (Proto.se_args spec) (Proto.se_environment spec)
    (if bool_decide (Proto.se_cgroup_name spec = "") then "service-" +:+ Proto.se_name spec
     else Proto.se_cgroup_name spec)
    CgroupLimits_default (non_empty (Proto.se_working_dir spec)) (non_empty (Proto.se_transport_socket spec)).
Definition probe_config_of (c : option Proto.ProbeConfigMessage) : result Status ProbeConfig :=
  match c with
  | Some c =>
      initial_delay ← duration_or 0 (Proto.pr_initial_delay c);
      period ← duration_or (millis 50) (Proto.pr_period c);
      timeout ← duration_or (millis 500) (Proto.pr_timeout c);
      Ok (mk_probe_config initial_delay period timeout (N.max (Proto.pr_success_threshold c) 1)
            (N.max (Proto.pr_failure_threshold c) 1))
  | None => Ok ProbeConfig_default
  end.
Definition readiness_probe_of (p : option Proto.Probe) : result Status ReadinessProbe :=
  match p with
  | Some Proto.ProbeProcessAlive => Ok ProcessAlive
  | Some (Proto.ProbeTcpSocket host port) =>
      port ← u16_try_from port "tcp readiness port exceeds 65535";
      Ok (TcpSocket host port)
  | Some (Proto.ProbeHttpGet host port path expected_status) =>
      port ← u16_try_from port "http readiness port exceeds 65535";
      expected_status ← transpose (fun s => u16_try_from s "expected HTTP status exceeds 65535") expected_status;
      Ok (HttpGet host port path expected_status)
  | Some Proto.ProbeWorkerControl => Ok WorkerControl
  | None => Ok ProcessAlive
  end.
Definition restart_policy_of (p : option (option Proto.Policy)) : result Status RestartPolicy :=
  match p with
  | Some (Some Proto.PolicyNever) => Ok RestartNever
  | Some (Some (Proto.PolicyOnFailure max_retries backoff)) =>
      backoff ← backoff_or_default backoff;
      Ok (RestartOnFailure max_retries backoff)
  | Some (Some (Proto.PolicyAlways max_retries backoff)) =>
      backoff ← backoff_or_default backoff;
      Ok (RestartAlways max_retries backoff)
  | Some None | None => Ok RestartPolicy_default
  end.
Definition endpoint_spec_of (e : Proto.ServiceEndpointSpecMessage) : result Status ServiceEndpointSpec :=
  port ← transpose (fun port => u16_try_from port "service endpoint port exceeds 65535") (Proto.sp_port e);
  Ok (mk_endpoint_spec (Proto.sp_transport e) (Proto.sp_schema_id e) port (Proto.sp_path e) (Proto.sp_attributes e)
        (Proto.sp_connection_ref e) (Proto.sp_credential_ref e)).
Definition proto_spec_to_domain (spec : Proto.ServiceSpecMessage) : result Status ServiceSpec :=
  _ ← ensure (negb (blank (bytes (Proto.se_name spec)))) (invalid_argument "service name must not be empty");
  _ ← ensure (negb (blank (bytes (Proto.se_executable spec)))) (invalid_argument "executable must not be empty");
  probe ← match Proto.se_readiness_probe spec with
          | Some proto_probe =>
              config ← probe_config_of (Proto.se_probe_config spec);
              domain_probe ← readiness_probe_of proto_probe;
              Ok (Some (domain_probe, config))
          | None => Ok None
          end;
  restart_policy ← restart_policy_of (Proto.se_restart_policy spec);
  graceful_stop_timeout ← duration_or (seconds 5) (Proto.se_graceful_stop_timeout spec);
  endpoint ← transpose endpoint_spec_of (Proto.se_endpoint spec);
  Ok (mk_service_spec (Proto.se_name spec) (launch_plan_of spec) probe restart_policy graceful_stop_timeout endpoint).

Definition service_state_to_proto (s : ServiceState) : Proto.ServiceStateEnum :=
  match s with
  | SStarting => Proto.SsStarting
  | SReady => Proto.SsReady
  | SRunning => Proto.SsRunning
  | SStopping => Proto.SsStopping
  | SStopped => Proto.SsStopped
  | SFailed => Proto.SsFailed
  | SRestarting => Proto.SsRestarting
  | SQuarantined => Proto.SsQuarantined
  end.
Definition domain_status_to_proto (s : ServiceStatus) : Proto.ServiceStatusMessage :=
  let '(exit_code, oom_killed, reason_code) :=
    match st_last_exit_report s with
    | Some report => (cr_exit_code report, cr_oom_killed report, cr_reason_code report)
    | None => (None, false, as_reason_code (st_state s))
    end in
  Proto.service_status (st_name s) (Proto.ServiceState_as_i32 (service_state_to_proto (st_state s)))
    (st_restart_count s) exit_code oom_killed reason_code (to_semantic_proto_endpoint <$> st_published_endpoint s)
    (st_last_error s).
Definition service_event_to_proto (e : ServiceEvent) : Proto.ServiceEventMessage :=
  Proto.service_event (se_service_name e) (Proto.ServiceState_as_i32 (service_state_to_proto (se_state e)))
    (se_timestamp_unix_ms e) (se_reason_code e) (se_message e).

(** ** The manager *)
Record ServiceSupervisionManager := mk_manager {
  sm_default_binding : DeviceBinding;
  sm_supervisors : gmap string ServiceSupervisor;
}.
Definition ServiceSupervisionManager_new (binding : DeviceBinding) : ServiceSupervisionManager := mk_manager binding ∅.
Definition set_supervisor (m : ServiceSupervisionManager) (name : string) (s : ServiceSupervisor)
    : ServiceSupervisionManager :=
  mk_manager (sm_default_binding m) (<[name := s]> (sm_supervisors m)).
Definition not_found (message : string) : Status := mk_status CodeNotFound message None.
Definition internal (message : string) : Status := mk_status CodeInternal message None.
Definition service_not_found (name : string) : Status := not_found ("service " +:+ name +:+ " not found").

Section manager.
Context {W : Type} `{Environment W} `{ServiceHost W}.
Implicit Types (m : ServiceSupervisionManager) (w : W).

Definition start_service (fuel : nat) (spec : option Proto.ServiceSpecMessage) m w
    : option (ServiceSupervisionManager * W * result Status Proto.ServiceStatusMessage) :=
  match spec with
  | None => Some (m, w, Err (invalid_argument "service spec is required"))
  | Some proto_spec =>
      let name := Proto.se_name proto_spec in
      match proto_spec_to_domain proto_spec with
      | Err e => Some (m, w, Err e)
      | Ok domain_spec =>
          let supervisor := match sm_supervisors m !! name with
                            | Some existing => existing
                            | None => ServiceSupervisor_new domain_spec (sm_default_binding m)
                            end in
          '(supervisor, w, r) ← start fuel supervisor w;
          Some (set_supervisor m name supervisor, w,
                domain_status_to_proto <$>
                  map_err (fun e => internal ("failed to start service " +:+ name +:+ ": " +:+ error_text e)) r)
      end
  end.
Definition get_service_status (name : string) m : result Status Proto.ServiceStatusMessage :=
  supervisor ← ok_or (service_not_found name) (sm_supervisors m !! name);
  Ok (domain_status_to_proto (status supervisor)).
(** The grace period of the request is not read. *)
Definition stop_service (request : Proto.StopServiceRequest) m w
    : ServiceSupervisionManager * W * result Status Proto.ServiceStatusMessage :=
  let name := Proto.ss_service_name request in
  match sm_supervisors m !! name with
  | None => (m, w, Err (service_not_found name))
  | Some supervisor =>
      let '(supervisor, w, r) := stop supervisor w in
      (set_supervisor m name supervisor, w,
       domain_status_to_proto <$>
         map_err (fun e => internal ("failed to stop service " +:+ name +:+ ": " +:+ error_text e)) r)
  end.
Definition cancel_service (name : string) m w
    : ServiceSupervisionManager * W * result Status Proto.ServiceStatusMessage :=
  match sm_supervisors m !! name with
  | None => (m, w, Err (service_not_found name))
  | Some supervisor =>
      let '(supervisor, w, r) := cancel supervisor w in
      (set_supervisor m name supervisor, w,
       domain_status_to_proto <$>
         map_err (fun e => internal ("failed to cancel service " +:+ name +:+ ": " +:+ error_text e)) r)
  end.
(** A subscription sees the events sent after it was made; [subscribed] is the
    number of events sent before. *)
Definition watch_service_events (name : string) m : result Status nat :=
  supervisor ← ok_or (service_not_found name) (sm_supervisors m !! name);
  Ok (length (sv_events supervisor)).
Definition watched_events (subscribed : nat) (s : ServiceSupervisor) : list Proto.ServiceEventMessage :=
  service_event_to_proto <$> drop subscribed (sv_events s).

End manager.
