(* ===== verification/ServiceManagerSpec.v ===== *)
(** * What clients of the service manager can rely on *)
From stdpp Require Import base gmap strings list sorting pretty.
From Stdlib Require Import Ascii Lia ZifyBool ZifyN SpecFloat.
From S2P Require Import Prelude Validation Contract KernelApi Environment Instance World Service Supervisor.
From S2P Require Import Messages Wire WireSpec ServiceManager.

(** ** Submitted specifications *)
Definition port_ok (port : N) : Prop := (port <= 65535)%N.
Definition probe_ok (p : ReadinessProbe) : Prop :=
  match p with
  | TcpSocket _ port => port_ok port
  | HttpGet _ port _ expected => port_ok port /\ forall s, expected = Some s -> port_ok s
  | ProcessAlive | WorkerControl => True
  end.
Definition max_duration : N := 315576000000999999999.
Definition backoff_ok (b : BackoffConfig) : Prop :=
  (bo_initial_delay b <= max_duration)%N /\ (bo_max_delay b <= max_duration)%N /\
  f64_gt0 (bo_multiplier b) = true /\ (bo_reset_after b <= max_duration)%N.
Definition policy_ok (p : RestartPolicy) : Prop :=
  match p with RestartNever => True | RestartAlways _ b | RestartOnFailure _ b => backoff_ok b end.
Record spec_ok (s : ServiceSpec) : Prop := {
  so_name : blank (bytes (ss_name s)) = false;
  so_executable : blank (bytes (plan_executable (ss_plan s))) = false;
  so_instance : plan_instance_name (ss_plan s) = ss_name s;
  so_cgroup : plan_cgroup_name (ss_plan s) <> "";
  so_unlimited : plan_limits (ss_plan s) = CgroupLimits_default;
  so_probe : forall p c, ss_readiness_probe s = Some (p, c) -> probe_ok p /\
    (pc_initial_delay c <= max_duration)%N /\ (pc_period c <= max_duration)%N /\ (pc_timeout c <= max_duration)%N /\
    (1 <= pc_success_threshold c)%N /\ (1 <= pc_failure_threshold c)%N;
  so_policy : policy_ok (ss_restart_policy s);
  so_stop : (ss_graceful_stop_timeout s <= max_duration)%N;
  so_endpoint : forall e port, ss_endpoint s = Some e -> es_port e = Some port -> port_ok port;
}.

Lemma u16_try_from_Ok n msg m : u16_try_from n msg = Ok m <-> (n <= 65535)%N /\ m = n.
Proof. unfold u16_try_from. destruct (N.leb_spec n 65535); naive_solver lia. Qed.
Lemma proto_duration_bounded d n : proto_duration d = Ok n -> (n <= max_duration)%N.
Proof.
  unfold proto_duration. destruct (Z.ltb_spec (Proto.du_seconds d) 0); [done|].
  destruct (Z.ltb_spec (Proto.du_nanos d) 0); [done|]. simpl.
  destruct (Z.ltb_spec 315576000000 (Proto.du_seconds d)); [done|].
  destruct (Z.leb_spec 1000000000 (Proto.du_nanos d)); [done|]. simpl.
  rewrite as_u64_small, as_u32_small by lia. intros [= <-]. unfold max_duration. lia.
Qed.
Lemma duration_or_bounded otherwise d n : (otherwise <= max_duration)%N -> duration_or otherwise d = Ok n ->
  (n <= max_duration)%N.
Proof.
  intros Ho (o & Ht & ->)%fmap_Ok. apply transpose_Ok in Ht. destruct d, o; simpl; try done.
  by eapply proto_duration_bounded.
Qed.
Ltac bounded := eapply duration_or_bounded; [|eassumption]; vm_compute; discriminate.
Lemma default_backoff_ok : backoff_ok BackoffConfig_default.
Proof. split_and!; vm_compute; discriminate || reflexivity. Qed.
Lemma backoff_from_proto_ok c b : backoff_config_from_proto c = Ok b -> backoff_ok b.
Proof.
  unfold backoff_config_from_proto. intros Hd. decode Hd. injection Hd as <-.
  split_and!; simpl; [bounded|bounded| |bounded]. by destruct (f64_gt0 (Proto.bk_multiplier c)) eqn:Hpos.
Qed.
Lemma backoff_or_default_ok c b : backoff_or_default c = Ok b -> backoff_ok b.
Proof.
  unfold backoff_or_default. intros (o & Ht & ->)%fmap_Ok. apply transpose_Ok in Ht.
  destruct c, o; simpl; try done; by eapply backoff_from_proto_ok.
Qed.
Lemma restart_policy_of_ok p r : restart_policy_of p = Ok r -> policy_ok r.
Proof.
  unfold restart_policy_of. destruct p as [[[|m b|m b]|]|]; intros Hd; decode Hd; injection Hd as <-; simpl;
    (by eapply backoff_or_default_ok) || apply default_backoff_ok || done.
Qed.
Lemma probe_config_of_ok c r : probe_config_of c = Ok r ->
  (pc_initial_delay r <= max_duration)%N /\ (pc_period r <= max_duration)%N /\ (pc_timeout r <= max_duration)%N /\
  (1 <= pc_success_threshold r)%N /\ (1 <= pc_failure_threshold r)%N.
Proof.
  unfold probe_config_of. destruct c as [c|]; intros Hd; decode Hd; injection Hd as <-; simpl.
  - split_and!; [bounded|bounded|bounded|lia|lia].
  - split_and!; vm_compute; discriminate.
Qed.
Lemma readiness_probe_of_ok p r : readiness_probe_of p = Ok r -> probe_ok r.
Proof.
  unfold readiness_probe_of. destruct p as [[| | |]|]; intros Hd; decode Hd; injection Hd as <-; simpl; try done.
  - by apply u16_try_from_Ok in E as [? ->].
  - apply u16_try_from_Ok in E as [? ->]. split; [done|]. intros s ->. apply transpose_Ok in E0.
    destruct expected_status; [|done]. by apply u16_try_from_Ok in E0 as [? ->].
Qed.

Lemma endpoint_spec_of_ok e r port : endpoint_spec_of e = Ok r -> es_port r = Some port -> port_ok port.
Proof.
  unfold endpoint_spec_of. intros Hd. decode Hd. injection Hd as <-. simpl. intros ->. apply transpose_Ok in E.
  destruct (Proto.sp_port e); [|done]. by apply u16_try_from_Ok in E as [? ->].
Qed.

(** A specification that the wire boundary accepts is well-formed: name and
    executable are not blank, ports and expected statuses fit 16 bits, every
    duration is within the Protobuf range, thresholds are at least one, the
    back-off multiplier is positive (never NaN), the process runs under the
    service's name in a named cgroup without limits. *)
Theorem accepted_spec_wellformed m s : proto_spec_to_domain m = Ok s -> spec_ok s /\ ss_name s = Proto.se_name m.
Proof.
  unfold proto_spec_to_domain. intros Hd. decode Hd. injection Hd as <-. apply ensure_Ok, negb_true_iff in E, E0.
  split; [|done]. split; simpl; try done.
  - case_bool_decide; [|done]. by destruct (Proto.se_name m).
  - intros p c ->. destruct (Proto.se_readiness_probe m); [|done]. decode E1. injection E1 as -> ->.
    split; [by eapply readiness_probe_of_ok|by eapply probe_config_of_ok].
  - by eapply restart_policy_of_ok.
  - bounded.
  - intros e port -> Hp. apply transpose_Ok in E4. destruct (Proto.se_endpoint m); [|done].
    by eapply endpoint_spec_of_ok.
Qed.

Lemma wellformed_name p s : proto_spec_to_domain p = Ok s -> ss_name s = Proto.se_name p.
Proof. unfold proto_spec_to_domain. intros Hd. decode Hd. by injection Hd as <-. Qed.

(** ** A submitted specification *)
Definition submitted_spec (name executable : string) : Proto.ServiceSpecMessage :=
  Proto.service_spec name executable ["--serve"] ∅ "" None (Some "") (Some (Some (Proto.ProbeTcpSocket "127.0.0.1" 8080)))
    (Some (Proto.probe_config None None None 0 3)) (Some (Some (Proto.PolicyAlways (Some 2%N) None)))
    (Some (Proto.duration 7 500000000)) None.
Lemma accepted_spec_wellformed_witness : exists s,
  proto_spec_to_domain (submitted_spec "web" "/bin/web") = Ok s /\ spec_ok s /\ ss_name s = "web" /\
  ss_graceful_stop_timeout s = 7500000000%N.
Proof.
  destruct (proto_spec_to_domain (submitted_spec "web" "/bin/web")) as [s|e] eqn:Hs.
  - exists s. split; [reflexivity|]. destruct (accepted_spec_wellformed _ _ Hs) as [Hok Hn].
    split; [exact Hok|]. split; [exact Hn|]. vm_compute in Hs. injection Hs as <-. reflexivity.
  - vm_compute in Hs. discriminate Hs.
Defined.
