(* ===== verification/ServiceSessions.v ===== *)
(** * Services under concurrent clients

    [start] of [watchdog/supervisor.rs] waits: for the initial delay, for each
    probe and between probes.  While it waits its caller holds the mutex of the
    supervisor, and the other clients of [service_manager.rs] go on.  Here the
    method is cut at its awaits, a supervisor is driven by the moves between
    them, and a session interleaves the calls of any number of clients with the
    locks they take: the [RwLock] of the table and the [Mutex] of each
    supervisor.  Every move is total, so a start that probes for ever needs no
    fuel: it is a call that is never answered. *)
From stdpp Require Import base gmap strings list sorting pretty.
From Stdlib Require Import Ascii Lia ZifyBool ZifyN.
From S2P Require Import Prelude Validation Contract KernelApi Environment Instance Service Supervisor.
From S2P Require Import Messages Wire ServiceManager.

(** Where a start in progress is: its probe, and the local counters. *)
Record probing := mk_probing {
  pb_probe : ReadinessProbe;
  pb_config : ProbeConfig;
  pb_consecutive_successes : N;
  pb_consecutive_failures : N;
}.
Inductive progress := Returned (r : result ProviderError ServiceStatus) | Probing (p : probing).

Section supervisor_moves.
Context {W : Type} `{Environment W} `{ServiceHost W}.
Implicit Types (s : ServiceSupervisor) (w : W).

(** The two ends of [start]. *)
Definition start_ready s w : ServiceSupervisor * W * progress :=
  let '(s, w) := transition_state SReady "READINESS_PROBE_PASSED" "Service readiness probe succeeded" s w in
  let s := publish_endpoint_if_configured s in
  let '(s, w) := transition_state SRunning "SERVICE_RUNNING" "Service is actively running" s w in
  (s, w, Returned (Ok (status s))).
Definition start_failed (err : ProviderError) s w : ServiceSupervisor * W * progress :=
  let s := set_sv_last_error s (Some (error_text err)) in
  let '(s, w) := transition_state SFailed "READINESS_PROBE_FAILED"
    ("Readiness probe failed: " +:+ error_text err) s w in
  let '(s, w, _) := cleanup_current_process (seconds 1) s w in
  let '(s, w) := handle_exit_policy false s w in
  (s, w, Returned (Err err)).
(** [start] up to the probe loop. *)
Definition start_begin s w : ServiceSupervisor * W * progress :=
  if ServiceState_is_active (sv_state s) && negb (bool_decide (sv_state s = SRestarting)) then
    (s, w, Returned (Ok (status s)))
  else
  match spawn_process s w with
  | (s, w, Err err) =>
      let s := set_sv_last_error s (Some (error_text err)) in
      let '(s, w) := transition_state SFailed "PROCESS_SPAWN_FAILED"
        ("Process spawn failed: " +:+ error_text err) s w in
      (s, w, Returned (Err err))
  | (s, w, Ok _) =>
      let '(s, w) := transition_state SStarting "PROCESS_SPAWNED" "Service process spawned" s w in
      match ss_readiness_probe (sv_spec s) with
      | None => start_ready s w
      | Some (probe, config) =>
          (s, if (0 <? pc_initial_delay config)%N then host_sleep (pc_initial_delay config) w else w,
           Probing (mk_probing probe config 0 0))
      end
  end.
(** One round of the probe loop. *)
Definition start_round (p : probing) s w : ServiceSupervisor * W * progress :=
  let config := pb_config p in
  if (pb_consecutive_failures p <? pc_failure_threshold config)%N then
    match probe_once (sv_process s) (pb_probe p) (pc_timeout config) w with
    | (w, Ok _) =>
        if (pc_success_threshold config <=? pb_consecutive_successes p + 1)%N then start_ready s w
        else (s, host_sleep (pc_period config) w,
              Probing (mk_probing (pb_probe p) config (pb_consecutive_successes p + 1) 0))
    | (w, Err _) =>
        (s, host_sleep (pc_period config) w,
         Probing (mk_probing (pb_probe p) config 0 (pb_consecutive_failures p + 1)))
    end
  else start_failed (readiness_timeout (ss_name (sv_spec s)) (pc_failure_threshold config)) s w.

(** A supervisor with the call that holds its mutex, if that call waits. *)
Definition supervision : Type := option probing * ServiceSupervisor * W.
Definition in_progress (sw : ServiceSupervisor * W * progress) : supervision :=
  let '(s, w, r) := sw in (match r with Probing p => Some p | Returned _ => None end, s, w).
(** A method call, or the next round of the call in progress. *)
Inductive move := Call (o : service_op) | Round.
Definition perform_move (m : move) (x : supervision) : supervision :=
  let '(busy, s, w) := x in
  match busy, m with
  | Some p, Round => in_progress (start_round p s w)
  | None, Call OpStart => in_progress (start_begin s w)
  | None, Call OpStop => (None, (stop s w).1.1, (stop s w).1.2)
  | None, Call OpCancel => (None, (cancel s w).1.1, (cancel s w).1.2)
  | None, Call OpStep =>
      let '(s, w) := reset_restart_count s w in
      if bool_decide (sv_state s = SRestarting) then in_progress (start_begin s w) else (None, s, w)
  | None, Call (OpExit report) =>
      (None, (handle_observed_exit report s w).1.1, (handle_observed_exit report s w).1.2)
  | Some _, Call _ | None, Round => x
  end.
Definition perform_moves (ms : list move) (x : supervision) : supervision := foldl (fun x m => perform_move m x) x ms.
End supervisor_moves.

(** ** Sessions *)
Inductive client_call :=
| CallStart (spec : option Proto.ServiceSpecMessage)
| CallStatus (name : string)
| CallStop (request : Proto.StopServiceRequest)
| CallCancel (name : string)
| CallWatch (name : string).
Definition call_name (o : client_call) : string :=
  match o with
  | CallStart spec => default "" (Proto.se_name <$> spec)
  | CallStatus name | CallCancel name | CallWatch name => name
  | CallStop request => Proto.ss_service_name request
  end.
(** The status, or the number of events a new subscription does not see. *)
Inductive reply := StatusReply (s : Proto.ServiceStatusMessage) | EventStream (subscribed : nat).

Inductive call_state :=
(** [self.supervisors.read().await] or [.write().await] *)
| WaitsForTable (o : client_call)
(** [supervisor_arc.lock().await] with the read guard of the table in scope *)
| HoldsTable (o : client_call)
(** [supervisor_arc.lock().await] with a clone of the [Arc] *)
| WaitsForService (o : client_call)
(** in [supervisor.start().await], with the guard of the mutex *)
| StartsService (o : client_call) (p : probing)
| Answered (r : result Status reply).

Record session (W : Type) := mk_session {
  cs_manager : ServiceSupervisionManager;
  cs_world : W;
  cs_calls : gmap nat call_state;
}.
Arguments mk_session {W}.
Arguments cs_manager {W}.
Arguments cs_world {W}.
Arguments cs_calls {W}.

(** A reader of the table, and a holder of the mutex of a supervisor. *)
Definition holds_table (c : call_state) : bool := match c with HoldsTable _ => true | _ => false end.
Definition holds_service (name : string) (c : call_state) : bool :=
  match c with StartsService o _ => bool_decide (call_name o = name) | _ => false end.
Definition some_call (f : call_state -> bool) (calls : gmap nat call_state) : bool :=
  existsb (fun p => f p.2) (map_to_list calls).

Definition call_failed (verb name : string) (e : ProviderError) : Status :=
  internal ("failed to " +:+ verb +:+ " service " +:+ name +:+ ": " +:+ error_text e).
Definition status_reply (verb name : string) (r : result ProviderError ServiceStatus) : result Status reply :=
  (fun st => StatusReply (domain_status_to_proto st)) <$> map_err (call_failed verb name) r.

Section sessions.
Context {W : Type} `{Environment W} `{ServiceHost W}.

Definition set_call (x : session W) (i : nat) (c : call_state) : session W :=
  mk_session (cs_manager x) (cs_world x) (<[i := c]> (cs_calls x)).
Definition set_service (x : session W) (name : string) (s : ServiceSupervisor) (w : W) (i : nat) (c : call_state)
    : session W :=
  mk_session (set_supervisor (cs_manager x) name s) w (<[i := c]> (cs_calls x)).

(** The code before the first await. *)
Definition arrive (i : nat) (o : client_call) (x : session W) : session W :=
  match o with
  | CallStart None => set_call x i (Answered (Err (invalid_argument "service spec is required")))
  | CallStart (Some spec) =>
      match proto_spec_to_domain spec with
      | Err e => set_call x i (Answered (Err e))
      | Ok _ => set_call x i (WaitsForTable o)
      end
  | _ => set_call x i (WaitsForTable o)
  end.
(** The code under the lock of the table, when it is free for the call. *)
Definition with_table (i : nat) (o : client_call) (x : session W) : session W :=
  let table := sm_supervisors (cs_manager x) in
  match o with
  | CallStart spec =>
      if some_call holds_table (cs_calls x) then x
      else
        match table !! call_name o, proto_spec_to_domain <$> spec with
        | Some _, _ => set_call x i (WaitsForService o)
        | None, Some (Ok domain_spec) =>
            set_service x (call_name o) (ServiceSupervisor_new domain_spec (sm_default_binding (cs_manager x)))
              (cs_world x) i (WaitsForService o)
        | None, _ => x
        end
  | CallStatus name | CallWatch name =>
      set_call x i (match table !! name with
                    | Some _ => HoldsTable o
                    | None => Answered (Err (service_not_found name))
                    end)
  | CallStop _ | CallCancel _ =>
      set_call x i (match table !! call_name o with
                    | Some _ => WaitsForService o
                    | None => Answered (Err (service_not_found (call_name o)))
                    end)
  end.
Definition answer_start (i : nat) (o : client_call) (x : session W) (sw : ServiceSupervisor * W * progress)
    : session W :=
  let '(s, w, r) := sw in
  set_service x (call_name o) s w i
    (match r with
     | Probing p => StartsService o p
     | Returned r => Answered (status_reply "start" (call_name o) r)
     end).
(** The code under the mutex of the supervisor, when nobody holds it. *)
Definition with_service (i : nat) (o : client_call) (x : session W) : session W :=
  match sm_supervisors (cs_manager x) !! call_name o with
  | None => x
  | Some s =>
      if some_call (holds_service (call_name o)) (cs_calls x) then x
      else
        match o with
        | CallStart _ => answer_start i o x (start_begin s (cs_world x))
        | CallStatus _ => set_call x i (Answered (Ok (StatusReply (domain_status_to_proto (status s)))))
        | CallWatch _ => set_call x i (Answered (Ok (EventStream (length (sv_events s)))))
        | CallStop _ =>
            let '(s, w, r) := stop s (cs_world x) in
            set_service x (call_name o) s w i (Answered (status_reply "stop" (call_name o) r))
        | CallCancel _ =>
            let '(s, w, r) := cancel s (cs_world x) in
            set_service x (call_name o) s w i (Answered (status_reply "cancel" (call_name o) r))
        end
  end.

(** A client makes a call, or the scheduler resumes one. *)
Inductive session_move := Arrives (i : nat) (o : client_call) | Resumes (i : nat).
Definition perform_session_move (m : session_move) (x : session W) : session W :=
  match m with
  | Arrives i o => match cs_calls x !! i with None => arrive i o x | Some _ => x end
  | Resumes i =>
      match cs_calls x !! i with
      | Some (WaitsForTable o) => with_table i o x
      | Some (HoldsTable o) | Some (WaitsForService o) => with_service i o x
      | Some (StartsService o p) =>
          match sm_supervisors (cs_manager x) !! call_name o with
          | Some s => answer_start i o x (start_round p s (cs_world x))
          | None => x
          end
      | Some (Answered _) | None => x
      end
  end.
Definition perform_session (ms : list session_move) (x : session W) : session W :=
  foldl (fun x m => perform_session_move m x) x ms.
Definition session_start (binding : DeviceBinding) (w : W) : session W :=
  mk_session (ServiceSupervisionManager_new binding) w ∅.
End sessions.
