(* ===== verification/ServiceSessionsSpec.v ===== *)
(** * What supervisors and the service manager guarantee under concurrent clients

    Theorems about every sequence of moves: the invariant of a supervisor and
    the generations of the processes it launches, the table of the manager, and
    what a call that waits with the table locked does to the other clients. *)
From stdpp Require Import base gmap strings list sorting pretty.
From Stdlib Require Import Ascii Lia ZifyBool ZifyN.
From S2P Require Import Prelude Validation Contract KernelApi Environment Instance Service Supervisor.
From S2P Require Import SupervisorSpec Messages Wire ServiceManager ServiceManagerSpec ServiceSessions.

(** ** The moves of [start] *)
Section rounds.
Context {W : Type} `{Environment W} `{ServiceHost W}.
Implicit Types (s : ServiceSupervisor) (w : W).


(** ** The invariant at every await *)
Definition attended (spec : ServiceSpec) (busy : option probing) s : Prop :=
  supervised spec s /\ (is_Some busy -> quiet spec s).
Definition attended_after (spec : ServiceSpec) (sw : ServiceSupervisor * W * progress) : Prop :=
  let '(busy, s, _) := in_progress sw in attended spec busy s.
Lemma attended_idle spec s : supervised spec s -> attended spec None s.
Proof. intros Hs. split; [done|]. by intros []. Qed.

Lemma start_ready_attended spec s w : quiet spec s -> attended_after spec (start_ready s w).
Proof.
  intros Hq. unfold start_ready. destruct (transition_state SReady _ _ s w) as [s4 w4] eqn:Ht4.
  apply (quiet_transition spec) in Ht4 as (Hq4 & _ & _ & _); [|done].
  destruct (transition_state SRunning _ _ _ w4) as [s5 w5] eqn:Ht5. apply attended_idle.
  apply transition_inv in Ht5 as [now ->]. destruct Hq4 as [H1 H2 H3 H4 H5 H6].
  unfold publish_endpoint_if_configured.
  destruct (ss_endpoint (sv_spec s4)) as [es|] eqn:He; split; simpl; try done; rewrite ?last_snoc, ?H1; try done.
  - apply Forall_app. split; [done|]. by repeat constructor.
  - intros e [= <-]. split; [done|]. exists es. rewrite <- H1. done.
  - apply Forall_app. split; [done|]. by repeat constructor.
  - by rewrite H3.
Qed.
Lemma quiet_error spec s e : quiet spec s -> quiet spec (set_sv_last_error s e).
Proof. intros []. by split. Qed.
Lemma start_failed_attended spec e s w : quiet spec s -> attended_after spec (start_failed e s w).
Proof.
  intros Hq. unfold start_failed. destruct (transition_state SFailed _ _ _ w) as [s4 w4] eqn:Ht4.
  apply (quiet_transition spec) in Ht4 as (Hq4 & Hs4 & _ & _); [|by apply quiet_error].
  destruct (cleanup_current_process (seconds 1) s4 w4) as [[s5 w5] r5] eqn:Hc.
  destruct (handle_exit_policy false s5 w5) as [s6 w6] eqn:Hp. apply attended_idle.
  pose proof (quiet_cleanup spec _ _ _ _ _ _ Hq4 Hc) as (Hq5 & Hst & Hev).
  eapply quiet_exit_policy; [exact Hq5| |exact Hp]. apply quiet_supervised; [done|]. rewrite Hst, Hev. apply Hs4.
Qed.
Lemma start_begin_attended spec s w : supervised spec s -> attended_after spec (start_begin s w).
Proof.
  intros Hs. unfold start_begin. destruct (_ && _) eqn:Hact; [by apply attended_idle|].
  assert (quiet spec s) as Hq by (apply supervised_quiet; [done|]; intros Hr; rewrite Hr in Hact; done).
  destruct (spawn_process s w) as [[s1 w1] r1] eqn:Hsp. apply (quiet_spawn spec) in Hsp; [|done].
  destruct r1 as [u|err].
  2:{ destruct (transition_state _ _ _ _ w1) as [s2 w2] eqn:Ht. apply attended_idle.
      by eapply quiet_transition in Ht as (_ & ? & _); [|apply quiet_error]. }
  destruct (transition_state SStarting _ _ s1 w1) as [s2 w2] eqn:Ht.
  apply (quiet_transition spec) in Ht as (Hq2 & Hs2 & _ & _); [|done].
  destruct (ss_readiness_probe (sv_spec s2)) as [[probe config]|]; [by split|by apply start_ready_attended].
Qed.
Lemma start_round_attended spec p s w : quiet spec s -> supervised spec s -> attended_after spec (start_round p s w).
Proof.
  intros Hq Hs. unfold start_round. destruct (_ <? _)%N; [|by apply start_failed_attended].
  destruct (probe_once _ _ _ w) as [w1 [u|e]]; [|by split].
  destruct (_ <=? _)%N; [by apply start_ready_attended|by split].
Qed.
Lemma perform_move_attended spec m busy s w :
  attended spec busy s -> let '(busy', s', _) := perform_move m (busy, s, w) in attended spec busy' s'.
Proof.
  intros [Hs Hq]. unfold perform_move. destruct busy as [p|], m as [o|]; try done.
  - apply start_round_attended; [by apply Hq|done].
  - destruct o; try apply attended_idle.
    + by apply start_begin_attended.
    + destruct (stop s w) as [[s1 w1] r] eqn:Hr. by eapply stop_supervised.
    + destruct (cancel s w) as [[s1 w1] r] eqn:Hr. by eapply cancel_supervised.
    + destruct (reset_restart_count s w) as [s1 w1] eqn:Hr. apply (reset_supervised spec) in Hr; [|done].
      case_bool_decide; [by apply start_begin_attended|by apply attended_idle].
    + destruct (handle_observed_exit report s w) as [[s1 w1] r] eqn:Hr. by eapply exit_supervised.
Qed.
Lemma perform_moves_attended spec ms busy s w :
  attended spec busy s -> let '(busy', s', _) := perform_moves ms (busy, s, w) in attended spec busy' s'.
Proof.
  revert busy s w. induction ms as [|m ms IH]; intros busy s w Ha; [done|].
  unfold perform_moves. cbn [foldl]. pose proof (perform_move_attended spec m busy s w Ha) as Hm.
  destruct (perform_move m (busy, s, w)) as [[busy1 s1] w1]. by apply IH.
Qed.
End rounds.

(** ** The processes a supervisor launches

    A world with the list of the plans the sandbox was asked to launch. *)
Section launches.
Context {W : Type} (E : Environment W) (S : ServiceHost W).

Definition unlogged {A} (f : W -> W * A) : W * list LaunchPlan -> (W * list LaunchPlan) * A :=
  fun wl => let '(w, a) := f wl.1 in ((w, wl.2), a).
#[local] Instance logged_environment : Environment (W * list LaunchPlan) := {|
  env_now_unix_ms := unlogged env_now_unix_ms;
  env_instant := unlogged env_instant;
  env_uuid := unlogged env_uuid;
  env_backend_id := env_backend_id;
  env_preflight_for_binding binding := unlogged (env_preflight_for_binding binding);
  env_launch plan binding wl := let '(w, r) := env_launch plan binding wl.1 in ((w, wl.2 ++ [plan]), r);
  env_stop handle request := unlogged (env_stop handle request);
  env_probe_inventory := unlogged env_probe_inventory;
  env_create_binding_for_generation resource generation := unlogged (env_create_binding_for_generation resource generation);
  env_resolve_worker_launch_plan worker := unlogged (env_resolve_worker_launch_plan worker);
  env_journal_append record := unlogged (env_journal_append record);
  env_append_event record := unlogged (env_append_event record);
  env_events_for_source source namespace := unlogged (env_events_for_source source namespace);
  env_try_send channel command := unlogged (env_try_send channel command);
  env_hash_order wl := env_hash_order wl.1;
  env_hash_order_permutation wl := env_hash_order_permutation wl.1;
|}.
#[local] Instance logged_host : ServiceHost (W * list LaunchPlan) := {|
  host_sleep duration wl := (host_sleep duration wl.1, wl.2);
  host_probe_tcp host port timeout := unlogged (host_probe_tcp host port timeout);
  host_http_status host port path timeout := unlogged (host_http_status host port path timeout);
|}.
Implicit Types (s : ServiceSupervisor) (w : W * list LaunchPlan).

Definition launch_name (spec : ServiceSpec) (generation : N) : string :=
  ss_name spec +:+ "-" +:+ pretty generation.
(** The n-th launch is the one of generation n, and the process in hand is one
    of them. *)
Definition numbered (spec : ServiceSpec) s (log : list LaunchPlan) : Prop :=
  sv_spec s = spec /\
  ((N.of_nat (length log) <= u64_max)%N ->
   sv_generation s = N.of_nat (length log) /\
   (forall i plan, log !! i = Some plan -> plan_instance_name plan = launch_name spec (N.of_nat i + 1)) /\
   (forall p, sv_process s = Some p -> sp_plan p ∈ log)).
(** What moves without a launch leave alone. *)
Definition kept s w s' w' : Prop :=
  sv_spec s' = sv_spec s /\ sv_generation s' = sv_generation s /\ w'.2 = w.2 /\
  (sv_process s' = sv_process s \/ sv_process s' = None).
Lemma kept_refl s w : kept s w s w.
Proof. split_and!; try done. by left. Qed.
Lemma kept_trans s w s1 w1 s2 w2 : kept s w s1 w1 -> kept s1 w1 s2 w2 -> kept s w s2 w2.
Proof. intros (H1 & H2 & H3 & H4) (K1 & K2 & K3 & K4). split_and!; try congruence. destruct H4, K4; naive_solver congruence. Qed.
Lemma numbered_kept spec s w s' w' : numbered spec s w.2 -> kept s w s' w' -> numbered spec s' w'.2.
Proof.
  intros [Hs Hn] (H1 & H2 & H3 & H4). split; [congruence|]. rewrite H3, H2. intros Hl.
  destruct (Hn Hl) as (Hg & Hplans & Hp). split_and!; [done|done|]. intros p.
  destruct H4 as [-> | ->]; [apply Hp|done].
Qed.

Lemma kept_transition st rc msg s w : kept s w (transition_state st rc msg s w).1 (transition_state st rc msg s w).2.
Proof. unfold transition_state, env_now_unix_ms, logged_environment, unlogged. destruct (env_now_unix_ms w.1). split_and!; try done. by left. Qed.
Lemma kept_cleanup g s w : let '(s', w', _) := cleanup_current_process g s w in kept s w s' w'.
Proof.
  unfold cleanup_current_process. destruct (sv_process s) as [p|] eqn:Hp; [|split_and!; try done; by left].
  unfold process_stop. destruct (sp_handle p) as [h|]; [|split_and!; try done; by right].
  cbn [env_stop logged_environment]. unfold unlogged. destruct (env_stop _ _ w.1) as [w1 [report|e]];
    [destruct (cr_complete report)|]; split_and!; try done; by right.
Qed.
Lemma kept_policy c s w : let '(s', w') := handle_exit_policy c s w in kept s w s' w'.
Proof.
  assert (forall mr b, let '(s', w') := execute_restart_or_quarantine mr b s w in kept s w s' w') as Hex.
  { intros mr b. unfold execute_restart_or_quarantine. destruct (is_some_and _ mr).
    - match goal with |- context [transition_state ?a ?b ?c s w] => pose proof (kept_transition a b c s w) as Hk end.
      by destruct (transition_state _ _ _ s w).
    - match goal with |- context [transition_state ?a ?b ?c ?s' w] => pose proof (kept_transition a b c s' w) as Hk end.
      destruct (transition_state _ _ _ _ w) as [s1 w1]. exact Hk. }
  unfold handle_exit_policy. destruct (ss_restart_policy (sv_spec s)); [apply kept_refl|apply Hex|].
  destruct c; [apply kept_refl|apply Hex].
Qed.
Lemma kept_probe process probe timeout w : (probe_once process probe timeout w).1.2 = w.2.
Proof.
  destruct probe as [|host port|host port path expected|]; simpl.
  - destruct process as [p|]; [|done]. unfold require, lift. done.
  - unfold unlogged. by destruct (host_probe_tcp host port timeout w.1).
  - unfold probe_http, mbind, ste_bind, unlogged. cbn [host_http_status logged_host]. unfold unlogged.
    destruct (host_http_status host port path timeout w.1) as [w1 [code|e]]; [|done]. by destruct expected.
  - done.
Qed.
Lemma kept_ready s w : let '(s', w', _) := start_ready s w in kept s w s' w'.
Proof.
  unfold start_ready. match goal with |- context [transition_state SReady ?b ?c s w] => pose proof (kept_transition SReady b c s w) as Hk end.
  destruct (transition_state SReady _ _ s w) as [s1 w1].
  match goal with |- context [transition_state SRunning ?b ?c ?s' w1] => pose proof (kept_transition SRunning b c s' w1) as Hk' end.
  destruct (transition_state SRunning _ _ _ w1) as [s2 w2]. eapply kept_trans; [exact Hk|]. eapply kept_trans; [|exact Hk'].
  unfold publish_endpoint_if_configured. destruct (ss_endpoint _); split_and!; try done; by left.
Qed.
Lemma kept_failed e s w : let '(s', w', _) := start_failed e s w in kept s w s' w'.
Proof.
  unfold start_failed. match goal with |- context [transition_state SFailed ?b ?c ?s' w] => pose proof (kept_transition SFailed b c s' w) as Hk end.
  destruct (transition_state SFailed _ _ _ w) as [s1 w1]. pose proof (kept_cleanup (seconds 1) s1 w1) as Hc.
  destruct (cleanup_current_process _ s1 w1) as [[s2 w2] r]. pose proof (kept_policy false s2 w2) as Hp.
  destruct (handle_exit_policy false s2 w2) as [s3 w3]. eapply kept_trans; [exact Hk|]. eapply kept_trans; [exact Hc|exact Hp].
Qed.
Lemma kept_round p s w : let '(s', w', _) := start_round p s w in kept s w s' w'.
Proof.
  unfold start_round. destruct (_ <? _)%N; [|apply kept_failed].
  match goal with |- context [probe_once ?a ?b ?c w] => pose proof (kept_probe a b c w) as Hk; destruct (probe_once a b c w) as [w1 [u|e]] end.
  - destruct (_ <=? _)%N; [|split_and!; try done; by left]. pose proof (kept_ready s w1) as Hr.
    destruct (start_ready s w1) as [[s2 w2] r]. eapply kept_trans; [|exact Hr]. split_and!; try done. by left.
  - split_and!; try done. by left.
Qed.

Lemma numbered_spawn spec s w : numbered spec s w.2 ->
  let '(s', w', _) := spawn_process s w in numbered spec s' w'.2.
Proof.
  intros [Hs Hn]. unfold spawn_process. set (g := N.max (u64_wrapping_add (sv_generation s) 1) 1).
  set (plan := mk_plan _ _ _ _ _ _ _ _).
  assert ((N.of_nat (length (w.2 ++ [plan])) <= u64_max)%N ->
    g = N.of_nat (length (w.2 ++ [plan])) /\
    (forall i plan', (w.2 ++ [plan]) !! i = Some plan' -> plan_instance_name plan' = launch_name spec (N.of_nat i + 1)) /\
    (forall p, sv_process s = Some p -> sp_plan p ∈ w.2)) as Hlog.
  { rewrite length_app. simpl. intros Hl. destruct Hn as (Hg & Hplans & Hp); [lia|].
    assert (g = N.of_nat (length w.2) + 1)%N as Hgen.
    { unfold g, u64_wrapping_add. rewrite Hg, N.mod_small; lia. }
    split_and!; [lia| |done]. intros i plan' [Hi|[Hi [Hi' <-]%list_lookup_singleton_Some]]%lookup_app_Some; [by apply Hplans|].
    unfold plan, launch_name. simpl. rewrite Hs. repeat f_equal. lia. }
  unfold process_start. cbn [sp_handle SandboxedProcess_new sp_plan sp_binding env_launch logged_environment].
  destruct (env_launch plan _ w.1) as [w1 [h|e]]; cbn [env_instant logged_environment].
  - unfold unlogged. destruct (env_instant _) as [w2 now]. split; [done|]. intros Hl. destruct (Hlog Hl) as (Hg & Hplans & Hp).
    split_and!; [done|done|]. intros p [= <-]. set_solver.
  - split; [done|]. intros Hl. destruct (Hlog Hl) as (Hg & Hplans & Hp). split_and!; [done|done|]. set_solver.
Qed.

Definition numbered_after (spec : ServiceSpec) (x : @supervision (W * list LaunchPlan)) : Prop :=
  let '(_, s, w) := x in numbered spec s w.2.
Lemma numbered_progress spec s w sw :
  numbered spec s w.2 -> (let '(s', w', _) := sw in kept s w s' w') -> numbered_after spec (in_progress sw).
Proof. destruct sw as [[s' w'] r]. intros Hn Hk. by eapply numbered_kept. Qed.
Lemma numbered_begin spec s w : numbered spec s w.2 -> numbered_after spec (in_progress (start_begin s w)).
Proof.
  intros Hn. unfold start_begin. destruct (_ && _); [done|]. pose proof (numbered_spawn spec s w Hn) as Hs.
  destruct (spawn_process s w) as [[s1 w1] [u|e]].
  - pose proof (kept_transition SStarting "PROCESS_SPAWNED" "Service process spawned" s1 w1) as Hk.
    destruct (transition_state SStarting _ _ s1 w1) as [s2 w2]. apply (numbered_kept _ _ _ _ _ Hs) in Hk.
    destruct (ss_readiness_probe (sv_spec s2)) as [[probe config]|].
    + by destruct (0 <? pc_initial_delay config)%N.
    + eapply numbered_progress; [exact Hk|apply kept_ready].
  - match goal with |- context [transition_state SFailed ?b ?c ?s' w1] => pose proof (kept_transition SFailed b c s' w1) as Hk end.
    destruct (transition_state SFailed _ _ _ w1) as [s2 w2]. exact (numbered_kept _ s1 w1 _ _ Hs Hk).
Qed.
Lemma kept_stopping st rc msg g s w :
  let '(s1, w1) := transition_state st rc msg s w in
  let '(s2, w2, _) := cleanup_current_process g (unpublish_endpoint s1) w1 in kept s w s2 w2.
Proof.
  pose proof (kept_transition st rc msg s w) as Hk. destruct (transition_state st rc msg s w) as [s1 w1].
  pose proof (kept_cleanup g (unpublish_endpoint s1) w1) as Hc.
  destruct (cleanup_current_process _ _ w1) as [[s2 w2] r]. eapply kept_trans; [exact Hk|exact Hc].
Qed.
Lemma kept_stop s w : let '(s', w', _) := stop s w in kept s w s' w'.
Proof.
  unfold stop. destruct (_ && _); [apply kept_refl|].
  pose proof (kept_stopping SStopping "STOP_REQUESTED" "Graceful service stop requested"
    (ss_graceful_stop_timeout (sv_spec (transition_state SStopping "STOP_REQUESTED" "Graceful service stop requested" s w).1)) s w) as Hk.
  destruct (transition_state SStopping _ _ s w) as [s1 w1]. cbn [fst] in Hk.
  change (sv_spec (unpublish_endpoint s1)) with (sv_spec s1).
  destruct (cleanup_current_process _ _ w1) as [[s2 w2] [report|e]]; [|done].
  destruct (cr_complete report);
    match goal with |- context [transition_state ?a ?b ?c s2 w2] => pose proof (kept_transition a b c s2 w2) as Hk2;
      destruct (transition_state a b c s2 w2) end; eapply kept_trans; done.
Qed.
Lemma kept_cancel s w : let '(s', w', _) := cancel s w in kept s w s' w'.
Proof.
  unfold cancel. pose proof (kept_stopping SStopping "CANCEL_REQUESTED" "Immediate cancellation requested" 0 s w) as Hk.
  destruct (transition_state SStopping _ _ s w) as [s1 w1].
  destruct (cleanup_current_process _ _ w1) as [[s2 w2] [report|e]]; [|done].
  match goal with |- context [transition_state ?a ?b ?c s2 w2] => pose proof (kept_transition a b c s2 w2) as Hk2;
    destruct (transition_state a b c s2 w2) end. eapply kept_trans; done.
Qed.
Lemma kept_exit report s w : let '(s', w', _) := handle_observed_exit report s w in kept s w s' w'.
Proof.
  unfold handle_observed_exit. destruct (clean_exit report);
    match goal with |- context [transition_state ?a ?b ?c ?s' w] => pose proof (kept_transition a b c s' w) as Hk;
      destruct (transition_state a b c s' w) end;
    match goal with |- context [handle_exit_policy ?c ?s' ?w'] => pose proof (kept_policy c s' w') as Hp;
      destruct (handle_exit_policy c s' w') end; eapply kept_trans; done.
Qed.
Lemma numbered_move spec m x : numbered_after spec x -> numbered_after spec (perform_move m x).
Proof.
  destruct x as [[busy s] w]. intros Hn. unfold perform_move. destruct busy as [p|], m as [o|]; try done.
  - eapply numbered_progress; [exact Hn|apply kept_round].
  - destruct o.
    + by apply numbered_begin.
    + pose proof (kept_stop s w) as Hk. destruct (stop s w) as [[s1 w1] r]. exact (numbered_kept _ s w _ _ Hn Hk).
    + pose proof (kept_cancel s w) as Hk. destruct (cancel s w) as [[s1 w1] r]. exact (numbered_kept _ s w _ _ Hn Hk).
    + assert (let '(s', w') := reset_restart_count s w in kept s w s' w') as Hk.
      { unfold reset_restart_count. destruct (sv_last_launch_at s); [|apply kept_refl]. case_bool_decide; [|apply kept_refl].
        cbn [env_instant logged_environment]. unfold unlogged. destruct (env_instant w.1) as [w1 now].
        case_match; (split_and!; try done; by left). }
      destruct (reset_restart_count s w) as [s1 w1]. apply (numbered_kept _ _ _ _ _ Hn) in Hk.
      case_bool_decide; [by apply numbered_begin|done].
    + pose proof (kept_exit report s w) as Hk. destruct (handle_observed_exit report s w) as [[s1 w1] r].
      exact (numbered_kept _ s w _ _ Hn Hk).
Qed.

(** C32: whatever calls are made on a new supervisor, at every moment of them
    (a start that waits for its probes included, however long), and however the
    sandbox, the probes and the clock behave: the state is the one announced
    last; an endpoint is published only while the service runs, and for the
    running incarnation; the restart counter stays within the budget; and every
    launch has a generation of its own: the n-th process the sandbox was asked
    to launch is called after the service and n, no two have the same name, and
    the process in hand is one of them (until the 64-bit counter wraps). *)
Theorem service_always_supervised ms spec binding (w : W) :
  let '(_, s, (_, launched)) := perform_moves ms (None, ServiceSupervisor_new spec binding, (w, [])) in
  supervised spec s /\
  ((N.of_nat (length launched) <= u64_max)%N ->
   sv_generation s = N.of_nat (length launched) /\
   (forall i plan, launched !! i = Some plan -> plan_instance_name plan = launch_name spec (N.of_nat i + 1)) /\
   NoDup (plan_instance_name <$> launched) /\
   (forall p, sv_process s = Some p -> sp_plan p ∈ launched)).
Proof.
  pose proof (perform_moves_attended spec ms None (ServiceSupervisor_new spec binding) (w, [])
    (attended_idle _ _ (supervised_new spec binding))) as Ha.
  assert (numbered_after spec (perform_moves ms (None, ServiceSupervisor_new spec binding, (w, [])))) as Hn.
  { assert (numbered_after spec (None, ServiceSupervisor_new spec binding, (w, []))) as H0.
    { split; [done|]. intros _. split_and!; [done| |done]. intros i plan. done. }
    clear Ha. revert H0. generalize (None : option probing, ServiceSupervisor_new spec binding, (w, [] : list LaunchPlan)).
    induction ms as [|m ms IH]; intros x Hx; [done|]. apply IH. by apply numbered_move. }
  destruct (perform_moves ms _) as [[busy s] [w' launched]]. split; [apply Ha|]. intros Hl.
  destruct Hn as [_ Hn]. destruct (Hn Hl) as (Hg & Hplans & Hp). split_and!; [done|done| |done].
  apply NoDup_alt. intros i j name. rewrite !list_lookup_fmap, !fmap_Some.
  intros (p1 & H1 & ->) (p2 & H2 & Heq). apply Hplans in H1, H2. rewrite H1, H2 in Heq. unfold launch_name in Heq.
  apply (inj (String.append (ss_name spec))), (inj (String.append "-")), (inj pretty) in Heq. lia.
Qed.
End launches.

(** ** The table of the manager *)
Section table.
Context {W : Type} `{Environment W} `{ServiceHost W}.
Implicit Types (x : session W) (m : session_move).

Definition services x : gmap string ServiceSupervisor := sm_supervisors (cs_manager x).
(** The start that a move lets through the lock of the table. *)
Definition admits m x : option ServiceSpec :=
  match m with
  | Resumes i =>
      match cs_calls x !! i with
      | Some (WaitsForTable (CallStart (Some spec))) =>
          if some_call holds_table (cs_calls x) then None
          else match proto_spec_to_domain spec with Ok domain_spec => Some domain_spec | Err _ => None end
      | _ => None
      end
  | Arrives _ _ => None
  end.
Fixpoint first_admitted (ms : list session_move) x (name : string) : option ServiceSpec :=
  match ms with
  | [] => None
  | m :: ms =>
      match admits m x with
      | Some spec => if decide (ss_name spec = name) then Some spec else first_admitted ms (perform_session_move m x) name
      | None => first_admitted ms (perform_session_move m x) name
      end
  end.
(** The service the resumed call names. *)
Definition resumed_name m x : option string :=
  match m with
  | Resumes i =>
      match cs_calls x !! i with
      | Some (WaitsForTable o | HoldsTable o | WaitsForService o | StartsService o _) => Some (call_name o)
      | _ => None
      end
  | Arrives _ _ => None
  end.

Lemma some_call_true f (calls : gmap nat call_state) :
  some_call f calls = true <-> exists i c, calls !! i = Some c /\ f c = true.
Proof.
  unfold some_call. rewrite existsb_exists. split.
  - intros ([i c] & Hin & Hf). exists i, c. split; [|done]. by apply elem_of_map_to_list, list_elem_of_In.
  - intros (i & c & Hi & Hf). exists (i, c). split; [|done]. by apply list_elem_of_In, elem_of_map_to_list.
Qed.
Lemma some_call_false f (calls : gmap nat call_state) i c : some_call f calls = false -> calls !! i = Some c -> f c = false.
Proof. intros Hn Hi. destruct (f c) eqn:Hf; [|done]. assert (some_call f calls = true); [|congruence]. apply some_call_true. eauto. Qed.

(** ** The invariant of a session *)
Record session_ok x : Prop := {
  so_managed : forall name s, services x !! name = Some s -> supervised (sv_spec s) s /\ ss_name (sv_spec s) = name;
  so_starting : forall i o p, cs_calls x !! i = Some (StartsService o p) ->
    exists s, services x !! call_name o = Some s /\ quiet (sv_spec s) s;
  so_exclusive : forall i j o o' p p', cs_calls x !! i = Some (StartsService o p) ->
    cs_calls x !! j = Some (StartsService o' p') -> call_name o = call_name o' -> i = j;
  so_accepted : forall i spec, cs_calls x !! i = Some (WaitsForTable (CallStart spec)) ->
    exists p d, spec = Some p /\ proto_spec_to_domain p = Ok d;
}.
Definition settled (c : call_state) : Prop :=
  match c with
  | StartsService _ _ => False
  | WaitsForTable (CallStart spec) => exists p d, spec = Some p /\ proto_spec_to_domain p = Ok d
  | _ => True
  end.
Lemma session_ok_call x i c : session_ok x -> settled c -> session_ok (set_call x i c).
Proof.
  intros [Hm Hs He Ha] Hc. split; simpl.
  - done.
  - intros j o p. rewrite lookup_insert_Some. intros [[_ ->]|[_ Hj]]; [done|by eapply Hs].
  - intros j k o o' p p'. rewrite !lookup_insert_Some. intros [[_ ->]|[_ Hj]] [[_ Heq]|[_ Hk]]; try done; [by subst|by eapply He].
  - intros j spec. rewrite lookup_insert_Some. intros [[_ ->]|[_ Hj]]; [done|by eapply Ha].
Qed.
Lemma session_ok_service x name s w i c : session_ok x ->
  supervised (sv_spec s) s -> ss_name (sv_spec s) = name ->
  (forall j o p, j <> i -> cs_calls x !! j = Some (StartsService o p) -> call_name o <> name) ->
  match c with StartsService o p => call_name o = name /\ quiet (sv_spec s) s | _ => settled c end ->
  session_ok (set_service x name s w i c).
Proof.
  intros [Hm Hs He Ha] Hsup Hname Hfree Hc. split.
  - intros n s'. unfold services. simpl. rewrite lookup_insert_Some. intros [[<- <-]|[_ Hn]]; [done|by apply Hm].
  - intros j o p. unfold services. simpl. rewrite lookup_insert_Some. intros [[_ ->]|[Hne Hj]].
    + destruct Hc as [-> Hq]. rewrite lookup_insert_eq. eauto.
    + rewrite lookup_insert_ne by (by apply not_eq_sym; eapply Hfree, Hj; congruence). by eapply Hs.
  - intros j k o o' p p'. simpl. rewrite !lookup_insert_Some. intros [[<- ->]|[Hne Hj]] [[<- Heq]|[Hne' Hk]] Hn; try done.
    + destruct Hc as [Ho _]. exfalso. eapply (Hfree k); [congruence|exact Hk|congruence].
    + subst c. destruct Hc as [Ho _]. exfalso. eapply (Hfree j); [congruence|exact Hj|congruence].
    + by eapply He.
  - intros j spec. simpl. rewrite lookup_insert_Some. intros [[_ ->]|[_ Hj]]; [done|by eapply Ha].
Qed.
Lemma session_ok_progress x i o s sw : session_ok x -> services x !! call_name o = Some s ->
  (forall j o' p, j <> i -> cs_calls x !! j = Some (StartsService o' p) -> call_name o' <> call_name o) ->
  attended_after (sv_spec s) sw -> session_ok (answer_start i o x sw).
Proof.
  destruct sw as [[s' w'] r]. intros Hx Hs Hfree Ha. unfold answer_start.
  assert (supervised (sv_spec s) s' /\ sv_spec s' = sv_spec s) as [Hsup Hspec].
  { unfold attended_after in Ha. simpl in Ha. destruct Ha as [Ha _]. split; [done|]. by apply sup_spec in Ha. }
  rewrite <- Hspec in Hsup. apply session_ok_service; [done|done| |done|].
  - rewrite Hspec. by apply Hx.
  - unfold attended_after in Ha. simpl in Ha. destruct r as [r|p]; [done|]. split; [done|]. rewrite Hspec. by apply Ha.
Qed.

Lemma session_ok_table x i o : session_ok x -> cs_calls x !! i = Some (WaitsForTable o) -> session_ok (with_table i o x).
Proof.
  intros Hx Hi. destruct o as [spec|name|request|name|name]; simpl;
    try (apply session_ok_call; [done|]; by case_match).
  destruct (some_call _ _); [done|]. destruct (so_accepted _ Hx _ _ Hi) as (p & d & -> & Hd). simpl. rewrite Hd.
  destruct (sm_supervisors (cs_manager x) !! Proto.se_name p) as [s|] eqn:Hs; [by apply session_ok_call|].
  apply session_ok_service; [done|apply supervised_new|by apply wellformed_name in Hd| |done].
  intros j o p' _ Hj Hn. destruct (so_starting _ Hx _ _ _ Hj) as (s & Hs' & _). unfold services in Hs'. congruence.
Qed.
Lemma session_ok_with_service x i o : session_ok x -> session_ok (with_service i o x).
Proof.
  intros Hx. unfold with_service. destruct (sm_supervisors (cs_manager x) !! call_name o) as [s|] eqn:Hs; [|done].
  destruct (some_call _ _) eqn:Hfree; [done|].
  assert (forall j o' p, j <> i -> cs_calls x !! j = Some (StartsService o' p) -> call_name o' <> call_name o) as Hf.
  { intros j o' p _ Hj. apply (some_call_false _ _ _ _ Hfree) in Hj. simpl in Hj. by apply bool_decide_eq_false in Hj. }
  destruct (so_managed _ Hx _ _ Hs) as [Hsup Hname].
  destruct o as [spec|name|request|name|name].
  - eapply session_ok_progress; [done|exact Hs|done|by apply start_begin_attended].
  - by apply session_ok_call.
  - destruct (stop s (cs_world x)) as [[s1 w1] r] eqn:Hr. apply (stop_supervised (sv_spec s)) in Hr; [|done].
    pose proof (sup_spec _ _ Hr) as Hspec. rewrite <- Hspec in Hr, Hname. by apply session_ok_service.
  - destruct (cancel s (cs_world x)) as [[s1 w1] r] eqn:Hr. apply (cancel_supervised (sv_spec s)) in Hr; [|done].
    pose proof (sup_spec _ _ Hr) as Hspec. rewrite <- Hspec in Hr, Hname. by apply session_ok_service.
  - by apply session_ok_call.
Qed.
Lemma session_ok_move m x : session_ok x -> session_ok (perform_session_move m x).
Proof.
  intros Hx. destruct m as [i o|i]; simpl.
  - destruct (cs_calls x !! i); [done|]. unfold arrive. destruct o as [[p|]| | | |]; try (by apply session_ok_call).
    destruct (proto_spec_to_domain p) as [d|e] eqn:Hp; apply session_ok_call; try done. simpl. eauto.
  - destruct (cs_calls x !! i) as [[o|o|o|o p|r]|] eqn:Hi; try done.
    + by apply session_ok_table.
    + by apply session_ok_with_service.
    + by apply session_ok_with_service.
    + destruct (so_starting _ Hx _ _ _ Hi) as (s & Hs & Hq). unfold services in Hs. rewrite Hs.
      eapply session_ok_progress; [done|exact Hs| |].
      * intros j o' p' Hne Hj Hn. apply Hne. by eapply (so_exclusive _ Hx).
      * apply start_round_attended; [done|]. by apply (so_managed _ Hx) in Hs as [? _].
Qed.
Lemma session_ok_start binding w : session_ok (session_start binding w).
Proof. split; simpl; [intros name s; unfold services; simpl|intros i o p|intros i j o o' p p'|intros i spec]; by rewrite lookup_empty. Qed.

(** What one move does to the table. *)
Lemma move_others m x name : resumed_name m x <> Some name ->
  services (perform_session_move m x) !! name = services x !! name.
Proof.
  assert (forall x i c n s w, n <> name -> services (set_service x n s w i c) !! name = services x !! name) as Hset.
  { intros. unfold services. simpl. by apply lookup_insert_ne. }
  destruct m as [i o|i]; simpl.
  { intros _. destruct (cs_calls x !! i); [done|]. unfold arrive. destruct o as [[p|]| | | |]; try done. by case_match. }
  destruct (cs_calls x !! i) as [[o|o|o|o p|r]|]; try done; intros Hn.
  1: destruct o as [spec| | | |]; try done; simpl in *; destruct (some_call _ _); [done|];
     destruct (sm_supervisors _ !! _); [done|]; destruct (proto_spec_to_domain <$> spec) as [[d|e]|]; try done;
     apply Hset; congruence.
  1,2: unfold with_service; destruct (sm_supervisors _ !! _) as [s|]; [|done]; destruct (some_call _ _); [done|];
     destruct o; try done;
     [destruct (start_begin s _) as [[s1 w1] r]|destruct (stop s _) as [[s1 w1] r]|destruct (cancel s _) as [[s1 w1] r]];
     apply Hset; congruence.
  destruct (sm_supervisors _ !! _) as [s|]; [|done]. destruct (start_round p s _) as [[s1 w1] r]. apply Hset. congruence.
Qed.
Definition keeps_specs x x' : Prop := forall name, sv_spec <$> services x' !! name = sv_spec <$> services x !! name.
Lemma keeps_service x n s s' w i c : services x !! n = Some s -> sv_spec s' = sv_spec s ->
  keeps_specs x (set_service x n s' w i c).
Proof.
  intros Hs Hspec name. unfold services in *. simpl. destruct (decide (n = name)) as [<-|Hne].
  - rewrite lookup_insert_eq, Hs. simpl. congruence.
  - by rewrite lookup_insert_ne.
Qed.
Lemma keeps_progress x i o s sw : services x !! call_name o = Some s -> attended_after (sv_spec s) sw ->
  keeps_specs x (answer_start i o x sw).
Proof.
  destruct sw as [[s' w'] r]. intros Hs Ha. eapply keeps_service; [exact Hs|]. destruct Ha as [Ha _]. by apply sup_spec in Ha.
Qed.
Lemma keeps_with_service x i o : session_ok x -> keeps_specs x (with_service i o x).
Proof.
  intros Hx. unfold with_service. destruct (sm_supervisors (cs_manager x) !! call_name o) as [s|] eqn:Hs; [|done].
  destruct (some_call _ _); [done|]. destruct (so_managed _ Hx _ _ Hs) as [Hsup _]. destruct o; try done.
  - eapply keeps_progress; [exact Hs|by apply start_begin_attended].
  - destruct (stop s (cs_world x)) as [[s1 w1] r] eqn:Hr. eapply keeps_service; [exact Hs|].
    by eapply stop_supervised, sup_spec in Hr.
  - destruct (cancel s (cs_world x)) as [[s1 w1] r] eqn:Hr. eapply keeps_service; [exact Hs|].
    by eapply cancel_supervised, sup_spec in Hr.
Qed.
Lemma move_specs m x name : session_ok x ->
  sv_spec <$> services (perform_session_move m x) !! name =
  match services x !! name with
  | Some s => Some (sv_spec s)
  | None => match admits m x with Some spec => if decide (ss_name spec = name) then Some spec else None | None => None end
  end.
Proof.
  intros Hx. assert (forall x', keeps_specs x x' -> admits m x = None -> sv_spec <$> services x' !! name =
    match services x !! name with
    | Some s => Some (sv_spec s)
    | None => match admits m x with Some spec => if decide (ss_name spec = name) then Some spec else None | None => None end
    end) as Hkeep. { intros x' Hk ->. rewrite Hk. by destruct (services x !! name). }
  destruct m as [i o|i]; simpl.
  { apply Hkeep; [|done]. intros n. destruct (cs_calls x !! i); [done|]. unfold arrive.
    destruct o as [[p|]| | | |]; try done. by destruct (proto_spec_to_domain p). }
  simpl in Hkeep. destruct (cs_calls x !! i) as [[o|o|o|o p|r]|] eqn:Hi; try (by apply Hkeep).
  - destruct o as [spec| | | |]; try (by apply Hkeep). simpl. destruct (so_accepted _ Hx _ _ Hi) as (p & d & -> & Hd).
    simpl in *. rewrite Hd in *. destruct (some_call _ _); [by apply Hkeep|].
    pose proof (wellformed_name _ _ Hd) as Hname.
    destruct (sm_supervisors (cs_manager x) !! Proto.se_name p) as [s|] eqn:Hs.
    + change (services (set_call x i (WaitsForService (CallStart (Some p))))) with (services x).
      destruct (services x !! name) as [s'|] eqn:Hn; [done|]. rewrite decide_False; [done|].
      intros <-. unfold services in Hn. congruence.
    + unfold services. simpl. destruct (decide (Proto.se_name p = name)) as [<-|Hne].
      * by rewrite lookup_insert_eq, Hs, decide_True.
      * rewrite lookup_insert_ne, decide_False by congruence. by destruct (sm_supervisors _ !! name).
  - by apply Hkeep; [apply keeps_with_service|].
  - by apply Hkeep; [apply keeps_with_service|].
  - apply Hkeep; [|done]. destruct (so_starting _ Hx _ _ _ Hi) as (s & Hs & Hq). unfold services in Hs. rewrite Hs.
    eapply keeps_progress; [exact Hs|]. apply start_round_attended; [done|]. by apply (so_managed _ Hx) in Hs as [? _].
Qed.
Lemma session_specs ms x : session_ok x -> session_ok (perform_session ms x) /\
  forall name, sv_spec <$> services (perform_session ms x) !! name =
    match services x !! name with Some s => Some (sv_spec s) | None => first_admitted ms x name end.
Proof.
  revert x. induction ms as [|m ms IH]; intros x Hx.
  { split; [done|]. intros name. simpl. by destruct (services x !! name). }
  destruct (IH (perform_session_move m x) (session_ok_move m x Hx)) as [Hok Hspec]. split; [done|]. intros name.
  change (perform_session (m :: ms) x) with (perform_session ms (perform_session_move m x)). rewrite Hspec.
  pose proof (move_specs m x name Hx) as Hm. simpl.
  destruct (services (perform_session_move m x) !! name) as [s1|], (services x !! name) as [s|], (admits m x) as [d|];
    simpl in *; try case_decide; naive_solver.
Qed.

(** C35: whatever clients call, however their calls interleave, and whatever the
    sandbox and the services do (a start that probes for ever included): a name
    is managed exactly when the start of an accepted specification has passed
    the table under it; it is supervised, with all that the supervisor
    guarantees at every moment, by the first such specification, for ever (a
    later start under the same name does not replace it); at most one call at a
    time is inside the start of a service; and a call that names another service
    leaves its supervisor untouched. *)
Theorem first_specification_wins ms binding w :
  let x := perform_session ms (session_start binding w) in
  (forall name, sv_spec <$> services x !! name = first_admitted ms (session_start binding w) name) /\
  (forall name s, services x !! name = Some s -> supervised (sv_spec s) s /\ ss_name (sv_spec s) = name) /\
  (forall i j o o' p p', cs_calls x !! i = Some (StartsService o p) -> cs_calls x !! j = Some (StartsService o' p') ->
     call_name o = call_name o' -> i = j) /\
  (forall m name, resumed_name m x <> Some name -> services (perform_session_move m x) !! name = services x !! name).
Proof.
  intros x. destruct (session_specs ms _ (session_ok_start binding w)) as [Hok Hspec]. fold x in Hok, Hspec.
  split_and!; [|apply Hok|apply Hok|intros m name; apply move_others].
  intros name. rewrite Hspec. unfold services. simpl. by rewrite lookup_empty.
Qed.

(** ** A status call that waits *)
#[local] Instance resumes_dec m k : Decision (m = Resumes k).
Proof. destruct m as [i o|i]; [by right|]. destruct (decide (i = k)) as [->|Hne]; [by left|right; congruence]. Defined.






End table.
