(* ===== verification/SessionExamples.v ===== *)
(** * Concrete client sessions

    A host whose service answers every probe, and one whose service answers
    every second probe, instantiate the theorems of [ServiceSessionsSpec]. *)
From stdpp Require Import base gmap strings list sorting pretty.
From Stdlib Require Import Ascii Lia ZifyBool ZifyN SpecFloat.
From S2P Require Import Prelude Validation Contract KernelApi Environment Instance World Service Supervisor.
From S2P Require Import SupervisorSpec SupervisorExamples Messages Wire ServiceManager ServiceManagerSpec.
From S2P Require Import ServiceSessions ServiceSessionsSpec.

(** Started, crashed, restarted, stopped and started again; the moves after the
    start of a probing service are its rounds. *)
Definition web_moves : list move :=
  [Call OpStart; Round; Call (OpExit crash_report); Call OpStep; Call OpStop; Round; Call OpStop; Call OpStart; Round].
Lemma service_always_supervised_witness :
  let '(_, s, (_, launched)) :=
    @perform_moves _ (logged_environment world_environment) (logged_host (world_host true)) web_moves
      (None, web_new, (world_start true [], [])) in
  supervised web_service s /\ NoDup (plan_instance_name <$> launched) /\
  plan_instance_name <$> launched = ["web-1"; "web-2"; "web-3"] /\ sv_state s = SRunning /\ sv_generation s = 3%N.
Proof.
  assert (let '(_, s, (_, launched)) :=
    @perform_moves _ (logged_environment world_environment) (logged_host (world_host true)) web_moves
      (None, web_new, (world_start true [], [])) in
    plan_instance_name <$> launched = ["web-1"; "web-2"; "web-3"] /\ sv_state s = SRunning /\ sv_generation s = 3%N /\
    length launched = 3%nat) as Hval by (vm_compute; split_and!; reflexivity).
  pose proof (service_always_supervised world_environment (world_host true) web_moves web_service world_binding
    (world_start true [])) as Hthm.
  change (ServiceSupervisor_new web_service world_binding) with web_new in Hthm.
  destruct (perform_moves web_moves _) as [[busy s] [w launched]].
  destruct Hval as (Hnames & Hst & Hg & Hl). destruct Hthm as [Hsup Hlog]. rewrite Hl in Hlog.
  destruct (Hlog ltac:(vm_compute; discriminate)) as (_ & _ & Hnd & _).
  exact (conj Hsup (conj Hnd (conj Hnames (conj Hst Hg)))).
Defined.

(** A start with a mistyped executable, then with the right one: the first
    specification stays. *)
Definition submitted (name executable : string) (success failure : N) : Proto.ServiceSpecMessage :=
  Proto.service_spec name executable ["--serve"] ∅ "" None (Some "") (Some (Some (Proto.ProbeTcpSocket "127.0.0.1" 8080)))
    (Some (Proto.probe_config None None None success failure)) (Some (Some (Proto.PolicyAlways (Some 2%N) None)))
    (Some (Proto.duration 7 500000000)) None.
Definition mistyped_session : list session_move :=
  [Arrives 0 (CallStart (Some (submitted "web" "/bin/wbe" 1 3))); Resumes 0; Resumes 0; Resumes 0;
   Arrives 1 (CallCancel "web"); Resumes 1; Resumes 1;
   Arrives 2 (CallStart (Some (submitted "web" "/bin/web" 1 3))); Resumes 2; Resumes 2; Resumes 2].
Definition mistyped : session world :=
  @perform_session _ world_environment (world_host true) mistyped_session (session_start world_binding (world_start true [])).
Lemma first_specification_wins_witness :
  exists s, services mistyped !! "web" = Some s /\ supervised (sv_spec s) s /\ plan_executable (ss_plan (sv_spec s)) = "/bin/wbe".
Proof.
  unfold mistyped. set (x := perform_session _ _). destruct (@first_specification_wins _ world_environment (world_host true) mistyped_session world_binding
    (world_start true [])) as (Hspec & Hsup & _). fold x in Hspec, Hsup. specialize (Hspec "web").
  assert ((fun spec => plan_executable (ss_plan spec)) <$>
    @first_admitted _ world_environment (world_host true) mistyped_session
      (session_start world_binding (world_start true [])) "web" = Some "/bin/wbe") as He by (vm_compute; reflexivity).
  rewrite <- Hspec in He. destruct (services x !! "web") as [s|] eqn:Hs; [|discriminate He]. injection He as He.
  exists s. exact (conj eq_refl (conj (proj1 (Hsup _ _ Hs)) He)).
Defined.

