(* ===== verification/RestartSpec.v ===== *)
(** * Authority across a restart

    The Kernel of [runtime/cyrene-kernel/src/main.rs] gives its authority the
    file journal as runtime journal and as event store, and seeds the ledger of
    the next process from that file.  This file composes the two models: what
    the authority promised is what the next process is fenced against. *)
From stdpp Require Import base gmap strings list sorting pretty.
From Stdlib Require Import Ascii Lia ZifyBool ZifyN.
From S2P Require Import Prelude Validation Contract KernelApi ResourceManager Ledger LedgerSpec Binding Environment.
From S2P Require Import Instance AuthorityState Events EventsSpec Authority WorkerActions EndpointActions.
From S2P Require Import ProviderActions AuthorityFrame AuthoritySteps AuthoritySpec LeaseActionSpec.
From S2P Require Import RuntimeJournal JournalSpec.

(** The wiring of [main.rs]: the journal sink and the event store are the file;
    no other port writes to it. *)
Class JournalledKernel (W : Type) `{Environment W} `{JournalHost W} `{JournalCodec} := {
  jk_append : forall record (w : W), env_journal_append record w = append record w;
  jk_append_event : forall record (w : W), env_append_event record w = append_event record w;
  jk_events : forall i n (w : W), env_events_for_source i n w = events_for_source i n w;
  jk_clock : forall w : W, host_contents (env_now_unix_ms w).1 = host_contents w;
  jk_instant : forall w : W, host_contents (env_instant w).1 = host_contents w;
  jk_uuid : forall w : W, host_contents (env_uuid w).1 = host_contents w;
  jk_preflight : forall b (w : W), host_contents (env_preflight_for_binding b w).1 = host_contents w;
  jk_launch : forall p b (w : W), host_contents (env_launch p b w).1 = host_contents w;
  jk_stop : forall h q (w : W), host_contents (env_stop h q w).1 = host_contents w;
  jk_inventory : forall w : W, host_contents (env_probe_inventory w).1 = host_contents w;
  jk_binding : forall r g (w : W), host_contents (env_create_binding_for_generation r g w).1 = host_contents w;
  jk_resolve : forall k (w : W), host_contents (env_resolve_worker_launch_plan k w).1 = host_contents w;
  jk_send : forall n c (w : W), host_contents (env_try_send n c w).1 = host_contents w;
}.

(** ** The file only grows *)
Section grows.
Context {W : Type} `{JournalledKernel W}.
Implicit Types (w : W) (r : AuthorityRuntime).

Definition bytes_of w : list ascii := default [] (host_contents w).
Definition grows w w' : Prop := exists more, bytes_of w' = bytes_of w ++ more.
#[local] Instance grows_preorder : PreOrder grows.
Proof.
  split.
  - intros w. exists []. by rewrite app_nil_r.
  - intros w1 w2 w3 [m1 H1'] [m2 H2']. exists (m1 ++ m2). by rewrite H2', H1', app_assoc.
Qed.
Lemma grows_same w w' : host_contents w' = host_contents w -> grows w w'.
Proof. intros Heq. exists []. unfold bytes_of. by rewrite Heq, app_nil_r. Qed.

Lemma append_persisted_bytes record w w' res : append_persisted record w = (w', res) ->
  grows w w' /\ (res = Ok tt -> bytes_of w' = bytes_of w ++ encode_record record ++ [newline]).
Proof.
  unfold append_persisted. unfold_monads.
  destruct (host_open_append w) as [w1 r1] eqn:Ho.
  assert (bytes_of w1 = bytes_of w) as H1'.
  { unfold bytes_of. destruct (host_open_append_file _ _ _ Ho) as [-> | [-> ->]]; done. }
  destruct r1 as [[]|e]; [|intros [= <- <-]; split; [|done]; exists []; by rewrite H1', app_nil_r].
  destruct (host_open_append_ok _ _ Ho) as [old Hold]. rewrite <- H1'.
  destruct (host_write_all (encode_record record) w1) as [w2 [[]|e]] eqn:Hw1.
  2:{ destruct (host_write_all_err _ _ _ _ _ Hold Hw1) as (p & c & rest & _ & Hp). intros [= <- <-]. split; [|done].
      exists p. rewrite <- H1'. unfold bytes_of. by rewrite Hp, Hold. }
  pose proof (host_write_all_ok _ _ _ _ Hold Hw1) as H2'.
  destruct (host_write_all [newline] w2) as [w3 [[]|e]] eqn:Hw2.
  2:{ destruct (host_write_all_err _ _ _ _ _ H2' Hw2) as (p & c & rest & _ & Hp). intros [= <- <-]. split; [|done].
      exists (encode_record record ++ p). rewrite <- H1'. unfold bytes_of. by rewrite Hp, Hold, <- app_assoc. }
  pose proof (host_write_all_ok _ _ _ _ H2' Hw2) as H3'. intros Hs. apply host_sync_data_file in Hs.
  assert (bytes_of w' = bytes_of w1 ++ encode_record record ++ [newline]) as Hb.
  { unfold bytes_of. by rewrite Hs, H3', Hold, <- app_assoc. }
  split; [|done]. eexists. rewrite <- H1'. exact Hb.
Qed.
Lemma append_bytes record w w' res : append record w = (w', res) ->
  grows w w' /\ (res = Ok tt -> exists now, (now <= u64_max)%N /\
    bytes_of w' = bytes_of w ++ encode_record (persist_record now record) ++ [newline]).
Proof.
  unfold append. unfold_monads. destruct (tick w) as [w1 x] eqn:Ht.
  apply tick_file in Ht as (Hf & now & -> & Hn). unfold map_error.
  destruct (append_persisted _ w1) as [w2 r2] eqn:Ha. intros [= <- <-].
  apply append_persisted_bytes in Ha as [Hg Hok].
  assert (bytes_of w1 = bytes_of w) as Hb by (unfold bytes_of; by rewrite Hf).
  split; [unfold grows in *; by rewrite <- Hb|]. intros Hr. exists now. split; [done|]. rewrite <- Hb. apply Hok.
  by destruct r2 as [[]|].
Qed.
Lemma append_event_grows record w : grows w (append_event record w).1.
Proof.
  unfold append_event. unfold_monads. destruct (NamespaceId_new _); [|reflexivity].
  destruct (Event_validate _); [|reflexivity]. simpl. destruct (tick w) as [w1 x] eqn:Ht.
  apply tick_file in Ht as (Hf & now & -> & Hn). unfold map_error.
  destruct (append_persisted _ w1) as [w2 r2] eqn:Ha. apply append_persisted_bytes in Ha as [Hg _]. simpl.
  transitivity w1; [by apply grows_same|done].
Qed.

Lemma events_for_source_file i n w : host_contents (env_events_for_source i n w).1 = host_contents w.
Proof.
  rewrite jk_events. unfold events_for_source, semantic_events_for_source, map_error, lift. unfold_monads.
  destruct (host_contents w) as [bs|] eqn:Hf; [|done].
  destruct (host_read_to_string w) as [w1 [c|e]] eqn:Hrd; pose proof (host_read_file _ _ _ Hrd) as [Hw _].
  - destruct (replay_lines _ _ _ _ _); simpl; congruence.
  - simpl. congruence.
Qed.

(** Every action only adds to the file. *)
Definition adds {A} (m : Auth W A) : Prop := forall s s' res, m s = (s', res) -> grows s.2 s'.2.

Lemma adds_pure {A} (m : Auth W A) : (forall s s' res, m s = (s', res) -> s'.2 = s.2) -> adds m.
Proof. intros Hm s s' res Hr. apply Hm in Hr as ->. reflexivity. Qed.
Lemma adds_bind {A B} (m : Auth W A) (k : A -> Auth W B) : adds m -> (forall a, adds (k a)) -> adds (m ≫= k).
Proof.
  intros Hm Hk s s' res [(e & He & _)|(a & s1 & Ha & Hr)]%bind_inv; [by eapply Hm|].
  transitivity s1.2; [by eapply Hm|by eapply Hk].
Qed.
Lemma adds_attempt {A} (m : Auth W A) : adds m -> adds (attempt m).
Proof. intros Hm s s' res. unfold attempt. destruct (m s) as [s1 x] eqn:Hs. intros [= <- <-]. by eapply Hm. Qed.
Lemma adds_world {A} (f : W -> W * A) : (forall w, grows w (f w).1) -> adds (world_call f).
Proof. intros Hf [r w] s' res. unfold world_call. specialize (Hf w). destruct (f w). by intros [= <- <-]. Qed.
Lemma adds_port {A} (m : STE W ProviderError A) : (forall w, grows w (m w).1) -> adds (port m).
Proof. intros Hm [r w] s' res. unfold port. specialize (Hm w). destruct (m w). by intros [= <- <-]. Qed.
Lemma adds_port_result {A} (m : STE W ProviderError A) : (forall w, grows w (m w).1) -> adds (port_result m).
Proof. intros Hm [r w] s' res. unfold port_result. specialize (Hm w). destruct (m w). by intros [= <- <-]. Qed.
Lemma adds_local {A} a (f : InstanceActor -> W -> InstanceActor * W * result ProviderError A) :
  (forall a w, grows w (f a w).1.2) -> adds (local_actor_call a f).
Proof.
  intros Hf [r w] s' res. unfold local_actor_call. specialize (Hf a w). destruct (f a w) as [[a' w'] x].
  by intros [= <- <-].
Qed.
Lemma adds_actor {A} name p (f : InstanceActor -> W -> InstanceActor * W * result ProviderError A) :
  (forall a w, grows w (f a w).1.2) -> adds (actor_call name p f).
Proof.
  intros Hf [r w] s' res. unfold actor_call. specialize (Hf (mp_actor p) w). destruct (f (mp_actor p) w) as [[a' w'] x].
  by intros [= <- <-].
Qed.
Lemma adds_for_each {A} (f : A -> Auth W unit) xs : (forall a, adds (f a)) -> adds (for_each f xs).
Proof.
  intros Hf. induction xs as [|x xs IH]; simpl; [by apply adds_pure; intros s s' res [= <- <-]|].
  by apply adds_bind.
Qed.
Lemma adds_ledger {A} (m : STE State ProviderError A) : adds (ledger m : Auth W _).
Proof. apply adds_pure. intros [r w] s' res. unfold ledger. destruct (m (rt_ledger r)). by intros [= <- <-]. Qed.
Lemma adds_ledger_total {A} (f : State -> State * A) : adds (ledger_total f : Auth W _).
Proof. apply adds_pure. intros [r w] s' res. unfold ledger_total. destruct (f (rt_ledger r)). by intros [= <- <-]. Qed.
Lemma adds_iter : adds (iter_instances : Auth W _).
Proof. apply adds_pure. by intros [r w] s' res [= <- <-]. Qed.
Lemma adds_update f : adds (update_runtime f : Auth W unit).
Proof. apply adds_pure. by intros [r w] s' res [= <- <-]. Qed.
Lemma adds_get : adds (get_runtime : Auth W _).
Proof. apply adds_pure. by intros [r w] s' res [= <- <-]. Qed.
Lemma adds_mret {A} (a : A) : adds (mret a : Auth W A).
Proof. apply adds_pure. by intros s s' res [= <- <-]. Qed.
Lemma adds_throw {A} e : adds (throw e : Auth W A).
Proof. apply adds_pure. by intros s s' res [= <- <-]. Qed.
Lemma adds_lift {A} (x : result Rejection A) : adds (lift x : Auth W A).
Proof. apply adds_pure. by intros s s' res [= <- <-]. Qed.

(** The ports. *)
Lemma grows_append record w : grows w (env_journal_append record w).1.
Proof. rewrite jk_append. destruct (append record w) as [w' res] eqn:Ha. by apply append_bytes in Ha as [? _]. Qed.
Lemma grows_append_event record w : grows w (env_append_event record w).1.
Proof. rewrite jk_append_event. apply append_event_grows. Qed.
Lemma same_process_start p w : host_contents (process_start p w).1.2 = host_contents w.
Proof.
  unfold process_start. destruct (sp_handle p); [done|]. pose proof (jk_launch (sp_plan p) (sp_binding p) w) as Hl.
  by destruct (env_launch _ _ w) as [w1 [h|e]].
Qed.
Lemma same_process_stop q p w : host_contents (process_stop q p w).1.2 = host_contents w.
Proof.
  unfold process_stop. destruct (sp_handle p) as [h|]; [|done]. pose proof (jk_stop h q w) as Hs.
  by destruct (env_stop h q w) as [w1 [rep|e]].
Qed.
Lemma same_actor_launch a w : host_contents (actor_launch a w).1.2 = host_contents w.
Proof.
  unfold actor_launch. pose proof (same_process_start (ia_process a) w) as Hp.
  destruct (process_start (ia_process a) w) as [[p w1] [h|e]]; pose proof (jk_instant w1) as Hi;
    destruct (env_instant w1); simpl in *; congruence.
Qed.
Lemma grows_actor_start a w : grows w (actor_start a w).1.2.
Proof.
  apply grows_same. unfold actor_start. case_match; [done|]. case_match; [|by rewrite same_actor_launch].
  pose proof (same_process_stop restart_stop_request (ia_process (with_state IStarting a)) w) as Hs.
  destruct (process_stop _ _ w) as [[p w1] x]. simpl in Hs. case_match; [done|]. by rewrite same_actor_launch.
Qed.
Lemma grows_actor_stop q a w : grows w (actor_stop q a w).1.2.
Proof.
  apply grows_same. unfold actor_stop.
  pose proof (same_process_stop q (ia_process (with_transport None (with_state IStopping a))) w) as Hs.
  by destruct (process_stop _ _ w) as [[p w1] [rep|e]].
Qed.
Lemma grows_request_cancel t a w : grows w (request_cancel t a w).1.2.
Proof.
  apply grows_same. unfold request_cancel. destruct (ia_transport_tx a) as [tx|]; [|done].
  pose proof (jk_uuid w) as Hu. destruct (env_uuid w) as [w1 u]. simpl in Hu.
  match goal with |- context [env_try_send ?n ?c w1] => pose proof (jk_send n c w1) as Hs;
    destruct (env_try_send n c w1) as [w2 [?|?]] end; simpl in *; congruence.
Qed.
Lemma grows_preflight b w : grows w (preflight_binding b w).1.
Proof.
  apply grows_same. unfold preflight_binding. pose proof (jk_preflight b w) as Hp.
  destruct (env_preflight_for_binding b w) as [w1 c]. by case_match.
Qed.
Lemma grows_binding lease w : grows w (binding_for_lease lease w).1.
Proof.
  apply grows_same. unfold binding_for_lease. unfold_monads. pose proof (jk_inventory w) as Hi.
  destruct (env_probe_inventory w) as [w1 [snapshot|e]]; [|done]. simpl in Hi. rewrite <- Hi.
  assert (forall allocations w, host_contents (lease_bindings snapshot allocations w).1 = host_contents w) as Hb.
  { induction allocations as [|al allocations IH]; intros w0; [done|]. simpl. unfold_monads.
    destruct (find _ _) as [res|]; [|done]. simpl. pose proof (jk_binding res 0 w0) as Hc.
    destruct (env_create_binding_for_generation res 0 w0) as [w2 [b|e]]; [|done]. simpl in Hc.
    specialize (IH w2). destruct (lease_bindings snapshot allocations w2) as [w3 [bs|e]]; simpl in *; congruence. }
  specialize (Hb (rl_allocations lease) w1). by destruct (lease_bindings _ _ w1) as [w2 [bs|e]].
Qed.
End grows.

Ltac adds_step :=
  lazymatch goal with
  | |- adds (mbind _ _) => apply adds_bind; [|intros ?]
  | |- adds (mret _) => apply adds_mret
  | |- adds (throw _) => apply adds_throw
  | |- adds (reject _ _) => apply adds_throw
  | |- adds (lift _) => apply adds_lift
  | |- adds get_runtime => apply adds_get
  | |- adds (update_runtime _) => apply adds_update
  | |- adds (attempt _) => apply adds_attempt
  | |- adds (world_call _) => apply adds_world; intros ?
  | |- adds (port _) => apply adds_port; intros ?
  | |- adds (port_result _) => apply adds_port_result; intros ?
  | |- adds (local_actor_call _ _) => apply adds_local; intros ? ?
  | |- adds (actor_call _ _ _) => apply adds_actor; intros ? ?
  | |- adds iter_instances => apply adds_iter
  | |- adds (for_each _ _) => apply adds_for_each; intros ?
  | |- adds (ledger _) => apply adds_ledger
  | |- adds (ledger_total _) => apply adds_ledger_total
  | |- adds (match ?x with _ => _ end) => destruct x
  | |- adds (let '_ := ?x in _) => destruct x
  | |- adds (let x := _ in _) => cbv zeta
  | |- grows _ (env_journal_append _ _).1 => apply grows_append
  | |- grows _ (env_append_event _ _).1 => apply grows_append_event
  | |- grows _ (actor_start _ _).1.2 => apply grows_actor_start
  | |- grows _ (actor_stop _ _ _).1.2 => apply grows_actor_stop
  | |- grows _ (request_cancel _ _ _).1.2 => apply grows_request_cancel
  | |- grows _ (preflight_binding _ _).1 => apply grows_preflight
  | |- grows _ (binding_for_lease _ _).1 => apply grows_binding
  | |- grows _ _ => apply grows_same; first [apply jk_clock|apply jk_instant|apply jk_uuid|apply jk_resolve|apply events_for_source_file]
  | |- adds ?m => let h := head_of m in unfold h
  end.

Section actions.
Context {W : Type} `{JournalledKernel W}.

Lemma adds_snapshot_leases objects : adds (snapshot_leases objects : Auth W _).
Proof. induction objects as [|[o n] objects IH]; simpl; repeat first [apply IH | adds_step]. Qed.
Lemma adds_mark_worker_lost c i reason : adds (mark_worker_lost c i reason : Auth W _).
Proof. unfold mark_worker_lost. repeat adds_step. Qed.
Lemma adds_enforce_expiries now leases : adds (enforce_expiries now leases : Auth W _).
Proof.
  induction leases as [|l leases IH]; simpl; repeat first [apply IH | apply adds_mark_worker_lost | adds_step].
Qed.
Lemma adds_lose_missing c observed b workers : adds (lose_missing c observed b workers : Auth W _).
Proof.
  induction workers as [|l workers IH]; simpl; repeat first [apply IH | apply adds_mark_worker_lost | adds_step].
Qed.
Lemma perform_adds (a : action) : adds (perform a : Auth W unit).
Proof.
  destruct a; unfold perform, done;
    repeat lazymatch goal with
    | |- adds (snapshot_leases _) => apply adds_snapshot_leases
    | |- adds (mark_worker_lost _ _ _) => apply adds_mark_worker_lost
    | |- adds (enforce_expiries _ _) => apply adds_enforce_expiries
    | |- adds (lose_missing _ _ _ _) => apply adds_lose_missing
    | |- _ => adds_step
    end.
Qed.
End actions.

(** ** Who can be active

    Only an acquisition makes a lease active: after any other call the active
    leases were active before, under the same token. *)
Definition active_under (m : gmap string ResourceLease) (n : string) (t : N) : Prop :=
  exists l, m !! n = Some l /\ rl_state l = Active /\ rl_fence_token l = t.
Definition active_from (m m' : gmap string ResourceLease) : Prop :=
  forall n t, active_under m' n t -> active_under m n t.
#[export] Instance active_from_preorder : PreOrder active_from.
Proof. split; [by intros m n t|]. intros m1 m2 m3 H12 H23 n t Ht. by apply H12, H23. Qed.

Lemma active_expire now st : active_from (leases st) (leases (expire_due_leases now st)).
Proof.
  intros n t (l & Hl & Hs & Ht). apply lookup_expire_due_Some in Hl as (l0 & Hl0 & ->). exists l0.
  destruct (expire_lease_cases now l0) as [Hx|[_ Hx]]; rewrite Hx in *; done.
Qed.
Lemma active_insert m m1 n l1 : active_from m m1 ->
  (rl_state l1 = Active -> active_under m n (rl_fence_token l1)) -> active_from m (<[n := l1]> m1).
Proof.
  intros Hm Hn k t (l & Hl & Hs & <-). apply lookup_insert_Some in Hl as [[<- <-]|[_ Hl]]; [by apply Hn|].
  apply Hm. by exists l.
Qed.
#[export] Hint Resolve active_expire : cyrene.
Lemma active_refl m : active_from m m.
Proof. reflexivity. Qed.
#[export] Hint Resolve active_refl : cyrene.

Definition is_acquire (o : op) : bool := match o with Acquire _ _ _ => true | _ => false end.
Lemma active_exec o st : is_acquire o = false -> active_from (leases st) (leases (exec o st)).
Proof.
  intros Ha. destruct o; simpl in *; try done; auto with cyrene.
  - unfold refresh_inventory. run_method; auto with cyrene.
  - unfold quarantine. run_method; auto with cyrene.
  - unfold ResourceManager.renew_lease. run_method; auto with cyrene. apply active_insert; [auto with cyrene|]. intros Hs. simpl in *.
    eapply active_expire. by eexists.
  - unfold begin_release. run_method; auto with cyrene; by apply active_insert; [auto with cyrene|].
  - unfold complete_release. run_method; auto with cyrene; by apply active_insert; [auto with cyrene|].
  - unfold fail_release. run_method; auto with cyrene; by apply active_insert; [auto with cyrene|].
  - unfold revoke. run_method; auto with cyrene; by apply active_insert; [auto with cyrene|].
  - unfold complete_revocation. run_method; auto with cyrene.
Qed.

Record active_step (r r' : AuthorityRuntime) : Prop := {
  as_node : rt_node_id r' = rt_node_id r;
  as_epoch : rt_node_epoch r' = rt_node_epoch r;
  as_active : active_from (leases (rt_ledger r)) (leases (rt_ledger r'));
}.
#[export] Instance active_step_preorder : PreOrder active_step.
Proof.
  split; [done|]. intros r1 r2 r3 [K1 K2 K3] [L1 L2 L3]. split; [congruence..|by etransitivity].
Qed.
Lemma active_same r r' : rt_node_id r' = rt_node_id r -> rt_node_epoch r' = rt_node_epoch r ->
  rt_ledger r' = rt_ledger r -> active_step r r'.
Proof. intros K1 K2 K3. split; [done..|]. by rewrite K3. Qed.
Lemma active_ledger r o : is_acquire o = false -> active_step r (set_ledger r (exec o (rt_ledger r))).
Proof. intros Ha. split; [done..|]. by apply active_exec. Qed.

Ltac active_goal :=
  lazymatch goal with
  | |- active_step ?r (set_ledger ?r (get_lease ?n ?l _).1) => exact (active_ledger r (Get n l) eq_refl)
  | |- active_step ?r (set_ledger ?r (list_leases ?n _).1) => exact (active_ledger r (List n) eq_refl)
  | |- active_step ?r (set_ledger ?r (ResourceManager.renew_lease ?n ?l ?f ?e _).1) =>
      exact (active_ledger r (Renew n l f e) eq_refl)
  | |- active_step ?r (set_ledger ?r (begin_release ?n ?l ?f _).1) => exact (active_ledger r (BeginRelease n l f) eq_refl)
  | |- active_step ?r (set_ledger ?r (complete_release ?l ?f _).1) => exact (active_ledger r (CompleteRelease l f) eq_refl)
  | |- active_step ?r (set_ledger ?r (fail_release ?l ?f _).1) => exact (active_ledger r (FailRelease l f) eq_refl)
  | |- active_step ?r (set_ledger ?r (revoke ?n ?l ?f _).1) => exact (active_ledger r (Revoke n l f) eq_refl)
  | |- active_step ?r (set_ledger ?r (complete_revocation ?l ?f _).1) =>
      exact (active_ledger r (CompleteRevocation l f) eq_refl)
  | |- active_step _ _ => by apply active_same
  end.
Ltac active_tac := first [respects_step | active_goal | respects_unfold].

Section active.
Context {W : Type} `{Environment W}.

Lemma active_snapshot_leases objects : respects active_step (snapshot_leases objects : Auth W _).
Proof. induction objects as [|[o n] objects IH]; simpl; repeat first [apply IH | active_tac]. Qed.
Lemma active_mark_worker_lost c i reason : respects active_step (mark_worker_lost c i reason : Auth W _).
Proof. unfold mark_worker_lost. repeat active_tac. Qed.
Lemma active_enforce_expiries now leases : respects active_step (enforce_expiries now leases : Auth W _).
Proof.
  induction leases as [|l leases IH]; simpl; repeat first [apply IH | apply active_mark_worker_lost | active_tac].
Qed.
Lemma active_lose_missing c observed b workers : respects active_step (lose_missing c observed b workers : Auth W _).
Proof.
  induction workers as [|l workers IH]; simpl; repeat first [apply IH | apply active_mark_worker_lost | active_tac].
Qed.
Definition acquires (a : action) : bool := match a with AcquireLease _ _ _ _ _ => true | _ => false end.
Lemma perform_active (a : action) : acquires a = false -> respects active_step (perform a : Auth W unit).
Proof.
  destruct a; intros Ha; try discriminate Ha; unfold perform, done;
    repeat lazymatch goal with
    | |- respects _ (snapshot_leases _) => apply active_snapshot_leases
    | |- respects _ (mark_worker_lost _ _ _) => apply active_mark_worker_lost
    | |- respects _ (enforce_expiries _ _) => apply active_enforce_expiries
    | |- respects _ (lose_missing _ _ _ _) => apply active_lose_missing
    | |- _ => active_tac
    end.
Qed.
End active.

(** ** Acquisition *)
Section acquisition.
Context {W : Type} `{Environment W}.
Implicit Types (r : AuthorityRuntime) (w : W).

Lemma acquire_activates now now' request st st' x :
  ResourceManager.acquire_lease now now' request st = (st', x) ->
  match x with
  | Ok l => leases st' !! rl_name l = Some l /\
      forall n t, active_under (leases st') n t ->
        (n = rl_name l /\ t = rl_fence_token l) \/ active_under (leases st) n t
  | Err _ => active_from (leases st) (leases st')
  end.
Proof.
  intros Ha. destruct x as [l|e].
  - apply acquire_Ok in Ha as (Hl & Hn & _). rewrite Hl, Hn, lookup_insert_eq. split; [done|].
    intros n t (l' & Hl' & Hs & <-). apply lookup_insert_Some in Hl' as [[<- <-]|[_ Hl']]; [by left|right].
    eapply active_expire. by exists l'.
  - pose proof (outcome_unchanged (Acquire now now' request) st e) as Hu. simpl in Hu. rewrite Ha in Hu. simpl in Hu.
    destruct (Hu eq_refl) as [->|[t ->]]; [done|apply active_expire].
Qed.
Lemma daemon_acquire_active rq r w s' res :
  (daemon_acquire_lease rq : Auth W _) (r, w) = (s', res) ->
  exists st' w', s' = (set_ledger r st', w') /\
    match res with
    | Ok l => exists now now', ResourceManager.acquire_lease now now' rq (rt_ledger r) = (st', Ok l)
    | Err _ => active_from (leases (rt_ledger r)) (leases st')
    end.
Proof.
  unfold daemon_acquire_lease, get_runtime, world_call, checked, ledger. unfold_monads.
  destruct (negb _); [intros [= <- <-]; exists (rt_ledger r), w; by destruct r|].
  destruct (env_now_unix_ms w) as [w1 now]. destruct (env_now_unix_ms w1) as [w2 now'].
  destruct (ResourceManager.acquire_lease now now' rq (rt_ledger r)) as [st' x] eqn:Ha. intros [= <- <-].
  exists st', w2. split; [done|]. destruct x as [l|e]; simpl; [eauto|]. apply (acquire_activates _ _ _ _ _ _ Ha).
Qed.

(** The LEASE_ACQUIRED record. *)
Definition acquired_record r (l : ResourceLease) : RuntimeJournalRecord :=
  mk_journal_record LeaseAcquired (rt_node_id r) (rt_node_epoch r) None (Some (rl_name l)) (Some (rl_fence_token l))
    "LEASE_ACQUIRED" None.
(** An acquisition activates nothing, or one lease, whose record was appended
    last. *)
Definition acquisition r r' w' : Prop :=
  active_from (leases (rt_ledger r)) (leases (rt_ledger r')) \/
  exists l w1, env_journal_append (acquired_record r l) w1 = (w', Ok tt) /\
    leases (rt_ledger r') !! rl_name l = Some l /\
    forall n t, active_under (leases (rt_ledger r')) n t ->
      (n = rl_name l /\ t = rl_fence_token l) \/ active_under (leases (rt_ledger r)) n t.

Lemma rollback_active now now' now'' request st st' l :
  ResourceManager.acquire_lease now now' request st = (st', Ok l) ->
  let st1 := (begin_release now'' (rl_name l) (rl_fence_token l) st').1 in
  active_from (leases st) (leases (complete_release (rl_name l) (rl_fence_token l) st1).1).
Proof.
  intros Ha st1 n t Hn. pose proof (rollback_acquire now now' now'' _ _ _ _ Ha) as (l' & Hl' & Hcase).
  fold st1 in Hl'. simpl in Hl'.
  assert (active_under (leases st') n t) as Hn'.
  { apply (active_exec (BeginRelease now'' (rl_name l) (rl_fence_token l)) st' eq_refl).
    by apply (active_exec (CompleteRelease (rl_name l) (rl_fence_token l)) st1 eq_refl). }
  apply acquire_activates in Ha as [_ Ha]. destruct (Ha n t Hn') as [[-> _]|?]; [exfalso|done].
  destruct Hn as (l2 & Hl2 & Hs2 & _). rewrite Hl' in Hl2. injection Hl2 as ->.
  destruct Hcase as [[Hs _]|Hs]; by rewrite Hs in Hs2.
Qed.
Lemma acquire_lease_activates c p holder q e r w r' w' res :
  Authority.acquire_lease c p holder q e (r, w) = ((r', w'), res) -> acquisition r r' w'.
Proof.
  unfold Authority.acquire_lease, acquisition.
  intros [(x & [= -> ->]%validate_context_run & ->)|(? & ? & ->%validate_context_run & Hr)]%bind_inv; [by left|].
  apply bind_inv in Hr as [(err & Hb & ->)|(? & ? & Hb & Hr)]; apply bind_namespace_run in Hb as [owners Hb];
    [injection Hb as -> ->; by left|subst].
  apply bind_inv in Hr as [(err & Hb & ->)|(now & ? & Hb & Hr)]; apply world_call_run in Hb as (w1 & ? & Hb & ?);
    [done|subst].
  destruct (e <=? now)%N; [by injection Hr as <- <- <-; left|]. unfold get_runtime in Hr.
  unfold mbind at 1, ste_bind, gets in Hr. cbn [fst] in Hr.
  apply bind_inv in Hr as [(err & Hb & ->)|(l & ? & Hb & Hr)];
    apply daemon_acquire_active in Hb as (st' & w2 & Hb & Hacq); [injection Hb as -> ->; by left|subst].
  destruct Hacq as (now1 & now2 & Hacq). simpl in Hacq.
  apply bind_inv in Hr as [(err & Hb & ->)|(rec & ? & Hb & Hr)]; unfold attempt in Hb;
    destruct (record_runtime _ _ _ _ _) as [s3 x3] eqn:Hrec; [discriminate Hb|injection Hb as <- <-].
  apply record_runtime_run in Hrec as (w3 & y & -> & -> & Hj). simpl in Hj. destruct y as [[]|e']; simpl in Hr.
  - injection Hr as <- <- <-. right. exists l, w2. split; [exact Hj|]. exact (acquire_activates _ _ _ _ _ _ Hacq).
  - apply bind_inv in Hr as [(err & Hb & ->)|(? & ? & Hb & Hr)]; apply ledger_now_run in Hb as (now3 & w4 & Hb & ?);
      [done|subst]. left. pose proof (rollback_active _ _ now3 _ _ _ _ Hacq) as Hroll.
    unfold ledger, mbind, ste_bind in Hr. simpl in *.
    destruct (complete_release (rl_name l) (rl_fence_token l) _) as [st5 y5] eqn:Hc in Hr. simpl in Hr.
    injection Hr as <- <- <-. simpl in *. by rewrite Hc in Hroll.
Qed.
End acquisition.

(** ** Complete lines are records *)
Section lines.
Context `{JournalCodec}.

Lemma plain_split a b x y : plain a -> plain b -> a ++ newline :: x = b ++ newline :: y -> a = b /\ x = y.
Proof.
  intros Ha%plain_newline Hb%plain_newline. revert b Hb. induction a as [|c a IH]; intros [|d b] Hb Heq; simpl in *.
  - by injection Heq as ->.
  - injection Heq as <- _. destruct Hb. by left.
  - injection Heq as -> _. destruct Ha. by left.
  - injection Heq as -> Heq. apply not_elem_of_cons in Ha as [_ Ha], Hb as [_ Hb].
    destruct (IH Ha b Hb Heq) as [-> ->]. done.
Qed.
Lemma journal_file_lines bs rs : journal_file bs rs ->
  exists rs0 tail, bs = file_of rs0 ++ tail /\ plain tail /\ in_range rs0 /\ rs0 `prefix_of` rs.
Proof.
  destruct 1 as [rs Hr|rs r p c rest Hr Hp He|rs r Hr].
  - exists rs, []. split_and!; [by rewrite app_nil_r|intros c; set_solver|done|done].
  - exists rs, p. split_and!; [done| |done|done]. pose proof (plain_encode r) as Hpl. rewrite He in Hpl.
    by apply plain_app in Hpl as [? _].
  - exists rs, (encode_record r). apply Forall_app in Hr as [? _]. split_and!; [done|apply plain_encode|done|].
    by exists [r].
Qed.
(** A line written after whatever was there is a record of the file, if the
    file can be read back: had it been glued to a torn line, it could not. *)
Lemma line_in_file rs tail r before after : in_range rs -> plain tail -> persisted_in_range r = true ->
  file_of rs ++ tail = before ++ encode_record r ++ newline :: after -> r ∈ rs.
Proof.
  intros Hrs Ht Hr. revert before. induction Hrs as [|r1 rs Hr1 Hrs IH]; intros before Heq.
  { exfalso. apply (plain_newline _ Ht). change (file_of []) with (@nil ascii) in Heq. simpl in Heq. rewrite Heq. set_solver. }
  change (file_of (r1 :: rs)) with ((encode_record r1 ++ [newline]) ++ file_of rs) in Heq.
  rewrite <- !app_assoc in Heq. simpl in Heq.
  apply app_eq_inv in Heq as [(k & Hk & Hrest)|(k & Hk & Hrest)].
  - (* the line begins within the first record *)
    assert (plain k) as Hpk by (pose proof (plain_encode r1) as Hp; rewrite Hk in Hp; by apply plain_app in Hp as [_ ?]).
    destruct (plain_split _ _ _ _ (plain_encode r) Hpk Hrest) as [<- _].
    destruct before as [|c before].
    + simpl in Hk. assert (Ok (E := string) r1 = Ok r) as [= ->]; [|by left].
      rewrite <- (decode_encode r1), <- (decode_encode r) by done. by rewrite Hk.
    + pose proof (decode_glued r1 r (c :: before) (encode_record r) ltac:(done) Hk) as Herr.
      rewrite <- Hk, decode_encode in Herr by done. done.
  - (* it begins after it *)
    destruct k as [|c k]; simpl in Hrest.
    + destruct (encode_record r) as [|d rest] eqn:He; [by apply encode_nonempty in Hr|].
      exfalso. injection Hrest as <- _. pose proof (plain_newline _ (plain_encode r)) as Hn. rewrite He in Hn. set_solver.
    + injection Hrest as _ Hrest. right. by apply (IH k).
Qed.
End lines.

(** ** Fences across a restart *)
Section continuity.
Context {W : Type} `{JournalledKernel W}.
Implicit Types (r : AuthorityRuntime) (w : W).

(** The file has a complete line that records the token for the node. *)
Definition recorded (node : string) (t : N) w : Prop :=
  exists rec before after, persisted_in_range rec = true /\ pst_node_id rec = node /\ pst_fence_token rec = Some t /\
    bytes_of w = before ++ encode_record rec ++ newline :: after.
Lemma recorded_grows node t w w' : grows w w' -> recorded node t w -> recorded node t w'.
Proof.
  intros [more Hm] (rec & before & after & Hr & Hn & Ht & Hb). exists rec, before, (after ++ more).
  split_and!; try done. rewrite Hm, Hb. by rewrite <- !app_assoc.
Qed.

Record durable (node : string) (k : N) r w : Prop := {
  du_node : rt_node_id r = node;
  du_epoch : (rt_node_epoch r <= u64_max)%N;
  du_fences : fence_inv k (rt_ledger r);
  du_recorded : forall n t, active_under (leases (rt_ledger r)) n t -> recorded node t w;
}.
Lemma durable_perform node k a r w r' w' res : durable node k r w -> perform a (r, w) = ((r', w'), res) ->
  durable node k r' w'.
Proof.
  intros [D1 D2 D3 D4] Hp.
  pose proof (perform_adds a _ _ _ Hp) as Hg. pose proof (perform_frame a _ _ _ _ Hp) as Hf. simpl in *.
  assert (fence_inv k (rt_ledger r')) as D3' by (destruct (fs_ledger _ _ Hf) as [os ->]; by apply fence_inv_run).
  assert (forall n t, active_under (leases (rt_ledger r)) n t -> recorded node t w') as Hold.
  { intros n t Hn. eapply recorded_grows; [exact Hg|by eapply D4]. }
  split; [by rewrite (fs_node_id _ _ Hf)|by rewrite (fs_node_epoch _ _ Hf)|done|]. intros n t Hn.
  destruct (acquires a) eqn:Ha.
  2:{ eapply Hold. by apply (as_active _ _ (perform_active a Ha _ _ _ _ Hp)). }
  destruct a; try discriminate Ha. unfold perform, done in Hp.
  assert (acquisition r r' w') as [Hfrom|(l & w1 & Hj & Hl & Hnew)].
  { apply bind_inv in Hp as [(e & He & _)|(x & [r1 w1] & Hx & [= <- <- _])]; by eapply acquire_lease_activates. }
  { eapply Hold. by apply Hfrom. }
  destruct (Hnew n t Hn) as [[-> ->]|Hn']; [|by eapply Hold].
  rewrite jk_append in Hj. apply append_bytes in Hj as [_ Hok]. destruct (Hok eq_refl) as (now & Hnow & Hb).
  exists (persist_record now (acquired_record r l)), (bytes_of w1), []. split_and!; [|done|done|done].
  assert (rl_fence_token l <= u64_max)%N as Ht by (by eapply (fence_inv_bounded _ _ D3')).
  unfold persisted_in_range, u64. simpl. unfold u64. lia.
Qed.
Lemma durable_perform_all node k xs r w : durable node k r w ->
  durable node k (perform_all xs (r, w)).1 (perform_all xs (r, w)).2.
Proof.
  revert r w. induction xs as [|x xs IH]; intros r w Hd; [done|].
  change (perform_all (x :: xs) (r, w)) with (perform_all xs (perform x (r, w)).1).
  destruct (perform x (r, w)) as [[r1 w1] res] eqn:Hp. apply IH. by eapply durable_perform.
Qed.
Lemma durable_boot node epoch hb rs next w : (epoch <= u64_max)%N -> (next <= u64_max)%N ->
  durable node (N.max next 1) (booted node epoch hb rs next) w.
Proof.
  intros He Hn. split; [done|done|by apply fence_inv_initial|]. intros n t (l & Hl & _). simpl in Hl.
  by rewrite lookup_empty in Hl.
Qed.

(** A recorded token is superseded by any epoch that starts from the file. *)
Lemma journal_file_range bs rs : journal_file bs rs -> in_range rs.
Proof. by destruct 1. Qed.
Lemma recorded_in node t w rs : holds w rs -> recorded node t w ->
  exists r : PersistedRuntimeRecord, r ∈ rs /\ pst_node_id r = node /\ pst_fence_token r = Some t.
Proof.
  intros Hh (r & before & after & Hr & Hn & Ht & Hb). exists r. split; [|done].
  destruct Hh as [[Hf ->]|(bs & Hf & Hj)]; unfold bytes_of in Hb; rewrite Hf in Hb; simpl in Hb.
  { symmetry in Hb. by destruct before, (encode_record r). }
  apply journal_file_lines in Hj as (rs0 & tail & -> & Htail & Hrange & [rs1 ->]).
  apply elem_of_app. left. by eapply line_in_file.
Qed.
Lemma begin_epoch_fence node w rs w' rec : holds w rs -> begin_epoch node w = (w', Ok rec) ->
  (rec_next_fence_token rec <= u64_max)%N /\
  forall (r : PersistedRuntimeRecord) t, r ∈ rs -> pst_node_id r = node -> pst_fence_token r = Some t ->
    (t < rec_next_fence_token rec)%N \/ rec_next_fence_token rec = u64_max.
Proof.
  intros Hh. unfold begin_epoch, mbind, ste_bind.
  destruct (recover node w) as [w1 [rc|e]] eqn:Hrec; [|done].
  destruct (recover_holds node w rs Hh _ _ Hrec) as [[= ->]|(e & _ & ?)]; [|done].
  destruct (tick w1) as [w2 x] eqn:Ht1. apply tick_file in Ht1 as (_ & now1 & -> & _).
  destruct (tick w2) as [w3 x] eqn:Ht2. apply tick_file in Ht2 as (_ & now2 & -> & _).
  destruct (append_persisted _ w3) as [w4 [[]|e]]; [|done]. intros [= <- <-]. simpl.
  assert (in_range rs) as Hr by (destruct Hh as [[_ ->]|(bs & _ & Hj)]; [constructor|by eapply journal_file_range]).
  destruct (replay_bounds node rs Hr) as (_ & Hf & Hall). unfold u64_saturating_add, u64_max in *. split; [lia|].
  intros r t Hin Hn Ht. destruct (Hall r Hin Hn) as [_ Hle]. specialize (Hle t Ht). lia.
Qed.
Lemma restart_epoch node w w' rec : restart node w = (w', Ok rec) -> exists w1, begin_epoch node w = (w1, Ok rec).
Proof.
  unfold restart, map_error. unfold_monads. destruct (begin_epoch node w) as [w1 [rc|e]]; [|done]. simpl.
  destruct (recover_before_listeners _ _ w1) as [w2 [?|e]]; [|done]. intros [= <- <-]. by exists w1.
Qed.

(** C13: authority does not leak across a restart.  A Kernel runs any actions with
    the file as its journal, crashes at any point (the last write may be torn at
    any byte), and a new process starts from the file: every lease the new
    process ever issues, whatever it does, carries a token above that of every
    lease that was active before the crash, short of saturation at
    [u64::MAX], so no holder of the old process is mistaken for one of the new. *)
Theorem fences_survive_restart node epoch hb inventory next w xs crashed rs w2 rec hb' inventory' ys n l m l' :
  (epoch <= u64_max)%N -> (next <= u64_max)%N ->
  let before := perform_all xs (booted node epoch hb inventory next, w) in
  grows before.2 crashed -> holds crashed rs -> restart node crashed = (w2, Ok rec) ->
  let after := perform_all ys (booted node (rec_node_epoch rec) hb' inventory' (rec_next_fence_token rec), w2) in
  leases (rt_ledger before.1) !! n = Some l -> rl_state l = Active ->
  leases (rt_ledger after.1) !! m = Some l' ->
  (rl_fence_token l < rl_fence_token l')%N \/ rl_fence_token l' = u64_max.
Proof.
  intros He Hn before Hg Hh (w1 & Hr)%restart_epoch after Hl Hs Hl'.
  pose proof (durable_perform_all node _ xs _ _ (durable_boot node epoch hb inventory next w He Hn)) as Hd.
  fold before in Hd. destruct Hd as [_ _ _ Hrec].
  assert (recorded node (rl_fence_token l) crashed) as Hc.
  { eapply recorded_grows; [exact Hg|]. apply (Hrec n). by exists l. }
  destruct (recorded_in _ _ _ _ Hh Hc) as (r & Hin & Hrn & Hrt).
  destruct (begin_epoch_fence _ _ _ _ _ Hh Hr) as [Hmax Hfence].
  destruct (fs_ledger _ _ (perform_all_frame ys (booted node (rec_node_epoch rec) hb' inventory'
    (rec_next_fence_token rec), w2))) as [os Hos].
  pose proof (fence_inv_run _ os _ (fence_inv_initial inventory' _ Hmax)) as Hi. simpl in Hos. rewrite <- Hos in Hi.
  assert (N.max (rec_next_fence_token rec) 1 <= rl_fence_token l' <= u64_max)%N as Hrange.
  { apply (ft_range _ _ _ Hi m). unfold fences. rewrite lookup_fmap. unfold after in Hl'. by rewrite Hl'. }
  destruct (Hfence r _ Hin Hrn Hrt) as [?|?]; [left|right]; lia.
Qed.
End continuity.
