(* ===== verification/RestartExamples.v ===== *)
(** * A Kernel and its journal

    A Kernel over the concrete disk: it acquires a lease, crashes in the middle
    of its next record and starts again from the file. *)
From stdpp Require Import base gmap strings list sorting pretty.
From Stdlib Require Import Ascii Lia ZifyBool ZifyN.
From S2P Require Import Prelude Validation Contract KernelApi ResourceManager Ledger LedgerSpec LedgerExamples Binding.
From S2P Require Import Environment Instance World AuthorityState Events Authority AuthorityFrame AuthoritySteps.
From S2P Require Import AuthoritySpec AuthorityExamples RuntimeJournal JournalSpec JournalReplay JournalExamples RestartSpec.

(** The journal and the event store are the file, the other ports answer as the
    demonstration world does. *)
Definition answered {A} (m : world -> world * A) (d : disk) : disk * A := (d, (m (demo_world true)).2).
#[export] Instance disk_environment : Environment disk := {|
  env_now_unix_ms := answered env_now_unix_ms;
  env_instant := answered env_instant;
  env_uuid := answered env_uuid;
  env_backend_id := "world";
  env_preflight_for_binding b := answered (env_preflight_for_binding b);
  env_launch p b := answered (env_launch p b);
  env_stop h q := answered (env_stop h q);
  env_probe_inventory := answered env_probe_inventory;
  env_create_binding_for_generation r g := answered (env_create_binding_for_generation r g);
  env_resolve_worker_launch_plan k := answered (env_resolve_worker_launch_plan k);
  env_journal_append := RuntimeJournal.append;
  env_append_event := RuntimeJournal.append_event;
  env_events_for_source := RuntimeJournal.events_for_source;
  env_try_send n c := answered (env_try_send n c);
  env_hash_order _ s := bset_iter s;
  env_hash_order_permutation _ s := bset_iter_permutation s;
|}.
#[export] Instance disk_kernel : JournalledKernel disk.
Proof.
  by split.
Qed.

(** The first process acquires [lease-k] with token 7, and its next record is cut
    short by the crash; the second one acquires [lease-k2]. *)
Definition first_run : AuthorityRuntime * disk :=
  perform_all [acquire "default" "k" "w" alice]
    (booted node 1 WorkerHeartbeatConfig_default demo_inventory 7, fresh_disk 100000 []).
Definition acquired_line : PersistedRuntimeRecord :=
  persist_record 100 (mk_journal_record LeaseAcquired node 1 None (Some "lease-k") (Some 7%N) "LEASE_ACQUIRED" None).
Definition crashed_disk : disk :=
  with_file first_run.2 (Some (bytes_of first_run.2 ++ take 20 (encode_record launched))) 100000.
Definition second_run (d : disk) (rec : RecoveryState) : AuthorityRuntime * disk :=
  perform_all [acquire "default" "k2" "w2" bob]
    (booted node (rec_node_epoch rec) WorkerHeartbeatConfig_default demo_inventory (rec_next_fence_token rec), d).

Lemma crashed_holds : holds crashed_disk [acquired_line].
Proof.
  right. eexists. split; [reflexivity|].
  assert (bytes_of first_run.2 = file_of [acquired_line]) as -> by (vm_compute; reflexivity).
  destruct (drop 20 (encode_record launched)) as [|c rest] eqn:Hd; [vm_compute in Hd; discriminate Hd|].
  apply (jf_cut _ launched _ c rest); [repeat constructor|vm_compute; discriminate|].
  rewrite <- Hd. symmetry. apply take_drop.
Qed.
Lemma fences_survive_restart_witness :
  exists w2 rec l', restart node crashed_disk = (w2, Ok rec) /\
    leases (rt_ledger (second_run w2 rec).1) !! "lease-k2" = Some l' /\
    ((7 < rl_fence_token l')%N \/ rl_fence_token l' = u64_max).
Proof.
  assert (match restart node crashed_disk with
          | (w2, Ok rec) => is_Some (leases (rt_ledger (second_run w2 rec).1) !! "lease-k2")
          | _ => False
          end) as Hrun by (vm_compute; eexists; reflexivity).
  destruct (restart node crashed_disk) as [w2 [rec|]] eqn:Hr; [|destruct Hrun]. destruct Hrun as [l' Hl'].
  destruct (leases (rt_ledger first_run.1) !! "lease-k") as [l|] eqn:Hl; [|vm_compute in Hl; discriminate Hl].
  assert (((fun l => (rl_state l, rl_fence_token l)) <$> leases (rt_ledger first_run.1) !! "lease-k") = Some (Active, 7%N)) as Hv
    by (vm_compute; reflexivity).
  rewrite Hl in Hv. injection Hv as Hs Ht. exists w2, rec, l'. split; [reflexivity|]. split; [exact Hl'|]. rewrite <- Ht.
  apply (fences_survive_restart node 1 WorkerHeartbeatConfig_default demo_inventory 7 (fresh_disk 100000 [])
    [acquire "default" "k" "w" alice] crashed_disk [acquired_line] w2 rec WorkerHeartbeatConfig_default demo_inventory
    [acquire "default" "k2" "w2" bob] "lease-k" l "lease-k2" l').
  - vm_compute. discriminate.
  - vm_compute. discriminate.
  - eexists. reflexivity.
  - exact crashed_holds.
  - exact Hr.
  - exact Hl.
  - exact Hs.
  - exact Hl'.
Defined.
