(* ===== verification/Artifact.v ===== *)
(** * Artifact identities and portable directories

    [contracts/rust/cy-manifest/src/manifest/artifact.rs] and the hexadecimal
    digest of [canonical.rs]: artifact kinds and references, and the index of a
    directory that is published as one artifact.  An error of a directory is a
    constructor with the values its message shows, an error of a reference is
    its message. *)
From stdpp Require Import base gmap strings list sorting pretty.
From Stdlib Require Import Ascii Lia ZifyBool ZifyN.
From S2P Require Import Prelude Validation Contract KernelApi Binding.

Definition PORTABLE_DIRECTORY_MANIFEST_VERSION : N := 2.
Definition JCS_SAFE_INTEGER_MAX : N := 9007199254740991.

(** ** References *)
Record ArtifactKind := artifact_kind { kind_str : string }.
#[export] Instance ArtifactKind_eq_dec : EqDecision ArtifactKind.
Proof. solve_decision. Defined.
Definition ArtifactKind_new (value : string) : result string ArtifactKind :=
  if bool_decide (trim (bytes value) = []) || (128 <? byte_len value)%N || has_control (bytes value) then
    Err "artifact kind must be a bounded non-empty identifier"
  else Ok (artifact_kind value).
Definition ArtifactKind_generic : ArtifactKind := artifact_kind "generic".

(** [str::strip_prefix] and [str::starts_with] *)
Definition strip_prefix (prefix bs : list ascii) : option (list ascii) :=
  if bool_decide (take (length prefix) bs = prefix) then Some (drop (length prefix) bs) else None.
Definition starts_with (prefix s : string) : bool :=
  bool_decide (take (length (bytes prefix)) (bytes s) = bytes prefix).
Definition is_ascii_hexdigit (c : ascii) : bool := is_ascii_digit c || byte_in 97 102 c || byte_in 65 70 c.

(** The test [validate_digest] here and [validate_sha256] of the fabric share. *)
Definition sha256_digest (value : string) : bool :=
  is_some_and (fun hex =>
      (length hex =? 64)%nat && forallb (fun byte => is_ascii_hexdigit byte && negb (is_ascii_uppercase byte)) hex)
    (strip_prefix (bytes "sha256:") (bytes value)).
Definition validate_digest (value : string) : result string unit :=
  ensure (sha256_digest value) "digest must be lowercase sha256:<hex>".
(** [format!("artifact://sha256/{}", &digest[7..])] *)
Definition artifact_uri_of (digest : string) : string :=
  "artifact://sha256/" +:+ of_bytes (drop 7 (bytes digest)).

Record ArtifactRef := artifact_ref_of {
  art_uri : string;
  art_digest : string;
  art_size_bytes : N;
  art_kind : ArtifactKind;
  art_manifest_digest : option string;
}.
#[export] Instance ArtifactRef_eq_dec : EqDecision ArtifactRef.
Proof. solve_decision. Defined.
Definition ArtifactRef_validate (a : ArtifactRef) : result string unit :=
  _ ← ArtifactKind_new (kind_str (art_kind a));
  _ ← validate_digest (art_digest a);
  if negb (bool_decide (art_uri a = artifact_uri_of (art_digest a))) then
    Err "Artifact URI does not match its canonical digest"
  else
    match art_manifest_digest a with
    | Some manifest_digest => validate_digest manifest_digest
    | None => Ok tt
    end.

(** ** Directory entries *)
Inductive DirectoryError :=
| PathNotCanonical (path : string)
| PathControl (path : string)
| PathDrivePrefix (path : string)
| PathComponent (path : string)
| DigestInvalid (message : string)
| EntrySizeUnsafe
| VersionMismatch (version : N)
| LogicalSizeUnsafe
| NotSorted
| DuplicatePath (path : string)
| CaseCollision (existing prefix : string)
| LogicalSizeOverflow
| LogicalSizeMismatch (declared computed : N)
| FileDirectoryConflict (prefix : string).

Record ArtifactDirectoryEntry := directory_entry {
  ent_path : string;
  ent_digest : string;
  ent_size_bytes : N;
}.

Definition slash : ascii := "/".
(** [path.contains("//")] *)
Fixpoint has_double_slash (bs : list ascii) : bool :=
  match bs with
  | c :: rest => (bool_decide (c = slash) && bool_decide (head rest = Some slash)) || has_double_slash rest
  | [] => false
  end.
Definition has_byte (code : N) (bs : list ascii) : bool := existsb (byte_in code code) bs.
Definition drive_prefix (first : list ascii) : bool :=
  match first with
  | letter :: colon :: _ => byte_in 58 58 colon && (is_ascii_lowercase letter || is_ascii_uppercase letter)
  | _ => false
  end.
Definition validate_directory_path (path : string) : result DirectoryError unit :=
  let bs := bytes path in
  _ ← ensure (negb (bool_decide (path = "") || starts_with "/" path || bool_decide (last bs = Some slash)
                    || has_byte 92 bs || has_byte 0 bs || has_double_slash bs || starts_with "./" path))
        (PathNotCanonical path);
  _ ← ensure (negb (has_control bs)) (PathControl path);
  _ ← ensure (negb (drive_prefix (default [] (head (split_byte slash bs))))) (PathDrivePrefix path);
  ensure (negb (existsb (fun component => bool_decide (component = []) || bool_decide (component = bytes ".")
                                          || bool_decide (component = bytes "..")) (split_byte slash bs)))
    (PathComponent path).
Definition ArtifactDirectoryEntry_validate (e : ArtifactDirectoryEntry) : result DirectoryError unit :=
  _ ← validate_directory_path (ent_path e);
  _ ← map_err DigestInvalid (validate_digest (ent_digest e));
  ensure (ent_size_bytes e <=? JCS_SAFE_INTEGER_MAX)%N EntrySizeUnsafe.

(** [parts.join("/")] *)
Fixpoint join_slash (parts : list (list ascii)) : list ascii :=
  match parts with
  | [] => []
  | [part] => part
  | part :: rest => part ++ slash :: join_slash rest
  end.
Definition ascii_casefold_path (path : list ascii) : list ascii :=
  join_slash (map (map byte_to_lower) (split_byte slash path)).

(** ** Directories *)
Record PortableDirectoryManifest := portable_directory {
  dir_version : N;
  dir_files : list ArtifactDirectoryEntry;
  dir_size_bytes : N;
}.

(** The prefixes a path passes through, in order: [a], [a/b], ... *)
Fixpoint prefix_loop (first : bool) (prefix : list ascii) (components : list (list ascii)) : list (list ascii) :=
  match components with
  | [] => []
  | component :: rest =>
      let prefix := (if first then prefix else prefix ++ [slash]) ++ component in
      prefix :: prefix_loop false prefix rest
  end.
Definition path_prefixes (path : string) : list (list ascii) := prefix_loop true [] (split_byte slash (bytes path)).

Fixpoint insert_prefixes (casefold_prefixes : gmap (list ascii) (list ascii)) (prefixes : list (list ascii))
    : result DirectoryError (gmap (list ascii) (list ascii)) :=
  match prefixes with
  | [] => Ok casefold_prefixes
  | prefix :: rest =>
      let folded := ascii_casefold_path prefix in
      let existing := casefold_prefixes !! folded in
      let casefold_prefixes := <[folded := prefix]> casefold_prefixes in
      match existing with
      | Some existing =>
          if bool_decide (existing = prefix) then insert_prefixes casefold_prefixes rest
          else Err (CaseCollision (of_bytes existing) (of_bytes prefix))
      | None => insert_prefixes casefold_prefixes rest
      end
  end.

Record IndexState := index_state {
  ix_previous_path : option string;
  ix_exact_paths : gset string;
  ix_casefold_prefixes : gmap (list ascii) (list ascii);
  ix_logical_size : N;
}.
Fixpoint index_loop (st : IndexState) (files : list ArtifactDirectoryEntry) : result DirectoryError IndexState :=
  match files with
  | [] => Ok st
  | entry :: rest =>
      _ ← ArtifactDirectoryEntry_validate entry;
      _ ← ensure (negb (is_some_and (fun previous => bool_decide (key_le (ent_path entry) previous))
                          (ix_previous_path st))) NotSorted;
      _ ← ensure (negb (bool_decide (ent_path entry ∈ ix_exact_paths st))) (DuplicatePath (ent_path entry));
      casefold_prefixes ← insert_prefixes (ix_casefold_prefixes st) (path_prefixes (ent_path entry));
      logical_size ← ok_or LogicalSizeOverflow (u64_checked_add (ix_logical_size st) (ent_size_bytes entry));
      index_loop (index_state (Some (ent_path entry)) ({[ent_path entry]} ∪ ix_exact_paths st)
                    casefold_prefixes logical_size) rest
  end.
(** The second pass builds the same prefixes, with the separator after a prefix
    that is not empty, and leaves the last component out. *)
Fixpoint ancestor_loop (prefix : list ascii) (components : list (list ascii)) : list (list ascii) :=
  match components with
  | [] => []
  | component :: rest =>
      let prefix := (if bool_decide (prefix = []) then prefix else prefix ++ [slash]) ++ component in
      prefix :: ancestor_loop prefix rest
  end.
Definition path_ancestors (path : string) : list (list ascii) :=
  let components := split_byte slash (bytes path) in
  ancestor_loop [] (take (length components - 1) components).
Definition check_ancestors (exact_paths : gset string) (entry : ArtifactDirectoryEntry) : result DirectoryError unit :=
  try_for_each (fun prefix =>
    ensure (negb (bool_decide (of_bytes prefix ∈ exact_paths))) (FileDirectoryConflict (of_bytes prefix)))
    (path_ancestors (ent_path entry)).
Definition PortableDirectoryManifest_validate (m : PortableDirectoryManifest) : result DirectoryError unit :=
  _ ← ensure (dir_version m =? PORTABLE_DIRECTORY_MANIFEST_VERSION)%N (VersionMismatch (dir_version m));
  _ ← ensure (dir_size_bytes m <=? JCS_SAFE_INTEGER_MAX)%N LogicalSizeUnsafe;
  st ← index_loop (index_state None ∅ ∅ 0) (dir_files m);
  _ ← ensure (ix_logical_size st =? dir_size_bytes m)%N (LogicalSizeMismatch (dir_size_bytes m) (ix_logical_size st));
  try_for_each (check_ancestors (ix_exact_paths st)) (dir_files m).

(** ** The digest of a directory

    [serde_jcs] and [sha2] turn the index into the 32 bytes of a digest. *)
Class ManifestHash := {
  canonical_sha256 : PortableDirectoryManifest -> list ascii;
  canonical_sha256_length : forall m, length (canonical_sha256 m) = 32;
}.
(** [char::from_digit(n, 16)] *)
Definition hex_digit (n : N) : ascii := ascii_of_N (if n <? 10 then 48 + n else 87 + n)%N.
Fixpoint to_hex (bs : list ascii) : list ascii :=
  match bs with
  | [] => []
  | b :: rest =>
      hex_digit (N.shiftr (N_of_ascii b) 4) :: hex_digit (N.land (N_of_ascii b) 15) :: to_hex rest
  end.
Section digest.
Context `{ManifestHash}.
Definition computed_digest (m : PortableDirectoryManifest) : string :=
  "sha256:" +:+ of_bytes (to_hex (canonical_sha256 m)).
Definition artifact_ref (m : PortableDirectoryManifest) (kind : ArtifactKind) : result DirectoryError ArtifactRef :=
  _ ← PortableDirectoryManifest_validate m;
  let digest := computed_digest m in
  Ok (artifact_ref_of (artifact_uri_of digest) digest (dir_size_bytes m) kind (Some digest)).
End digest.
