(* ===== verification/NodeMessages.v ===== *)
(** * Messages of the node control protocol

    The messages of [core/v1/node_control.proto] (and [NodeRef] of
    [common.proto]) that the execution fabric reads and writes, as the generated
    Rust structs hold them. *)
From stdpp Require Import base gmap strings list.
From Stdlib Require Import Ascii.
From S2P Require Import Prelude Messages.

Module NodeControl.

(** [LeaseState::try_from] of the semantic contract, which only agents use. *)
Definition LeaseState_try_from (value : Z) : option Proto.LeaseStateEnum :=
  match value with
  | 0 => Some Proto.LsUnspecified | 1 => Some Proto.LsActive | 2 => Some Proto.LsReleasing | 3 => Some Proto.LsReleased
  | 4 => Some Proto.LsExpired | 5 => Some Proto.LsRevoked | 6 => Some Proto.LsFailed | _ => None
  end%Z.

Record NodeRef := node_ref { nr_node_id : string; nr_node_epoch : N }.
#[export] Instance NodeRef_eq_dec : EqDecision NodeRef.
Proof. solve_decision. Defined.

Inductive ExecutionAttachmentType := AttachmentUnspecified | HostAgent | ContainerAgent | ProviderManaged.
#[export] Instance ExecutionAttachmentType_eq_dec : EqDecision ExecutionAttachmentType.
Proof. solve_decision. Defined.
Definition ExecutionAttachmentType_try_from (value : Z) : option ExecutionAttachmentType :=
  match value with
  | 0 => Some AttachmentUnspecified | 1 => Some HostAgent | 2 => Some ContainerAgent | 3 => Some ProviderManaged
  | _ => None
  end%Z.
Definition ExecutionAttachmentType_as_i32 (t : ExecutionAttachmentType) : Z :=
  match t with AttachmentUnspecified => 0 | HostAgent => 1 | ContainerAgent => 2 | ProviderManaged => 3 end.
#[export] Program Instance ExecutionAttachmentType_countable : Countable ExecutionAttachmentType :=
  inj_countable ExecutionAttachmentType_as_i32 ExecutionAttachmentType_try_from _.
Next Obligation. by intros []. Qed.
Definition ExecutionAttachmentType_as_str_name (t : ExecutionAttachmentType) : string :=
  match t with
  | AttachmentUnspecified => "EXECUTION_ATTACHMENT_TYPE_UNSPECIFIED"
  | HostAgent => "EXECUTION_ATTACHMENT_TYPE_HOST_AGENT"
  | ContainerAgent => "EXECUTION_ATTACHMENT_TYPE_CONTAINER_AGENT"
  | ProviderManaged => "EXECUTION_ATTACHMENT_TYPE_PROVIDER_MANAGED"
  end.

Inductive PersistenceClass := PersistenceUnspecified | Persistent | Ephemeral.
#[export] Instance PersistenceClass_eq_dec : EqDecision PersistenceClass.
Proof. solve_decision. Defined.
Definition PersistenceClass_try_from (value : Z) : option PersistenceClass :=
  match value with
  | 0 => Some PersistenceUnspecified | 1 => Some Persistent | 2 => Some Ephemeral | _ => None
  end%Z.

Inductive RestartCapability := RestartUnspecified | RestartNone | HostSupervised | ProviderSupervised.
#[export] Instance RestartCapability_eq_dec : EqDecision RestartCapability.
Proof. solve_decision. Defined.
Definition RestartCapability_try_from (value : Z) : option RestartCapability :=
  match value with
  | 0 => Some RestartUnspecified | 1 => Some RestartNone | 2 => Some HostSupervised | 3 => Some ProviderSupervised
  | _ => None
  end%Z.
Definition RestartCapability_as_str_name (r : RestartCapability) : string :=
  match r with
  | RestartUnspecified => "RESTART_CAPABILITY_UNSPECIFIED"
  | RestartNone => "RESTART_CAPABILITY_NONE"
  | HostSupervised => "RESTART_CAPABILITY_HOST_SUPERVISED"
  | ProviderSupervised => "RESTART_CAPABILITY_PROVIDER_SUPERVISED"
  end.

Inductive NodeLifecycleState := NodeUnspecified | NodeOnline | NodeOffline | NodeLost | NodeTerminated.
#[export] Instance NodeLifecycleState_eq_dec : EqDecision NodeLifecycleState.
Proof. solve_decision. Defined.
Inductive ConnectivityMode := ModeUnspecified | ModeLocal | ModeLanDirect | ModeDirect | ModeOverlay | ModeRelay.
#[export] Instance ConnectivityMode_eq_dec : EqDecision ConnectivityMode.
Proof. solve_decision. Defined.

Record ExecutionNodeDescriptor := node_descriptor {
  nd_node : option NodeRef;
  nd_node_type : string;
  nd_persistent : option bool;
}.
#[export] Instance ExecutionNodeDescriptor_eq_dec : EqDecision ExecutionNodeDescriptor.
Proof. solve_decision. Defined.

Inductive DesiredRuntimeState := DesiredUnspecified | DesiredRunning | DesiredStopped.
#[export] Instance DesiredRuntimeState_eq_dec : EqDecision DesiredRuntimeState.
Proof. solve_decision. Defined.
Definition DesiredRuntimeState_try_from (value : Z) : option DesiredRuntimeState :=
  match value with 0 => Some DesiredUnspecified | 1 => Some DesiredRunning | 2 => Some DesiredStopped | _ => None end%Z.
Definition DesiredRuntimeState_as_i32 (s : DesiredRuntimeState) : Z :=
  match s with DesiredUnspecified => 0 | DesiredRunning => 1 | DesiredStopped => 2 end.
Inductive RuntimeObservedState :=
| ObservedUnspecified | ObservedEnrolled | ObservedStaging | ObservedStarting | ObservedRunning | ObservedStopping
| ObservedStopped | ObservedFailed | ObservedLost.
#[export] Instance RuntimeObservedState_eq_dec : EqDecision RuntimeObservedState.
Proof. solve_decision. Defined.
Inductive TerminationClassification :=
| TerminationUnspecified | TerminationExpected | TerminationGraceful | TerminationUnexpectedLoss
| TerminationExternal | TerminationUnknownLoss.
#[export] Instance TerminationClassification_eq_dec : EqDecision TerminationClassification.
Proof. solve_decision. Defined.

Record AccountScope := account_scope { as_user_id : string; as_organization_id : string; as_workspace_id : string }.
Record RuntimeRef := runtime_ref { rr_identity : option Proto.IdentityMessage }.
Record RuntimeProfile := runtime_profile { rp_image_digest : string; rp_resolved_digest : string }.
Record WorkloadIdentity := workload_identity_of {
  wi_identity : option Proto.IdentityMessage;
  wi_scope : option AccountScope;
  wi_runtime : option RuntimeRef;
  wi_allowed_actions : list string;
  wi_expires_at : option Proto.Timestamp;
}.
Record ExecutionAgentHello := agent_hello {
  ah_runtime : option RuntimeRef;
  ah_scope : option AccountScope;
  ah_attachment_type : Z;
  ah_persistence_class : Z;
  ah_agent_version : string;
  ah_min_protocol_version : N;
  ah_max_protocol_version : N;
  ah_resume_token : string;
  ah_capabilities : list Proto.CapabilityMessage;
  ah_enrollment_proof : string;
  ah_node : option ExecutionNodeDescriptor;
  ah_restart_capability : Z;
}.

Inductive ArtifactTransferPath := PathUnspecified | LanDirect | UserProvidedObjectStore.
#[export] Instance ArtifactTransferPath_eq_dec : EqDecision ArtifactTransferPath.
Proof. solve_decision. Defined.
Definition ArtifactTransferPath_try_from (value : Z) : option ArtifactTransferPath :=
  match value with 0 => Some PathUnspecified | 1 => Some LanDirect | 2 => Some UserProvidedObjectStore | _ => None end%Z.
Record ArtifactTransferSource := transfer_source {
  tsrc_peer_id : string;
  tsrc_replica_id : string;
  tsrc_locator : string;
  tsrc_transfer_ticket : string;
  tsrc_path : Z;
  tsrc_locator_expires_at_unix_ms : N;
}.
Record ArtifactPartSource := part_source { ps_part_index : N; ps_peer_id : string; ps_replica_id : string }.
(** The deprecated [replica_uri], which the fabric does not read, is left out. *)
Record ArtifactTransferSpec := transfer_spec {
  sp_artifact_uri : string;
  sp_digest : string;
  sp_size_bytes : N;
  sp_manifest_digest : string;
  sp_part_size_bytes : N;
  sp_part_digests : list string;
  sp_sources : list ArtifactTransferSource;
  sp_part_sources : list ArtifactPartSource;
  sp_destination_peer_id : string;
  sp_artifact_kind : string;
}.
Record ArtifactLocalInput := local_input {
  li_artifact_uri : string;
  li_digest : string;
  li_size_bytes : N;
  li_artifact_kind : string;
  li_manifest_digest : string;
}.
Record RuntimeAssignment := runtime_assignment {
  as_assignment_id : string;
  as_runtime : option RuntimeRef;
  as_operation : option Proto.IdentityMessage;
  as_attempt_id : string;
  as_lease : option Proto.LeaseMessage;
  as_workload_identity : option WorkloadIdentity;
  as_profile : option RuntimeProfile;
  as_desired_state : Z;
  as_artifacts : list ArtifactTransferSpec;
  as_local_artifacts : list ArtifactLocalInput;
}.
End NodeControl.
