(* ===== verification/Placement.v ===== *)
(** * Execution placement

    [framework/crates/cy-execution-fabric/src]: the execution capability of a
    node ([capability.rs]) and the choice of an execution target
    ([placement.rs]).  A function that pushes rejection reasons onto a vector
    returns the reasons it pushes. *)
From stdpp Require Import base gmap strings list sorting pretty.
From Stdlib Require Import Ascii Lia ZifyBool ZifyN.
From S2P Require Import Prelude Validation Contract KernelApi Binding Messages Wire NodeMessages Artifact.
Import NodeControl.

Record FabricContractError := fabric_error { fe_reason_code : string; fe_message : string }.

(** ** Execution capabilities ([capability.rs]) *)
Definition EXECUTION_CAPABILITY_ID : string := "cyrene.execution.fabric.v1".
Definition ARTIFACT_TRANSFER_CAPABILITY_ID : string := "cyrene.artifact.transfer.v1".
(** [bool::to_string] *)
Definition bool_to_string (b : bool) : string := if b then "true" else "false".

Record ExecutionCapabilityEnvelope := capability_envelope {
  ce_attachment : ExecutionAttachmentType;
  ce_persistent : bool;
  ce_restart : RestartCapability;
  ce_host_supervision : bool;
  ce_runtime_supervision : bool;
  ce_provider_supervision : bool;
  ce_checkpoint_resume : bool;
  ce_persistent_volume : bool;
  ce_persistent_cache : bool;
  ce_outbound_https : bool;
  ce_inbound_available : bool;
  ce_peer_transfer : bool;
  ce_cpu_millicores : option N;
  ce_ram_bytes : option N;
  ce_accelerator : option string;
  ce_accelerator_count : option N;
  ce_vram_bytes : option N;
}.
Definition insert_optional (key : string) (value : option N) (properties : gmap string string) : gmap string string :=
  match value with Some value => <[key := pretty value]> properties | None => properties end.
Definition into_capability (e : ExecutionCapabilityEnvelope) : Proto.CapabilityMessage :=
  let properties : gmap string string := list_to_map [
    ("attachment_type", ExecutionAttachmentType_as_str_name (ce_attachment e));
    ("persistent", bool_to_string (ce_persistent e));
    ("restart_capability", RestartCapability_as_str_name (ce_restart e));
    ("host_supervision", bool_to_string (ce_host_supervision e));
    ("runtime_supervision", bool_to_string (ce_runtime_supervision e));
    ("provider_supervision", bool_to_string (ce_provider_supervision e));
    ("checkpoint_resume", bool_to_string (ce_checkpoint_resume e));
    ("persistent_volume", bool_to_string (ce_persistent_volume e));
    ("persistent_cache", bool_to_string (ce_persistent_cache e));
    ("outbound_https", bool_to_string (ce_outbound_https e));
    ("inbound_available", bool_to_string (ce_inbound_available e));
    ("peer_transfer", bool_to_string (ce_peer_transfer e))] in
  let properties := insert_optional "cpu_millicores" (ce_cpu_millicores e) properties in
  let properties := insert_optional "ram_bytes" (ce_ram_bytes e) properties in
  let properties := insert_optional "accelerator_count" (ce_accelerator_count e) properties in
  let properties := insert_optional "vram_bytes" (ce_vram_bytes e) properties in
  let properties :=
    match ce_accelerator e with Some accelerator => <["accelerator" := accelerator]> properties | None => properties end in
  Proto.capability EXECUTION_CAPABILITY_ID 1 properties.
Definition execution_capability (attachment : ExecutionAttachmentType) (persistent : bool) (restart : RestartCapability)
    : Proto.CapabilityMessage :=
  into_capability (capability_envelope attachment persistent restart
    (bool_decide (restart = HostSupervised)) (negb (bool_decide (attachment = ProviderManaged)))
    (bool_decide (restart = ProviderSupervised)) false false false true false true None None None None None).
Definition artifact_transfer_capability : Proto.CapabilityMessage :=
  Proto.capability ARTIFACT_TRANSFER_CAPABILITY_ID 1
    (list_to_map [("https_range", "true"); ("multipart", "true"); ("resume", "true"); ("peer_transfer", "true")]).
Definition validate_execution_capability (capabilities : list Proto.CapabilityMessage)
    (attachment : ExecutionAttachmentType) (persistent : bool) (restart : RestartCapability)
    : result FabricContractError unit :=
  capability ← ok_or (fabric_error "EXECUTION_CAPABILITY_REQUIRED" "canonical execution Capability is required")
    (snd <$> list_find (fun value => Proto.cap_id value = EXECUTION_CAPABILITY_ID /\ (1 <= Proto.cap_revision value)%N)
       capabilities);
  let expected := [("attachment_type", ExecutionAttachmentType_as_str_name attachment);
                   ("persistent", bool_to_string persistent);
                   ("restart_capability", RestartCapability_as_str_name restart)] in
  if existsb (fun '(key, value) => negb (bool_decide (Proto.cap_properties capability !! key = Some value))) expected then
    Err (fabric_error "EXECUTION_CAPABILITY_MISMATCH"
           "typed execution lifecycle fields disagree with canonical Capability properties")
  else Ok tt.

(** ** Requests and candidates ([placement.rs]) *)
Record PlacementPolicy := placement_policy {
  pol_allowed_residencies : gset string;
  pol_required_trust_domain : option string;
  pol_required_classifications : gset string;
  pol_required_policy_tags : gset string;
  pol_maximum_total_cost_microunits : option N;
}.
Record NetworkRequirements := network_requirements {
  net_outbound_https : bool;
  net_inbound_available : bool;
  net_peer_transfer : bool;
}.
Record ExecutionPlacementRequest := placement_request {
  plr_capability_requirements : list Proto.CapabilityRequirementMessage;
  plr_resource_query : ResourceQuery;
  plr_allowed_attachments : gset ExecutionAttachmentType;
  plr_persistent : option bool;
  plr_restart_capability : option RestartCapability;
  plr_checkpoint_resume : bool;
  plr_network : NetworkRequirements;
  plr_artifacts : list ArtifactRef;
  plr_artifact_policy_scope : string;
  plr_policy : PlacementPolicy;
  plr_latest_start_unix_ms : option N;
  plr_now_unix_ms : N;
}.
Record ArtifactTransferQuote := transfer_quote {
  tq_bytes_to_transfer : N;
  tq_estimated_transfer_millis : N;
  tq_cost_microunits : N;
  tq_source_count : N;
  tq_authorization_valid_until_unix_ms : N;
}.
Inductive ArtifactAvailability :=
| VerifiedLocal (inventory_generation : N)
| AuthorizedTransfer (quote : ArtifactTransferQuote).
Record ArtifactPlacementQuote := placement_quote {
  aq_quote_id : string;
  aq_artifact : ArtifactRef;
  aq_destination_peer_id : string;
  aq_policy_scope : string;
  aq_observed_at_unix_ms : N;
  aq_valid_until_unix_ms : N;
  aq_availability : ArtifactAvailability;
}.
Record ExecutionTargetCandidate := target_candidate {
  cnd_node : NodeRef;
  cnd_lifecycle_state : NodeLifecycleState;
  cnd_attachment : ExecutionAttachmentType;
  cnd_persistent : bool;
  cnd_restart_capability : RestartCapability;
  cnd_capabilities : list Proto.CapabilityMessage;
  cnd_provider : Provider;
  cnd_provider_snapshot : ProviderSnapshot;
  cnd_residency : string;
  cnd_trust_domain : string;
  cnd_classifications : gset string;
  cnd_policy_tags : gset string;
  cnd_artifact_destination_peer_id : string;
  cnd_artifact_quotes : list ArtifactPlacementQuote;
  cnd_execution_cost_microunits : N;
  cnd_available_at_unix_ms : N;
  cnd_reliability_score : N;
}.
Record PlacementReason := placement_reason { pr_reason_code : string; pr_message : string }.
Record ResourceMatchEvidence := match_evidence {
  rm_provider : Identity;
  rm_snapshot_generation : N;
  rm_matched_resources : list Identity;
  rm_required_count : N;
}.
Record PlacementScore := placement_score {
  sc_local_artifact_bytes : N;
  sc_transfer_bytes : N;
  sc_estimated_transfer_millis : N;
  sc_total_cost_microunits : N;
  sc_estimated_ready_at_unix_ms : N;
  sc_reliability_score : N;
}.
Record CandidateEvaluation := candidate_evaluation {
  ev_node : NodeRef;
  ev_eligible : bool;
  ev_reasons : list PlacementReason;
  ev_resource_match : option ResourceMatchEvidence;
  ev_score : option PlacementScore;
}.
Record PlacementDecision := placement_decision {
  dec_selected_node : option NodeRef;
  dec_evaluations : list CandidateEvaluation;
}.

(** ** Validating the request *)
Definition requirement_of (r : Proto.CapabilityRequirementMessage) : CapabilityRequirement :=
  mk_requirement (Proto.req_id r) (Proto.req_minimum_revision r) (Proto.req_required_properties r).
Definition capability_of (c : Proto.CapabilityMessage) : Capability :=
  mk_capability (Proto.cap_id c) (Proto.cap_revision c) (Proto.cap_properties c).

Definition validate_requirements (requirements : list Proto.CapabilityRequirementMessage)
    : result FabricContractError unit :=
  let error := fabric_error "CAPABILITY_REQUIREMENT_INVALID"
                 "capability requirements need unique identities and non-zero revisions" in
  for_unique (fun requirement => ensure (is_ok (CapabilityRequirement_validate (requirement_of requirement))) error)
    Proto.req_id error ∅ requirements.
Definition validate_request (request : ExecutionPlacementRequest) : result FabricContractError unit :=
  _ ← ensure (negb (plr_now_unix_ms request =? 0)%N)
        (fabric_error "PLACEMENT_TIME_REQUIRED" "placement requires an explicit current timestamp");
  _ ← ensure (negb (is_some_and (fun latest => latest <? plr_now_unix_ms request)%N (plr_latest_start_unix_ms request)))
        (fabric_error "PLACEMENT_DEADLINE_EXPIRED" "latest start time is earlier than the placement timestamp");
  _ ← validate_requirements (plr_capability_requirements request);
  _ ← map_err (fun error => fabric_error "RESOURCE_QUERY_INVALID" (ce_reason_code error +:+ ": " +:+ ce_message error))
        (ResourceQuery_validate (plr_resource_query request));
  _ ← ensure (negb (bool_decide (AttachmentUnspecified ∈ plr_allowed_attachments request)
                    || bool_decide (plr_restart_capability request = Some RestartUnspecified)))
        (fabric_error "LIFECYCLE_REQUIREMENT_INVALID"
           "unspecified lifecycle values cannot be placement requirements");
  let policy := plr_policy request in
  _ ← ensure (negb (is_some_and (fun domain => bool_decide (domain = "")) (pol_required_trust_domain policy)
                    || bool_decide ("" ∈ pol_allowed_residencies policy)
                    || bool_decide ("" ∈ pol_required_classifications policy)
                    || bool_decide ("" ∈ pol_required_policy_tags policy)))
        (fabric_error "PLACEMENT_POLICY_INVALID" "placement policy values must be non-empty");
  _ ← for_unique (fun artifact => map_err (fabric_error "ARTIFACT_REQUIREMENT_INVALID") (ArtifactRef_validate artifact))
        art_digest
        (fabric_error "ARTIFACT_REQUIREMENT_DUPLICATE" "placement request contains a duplicate Artifact identity")
        ∅ (plr_artifacts request);
  ensure (negb (negb (bool_decide (plr_artifacts request = [])) && bool_decide (plr_artifact_policy_scope request = "")))
    (fabric_error "ARTIFACT_POLICY_SCOPE_REQUIRED"
       "Artifact placement requires an explicit Artifact Plane policy scope").

(** ** Evaluating a candidate *)

(** [if condition { reasons.push(PlacementReason::new(code, message)); }] *)
Definition push_if (condition : bool) (code message : string) : list PlacementReason :=
  if condition then [placement_reason code message] else [].

Section evaluate.
Context (request : ExecutionPlacementRequest) (candidate : ExecutionTargetCandidate).

Definition validate_candidate_identity : list PlacementReason :=
  push_if (bool_decide (nr_node_id (cnd_node candidate) = "") || (nr_node_epoch (cnd_node candidate) =? 0)%N)
    "NODE_IDENTITY_INVALID" "candidate requires a NodeId and positive Node epoch" ++
  push_if (bool_decide (cnd_residency candidate = "") || bool_decide (cnd_trust_domain candidate = ""))
    "EXECUTION_POLICY_FACTS_INVALID" "candidate execution residency and trust domain are required" ++
  push_if (cnd_available_at_unix_ms candidate =? 0)%N
    "AVAILABILITY_INVALID" "candidate availability timestamp is required" ++
  push_if (negb (bool_decide (cnd_lifecycle_state candidate = NodeOnline)))
    "NODE_NOT_ONLINE" "candidate Node is not online" ++
  push_if (bool_decide (cnd_attachment candidate = AttachmentUnspecified)
           || bool_decide (cnd_restart_capability candidate = RestartUnspecified))
    "NODE_LIFECYCLE_INVALID" "candidate lifecycle facts must be explicit" ++
  push_if (negb (bool_decide (plr_allowed_attachments request = ∅))
           && negb (bool_decide (cnd_attachment candidate ∈ plr_allowed_attachments request)))
    "ATTACHMENT_NOT_ALLOWED" "candidate attachment type is not allowed" ++
  push_if (is_some_and (fun value => negb (Bool.eqb value (cnd_persistent candidate))) (plr_persistent request))
    "PERSISTENCE_REQUIREMENT_UNSATISFIED" "candidate persistence does not satisfy the request" ++
  push_if (is_some_and (fun value => negb (bool_decide (value = cnd_restart_capability candidate)))
             (plr_restart_capability request))
    "RESTART_REQUIREMENT_UNSATISFIED" "candidate restart capability does not satisfy the request" ++
  push_if (is_err (Provider_validate (cnd_provider candidate))
           || is_err (ProviderSnapshot_validate (cnd_provider_snapshot candidate))
           || negb (bool_decide (prov_identity (cnd_provider candidate) = snap_provider (cnd_provider_snapshot candidate))))
    "PROVIDER_OBSERVATION_INVALID" "candidate Provider or ProviderSnapshot is invalid or mismatched" ++
  push_if (negb (bool_decide (prov_state (cnd_provider candidate) = ProviderReady)))
    "PROVIDER_NOT_READY" "candidate Provider is not ready" ++
  push_if ((plr_now_unix_ms request <? snap_sampled_at_unix_ms (cnd_provider_snapshot candidate))%N
           || (snap_expires_at_unix_ms (cnd_provider_snapshot candidate) <=? plr_now_unix_ms request)%N)
    "PROVIDER_SNAPSHOT_STALE" "candidate ProviderSnapshot is not current at placement time".

Fixpoint capabilities_invalid (capability_ids : gset string) (capabilities : list Proto.CapabilityMessage) : bool :=
  match capabilities with
  | [] => false
  | capability :: rest =>
      is_err (Capability_validate (capability_of capability))
      || bool_decide (Proto.cap_id capability ∈ capability_ids)
      || capabilities_invalid ({[Proto.cap_id capability]} ∪ capability_ids) rest
  end.
Definition requirement_met (requirement : Proto.CapabilityRequirementMessage) (capability : Proto.CapabilityMessage) : bool :=
  bool_decide (Proto.cap_id capability = Proto.req_id requirement)
  && (Proto.req_minimum_revision requirement <=? Proto.cap_revision capability)%N
  && forallb (fun '(key, value) =>
       is_some_and (fun actual => bool_decide (actual = value)) (Proto.cap_properties capability !! key))
       (map_to_list (Proto.req_required_properties requirement)).
Definition is_transfer (quote : ArtifactPlacementQuote) : bool :=
  match aq_availability quote with AuthorizedTransfer _ => true | VerifiedLocal _ => false end.
Definition artifact_transfer_required : bool := existsb is_transfer (cnd_artifact_quotes candidate).
Definition execution_property (property : string) : option string :=
  execution ← snd <$> list_find (fun capability => Proto.cap_id capability = EXECUTION_CAPABILITY_ID)
                (cnd_capabilities candidate);
  Proto.cap_properties execution !! property.
Definition require_property (required : bool) (property : string) : list PlacementReason :=
  push_if (required && negb (bool_decide (execution_property property = Some "true")))
    "EXECUTION_BEHAVIOR_UNSATISFIED" ("candidate execution Capability lacks required " +:+ property).
Definition transfer_capable (capability : Proto.CapabilityMessage) : bool :=
  bool_decide (Proto.cap_id capability = ARTIFACT_TRANSFER_CAPABILITY_ID)
  && (1 <=? Proto.cap_revision capability)%N
  && forallb (fun property => bool_decide (Proto.cap_properties capability !! property = Some "true"))
       ["https_range"; "multipart"; "resume"; "peer_transfer"].
Definition validate_candidate_capabilities : list PlacementReason :=
  push_if (capabilities_invalid ∅ (cnd_capabilities candidate))
    "CAPABILITY_OBSERVATION_INVALID"
    "candidate capabilities need unique identities, non-zero revisions, and non-empty properties" ++
  push_if (is_err (validate_execution_capability (cnd_capabilities candidate) (cnd_attachment candidate)
                     (cnd_persistent candidate) (cnd_restart_capability candidate)))
    "EXECUTION_CAPABILITY_INVALID" "typed lifecycle facts disagree with the canonical execution Capability" ++
  push_if (negb (forallb (fun requirement => existsb (requirement_met requirement) (cnd_capabilities candidate))
                   (plr_capability_requirements request)))
    "CAPABILITY_REQUIREMENTS_UNSATISFIED" "candidate does not satisfy every canonical Capability requirement" ++
  require_property (plr_checkpoint_resume request) "checkpoint_resume" ++
  require_property (net_outbound_https (plr_network request) || artifact_transfer_required) "outbound_https" ++
  require_property (net_inbound_available (plr_network request)) "inbound_available" ++
  require_property (net_peer_transfer (plr_network request) || artifact_transfer_required) "peer_transfer" ++
  push_if (artifact_transfer_required && negb (existsb transfer_capable (cnd_capabilities candidate)))
    "ARTIFACT_TRANSFER_CAPABILITY_UNSATISFIED"
    "remote Artifact placement requires the canonical HTTPS range transfer Capability".

Definition policy_facts_match (policy : PlacementPolicy) (residency trust_domain : string)
    (classifications policy_tags : gset string) : bool :=
  (bool_decide (pol_allowed_residencies policy = ∅) || bool_decide (residency ∈ pol_allowed_residencies policy))
  && map_or true (fun required => bool_decide (required = trust_domain)) (pol_required_trust_domain policy)
  && bool_decide (pol_required_classifications policy ⊆ classifications)
  && bool_decide (pol_required_policy_tags policy ⊆ policy_tags).
Definition validate_policy : list PlacementReason :=
  push_if (negb (policy_facts_match (plr_policy request) (cnd_residency candidate) (cnd_trust_domain candidate)
                   (cnd_classifications candidate) (cnd_policy_tags candidate)))
    "EXECUTION_POLICY_DENIED" "candidate execution policy facts do not satisfy the request" ++
  push_if (negb (bool_decide (plr_artifacts request = []))
           && (bool_decide (cnd_artifact_destination_peer_id candidate = "")
               || bool_decide (cnd_artifact_destination_peer_id candidate = nr_node_id (cnd_node candidate))))
    "ARTIFACT_DESTINATION_INVALID" "Artifact destination Peer must be explicit and distinct from Node identity".

(** ** Artifact quotes *)
Record QuoteIndex := quote_index {
  qi_reasons : list PlacementReason;
  qi_quotes_by_digest : gmap string ArtifactPlacementQuote;
  qi_quote_ids : gset string;
}.
Definition index_quote (st : QuoteIndex) (quote : ArtifactPlacementQuote) : QuoteIndex :=
  let id := aq_quote_id quote in
  let digest := art_digest (aq_artifact quote) in
  quote_index
    (qi_reasons st ++
     push_if (bool_decide (id = "") || bool_decide (id ∈ qi_quote_ids st))
       "ARTIFACT_QUOTE_IDENTITY_INVALID" "Artifact placement quotes require unique non-empty identities" ++
     push_if (bool_decide (is_Some (qi_quotes_by_digest st !! digest)))
       "ARTIFACT_QUOTE_DUPLICATE" "candidate contains duplicate quotes for one Artifact")
    (<[digest := quote]> (qi_quotes_by_digest st))
    (if bool_decide (id = "") then qi_quote_ids st else {[id]} ∪ qi_quote_ids st).
Definition quotes_indexed : QuoteIndex := foldl index_quote (quote_index [] ∅ ∅) (cnd_artifact_quotes candidate).

Record ArtifactScore := artifact_score {
  as_local_bytes : N;
  as_transfer_bytes : N;
  as_estimated_transfer_millis : N;
  as_cost_microunits : N;
  as_source_count : N;
}.

(** The variables of the loop over the requested artifacts. *)
Record ArtifactLoop := artifact_loop {
  al_reasons : list PlacementReason;
  al_score : ArtifactScore;
  al_has_local_artifacts : bool;
  al_local_valid_until_unix_ms : N;
  al_transfer_valid_until_unix_ms : N;
}.
Definition reject_artifact (st : ArtifactLoop) (code message : string) : ArtifactLoop :=
  artifact_loop (al_reasons st ++ [placement_reason code message]) (al_score st) (al_has_local_artifacts st)
    (al_local_valid_until_unix_ms st) (al_transfer_valid_until_unix_ms st).
Definition accept_local (st : ArtifactLoop) (bytes valid_until : N) : ArtifactLoop :=
  let score := al_score st in
  artifact_loop (al_reasons st)
    (artifact_score bytes (as_transfer_bytes score) (as_estimated_transfer_millis score) (as_cost_microunits score)
       (as_source_count score))
    true (N.min (al_local_valid_until_unix_ms st) valid_until) (al_transfer_valid_until_unix_ms st).
Definition accept_transfer (st : ArtifactLoop) (bytes millis cost sources valid_until : N) : ArtifactLoop :=
  artifact_loop (al_reasons st) (artifact_score (as_local_bytes (al_score st)) bytes millis cost sources)
    (al_has_local_artifacts st) (al_local_valid_until_unix_ms st)
    (N.min (al_transfer_valid_until_unix_ms st) valid_until).

Definition evaluate_local (artifact : ArtifactRef) (quote : ArtifactPlacementQuote) (inventory_generation : N)
    (st : ArtifactLoop) : ArtifactLoop :=
  if (inventory_generation =? 0)%N then
    reject_artifact st "ARTIFACT_LOCALITY_EVIDENCE_INVALID" "local Artifact evidence requires an inventory generation"
  else
    match u64_checked_add (as_local_bytes (al_score st)) (art_size_bytes artifact) with
    | Some value => accept_local st value (aq_valid_until_unix_ms quote)
    | None => reject_artifact st "ARTIFACT_ESTIMATE_OVERFLOW" "local Artifact byte count overflowed"
    end.
Definition evaluate_transfer (artifact : ArtifactRef) (quote : ArtifactPlacementQuote) (transfer : ArtifactTransferQuote)
    (st : ArtifactLoop) : ArtifactLoop :=
  if negb (tq_bytes_to_transfer transfer =? art_size_bytes artifact)%N || (tq_source_count transfer =? 0)%N then
    reject_artifact st "ARTIFACT_TRANSFER_QUOTE_INVALID"
      "Artifact transfer quote must cover the Artifact and use at least one source"
  else
    match u64_checked_add (as_estimated_transfer_millis (al_score st)) (tq_estimated_transfer_millis transfer) with
    | None => reject_artifact st "ARTIFACT_ESTIMATE_OVERFLOW" "aggregate Artifact transfer time overflowed"
    | Some cumulative_transfer_millis =>
        if (tq_authorization_valid_until_unix_ms transfer <? aq_valid_until_unix_ms quote)%N then
          reject_artifact st "ARTIFACT_TRANSFER_AUTHORITY_EXPIRES"
            "Artifact quote validity exceeds its underlying transfer authorization"
        else
          match u64_checked_add (as_transfer_bytes (al_score st)) (tq_bytes_to_transfer transfer),
                u64_checked_add (as_cost_microunits (al_score st)) (tq_cost_microunits transfer),
                u32_checked_add (as_source_count (al_score st)) (tq_source_count transfer) with
          | Some bytes, Some cost, Some sources =>
              accept_transfer st bytes cumulative_transfer_millis cost sources
                (N.min (aq_valid_until_unix_ms quote) (tq_authorization_valid_until_unix_ms transfer))
          | _, _, _ => reject_artifact st "ARTIFACT_ESTIMATE_OVERFLOW" "aggregate Artifact transfer quote overflowed"
          end
    end.
Definition evaluate_artifact (quotes_by_digest : gmap string ArtifactPlacementQuote) (st : ArtifactLoop)
    (artifact : ArtifactRef) : ArtifactLoop :=
  match quotes_by_digest !! art_digest artifact with
  | None =>
      reject_artifact st "ARTIFACT_QUOTE_MISSING"
        ("candidate lacks an Artifact Plane quote for " +:+ art_digest artifact)
  | Some quote =>
      if negb (bool_decide (aq_artifact quote = artifact)) then
        reject_artifact st "ARTIFACT_IDENTITY_MISMATCH" "Artifact Plane quote disagrees with the requested identity"
      else if negb (bool_decide (aq_destination_peer_id quote = cnd_artifact_destination_peer_id candidate))
              || negb (bool_decide (aq_policy_scope quote = plr_artifact_policy_scope request)) then
        reject_artifact st "ARTIFACT_QUOTE_SCOPE_MISMATCH"
          "Artifact quote destination or policy scope does not match placement"
      else if (aq_observed_at_unix_ms quote =? 0)%N || (plr_now_unix_ms request <? aq_observed_at_unix_ms quote)%N
              || (aq_valid_until_unix_ms quote <=? plr_now_unix_ms request)%N then
        reject_artifact st "ARTIFACT_QUOTE_STALE" "Artifact quote is not current at placement time"
      else
        match aq_availability quote with
        | VerifiedLocal inventory_generation => evaluate_local artifact quote inventory_generation st
        | AuthorizedTransfer transfer => evaluate_transfer artifact quote transfer st
        end
  end.
Definition evaluate_artifacts : list PlacementReason * ArtifactScore :=
  let index := quotes_indexed in
  let reasons := qi_reasons index ++
    push_if (negb (size (qi_quotes_by_digest index) =? length (plr_artifacts request))%nat)
      "ARTIFACT_QUOTE_SET_MISMATCH" "candidate Artifact quote set does not exactly match the request" in
  let st := foldl (evaluate_artifact (qi_quotes_by_digest index))
              (artifact_loop reasons (artifact_score 0 0 0 0 0) false u64_max u64_max) (plr_artifacts request) in
  let score := al_score st in
  let artifact_ready_at_unix_ms :=
    u64_checked_add (N.max (plr_now_unix_ms request) (cnd_available_at_unix_ms candidate))
      (as_estimated_transfer_millis score) in
  (al_reasons st ++
   match artifact_ready_at_unix_ms with
   | None =>
       push_if (al_has_local_artifacts st || (0 <? as_source_count score)%N)
         "ARTIFACT_ESTIMATE_OVERFLOW" "Artifact readiness time overflowed"
   | Some ready =>
       push_if (al_has_local_artifacts st && (al_local_valid_until_unix_ms st <=? ready)%N)
         "ARTIFACT_LOCALITY_EVIDENCE_EXPIRES" "local Artifact inventory evidence expires before the candidate is ready" ++
       push_if ((0 <? as_source_count score)%N && (al_transfer_valid_until_unix_ms st <=? ready)%N)
         "ARTIFACT_TRANSFER_AUTHORITY_EXPIRES" "Artifact authorization or quote expires before all transfers can complete"
   end, score).

Definition match_resources (query : ResourceQuery) (snapshot : ProviderSnapshot) : option ResourceMatchEvidence :=
  let matched := merge_sort key_le (res_identity <$>
    filter (fun resource => res_state resource = ResourceReady /\ ResourceQuery_matches query resource = true)
      (snap_resources snapshot)) in
  if (N.of_nat (length matched) <? query_count query)%N then None
  else Some (match_evidence (snap_provider snapshot) (snap_snapshot_generation snapshot) matched (query_count query)).

Definition evaluate_candidate : CandidateEvaluation :=
  let resource_match := match_resources (plr_resource_query request) (cnd_provider_snapshot candidate) in
  let '(artifact_reasons, artifacts) := evaluate_artifacts in
  let total_cost := u64_checked_add (cnd_execution_cost_microunits candidate) (as_cost_microunits artifacts) in
  let estimated_ready_at_unix_ms :=
    u64_checked_add (N.max (plr_now_unix_ms request) (cnd_available_at_unix_ms candidate))
      (as_estimated_transfer_millis artifacts) in
  let reasons :=
    validate_candidate_identity ++ validate_candidate_capabilities ++ validate_policy ++
    push_if (negb (bool_decide (is_Some resource_match)))
      "RESOURCE_REQUIREMENTS_UNSATISFIED"
      "ProviderSnapshot lacks enough distinct ready Resources for the canonical ResourceQuery" ++
    artifact_reasons ++
    push_if (negb (bool_decide (is_Some total_cost)))
      "PLACEMENT_COST_OVERFLOW" "execution and Artifact transfer cost overflowed" ++
    match pol_maximum_total_cost_microunits (plr_policy request), total_cost with
    | Some maximum, Some cost =>
        push_if (maximum <? cost)%N "PLACEMENT_COST_EXCEEDED"
          ("estimated cost " +:+ pretty cost +:+ " exceeds policy maximum " +:+ pretty maximum)
    | _, _ => []
    end ++
    push_if (negb (bool_decide (is_Some estimated_ready_at_unix_ms)))
      "PLACEMENT_TIME_OVERFLOW" "candidate availability and Artifact transfer time overflowed" ++
    match plr_latest_start_unix_ms request, estimated_ready_at_unix_ms with
    | Some latest, Some estimated_ready =>
        push_if (latest <? estimated_ready)%N "START_DEADLINE_UNSATISFIED"
          ("estimated ready time " +:+ pretty estimated_ready +:+ " exceeds latest start time " +:+ pretty latest)
    | _, _ => []
    end in
  let score :=
    if (length reasons =? 0)%nat then
      cost ← total_cost; ready ← estimated_ready_at_unix_ms;
      Some (placement_score (as_local_bytes artifacts) (as_transfer_bytes artifacts)
              (as_estimated_transfer_millis artifacts) cost ready (cnd_reliability_score candidate))
    else None in
  candidate_evaluation (cnd_node candidate) (bool_decide (is_Some score)) reasons resource_match score.
End evaluate.

(** ** The decision *)

(** [Ordering::then_with] *)
Definition then_with (c d : comparison) : comparison := match c with Eq => d | c => c end.
Definition compare_nodes (left right : NodeRef) : comparison :=
  then_with (compare (nr_node_id left) (nr_node_id right)) (compare (nr_node_epoch left) (nr_node_epoch right)).
Definition compare_evaluations (left right : CandidateEvaluation) : comparison :=
  match ev_score left, ev_score right with
  | Some left_score, Some right_score =>
      then_with (compare (sc_local_artifact_bytes right_score) (sc_local_artifact_bytes left_score))
      (then_with (compare (sc_estimated_transfer_millis left_score) (sc_estimated_transfer_millis right_score))
      (then_with (compare (sc_transfer_bytes left_score) (sc_transfer_bytes right_score))
      (then_with (compare (sc_total_cost_microunits left_score) (sc_total_cost_microunits right_score))
      (then_with (compare (sc_estimated_ready_at_unix_ms left_score) (sc_estimated_ready_at_unix_ms right_score))
      (then_with (compare (sc_reliability_score right_score) (sc_reliability_score left_score))
         (compare_nodes (ev_node left) (ev_node right)))))))
  | Some _, None => Lt
  | None, Some _ => Gt
  | None, None => compare_nodes (ev_node left) (ev_node right)
  end.
Definition evaluation_le (left right : CandidateEvaluation) : Prop := compare_evaluations left right <> Gt.
#[export] Instance evaluation_le_dec : RelDecision evaluation_le.
Proof. intros x y. unfold evaluation_le. solve_decision. Defined.

Definition node_key (candidate : ExecutionTargetCandidate) : string * N :=
  (nr_node_id (cnd_node candidate), nr_node_epoch (cnd_node candidate)).
Definition plan_execution_placement (request : ExecutionPlacementRequest) (candidates : list ExecutionTargetCandidate)
    : result FabricContractError PlacementDecision :=
  _ ← validate_request request;
  _ ← for_unique (fun _ => Ok tt) node_key
        (fabric_error "EXECUTION_TARGET_DUPLICATE" "candidate set contains a duplicate NodeRef") ∅ candidates;
  let evaluations := merge_sort evaluation_le (evaluate_candidate request <$> candidates) in
  let selected_node := (fun found : nat * CandidateEvaluation => ev_node found.2) <$>
                       list_find (fun evaluation => ev_eligible evaluation = true) evaluations in
  Ok (placement_decision selected_node evaluations).
Definition place_execution_target (request : ExecutionPlacementRequest) (candidates : list ExecutionTargetCandidate)
    : result FabricContractError ExecutionTargetCandidate :=
  decision ← plan_execution_placement request candidates;
  selected ← ok_or (fabric_error "WAITING_FOR_EXECUTION_TARGET"
      "no target satisfies the canonical resource, policy, lifecycle, and Artifact constraints")
    (dec_selected_node decision);
  ok_or (fabric_error "PLACEMENT_DECISION_INVALID" "selected Node is absent from the evaluated candidate set")
    (snd <$> list_find (fun candidate => cnd_node candidate = selected) candidates).
