(* ===== verification/Admission.v ===== *)
(** * Admission of execution agents and assignments

    [framework/crates/cy-execution-fabric/src]: the observation cursor, hellos,
    assignments and lease renewals ([admission.rs]), node lifecycles
    ([node.rs]), enrollment ([enrollment.rs]), routes ([connectivity.rs]),
    provider observations ([provider.rs]) and the reconciliation of evidence
    ([reconcile.rs]).  A value behind a mutex is the state of the call; the
    mutex is never poisoned, since no call panics while it holds it. *)
From stdpp Require Import base gmap strings list sorting pretty.
From Stdlib Require Import Ascii Lia ZifyBool ZifyN.
From S2P Require Import Prelude Validation Contract KernelApi Binding Messages Wire NodeMessages Artifact Placement.
Import NodeControl.

(** ** The observation cursor *)
Definition MAX_REPLAY_IDS : nat := 1024.
Inductive AdmissionDisposition := Accepted | Duplicate.
Record ObservationCursor := observation_cursor {
  oc_last_sequence : N;
  oc_recent_ids : gset string;
  oc_order : list string;
}.
Definition ObservationCursor_default : ObservationCursor := observation_cursor 0 ∅ [].
(** [last_sequence + 1] wraps in a release build; the sequence 0 it wraps to was
    refused before. *)
Definition admit_frame (frame_id : string) (sequence : N) : STE ObservationCursor FabricContractError AdmissionDisposition :=
  fun cursor =>
    if bool_decide (frame_id = "") || (sequence =? 0)%N then
      (cursor, Err (fabric_error "FRAME_INVALID" "frame id and non-zero sequence are required"))
    else if bool_decide (frame_id ∈ oc_recent_ids cursor) then (cursor, Ok Duplicate)
    else
      let expected := u64_wrapping_add (oc_last_sequence cursor) 1 in
      if negb (sequence =? expected)%N then
        (cursor, Err (fabric_error "SEQUENCE_GAP"
                        ("expected sequence " +:+ pretty expected +:+ ", received " +:+ pretty sequence)))
      else
        let recent_ids := {[frame_id]} ∪ oc_recent_ids cursor in
        let order := oc_order cursor ++ [frame_id] in
        let '(recent_ids, order) :=
          if (MAX_REPLAY_IDS <? length order)%nat then
            match order with
            | evicted :: order => (recent_ids ∖ {[evicted]}, order)
            | [] => (recent_ids, order)
            end
          else (recent_ids, order) in
        (observation_cursor sequence recent_ids order, Ok Accepted).

(** ** Identities, leases and digests *)

(** [contract_error] of [admission.rs] keeps the reason codes agents know. *)
Definition fabric_contract_error (error : ContractError) : FabricContractError :=
  fabric_error
    (if existsb (fun code => bool_decide (ce_reason_code error = code))
          ["GENERATION_INVALID"; "FENCE_TOKEN_INVALID"; "LEASE_EXPIRED"; "LEASE_NOT_ACTIVE"; "LEASE_RENEWAL_INVALID";
           "FENCE_MISMATCH"]
     then ce_reason_code error else "SEMANTIC_CONTRACT_REJECTED")
    (ce_message error).
Definition validate_identity (identity : option Proto.IdentityMessage) (name : string)
    : result FabricContractError Identity :=
  identity ← ok_or (fabric_error "REQUIRED_FIELD_MISSING" (name +:+ " identity is required")) identity;
  let identity := mk_identity (Proto.id_id identity) (Proto.id_generation identity) in
  _ ← map_err fabric_contract_error (Identity_validate identity);
  Ok identity.
Definition runtime_identity (runtime : option RuntimeRef) : result FabricContractError Identity :=
  runtime ← ok_or (fabric_error "REQUIRED_FIELD_MISSING" "Runtime identity is required") runtime;
  validate_identity (rr_identity runtime) "Runtime".
Definition validate_runtime (runtime : option RuntimeRef) : result FabricContractError unit :=
  (fun _ => tt) <$> runtime_identity runtime.

Definition timestamp_ms (timestamp : option Proto.Timestamp) : result FabricContractError (option N) :=
  match timestamp with
  | None => Ok None
  | Some timestamp =>
      if ((Proto.ts_seconds timestamp <=? 0) || (Proto.ts_nanos timestamp <? 0)
          || negb (Z.rem (Proto.ts_nanos timestamp) 1000000 =? 0))%Z then
        Err (fabric_error "TIMESTAMP_INVALID" "timestamp must be a positive exact Unix millisecond")
      else
        millis ← ok_or (fabric_error "TIMESTAMP_INVALID" "timestamp is out of range")
          (value ← u64_checked_mul (Z.to_N (Proto.ts_seconds timestamp)) 1000;
           u64_checked_add value (Z.to_N (Z.quot (Proto.ts_nanos timestamp) 1000000)));
        Ok (Some millis)
  end.
Definition lease_state_from_proto (value : Z) : option LeaseState :=
  match LeaseState_try_from value with
  | Some Proto.LsActive => Some LActive
  | Some Proto.LsReleasing => Some LReleasing
  | Some Proto.LsReleased => Some LReleased
  | Some Proto.LsExpired => Some LExpired
  | Some Proto.LsRevoked => Some LRevoked
  | Some Proto.LsFailed => Some LFailed
  | Some Proto.LsUnspecified | None => None
  end.
Definition lease_from_proto (lease : option Proto.LeaseMessage) : result FabricContractError Lease :=
  lease ← ok_or (fabric_error "REQUIRED_FIELD_MISSING" "Lease is required") lease;
  state ← ok_or (fabric_error "UNKNOWN_ENUM_VALUE" "Lease state is invalid") (lease_state_from_proto (Proto.le_state lease));
  identity ← validate_identity (Proto.le_identity lease) "Lease";
  holder ← validate_identity (Proto.le_holder lease) "Lease holder";
  resources ← collect (fun identity => validate_identity (Some identity) "Lease resource") (Proto.le_resources lease);
  expires_at ← timestamp_ms (Proto.le_expires_at lease);
  Ok (mk_lease identity holder resources state (Proto.le_fence_token lease) expires_at).
Definition semantic_lease_from_proto (lease : Proto.LeaseMessage) : result FabricContractError Lease :=
  lease ← lease_from_proto (Some lease);
  _ ← map_err fabric_contract_error (Lease_validate lease);
  Ok lease.
Definition validate_renewal (previous : Lease) (renewed : Proto.LeaseMessage) (now_unix_ms : N)
    : result FabricContractError Lease :=
  renewed ← lease_from_proto (Some renewed);
  if negb (bool_decide (lease_identity renewed = lease_identity previous))
     || negb (bool_decide (lease_holder renewed = lease_holder previous))
     || negb (bool_decide (lease_resources renewed = lease_resources previous))
     || negb (lease_fence_token renewed =? lease_fence_token previous)%N then
    Err (fabric_error "LEASE_RENEWAL_INVALID" "renewal changed immutable Lease authority")
  else
    expected ← map_err fabric_contract_error
      (Lease_renew_lease previous (lease_fence_token renewed) (default 0%N (lease_expires_at_unix_ms renewed)) now_unix_ms);
    if negb (bool_decide (renewed = expected)) then
      Err (fabric_error "LEASE_RENEWAL_INVALID" "renewed Lease does not match the canonical transition")
    else Ok renewed.
Definition validate_sha256 (value name : string) : result FabricContractError unit :=
  ensure (sha256_digest value) (fabric_error "DIGEST_INVALID" (name +:+ " must be a lowercase SHA-256 digest")).
Definition artifact_kind_from_proto (value : string) : result FabricContractError ArtifactKind :=
  map_err (fun message => fabric_error "ARTIFACT_KIND_INVALID" ("Artifact kind is invalid: " +:+ message))
    (ArtifactKind_new value).

(** ** Assignments *)
Definition check_source (now_unix_ms : N) (source : ArtifactTransferSource) : result FabricContractError unit :=
  match ArtifactTransferPath_try_from (tsrc_path source) with
  | None =>
      Err (fabric_error "ARTIFACT_TRANSFER_PATH_INVALID"
             "Artifact source path is unknown; control Relay is not a bulk Artifact route")
  | Some PathUnspecified =>
      Err (fabric_error "ARTIFACT_TRANSFER_PATH_UNSPECIFIED"
             "Artifact source must name LAN_DIRECT or USER_PROVIDED_OBJECT_STORE; control Relay is not a bulk Artifact route")
  | Some UserProvidedObjectStore =>
      ensure (negb (tsrc_locator_expires_at_unix_ms source <=? now_unix_ms)%N)
        (fabric_error "OBJECT_STORE_LOCATOR_EXPIRED" "user-provided object-store URL must have a future expiry")
  | Some LanDirect => Ok tt
  end.
Definition source_incomplete (source : ArtifactTransferSource) : bool :=
  bool_decide (tsrc_peer_id source = "") || bool_decide (tsrc_replica_id source = "")
  || negb (starts_with "https://" (tsrc_locator source)) || bool_decide (tsrc_transfer_ticket source = "").
(** [routed] is the ordered set of routed part indices. *)
Definition parts_misrouted (routed : list N) (expected_parts : nat) : bool :=
  negb (length routed =? expected_parts)%nat
  || existsb id (imap (fun index part => negb (part =? N.of_nat index)%N) routed).
Definition duplicate_digest (digest : string) : FabricContractError :=
  fabric_error "ARTIFACT_ASSIGNMENT_DUPLICATE" ("assignment contains a duplicate Artifact digest: " +:+ digest).

Definition check_transfer_spec (now_unix_ms : N) (artifact : ArtifactTransferSpec) : result FabricContractError unit :=
  _ ← ensure (negb (negb (bool_decide (sp_artifact_uri artifact = artifact_uri_of (sp_digest artifact)))
                    || (sp_size_bytes artifact =? 0)%N || (sp_part_size_bytes artifact =? 0)%N))
        (fabric_error "ARTIFACT_TRANSFER_INVALID" "Artifact transfer identity, size, and part size are required");
  _ ← ensure (negb (bool_decide (length (sp_sources artifact) = 0)))
        (fabric_error "LAN_DIRECT_UNAVAILABLE_USER_OBJECT_STORE_REQUIRED"
           "no reachable direct source or user-provided object-store candidate is available; supply an active, short-lived pre-signed HTTPS URL from user-owned object storage; Artifact bytes are never sent through the control Relay");
  _ ← (if bool_decide (sp_manifest_digest artifact = "") then Ok tt
       else validate_sha256 (sp_manifest_digest artifact) "Artifact manifest digest");
  _ ← artifact_kind_from_proto (sp_artifact_kind artifact);
  _ ← try_for_each (check_source now_unix_ms) (sp_sources artifact);
  _ ← ensure (negb (bool_decide (sp_destination_peer_id artifact = "")
                    || negb (length (sp_part_sources artifact) =? length (sp_part_digests artifact))%nat
                    || existsb source_incomplete (sp_sources artifact)))
        (fabric_error "ARTIFACT_TRANSFER_PLAN_INVALID"
           "source Peers, destination Peer, tickets, and per-part routes are required");
  ensure (negb (parts_misrouted (bset_iter (list_to_set (ps_part_index <$> sp_part_sources artifact)))
                  (length (sp_part_digests artifact))))
    (fabric_error "ARTIFACT_PART_ROUTING_INVALID" "every Artifact part must have exactly one source route").
Fixpoint check_transfers (now_unix_ms : N) (artifact_digests : gset string) (artifacts : list ArtifactTransferSpec)
    : result FabricContractError (gset string) :=
  match artifacts with
  | [] => Ok artifact_digests
  | artifact :: rest =>
      _ ← validate_sha256 (sp_digest artifact) "Artifact digest";
      if bool_decide (sp_digest artifact ∈ artifact_digests) then Err (duplicate_digest (sp_digest artifact))
      else
        _ ← check_transfer_spec now_unix_ms artifact;
        check_transfers now_unix_ms ({[sp_digest artifact]} ∪ artifact_digests) rest
  end.
Definition check_local_input (artifact : ArtifactLocalInput) : result FabricContractError unit :=
  _ ← ensure (bool_decide (li_artifact_uri artifact = artifact_uri_of (li_digest artifact)))
        (fabric_error "ARTIFACT_LOCAL_IDENTITY_INVALID" "local Artifact URI must match its canonical digest");
  _ ← artifact_kind_from_proto (li_artifact_kind artifact);
  if bool_decide (li_manifest_digest artifact = "") then Ok tt
  else validate_sha256 (li_manifest_digest artifact) "local Artifact manifest digest".
Fixpoint check_locals (artifact_digests : gset string) (artifacts : list ArtifactLocalInput)
    : result FabricContractError unit :=
  match artifacts with
  | [] => Ok tt
  | artifact :: rest =>
      _ ← validate_sha256 (li_digest artifact) "local Artifact digest";
      if bool_decide (li_digest artifact ∈ artifact_digests) then Err (duplicate_digest (li_digest artifact))
      else
        _ ← check_local_input artifact;
        check_locals ({[li_digest artifact]} ∪ artifact_digests) rest
  end.
Definition check_workload (runtime : Identity) (assignment : RuntimeAssignment) (now_unix_ms : N)
    : result FabricContractError unit :=
  identity ← ok_or (fabric_error "REQUIRED_FIELD_MISSING" "workload identity is required") (as_workload_identity assignment);
  _ ← validate_identity (wi_identity identity) "workload identity";
  identity_runtime ← runtime_identity (wi_runtime identity);
  _ ← ensure (bool_decide (identity_runtime = runtime))
        (fabric_error "WORKLOAD_IDENTITY_SCOPE_MISMATCH" "workload identity is scoped to another Runtime generation");
  expires_at ← timestamp_ms (wi_expires_at identity);
  ensure (is_some_and (fun expiry => now_unix_ms <? expiry)%N expires_at)
    (fabric_error "WORKLOAD_IDENTITY_EXPIRED" "workload identity is expired").
Definition validate_assignment_payload (expected_runtime : Identity) (assignment : RuntimeAssignment) (now_unix_ms : N)
    : result FabricContractError Identity :=
  _ ← ensure (negb (bool_decide (as_assignment_id assignment = "") || bool_decide (as_attempt_id assignment = "")))
        (fabric_error "REQUIRED_FIELD_MISSING" "assignment and Attempt identities are required");
  runtime ← runtime_identity (as_runtime assignment);
  _ ← ensure (negb (negb (bool_decide (ident_id runtime = ident_id expected_runtime))
                    || (ident_generation runtime <? ident_generation expected_runtime)%N))
        (fabric_error "STALE_GENERATION" "assignment Runtime generation is stale or belongs to another Runtime");
  _ ← ensure (bool_decide (runtime = expected_runtime))
        (fabric_error "GENERATION_MISMATCH" "assignment Runtime generation does not match this Agent");
  _ ← validate_identity (as_operation assignment) "operation";
  _ ← ensure (bool_decide (DesiredRuntimeState_try_from (as_desired_state assignment) = Some DesiredRunning))
        (fabric_error "DESIRED_STATE_INVALID" "a new Assignment must desire RUNNING");
  _ ← check_workload runtime assignment now_unix_ms;
  profile ← ok_or (fabric_error "REQUIRED_FIELD_MISSING" "Runtime profile is required") (as_profile assignment);
  _ ← validate_sha256 (rp_image_digest profile) "image digest";
  _ ← validate_sha256 (rp_resolved_digest profile) "resolved runtime digest";
  artifact_digests ← check_transfers now_unix_ms ∅ (as_artifacts assignment);
  _ ← check_locals artifact_digests (as_local_artifacts assignment);
  Ok runtime.
Definition validate_assignment (expected_runtime : Identity) (assignment : RuntimeAssignment) (now_unix_ms : N)
    : result FabricContractError Lease :=
  runtime ← validate_assignment_payload expected_runtime assignment now_unix_ms;
  lease ← lease_from_proto (as_lease assignment);
  _ ← map_err fabric_contract_error (Lease_validate lease);
  _ ← ensure (bool_decide (lease_state lease = LActive)) (fabric_error "LEASE_NOT_ACTIVE" "assignment Lease is not active");
  _ ← ensure (bool_decide (lease_holder lease = runtime))
        (fabric_error "LEASE_HOLDER_MISMATCH" "assignment Lease holder is not the Runtime generation");
  _ ← ensure (is_some_and (fun expiry => now_unix_ms <? expiry)%N (lease_expires_at_unix_ms lease))
        (fabric_error "LEASE_EXPIRED" "assignment Lease has expired");
  Ok lease.

(** ** Nodes ([node.rs]) *)
Definition validate_node_descriptor (descriptor : ExecutionNodeDescriptor) : result FabricContractError unit :=
  node ← ok_or (fabric_error "NODE_IDENTITY_REQUIRED" "NodeRef is required") (nd_node descriptor);
  _ ← ensure (negb (bool_decide (nr_node_id node = "") || (nr_node_epoch node =? 0)%N
                    || bool_decide (nd_node_type descriptor = "")))
        (fabric_error "NODE_IDENTITY_INVALID" "NodeId, positive Node epoch, and node_type are required");
  ensure (bool_decide (is_Some (nd_persistent descriptor)))
    (fabric_error "NODE_PERSISTENCE_REQUIRED" "persistent must be explicitly true or false").

Record NodeLifecycleProjection := node_projection {
  np_descriptor : ExecutionNodeDescriptor;
  np_state : NodeLifecycleState;
  np_session_id : option string;
}.
Definition np_persistent (p : NodeLifecycleProjection) : bool :=
  bool_decide (nd_persistent (np_descriptor p) = Some true).
Definition node_enroll (hello : ExecutionAgentHello) (session_id : string)
    : result FabricContractError NodeLifecycleProjection :=
  descriptor ← ok_or (fabric_error "NODE_IDENTITY_REQUIRED" "Node descriptor is required") (ah_node hello);
  _ ← validate_node_descriptor descriptor;
  _ ← ensure (negb (bool_decide (session_id = "")))
        (fabric_error "NODE_SESSION_REQUIRED" "Node session identity is required");
  Ok (node_projection descriptor NodeOnline (Some session_id)).
(** The two [expect]s on the node references panic on a descriptor without one. *)
Definition reconnect (descriptor : ExecutionNodeDescriptor) (session_id : string) (p : NodeLifecycleProjection)
    : may_panic (NodeLifecycleProjection * result FabricContractError unit) :=
  match validate_node_descriptor descriptor with
  | Err e => Returned (p, Err e)
  | Ok _ =>
      match nd_node (np_descriptor p), nd_node descriptor with
      | Some expected, Some received =>
          Returned
            (if negb (bool_decide (nr_node_id received = nr_node_id expected))
                || (nr_node_epoch received <? nr_node_epoch expected)%N
                || negb (bool_decide (nd_node_type descriptor = nd_node_type (np_descriptor p)))
                || negb (bool_decide (nd_persistent descriptor = nd_persistent (np_descriptor p))) then
               (p, Err (fabric_error "NODE_IDENTITY_MISMATCH"
                          "reconnect changed Node identity or immutable lifecycle attributes"))
             else if (bool_decide (np_state p = NodeLost) || bool_decide (np_state p = NodeTerminated))
                     && negb (np_persistent p) then
               (p, Err (fabric_error "EPHEMERAL_NODE_CLOSED"
                          "an ephemeral Node cannot reconnect after its lifecycle is closed"))
             else if bool_decide (session_id = "") || bool_decide (np_session_id p = Some session_id) then
               (p, Err (fabric_error "NODE_SESSION_INVALID" "reconnect requires a new non-empty NodeSessionId"))
             else (node_projection descriptor NodeOnline (Some session_id), Ok tt))
      | _, _ => Panicked
      end
  end.
Definition disconnect (canonical_lease_active : bool) (p : NodeLifecycleProjection) : NodeLifecycleProjection :=
  node_projection (np_descriptor p) (if np_persistent p || canonical_lease_active then NodeOffline else NodeLost) None.
Definition node_lease_expired (p : NodeLifecycleProjection) : NodeLifecycleProjection :=
  node_projection (np_descriptor p) (if np_persistent p then NodeOffline else NodeLost) None.
Definition terminate : STE NodeLifecycleProjection FabricContractError unit := fun p =>
  if np_persistent p then
    (p, Err (fabric_error "PERSISTENT_NODE_RETAINED" "persistent Node identity is retained while offline"))
  else (node_projection (np_descriptor p) NodeTerminated None, Ok tt).

(** ** Hellos *)
Definition restart_matches_attachment (attachment : ExecutionAttachmentType) (restart : RestartCapability) : bool :=
  match attachment, restart with
  | ContainerAgent, RestartNone | HostAgent, HostSupervised | ProviderManaged, ProviderSupervised => true
  | _, _ => false
  end.
Definition hello_classes (hello : ExecutionAgentHello)
    : result FabricContractError (ExecutionNodeDescriptor * ExecutionAttachmentType * PersistenceClass) :=
  _ ← validate_runtime (ah_runtime hello);
  node ← ok_or (fabric_error "NODE_IDENTITY_REQUIRED" "Node descriptor is required") (ah_node hello);
  _ ← validate_node_descriptor node;
  attachment ← ok_or (fabric_error "UNKNOWN_ENUM_VALUE" "unknown attachment type")
    (ExecutionAttachmentType_try_from (ah_attachment_type hello));
  _ ← ensure (negb (bool_decide (attachment = AttachmentUnspecified)))
        (fabric_error "REQUIRED_FIELD_MISSING" "attachment type is required");
  persistence ← ok_or (fabric_error "UNKNOWN_ENUM_VALUE" "unknown persistence class")
    (PersistenceClass_try_from (ah_persistence_class hello));
  _ ← ensure (negb (bool_decide (persistence = PersistenceUnspecified)))
        (fabric_error "REQUIRED_FIELD_MISSING" "persistence class is required");
  Ok (node, attachment, persistence).
Definition hello_facts (hello : ExecutionAgentHello) (attachment : ExecutionAttachmentType)
    (persistence : PersistenceClass) (persistent : bool) : result FabricContractError unit :=
  let expected_persistence := if persistent then Persistent else Ephemeral in
  _ ← ensure (bool_decide (persistence = expected_persistence))
        (fabric_error "NODE_PERSISTENCE_MISMATCH" "persistent disagrees with the compatibility persistence_class");
  restart ← ok_or (fabric_error "UNKNOWN_ENUM_VALUE" "unknown restart capability")
    (RestartCapability_try_from (ah_restart_capability hello));
  _ ← ensure (restart_matches_attachment attachment restart)
        (fabric_error "RESTART_CAPABILITY_INVALID" "restart capability is not provided by this attachment type");
  _ ← ensure (negb ((ah_min_protocol_version hello =? 0)%N || (2 <? ah_min_protocol_version hello)%N
                    || (ah_max_protocol_version hello <? 2)%N || bool_decide (ah_agent_version hello = "")))
        (fabric_error "PROTOCOL_INCOMPATIBLE" "Execution Agent protocol range must include version 2");
  _ ← ensure (negb (bool_decide (ah_enrollment_proof hello = "") && bool_decide (ah_resume_token hello = "")))
        (fabric_error "AUTHENTICATION_REQUIRED" "an enrollment proof or authenticated resume token is required");
  _ ← ensure (negb (negb (bool_decide (ah_enrollment_proof hello = "")) && negb (bool_decide (ah_resume_token hello = ""))))
        (fabric_error "CREDENTIAL_AMBIGUOUS" "enrollment proof and resume token cannot be presented together");
  _ ← ensure (is_some_and (fun scope => negb (bool_decide (as_workspace_id scope = ""))) (ah_scope hello))
        (fabric_error "WORKSPACE_REQUIRED" "workspace identity is required");
  validate_execution_capability (ah_capabilities hello) attachment persistent restart.
(** [node.persistent.expect(...)] panics on a descriptor that does not say. *)
Definition validate_hello (hello : ExecutionAgentHello) : may_panic (result FabricContractError unit) :=
  match hello_classes hello with
  | Err e => Returned (Err e)
  | Ok (node, attachment, persistence) =>
      match nd_persistent node with
      | Some persistent => Returned (hello_facts hello attachment persistence persistent)
      | None => Panicked
      end
  end.

(** ** Enrollment ([enrollment.rs]) *)
Record RuntimeScope := runtime_scope { rsc_organization_id : string; rsc_workspace_id : string; rsc_runtime : Identity }.
Record EnrollmentGrant := enrollment_grant {
  eg_workload_identity : Identity;
  eg_scope : RuntimeScope;
  eg_expires_at_unix_ms : N;
}.
Record DevelopmentEnrollmentProvider := enrollment_provider { dep_tokens : gset string; dep_lifetime_ms : N }.
Definition enroll (proof : string) (scope : RuntimeScope) (now_unix_ms : N)
    : STE DevelopmentEnrollmentProvider FabricContractError EnrollmentGrant := fun p =>
  if bool_decide (proof = "") then
    (p, Err (fabric_error "AUTHENTICATION_REQUIRED" "development enrollment proof is required"))
  else if negb (bool_decide (proof ∈ dep_tokens p)) then
    (p, Err (fabric_error "ENROLLMENT_PROOF_REJECTED" "development enrollment proof is invalid or already consumed"))
  else
    let p := enrollment_provider (dep_tokens p ∖ {[proof]}) (dep_lifetime_ms p) in
    match u64_checked_add now_unix_ms (dep_lifetime_ms p) with
    | None => (p, Err (fabric_error "TIMESTAMP_INVALID" "workload identity expiry overflowed"))
    | Some expires_at_unix_ms =>
        (p, Ok (enrollment_grant
                  (mk_identity ("workload-" +:+ ident_id (rsc_runtime scope)) (ident_generation (rsc_runtime scope)))
                  scope expires_at_unix_ms))
    end.

(** ** Routes ([connectivity.rs]) *)
Record ConnectivityRoute := connectivity_route {
  cr_mode : ConnectivityMode;
  cr_control_endpoint : string;
  cr_server_name : string;
  cr_outbound_only : bool;
}.
Definition validate_route (route : ConnectivityRoute) : result FabricContractError unit :=
  ensure (negb (negb match cr_mode route with ModeLocal | ModeLanDirect | ModeRelay => true | _ => false end
                || negb (starts_with "https://" (cr_control_endpoint route))
                || bool_decide (cr_server_name route = "") || negb (cr_outbound_only route)))
    (fabric_error "CONNECTIVITY_ROUTE_INVALID"
       "connectivity requires LOCAL/LAN_DIRECT/RELAY outbound HTTPS with a server name").
(** The three providers differ in the mode they are constructed with. *)
Definition connectivity_provider (mode : ConnectivityMode) (control_endpoint server_name : string) : ConnectivityRoute :=
  connectivity_route mode control_endpoint server_name true.
Definition resolve (provider : ConnectivityRoute) : result FabricContractError ConnectivityRoute :=
  _ ← validate_route provider; Ok provider.

(** ** Reconciliation ([reconcile.rs], [provider.rs]) *)
Inductive DesiredRuntime := WantRunning | WantStopped.
#[export] Instance DesiredRuntime_eq_dec : EqDecision DesiredRuntime.
Proof. solve_decision. Defined.
Inductive ProviderObservation := SeenRunning | SeenPreempted | SeenTerminated | SeenUnavailable | SeenUnknown.
#[export] Instance ProviderObservation_eq_dec : EqDecision ProviderObservation.
Proof. solve_decision. Defined.
Inductive LeaseObservation := LeaseSeenActive | LeaseSeenExpired | LeaseSeenMissing.
#[export] Instance LeaseObservation_eq_dec : EqDecision LeaseObservation.
Proof. solve_decision. Defined.
Record ReconcileEvidence := reconcile_evidence {
  re_desired : DesiredRuntime;
  re_agent_state : option RuntimeObservedState;
  re_agent_termination : option TerminationClassification;
  re_provider : ProviderObservation;
  re_lease : LeaseObservation;
  re_stop_acknowledged : bool;
}.
Inductive RuntimeDisposition :=
| DispositionActive | NetworkPartitionCandidate | ExpectedTermination | GracefulTermination | UnexpectedLoss
| ExternalTermination | UnknownLoss.
Definition reconcile_runtime (evidence : ReconcileEvidence) : RuntimeDisposition :=
  if bool_decide (re_agent_state evidence = Some ObservedStopped)
     && bool_decide (re_agent_termination evidence = Some TerminationGraceful) then GracefulTermination
  else if bool_decide (re_provider evidence = SeenPreempted) || bool_decide (re_provider evidence = SeenTerminated) then
    if bool_decide (re_desired evidence = WantStopped) || re_stop_acknowledged evidence then ExpectedTermination
    else ExternalTermination
  else if bool_decide (re_lease evidence = LeaseSeenExpired) || bool_decide (re_lease evidence = LeaseSeenMissing) then
    if bool_decide (re_desired evidence = WantStopped) && re_stop_acknowledged evidence then ExpectedTermination
    else if bool_decide (re_desired evidence = WantRunning) && bool_decide (re_provider evidence = SeenRunning)
            && bool_decide (re_agent_state evidence = None) then NetworkPartitionCandidate
    else if bool_decide (re_desired evidence = WantRunning) then UnexpectedLoss
    else UnknownLoss
  else DispositionActive.

(** [FakeProvider]: the reference provider, a map of reported observations. *)
Definition FakeProvider : Type := gmap Identity ProviderObservation.
Definition provider_report (runtime : Identity) (observation : ProviderObservation) (p : FakeProvider) : FakeProvider :=
  <[runtime := observation]> p.
Definition provider_observe (runtime : Identity) (p : FakeProvider) : ProviderObservation :=
  default SeenUnknown (p !! runtime).
