(* ===== verification/Assignment.v ===== *)
(** * Building assignments

    [framework/crates/cy-execution-fabric/src/assignment.rs]: the controller's
    side of an assignment, which binds a lease of the Kernel to an immutable
    payload and checks that the payload carries exactly the artifacts of the
    placement. *)
From stdpp Require Import base gmap strings list sorting pretty.
From Stdlib Require Import Ascii Lia ZifyBool ZifyN.
From S2P Require Import Prelude Validation Contract KernelApi Binding Messages Wire NodeMessages Artifact Placement Admission.
Import NodeControl.

Record RuntimeAssignmentBuilder := assignment_builder {
  rab_assignment_id : string;
  rab_runtime : Identity;
  rab_operation : Identity;
  rab_attempt_id : string;
  rab_workload_identity : WorkloadIdentity;
  rab_profile : RuntimeProfile;
  rab_artifacts : list ArtifactTransferSpec;
  rab_local_artifacts : list ArtifactLocalInput;
}.
Definition RuntimeAssignmentBuilder_new (assignment_id : string) (runtime operation : Identity) (attempt_id : string)
    (workload_identity : WorkloadIdentity) (profile : RuntimeProfile) (artifacts : list ArtifactTransferSpec)
    : RuntimeAssignmentBuilder :=
  assignment_builder assignment_id runtime operation attempt_id workload_identity profile artifacts [].
Definition with_local_artifacts (b : RuntimeAssignmentBuilder) (local_artifacts : list ArtifactLocalInput)
    : RuntimeAssignmentBuilder :=
  assignment_builder (rab_assignment_id b) (rab_runtime b) (rab_operation b) (rab_attempt_id b)
    (rab_workload_identity b) (rab_profile b) (rab_artifacts b) local_artifacts.

(** ** Leases on the wire *)
Definition identity_to_proto (identity : Identity) : Proto.IdentityMessage :=
  Proto.identity (ident_id identity) (ident_generation identity).
(** [i64::try_from(..).unwrap_or(i64::MAX)] and [i32::try_from(..).unwrap_or_default()] *)
Definition agent_timestamp_from_unix_ms (unix_ms : N) : Proto.Timestamp :=
  let seconds := Z.of_N (unix_ms / 1000) in
  let nanos := Z.of_N (unix_ms mod 1000 * 1000000) in
  Proto.timestamp (if (seconds <=? 9223372036854775807)%Z then seconds else 9223372036854775807%Z)
    (if (nanos <=? 2147483647)%Z then nanos else 0%Z).
Definition lease_state_to_proto (s : LeaseState) : Proto.LeaseStateEnum :=
  match s with
  | LActive => Proto.LsActive
  | LReleasing => Proto.LsReleasing
  | LReleased => Proto.LsReleased
  | LExpired => Proto.LsExpired
  | LRevoked => Proto.LsRevoked
  | LFailed => Proto.LsFailed
  end.
Definition semantic_lease_to_proto (lease : Lease) : Proto.LeaseMessage :=
  Proto.lease (Some (identity_to_proto (lease_identity lease))) (Some (identity_to_proto (lease_holder lease)))
    (identity_to_proto <$> lease_resources lease) (Proto.LeaseState_as_i32 (lease_state_to_proto (lease_state lease)))
    (lease_fence_token lease) (agent_timestamp_from_unix_ms <$> lease_expires_at_unix_ms lease).

(** ** Artifact references on the wire *)
Definition optional_digest (digest : string) : option string := if bool_decide (digest = "") then None else Some digest.
Definition artifact_ref_from_local_input (input : ArtifactLocalInput) : result FabricContractError ArtifactRef :=
  kind ← artifact_kind_from_proto (li_artifact_kind input);
  let artifact := artifact_ref_of (li_artifact_uri input) (li_digest input) (li_size_bytes input) kind
                    (optional_digest (li_manifest_digest input)) in
  _ ← map_err (fun message => fabric_error "ARTIFACT_LOCAL_IDENTITY_INVALID"
                                ("assignment local Artifact is invalid: " +:+ message)) (ArtifactRef_validate artifact);
  Ok artifact.
Definition artifact_ref_from_transfer_spec (spec : ArtifactTransferSpec) : result FabricContractError ArtifactRef :=
  kind ← artifact_kind_from_proto (sp_artifact_kind spec);
  let artifact := artifact_ref_of (sp_artifact_uri spec) (sp_digest spec) (sp_size_bytes spec) kind
                    (optional_digest (sp_manifest_digest spec)) in
  _ ← map_err (fun message => fabric_error "ARTIFACT_ASSIGNMENT_IDENTITY_INVALID"
                                ("assignment Artifact transfer is invalid: " +:+ message)) (ArtifactRef_validate artifact);
  Ok artifact.

(** ** Indices by digest

    The four functions fill a [BTreeMap] keyed by the digest and refuse a digest
    they have seen. *)
Fixpoint index_by_digest {A} (check : A -> result FabricContractError string) (duplicate : A -> string -> FabricContractError)
    (indexed : gmap string A) (items : list A) : result FabricContractError (gmap string A) :=
  match items with
  | [] => Ok indexed
  | item :: rest =>
      digest ← check item;
      if bool_decide (is_Some (indexed !! digest)) then Err (duplicate item digest)
      else index_by_digest check duplicate (<[digest := item]> indexed) rest
  end.
Definition index_requested_artifacts (artifacts : list ArtifactRef) : result FabricContractError (gmap string ArtifactRef) :=
  index_by_digest
    (fun artifact =>
       _ ← map_err (fun message => fabric_error "ARTIFACT_IDENTITY_INVALID" ("placement Artifact is invalid: " +:+ message))
             (ArtifactRef_validate artifact);
       Ok (art_digest artifact))
    (fun _ digest => fabric_error "ARTIFACT_PLACEMENT_DUPLICATE"
                       ("placement contains a duplicate Artifact digest: " +:+ digest)) ∅ artifacts.
Definition index_assignment_artifacts (artifacts : list ArtifactTransferSpec)
    : result FabricContractError (gmap string ArtifactTransferSpec) :=
  index_by_digest (fun spec => projected ← artifact_ref_from_transfer_spec spec; Ok (art_digest projected))
    (fun _ digest => fabric_error "ARTIFACT_ASSIGNMENT_DUPLICATE"
                       ("assignment contains a duplicate Artifact digest: " +:+ digest)) ∅ artifacts.
Definition index_local_artifacts (artifacts : list ArtifactLocalInput)
    : result FabricContractError (gmap string ArtifactLocalInput) :=
  index_by_digest (fun input => projected ← artifact_ref_from_local_input input; Ok (art_digest projected))
    (fun _ digest => fabric_error "ARTIFACT_ASSIGNMENT_DUPLICATE"
                       ("assignment contains a duplicate local Artifact digest: " +:+ digest)) ∅ artifacts.
Fixpoint index_quotes (indexed : gmap string ArtifactPlacementQuote) (quote_ids : gset string)
    (quotes : list ArtifactPlacementQuote) : result FabricContractError (gmap string ArtifactPlacementQuote) :=
  match quotes with
  | [] => Ok indexed
  | quote :: rest =>
      _ ← map_err (fun message => fabric_error "ARTIFACT_QUOTE_INVALID" ("candidate Artifact quote is invalid: " +:+ message))
            (ArtifactRef_validate (aq_artifact quote));
      _ ← ensure (negb (bool_decide (aq_quote_id quote = "") || bool_decide (aq_quote_id quote ∈ quote_ids)))
            (fabric_error "ARTIFACT_QUOTE_DUPLICATE" "candidate Artifact quotes require unique non-empty identities");
      let digest := art_digest (aq_artifact quote) in
      if bool_decide (is_Some (indexed !! digest)) then
        Err (fabric_error "ARTIFACT_QUOTE_DUPLICATE" ("candidate contains duplicate Artifact quotes for " +:+ digest))
      else index_quotes (<[digest := quote]> indexed) ({[aq_quote_id quote]} ∪ quote_ids) rest
  end.
Definition index_artifact_quotes (quotes : list ArtifactPlacementQuote)
    : result FabricContractError (gmap string ArtifactPlacementQuote) := index_quotes ∅ ∅ quotes.

(** ** The artifact projection *)
Section projection.
Context (placement : ExecutionPlacementRequest) (selected : ExecutionTargetCandidate).
Context (assignments : gmap string ArtifactTransferSpec) (local_artifacts : gmap string ArtifactLocalInput)
  (quotes : gmap string ArtifactPlacementQuote).

(** The body of the loop over the requested artifacts, in the order of their
    digests. *)
Definition check_local_projection (digest : string) (artifact : ArtifactRef) : result FabricContractError unit :=
  local ← ok_or (fabric_error "ARTIFACT_LOCAL_INPUT_MISSING"
                   ("assignment lacks the local projection for Artifact " +:+ digest)) (local_artifacts !! digest);
  projected ← artifact_ref_from_local_input local;
  ensure (bool_decide (projected = artifact))
    (fabric_error "ARTIFACT_LOCAL_INPUT_IDENTITY_MISMATCH"
       ("assignment local input disagrees with placement identity for " +:+ digest)).
Definition check_transfer_projection (digest : string) (artifact : ArtifactRef) : result FabricContractError unit :=
  _ ← ensure (negb (art_size_bytes artifact =? 0)%N)
        (fabric_error "ARTIFACT_ZERO_BYTE_TRANSFER_UNSUPPORTED"
           ("zero-byte remote Artifact cannot be projected for transfer: " +:+ digest));
  spec ← ok_or (fabric_error "ARTIFACT_ASSIGNMENT_MISSING"
                  ("assignment lacks the transfer projection for Artifact " +:+ digest)) (assignments !! digest);
  projected ← artifact_ref_from_transfer_spec spec;
  _ ← ensure (bool_decide (projected = artifact))
        (fabric_error "ARTIFACT_ASSIGNMENT_IDENTITY_MISMATCH"
           ("assignment transfer disagrees with placement identity for " +:+ digest));
  ensure (bool_decide (sp_destination_peer_id spec = cnd_artifact_destination_peer_id selected))
    (fabric_error "ARTIFACT_DESTINATION_MISMATCH"
       ("assignment transfer destination disagrees with selected Peer for " +:+ digest)).
Definition check_projection (requested : string * ArtifactRef) : result FabricContractError unit :=
  let '(digest, artifact) := requested in
  quote ← ok_or (fabric_error "ARTIFACT_QUOTE_MISSING"
                   ("selected candidate lacks an Artifact quote for " +:+ digest)) (quotes !! digest);
  _ ← ensure (bool_decide (aq_artifact quote = artifact))
        (fabric_error "ARTIFACT_QUOTE_IDENTITY_MISMATCH"
           ("Artifact quote disagrees with placement identity for " +:+ digest));
  _ ← ensure (bool_decide (aq_destination_peer_id quote = cnd_artifact_destination_peer_id selected)
              && bool_decide (aq_policy_scope quote = plr_artifact_policy_scope placement))
        (fabric_error "ARTIFACT_QUOTE_SCOPE_MISMATCH"
           ("Artifact quote scope disagrees with selected destination for " +:+ digest));
  match aq_availability quote with
  | VerifiedLocal _ => check_local_projection digest artifact
  | AuthorizedTransfer _ => check_transfer_projection digest artifact
  end.
End projection.

Definition validate_artifact_projection (b : RuntimeAssignmentBuilder) (placement : ExecutionPlacementRequest)
    (selected : ExecutionTargetCandidate) : result FabricContractError unit :=
  requested ← index_requested_artifacts (plr_artifacts placement);
  assignments ← index_assignment_artifacts (rab_artifacts b);
  local_artifacts ← index_local_artifacts (rab_local_artifacts b);
  quotes ← index_artifact_quotes (cnd_artifact_quotes selected);
  match list_find (fun digest => is_Some (local_artifacts !! digest)) (btree_keys assignments) with
  | Some (_, digest) =>
      Err (fabric_error "ARTIFACT_ASSIGNMENT_DUPLICATE"
             ("assignment projects Artifact " +:+ digest +:+ " as both local and transfer"))
  | None =>
      let requested_digests := dom requested in
      let projection_digests := dom assignments ∪ dom local_artifacts in
      match bset_iter (projection_digests ∖ requested_digests) with
      | digest :: _ =>
          Err (fabric_error "ARTIFACT_ASSIGNMENT_UNEXPECTED"
                 ("assignment contains an Artifact absent from placement: " +:+ digest))
      | [] =>
          _ ← ensure (size quotes =? size requested)%nat
                (fabric_error "ARTIFACT_QUOTE_SET_MISMATCH"
                   "selected candidate Artifact quote set does not exactly match placement");
          let destination := cnd_artifact_destination_peer_id selected in
          _ ← ensure (negb (negb (size requested =? 0)%nat
                            && (bool_decide (destination = "") || bool_decide (destination = nr_node_id (cnd_node selected)))))
                (fabric_error "ARTIFACT_DESTINATION_INVALID"
                   "selected candidate requires an explicit Artifact Peer distinct from Node identity");
          match bset_iter (requested_digests ∖ projection_digests) with
          | digest :: _ =>
              Err (fabric_error
                     match aq_availability <$> quotes !! digest with
                     | Some (VerifiedLocal _) => "ARTIFACT_LOCAL_INPUT_MISSING"
                     | _ => "ARTIFACT_ASSIGNMENT_MISSING"
                     end
                     ("assignment lacks the Artifact projection for " +:+ digest))
          | [] =>
              try_for_each (check_projection placement selected assignments local_artifacts quotes) (btree_iter requested)
          end
      end
  end.

(** ** Building *)
Definition assignment_of (b : RuntimeAssignmentBuilder) (lease : option Proto.LeaseMessage) : RuntimeAssignment :=
  runtime_assignment (rab_assignment_id b) (Some (runtime_ref (Some (identity_to_proto (rab_runtime b)))))
    (Some (identity_to_proto (rab_operation b))) (rab_attempt_id b) lease (Some (rab_workload_identity b))
    (Some (rab_profile b)) (DesiredRuntimeState_as_i32 DesiredRunning) (rab_artifacts b) (rab_local_artifacts b).
Definition builder_validate (b : RuntimeAssignmentBuilder) (now_unix_ms : N) : result FabricContractError unit :=
  (fun _ => tt) <$> validate_assignment_payload (rab_runtime b) (assignment_of b None) now_unix_ms.
Definition build (b : RuntimeAssignmentBuilder) (lease : Lease) (now_unix_ms : N) : result FabricContractError RuntimeAssignment :=
  _ ← builder_validate b now_unix_ms;
  let assignment := assignment_of b (Some (semantic_lease_to_proto lease)) in
  _ ← validate_assignment (rab_runtime b) assignment now_unix_ms;
  Ok assignment.
