(* ===== verification/ArtifactSpec.v ===== *)
(** * Portable directories: the theorem

    [PortableDirectoryManifest_validate] works on byte strings: prefixes it
    extends a component at a time, a map from folded prefixes, a set of paths.
    It accepts exactly the directories that are a tree, on file systems that
    distinguish case and on those that do not. *)
From stdpp Require Import base gmap strings list sorting pretty.
From Stdlib Require Import Ascii Lia ZifyBool ZifyN.
From S2P Require Import Prelude Validation Contract KernelApi Binding CsvSpec Artifact.

(** ** Paths and components *)
#[local] Abbreviation split := (split_byte slash).
Definition slashless (part : list ascii) : Prop := (slash ∉ part).
Lemma split_slashless bs : Forall slashless (split bs).
Proof. apply split_byte_free. Qed.
Lemma join_split bs : join_slash (split bs) = bs.
Proof.
  induction bs as [|c bs IH]; [done|]. rewrite split_byte_cons. pose proof (split_byte_nonempty slash bs) as Hne.
  destruct (split bs) as [|part parts]; [done|]. case_decide as Hc; rewrite <- IH; [by rewrite Hc|by destruct parts].
Qed.
Lemma split_join parts : parts <> [] -> Forall slashless parts -> split (join_slash parts) = parts.
Proof.
  intros Hne Hs. induction Hs as [|part parts Hp Hs IH]; [done|]. destruct parts as [|part' parts]; [by apply split_byte_single|].
  change (join_slash (part :: part' :: parts)) with (part ++ slash :: join_slash (part' :: parts)).
  rewrite split_byte_app by done. by rewrite IH.
Qed.
Lemma join_inj parts parts' : parts <> [] -> parts' <> [] -> Forall slashless parts -> Forall slashless parts' ->
  join_slash parts = join_slash parts' -> parts = parts'.
Proof. intros ? ? ? ? Heq. rewrite <- (split_join parts), <- (split_join parts') by done. by rewrite Heq. Qed.
Lemma join_snoc parts part : parts <> [] -> join_slash (parts ++ [part]) = join_slash parts ++ slash :: part.
Proof.
  induction parts as [|p parts IH]; [done|]. intros _. destruct parts as [|p' parts]; [done|].
  change (join_slash ((p :: p' :: parts) ++ [part])) with (p ++ slash :: join_slash ((p' :: parts) ++ [part])).
  rewrite IH by done. change (join_slash (p :: p' :: parts)) with (p ++ slash :: join_slash (p' :: parts)).
  by rewrite <- app_assoc.
Qed.

(** ** Case *)
#[local] Abbreviation lower := (map (map byte_to_lower)).
Lemma lower_slash c : byte_to_lower c = slash -> c = slash.
Proof. destruct c as [[] [] [] [] [] [] [] []]; vm_compute; congruence. Qed.
Lemma lower_slashless parts : Forall slashless parts -> Forall slashless (lower parts).
Proof.
  intros Hs. apply Forall_map. eapply Forall_impl; [exact Hs|]. intros part Hp (c & Hc & Hin)%list_elem_of_fmap.
  symmetry in Hc. apply lower_slash in Hc as ->. done.
Qed.
Lemma casefold_join parts : parts <> [] -> Forall slashless parts ->
  ascii_casefold_path (join_slash parts) = join_slash (lower parts).
Proof. intros Hne Hs. unfold ascii_casefold_path. by rewrite split_join. Qed.

(** ** Prefixes *)
Lemma elem_of_prefix_loop x pre parts : pre <> [] ->
  x ∈ prefix_loop false (join_slash pre) parts <->
  exists parts', parts' <> [] /\ parts' `prefix_of` parts /\ x = join_slash (pre ++ parts').
Proof.
  revert pre. induction parts as [|part parts IH]; intros pre Hne; simpl.
  { split; [by intros ?%elem_of_nil|]. by intros (? & ? & ->%prefix_nil_inv & _). }
  rewrite <- app_assoc. change ([slash] ++ part) with (slash :: part). rewrite <- join_snoc by done.
  rewrite elem_of_cons, IH by (by destruct pre). split.
  - intros [->|(parts' & ? & ? & ->)]; [exists [part]|exists (part :: parts')].
    + split_and!; [done|by apply prefix_cons, prefix_nil|done].
    + split_and!; [done|by apply prefix_cons|]. by rewrite <- app_assoc.
  - intros ([|part' parts'] & ? & Hp & ->); [done|]. pose proof (prefix_cons_inv_1 _ _ _ _ Hp) as ->.
    apply prefix_cons_inv_2 in Hp. destruct parts' as [|q parts']; [by left|]. right. exists (q :: parts').
    split_and!; [done|done|]. by rewrite <- app_assoc.
Qed.
Lemma elem_of_prefixes x parts :
  x ∈ prefix_loop true [] parts <-> exists parts', parts' <> [] /\ parts' `prefix_of` parts /\ x = join_slash parts'.
Proof.
  destruct parts as [|part parts]; simpl.
  { split; [by intros ?%elem_of_nil|]. by intros (? & ? & ->%prefix_nil_inv & _). }
  change part with (join_slash [part]) at 2. rewrite elem_of_cons, elem_of_prefix_loop by done. split.
  - intros [->|(parts' & ? & ? & ->)]; [exists [part]|exists (part :: parts')]; split_and!; try done; apply prefix_cons; [apply prefix_nil|done].
  - intros ([|part' parts'] & ? & Hp & ->); [done|]. pose proof (prefix_cons_inv_1 _ _ _ _ Hp) as ->.
    apply prefix_cons_inv_2 in Hp. destruct parts' as [|q parts']; [by left|]. right. by exists (q :: parts').
Qed.
Lemma ancestor_loop_false pre parts : pre <> [] -> Forall (fun part => part <> []) parts ->
  ancestor_loop pre parts = prefix_loop false pre parts.
Proof.
  intros Hne Hs. revert pre Hne. induction Hs as [|part parts Hp _ IH]; intros pre Hne; [done|].
  cbn [ancestor_loop prefix_loop]. rewrite bool_decide_eq_false_2 by done. rewrite IH; [done|]. by destruct pre.
Qed.
Lemma ancestor_loop_true parts : Forall (fun part => part <> []) parts -> ancestor_loop [] parts = prefix_loop true [] parts.
Proof. intros [|part parts' Hp Hs]; [done|]. simpl. by rewrite ancestor_loop_false. Qed.

(** ** The folded prefixes *)
Definition folds_apart (prefixes : list (list ascii)) : Prop :=
  forall p q, p ∈ prefixes -> q ∈ prefixes -> ascii_casefold_path p = ascii_casefold_path q -> p = q.
Definition represents (folded : gmap (list ascii) (list ascii)) (prefixes : list (list ascii)) : Prop :=
  forall k p, folded !! k = Some p <-> p ∈ prefixes /\ ascii_casefold_path p = k.
Lemma represents_apart folded prefixes : represents folded prefixes -> folds_apart prefixes.
Proof.
  intros Hr p q Hp Hq Heq. assert (folded !! ascii_casefold_path p = Some p) as H1 by (by apply Hr).
  assert (folded !! ascii_casefold_path q = Some q) as H2 by (by apply Hr). rewrite Heq in H1. congruence.
Qed.
Lemma represents_snoc folded prefixes p : represents folded prefixes ->
  (forall q, folded !! ascii_casefold_path p = Some q -> q = p) ->
  represents (<[ascii_casefold_path p := p]> folded) (prefixes ++ [p]).
Proof.
  intros Hr Hq k q. rewrite elem_of_app, list_elem_of_singleton, lookup_insert_Some, (Hr k q). split.
  - intros [[<- <-]|[Hne [Hin <-]]]; split; auto.
  - intros [[Hin | ->] <-]; [|by left]. destruct (decide (ascii_casefold_path p = ascii_casefold_path q)) as [Heq|]; [|by right].
    left. split; [done|]. symmetry. apply Hq. rewrite Heq. by apply Hr.
Qed.
Lemma insert_prefixes_Ok prefixes folded seen : represents folded seen ->
  (forall folded', insert_prefixes folded prefixes = Ok folded' -> represents folded' (seen ++ prefixes)) /\
  (folds_apart (seen ++ prefixes) -> exists folded', insert_prefixes folded prefixes = Ok folded').
Proof.
  revert folded seen. induction prefixes as [|p prefixes IH]; intros folded seen Hr; simpl.
  { rewrite app_nil_r. split; [by intros ? [= <-]|eauto]. }
  rewrite (cons_middle p seen prefixes), app_assoc.
  destruct (folded !! ascii_casefold_path p) as [q|] eqn:Hl; [destruct (decide (q = p)) as [Hq|Hq]|];
    rewrite ?bool_decide_eq_true_2, ?bool_decide_eq_false_2 by done.
  - apply IH, represents_snoc; [done|]. intros ? Hx. rewrite Hl in Hx. by injection Hx as <-.
  - split; [done|]. intros Ha. exfalso. apply Hq. apply Hr in Hl as [Hin Heq]. apply Ha; [set_solver..|done].
  - apply IH, represents_snoc; [done|]. intros ? Hx. by rewrite Hl in Hx.
Qed.

(** ** The first pass *)
Definition ascending (paths : list string) : Prop := StronglySorted (fun p q => ~ key_le q p) paths.
Definition total_size (files : list ArtifactDirectoryEntry) : N := foldr (fun e n => ent_size_bytes e + n)%N 0%N files.
Definition prefixes_of (files : list ArtifactDirectoryEntry) : list (list ascii) :=
  concat ((fun e => path_prefixes (ent_path e)) <$> files).
(** The paths seen so far are not above the previous one. *)
Definition below_previous (st : IndexState) : Prop :=
  forall path, path ∈ ix_exact_paths st -> exists previous, ix_previous_path st = Some previous /\ key_le path previous.

Lemma index_step st seen entry rest : represents (ix_casefold_prefixes st) seen -> below_previous st ->
  let next folded size := index_state (Some (ent_path entry)) ({[ent_path entry]} ∪ ix_exact_paths st) folded size in
  (forall st', index_loop st (entry :: rest) = Ok st' ->
     ArtifactDirectoryEntry_validate entry = Ok tt /\
     (forall previous, ix_previous_path st = Some previous -> ~ key_le (ent_path entry) previous) /\
     exists folded, represents folded (seen ++ path_prefixes (ent_path entry)) /\
       index_loop (next folded (ix_logical_size st + ent_size_bytes entry)%N) rest = Ok st') /\
  (ArtifactDirectoryEntry_validate entry = Ok tt ->
   (forall previous, ix_previous_path st = Some previous -> ~ key_le (ent_path entry) previous) ->
   folds_apart (seen ++ path_prefixes (ent_path entry)) -> (ix_logical_size st + ent_size_bytes entry <= u64_max)%N ->
   exists folded, represents folded (seen ++ path_prefixes (ent_path entry)) /\
     index_loop st (entry :: rest) = index_loop (next folded (ix_logical_size st + ent_size_bytes entry)%N) rest).
Proof.
  intros Hr Hb next. destruct (insert_prefixes_Ok (path_prefixes (ent_path entry)) _ _ Hr) as [Hsound Hcomplete]. split.
  - intros st' Hi. cbn [index_loop] in Hi. apply result_bind_Ok in Hi as ([] & Hv & Hi).
    apply result_bind_Ok in Hi as ([] & Hs & Hi). apply result_bind_Ok in Hi as ([] & _ & Hi).
    apply result_bind_Ok in Hi as (folded & Hf & Hi). apply result_bind_Ok in Hi as (size & Hz & Hi).
    split; [done|]. split.
    { intros previous Hp. rewrite Hp in Hs. apply ensure_Ok, negb_true_iff, bool_decide_eq_false in Hs. done. }
    exists folded. split; [by apply Hsound|]. unfold u64_checked_add in Hz. case_match; [|done]. by injection Hz as <-.
  - intros Hv Hs Ha Hz. destruct (Hcomplete Ha) as [folded Hf]. exists folded. split; [by apply Hsound|].
    cbn [index_loop]. rewrite Hv. cbn [mbind result_bind].
    assert (ensure (negb (is_some_and (fun previous => bool_decide (key_le (ent_path entry) previous)) (ix_previous_path st)))
              NotSorted = Ok tt) as ->.
    { apply ensure_Ok, negb_true_iff. destruct (ix_previous_path st) as [previous|]; [|done]. apply bool_decide_eq_false. by apply Hs. }
    cbn [mbind result_bind]. rewrite bool_decide_eq_false_2; last first.
    { intros (previous & Hp & Hle)%Hb. by apply (Hs previous). }
    cbn [negb ensure mbind result_bind]. rewrite Hf. cbn [mbind result_bind]. unfold u64_checked_add.
    destruct (N.leb_spec (ix_logical_size st + ent_size_bytes entry) u64_max); [done|lia].
Qed.
Lemma below_next st entry folded size : below_previous st ->
  (forall previous, ix_previous_path st = Some previous -> ~ key_le (ent_path entry) previous) ->
  below_previous (index_state (Some (ent_path entry)) ({[ent_path entry]} ∪ ix_exact_paths st) folded size).
Proof.
  intros Hb Hs path. simpl. intros [->%elem_of_singleton|Hin]%elem_of_union; exists (ent_path entry); (split; [done|]).
  - by destruct (total key_le (ent_path entry) (ent_path entry)).
  - destruct (Hb _ Hin) as (previous & Hp & Hle). specialize (Hs _ Hp).
    destruct (total key_le previous (ent_path entry)) as [|]; [by etrans|done].
Qed.
Definition above_previous (st : IndexState) (files : list ArtifactDirectoryEntry) : Prop :=
  forall previous, ix_previous_path st = Some previous -> Forall (fun e => ~ key_le (ent_path e) previous) files.

Lemma index_sound files : forall st seen st', represents (ix_casefold_prefixes st) seen -> below_previous st ->
  index_loop st files = Ok st' ->
  Forall (fun e => ArtifactDirectoryEntry_validate e = Ok tt) files /\ above_previous st files /\
  ascending (ent_path <$> files) /\ folds_apart (seen ++ prefixes_of files) /\
  ix_logical_size st' = (ix_logical_size st + total_size files)%N /\
  ix_exact_paths st' = list_to_set (ent_path <$> files) ∪ ix_exact_paths st.
Proof.
  induction files as [|entry files IH]; intros st seen st' Hr Hb Hi.
  { injection Hi as <-. unfold prefixes_of. csimpl. rewrite app_nil_r. split_and!; [done|by intros ? ?|constructor| |lia|set_solver].
    by eapply represents_apart. }
  destruct (proj1 (index_step st seen entry files Hr Hb) st' Hi) as (Hv & Hs & folded & Hf & Hi').
  apply (IH (index_state _ _ folded _) _ _ Hf (below_next _ _ _ _ Hb Hs)) in Hi' as (Hvs & Hab & Hasc & Ha & Hz & He).
  unfold prefixes_of in *. csimpl. rewrite app_assoc. simpl in Hz, He. specialize (Hab _ eq_refl).
  split_and!; [by constructor| | |done|lia|rewrite He; set_solver].
  - intros previous Hp. constructor; [by apply Hs|]. eapply Forall_impl; [exact Hab|]. intros e Hne Hle. apply Hne.
    destruct (total key_le previous (ent_path entry)) as [|Hx]; [by etrans|by apply Hs in Hx].
  - constructor; [done|]. by apply Forall_fmap.
Qed.
Lemma index_complete files : forall st seen, represents (ix_casefold_prefixes st) seen -> below_previous st ->
  Forall (fun e => ArtifactDirectoryEntry_validate e = Ok tt) files -> above_previous st files ->
  ascending (ent_path <$> files) -> folds_apart (seen ++ prefixes_of files) ->
  (ix_logical_size st + total_size files <= u64_max)%N -> exists st', index_loop st files = Ok st'.
Proof.
  induction files as [|entry files IH]; intros st seen Hr Hb Hv Hab Hasc Ha Hz; [by eexists|].
  apply Forall_cons in Hv as [Hv Hvs]. unfold prefixes_of in Ha. csimpl in Ha. rewrite app_assoc in Ha. simpl in Hz.
  assert (forall previous, ix_previous_path st = Some previous -> ~ key_le (ent_path entry) previous) as Hs.
  { intros previous Hp. specialize (Hab _ Hp). by apply Forall_cons in Hab as [? _]. }
  rewrite fmap_cons in Hasc. apply StronglySorted_inv in Hasc as [Hasc Hhd]. rewrite Forall_fmap in Hhd.
  destruct (proj2 (index_step st seen entry files Hr Hb) Hv Hs) as (folded & Hf & ->); [|lia|].
  { intros p q Hp Hq. apply Ha; apply elem_of_app; by left. }
  eapply IH; [exact Hf|by apply below_next|done| |done|done|simpl; lia].
  intros previous [= <-]. exact Hhd.
Qed.

(** ** The tree *)
Definition components (entry : ArtifactDirectoryEntry) : list (list ascii) := split (bytes (ent_path entry)).
(** The names of a directory differ by more than case, and no file is a
    directory of another. *)
Definition names_apart (files : list ArtifactDirectoryEntry) : Prop :=
  forall e e' parts parts', e ∈ files -> e' ∈ files -> parts <> [] -> parts' <> [] ->
    parts `prefix_of` components e -> parts' `prefix_of` components e' -> lower parts = lower parts' -> parts = parts'.
Definition files_are_leaves (files : list ArtifactDirectoryEntry) : Prop :=
  forall e e', e ∈ files -> e' ∈ files -> components e `prefix_of` components e' -> ent_path e = ent_path e'.
Definition well_laid (m : PortableDirectoryManifest) : Prop :=
  dir_version m = 2%N /\ Forall (fun e => ArtifactDirectoryEntry_validate e = Ok tt) (dir_files m) /\
  ascending (ent_path <$> dir_files m) /\ names_apart (dir_files m) /\ files_are_leaves (dir_files m) /\
  dir_size_bytes m = total_size (dir_files m) /\ (dir_size_bytes m <= JCS_SAFE_INTEGER_MAX)%N.

Lemma prefix_slashless e parts : parts `prefix_of` components e -> Forall slashless parts.
Proof. intros [rest Heq]. pose proof (split_slashless (bytes (ent_path e))) as Hs. fold (components e) in Hs.
  rewrite Heq in Hs. by apply Forall_app in Hs as [? _]. Qed.
Lemma elem_of_prefixes_of x files :
  x ∈ prefixes_of files <-> exists e parts, e ∈ files /\ parts <> [] /\ parts `prefix_of` components e /\ x = join_slash parts.
Proof.
  unfold prefixes_of. rewrite list_elem_of_In, in_concat. setoid_rewrite <- list_elem_of_In. setoid_rewrite list_elem_of_fmap. split.
  - intros (l & (e & -> & He) & Hx). apply elem_of_prefixes in Hx as (parts & ? & ? & ->). by exists e, parts.
  - intros (e & parts & He & Hne & Hp & ->). eexists. split; [by exists e|]. apply elem_of_prefixes. by exists parts.
Qed.
Lemma folds_apart_names files : folds_apart (prefixes_of files) <-> names_apart files.
Proof.
  split.
  - intros Ha e e' parts parts' He He' Hne Hne' Hp Hp' Heq.
    pose proof (prefix_slashless _ _ Hp). pose proof (prefix_slashless _ _ Hp'). apply join_inj; try done.
    apply Ha; [apply elem_of_prefixes_of; by exists e, parts|apply elem_of_prefixes_of; by exists e', parts'|].
    rewrite !casefold_join by done. by rewrite Heq.
  - intros Hn p q (e & parts & He & Hne & Hp & ->)%elem_of_prefixes_of (e' & parts' & He' & Hne' & Hp' & ->)%elem_of_prefixes_of Heq.
    pose proof (prefix_slashless _ _ Hp). pose proof (prefix_slashless _ _ Hp'). f_equal. apply (Hn e e'); try done.
    rewrite !casefold_join in Heq by done. apply join_inj in Heq; try done.
    + by destruct parts.
    + by destruct parts'.
    + by apply lower_slashless.
    + by apply lower_slashless.
Qed.

(** ** The second pass *)
Lemma path_components e : bytes (ent_path e) = join_slash (components e).
Proof. unfold components. by rewrite join_split. Qed.
Lemma components_inj e e' : components e = components e' -> ent_path e = ent_path e'.
Proof.
  intros Heq. rewrite <- (String.string_of_list_ascii_of_string (ent_path e)), <- (String.string_of_list_ascii_of_string (ent_path e')).
  f_equal. change (bytes (ent_path e) = bytes (ent_path e')). by rewrite !path_components, Heq.
Qed.
Lemma valid_components e : ArtifactDirectoryEntry_validate e = Ok tt -> Forall (fun part => part <> []) (components e).
Proof.
  unfold ArtifactDirectoryEntry_validate, validate_directory_path. intros H. apply result_bind_Ok in H as ([] & H & _).
  do 3 apply result_bind_Ok in H as ([] & _ & H). apply ensure_Ok, negb_true_iff in H. apply Forall_forall. intros part Hin ->.
  assert (existsb (fun component => bool_decide (component = []) || bool_decide (component = bytes ".")
            || bool_decide (component = bytes "..")) (split (bytes (ent_path e))) = true); [|congruence].
  apply existsb_exists. exists []. split; [|done]. by apply list_elem_of_In.
Qed.
Lemma strict_prefix {A} (l k : list A) : l `prefix_of` take (length k - 1) k <-> l `prefix_of` k /\ length l <= length k - 1.
Proof.
  split.
  - intros Hp. split; [etrans; [done|apply prefix_take]|]. apply prefix_length in Hp. rewrite length_take in Hp. lia.
  - intros [[rest ->] Hl]. exists (take (length (l ++ rest) - 1 - length l) rest). by rewrite take_app, take_ge.
Qed.
Lemma elem_of_ancestors x e : ArtifactDirectoryEntry_validate e = Ok tt ->
  x ∈ path_ancestors (ent_path e) <->
  exists parts, parts <> [] /\ parts `prefix_of` components e /\ parts <> components e /\ x = join_slash parts.
Proof.
  intros Hv%valid_components. unfold path_ancestors. fold (components e).
  rewrite ancestor_loop_true by (by apply Forall_take). rewrite elem_of_prefixes. setoid_rewrite strict_prefix.
  split; intros (parts & Hne & H); exists parts; (split; [done|]).
  - destruct H as [[Hp Hl] ->]. split_and!; try done. intros ->. destruct (components e); simpl in *; [done|lia].
  - destruct H as (Hp & Hneq & ->). split; [|done]. split; [done|]. destruct Hp as [rest Heq]. rewrite Heq, length_app.
    destruct rest as [|r rest]; [|simpl; lia]. rewrite app_nil_r in Heq. by rewrite Heq in Hneq.
Qed.
Lemma ancestors_checked files : Forall (fun e => ArtifactDirectoryEntry_validate e = Ok tt) files ->
  try_for_each (check_ancestors (list_to_set (ent_path <$> files))) files = Ok tt <-> files_are_leaves files.
Proof.
  intros Hv. rewrite Forall_forall in Hv. rewrite try_for_each_Ok, Forall_forall. unfold check_ancestors, files_are_leaves.
  setoid_rewrite try_for_each_Ok. setoid_rewrite Forall_forall. setoid_rewrite ensure_Ok. split.
  - intros H e e' He He' Hp. destruct (decide (components e = components e')) as [|Hne]; [by apply components_inj|]. exfalso.
    specialize (H e' He' (join_slash (components e))). rewrite elem_of_ancestors in H by auto.
    rewrite negb_true_iff, bool_decide_eq_false in H. apply H.
    + exists (components e). split_and!; try done. apply split_byte_nonempty.
    + apply elem_of_list_to_set. rewrite <- path_components. apply list_elem_of_fmap. exists e. split; [|done].
      apply String.string_of_list_ascii_of_string.
  - intros Hl e' He' x (parts & Hne & Hp & Hneq & ->)%elem_of_ancestors; [|by auto].
    rewrite negb_true_iff, bool_decide_eq_false, elem_of_list_to_set. intros (e & Heq & He)%list_elem_of_fmap.
    assert (components e = parts) as Hc.
    { unfold components. rewrite <- Heq. unfold bytes, of_bytes. rewrite String.list_ascii_of_string_of_list_ascii.
      apply split_join; [done|]. by eapply prefix_slashless. }
    apply Hneq. rewrite <- Hc. unfold components. f_equal. f_equal. apply Hl; [done..|by rewrite Hc].
Qed.

Lemma represents_nil : represents ∅ [].
Proof. intros k p. rewrite lookup_empty. split; [done|]. intros [Hp _]. by apply elem_of_nil in Hp. Qed.
Lemma accepted_iff_well_laid m : PortableDirectoryManifest_validate m = Ok tt <-> well_laid m.
Proof.
  assert (below_previous (index_state None ∅ ∅ 0)) as Hb by (intros path; simpl; set_solver).
  unfold PortableDirectoryManifest_validate, well_laid. rewrite !result_bind_unit, !ensure_Ok, N.eqb_eq, N.leb_le.
  change PORTABLE_DIRECTORY_MANIFEST_VERSION with 2%N. split.
  - intros (Hver & Hmax & Hi). apply result_bind_Ok in Hi as (st & Hi & Hrest).
    apply result_bind_unit in Hrest as [Hz Hl]. apply ensure_Ok, N.eqb_eq in Hz.
    apply (index_sound _ (index_state None ∅ ∅ 0) _ _ represents_nil Hb) in Hi as (Hv & _ & Hasc & Ha & Hsum & Hex).
    simpl in Hsum, Hex. rewrite (right_id_L ∅ (∪)) in Hex. rewrite Hex, ancestors_checked in Hl by done.
    split_and!; try done; [by apply folds_apart_names|lia].
  - intros (Hver & Hv & Hasc & Hn & Hl & Hz & Hmax). split_and!; try done.
    destruct (index_complete (dir_files m) (index_state None ∅ ∅ 0) [] represents_nil Hb Hv) as [st Hi].
    + by intros ? ?.
    + done.
    + by apply folds_apart_names.
    + simpl. unfold JCS_SAFE_INTEGER_MAX, u64_max in *. lia.
    + rewrite Hi. cbn [mbind result_bind].
      apply (index_sound _ (index_state None ∅ ∅ 0) _ _ represents_nil Hb) in Hi as (_ & _ & _ & _ & Hsum & Hex).
      simpl in Hsum, Hex. rewrite (right_id_L ∅ (∪)) in Hex. apply result_bind_unit. split.
      * apply ensure_Ok, N.eqb_eq. lia.
      * rewrite Hex. by apply ancestors_checked.
Qed.

Lemma NoDup_fmap_elem {A B} (f : A -> B) l x y : NoDup (f <$> l) -> x ∈ l -> y ∈ l -> f x = f y -> x = y.
Proof.
  intros Hn [i Hi]%list_elem_of_lookup [j Hj]%list_elem_of_lookup Heq.
  assert (i = j) as <-; [|congruence]. eapply (NoDup_lookup _ _ _ (f x) Hn); rewrite list_lookup_fmap; [by rewrite Hi|].
  rewrite Hj. simpl. by rewrite Heq.
Qed.
Lemma ascending_NoDup paths : ascending paths -> NoDup paths.
Proof.
  induction 1 as [|p paths _ IH Hp]; constructor; [|done]. intros Hin. rewrite Forall_forall in Hp. apply (Hp p Hin).
  by destruct (total key_le p p).
Qed.
(** The files are the leaves of a tree also where names fold case. *)
Lemma tree_folds m e e' : well_laid m -> e ∈ dir_files m -> e' ∈ dir_files m ->
  lower (components e) `prefix_of` lower (components e') -> e = e'.
Proof.
  intros (_ & _ & Hasc & Hn & Hl & _) He He' [rest Hp].
  eapply (NoDup_fmap_elem ent_path); [by apply ascending_NoDup|done..|]. apply Hl; [done..|].
  assert (components e = take (length (components e)) (components e')) as ->; [|apply prefix_take].
  eapply (Hn e e'); [done..| | |done|apply prefix_take|].
  - apply split_byte_nonempty.
  - intros Ht. pose proof (split_byte_nonempty slash (bytes (ent_path e))) as Hne. fold (components e) in Hne.
    apply (f_equal length) in Hp. rewrite length_app, !length_map in Hp. apply (f_equal length) in Ht.
    rewrite length_take in Ht. change (length []) with 0 in Ht.
    assert (length (components e) <> 0) by (by destruct (components e)). lia.
  - rewrite <- firstn_map, Hp, take_app_le by (by rewrite length_map). by rewrite take_ge by (by rewrite length_map).
Qed.

(** ** References of directories *)
Definition lower_hex (c : ascii) : bool := is_ascii_hexdigit c && negb (is_ascii_uppercase c).
Lemma to_hex_lower bs : length (to_hex bs) = 2 * length bs /\ forallb lower_hex (to_hex bs) = true.
Proof.
  induction bs as [|b bs [IHl IHh]]; [done|]. cbn [to_hex length forallb]. rewrite IHh. split; [lia|].
  rewrite !andb_true_iff. split_and!; [..|done]; destruct b as [[] [] [] [] [] [] [] []]; vm_compute; reflexivity.
Qed.
Lemma bytes_append s bs : bytes (s +:+ of_bytes bs) = bytes s ++ bs.
Proof.
  induction s as [|c s IH]; [apply String.list_ascii_of_string_of_list_ascii|].
  change (c :: bytes (s +:+ of_bytes bs) = c :: (bytes s ++ bs)). by rewrite IH.
Qed.
Lemma computed_digest_valid `{ManifestHash} m : sha256_digest (computed_digest m) = true.
Proof.
  unfold sha256_digest, computed_digest. pose proof (to_hex_lower (canonical_sha256 m)) as [Hl Hh].
  rewrite canonical_sha256_length in Hl. set (hex := to_hex _) in *.
  rewrite bytes_append.
  clearbody hex. unfold strip_prefix. rewrite take_app_length, drop_app_length, bool_decide_eq_true_2 by done.
  unfold is_some_and. apply andb_true_iff. split; [by rewrite Hl|exact Hh].
Qed.
Lemma artifact_ref_valid `{ManifestHash} m kind r : artifact_ref m kind = Ok r ->
  (exists k, ArtifactKind_new (kind_str kind) = Ok k) -> ArtifactRef_validate r = Ok tt.
Proof.
  intros Hr [k Hk]. apply result_bind_Ok in Hr as ([] & _ & Hr). pose proof (computed_digest_valid m) as Hd.
  set (digest := computed_digest m) in *. clearbody digest. injection Hr as <-. unfold ArtifactRef_validate, validate_digest.
  cbn [art_kind art_digest art_uri art_manifest_digest]. rewrite Hk. cbn [mbind result_bind]. rewrite Hd.
  cbn [ensure mbind result_bind]. by rewrite bool_decide_eq_true_2.
Qed.

(** C27: A portable directory is accepted exactly when it is well laid out: of
    version 2, with valid entries in strictly ascending order of their paths, no
    two prefixes of its paths that differ only by case, no file that is a
    directory of another file, and a declared size that is the sum of the entries'
    and an exact integer in JSON.  Then no file's path, folded to one case,
    continues another's, so the directory unpacks to the same tree on file systems
    that ignore case; and the reference it is published under is a valid one for
    every valid kind. *)
Theorem directory_is_a_tree `{ManifestHash} m :
  (PortableDirectoryManifest_validate m = Ok tt <-> well_laid m) /\
  (well_laid m -> forall e e', e ∈ dir_files m -> e' ∈ dir_files m ->
     map (map byte_to_lower) (components e) `prefix_of` map (map byte_to_lower) (components e') -> e = e') /\
  (forall kind, (exists k, ArtifactKind_new (kind_str kind) = Ok k) ->
     (exists r, artifact_ref m kind = Ok r /\ ArtifactRef_validate r = Ok tt) <-> well_laid m).
Proof.
  split; [apply accepted_iff_well_laid|]. split; [intros Hw e e'; by apply tree_folds|].
  intros kind Hk. rewrite <- accepted_iff_well_laid. split.
  - intros (r & Hr & _). by apply result_bind_Ok in Hr as ([] & ? & _).
  - intros Hv. assert (exists r, artifact_ref m kind = Ok r) as [r Hr].
    { unfold artifact_ref. rewrite Hv. cbn [mbind result_bind]. eauto. }
    exists r. split; [done|]. by eapply artifact_ref_valid.
Qed.
