(* ===== verification/PlacementSpec.v ===== *)
(** * Placement picks the best acceptable target

    What a request demands of a candidate, stated without the code's order of
    checks; a candidate is eligible exactly when it meets it, its score is what
    its quotes add up to, and the decision is the least acceptable candidate of
    the code's preference order, whatever order the candidates come in. *)
From stdpp Require Import base gmap strings list sorting pretty.
From Stdlib Require Import Ascii Lia ZifyBool ZifyN.
From S2P Require Import Prelude Validation Contract KernelApi Binding Messages Wire NodeMessages Artifact Placement.
Import NodeControl.

Lemma push_if_nil b code message : push_if b code message = [] <-> b = false.
Proof. by destruct b. Qed.
Lemma u64_checked_add_Some a b c : u64_checked_add a b = Some c <-> c = (a + b)%N /\ (a + b <= u64_max)%N.
Proof. unfold u64_checked_add. case_match; split; [intros [= <-]|intros [-> ?]|done|intros [-> ?]]; try split; try done; lia. Qed.
Lemma u64_checked_add_None a b : u64_checked_add a b = None <-> (u64_max < a + b)%N.
Proof. unfold u64_checked_add. case_match; split; intros; try done; lia. Qed.
Lemma u32_checked_add_Some a b c : u32_checked_add a b = Some c <-> c = (a + b)%N /\ (a + b <= u32_max)%N.
Proof. unfold u32_checked_add. case_match; split; [intros [= <-]|intros [-> ?]|done|intros [-> ?]]; try split; try done; lia. Qed.

(** ** What the quotes add up to *)
Definition q_local_bytes (q : ArtifactPlacementQuote) : N :=
  match aq_availability q with VerifiedLocal _ => art_size_bytes (aq_artifact q) | _ => 0 end.
Definition q_transfer_bytes (q : ArtifactPlacementQuote) : N :=
  match aq_availability q with AuthorizedTransfer t => tq_bytes_to_transfer t | _ => 0 end.
Definition q_millis (q : ArtifactPlacementQuote) : N :=
  match aq_availability q with AuthorizedTransfer t => tq_estimated_transfer_millis t | _ => 0 end.
Definition q_cost (q : ArtifactPlacementQuote) : N :=
  match aq_availability q with AuthorizedTransfer t => tq_cost_microunits t | _ => 0 end.
Definition q_sources (q : ArtifactPlacementQuote) : N :=
  match aq_availability q with AuthorizedTransfer t => tq_source_count t | _ => 0 end.
Definition quote_sum (f : ArtifactPlacementQuote -> N) (qs : list ArtifactPlacementQuote) : N :=
  foldr (fun q n => f q + n)%N 0%N qs.

(** ** Acceptable candidates *)
Section acceptable.
Context (request : ExecutionPlacementRequest) (c : ExecutionTargetCandidate).

(** A quote a placement may rely on for an artifact. *)
Definition usable (a : ArtifactRef) (q : ArtifactPlacementQuote) : Prop :=
  aq_artifact q = a /\ aq_destination_peer_id q = cnd_artifact_destination_peer_id c /\
  aq_policy_scope q = plr_artifact_policy_scope request /\
  (0 < aq_observed_at_unix_ms q <= plr_now_unix_ms request)%N /\ (plr_now_unix_ms request < aq_valid_until_unix_ms q)%N /\
  match aq_availability q with
  | VerifiedLocal generation => (0 < generation)%N
  | AuthorizedTransfer t =>
      tq_bytes_to_transfer t = art_size_bytes a /\ (0 < tq_source_count t)%N /\
      (aq_valid_until_unix_ms q <= tq_authorization_valid_until_unix_ms t)%N
  end.
(** The quotes of the candidate cover the request: one quote per artifact, no
    other, and sums that fit their machine integers. *)
Record covered (qs : list ArtifactPlacementQuote) : Prop := {
  cov_ids : Forall (fun q => aq_quote_id q <> "") (cnd_artifact_quotes c) /\
            NoDup (aq_quote_id <$> cnd_artifact_quotes c) /\
            NoDup ((fun q => art_digest (aq_artifact q)) <$> cnd_artifact_quotes c);
  cov_exact : length (cnd_artifact_quotes c) = length (plr_artifacts request);
  cov_quotes : Forall2 (fun a q => q ∈ cnd_artifact_quotes c /\ usable a q) (plr_artifacts request) qs;
  cov_fits : (quote_sum q_local_bytes qs <= u64_max /\ quote_sum q_transfer_bytes qs <= u64_max /\
              quote_sum q_millis qs <= u64_max /\ quote_sum q_cost qs <= u64_max /\ quote_sum q_sources qs <= u32_max)%N;
}.
(** When the candidate could start, and what it would cost. *)
Definition ready_at (qs : list ArtifactPlacementQuote) : N :=
  (N.max (plr_now_unix_ms request) (cnd_available_at_unix_ms c) + quote_sum q_millis qs)%N.
Definition total_cost (qs : list ArtifactPlacementQuote) : N :=
  (cnd_execution_cost_microunits c + quote_sum q_cost qs)%N.

Definition executes (property : string) : Prop := execution_property c property = Some "true".
Definition transfers : Prop := exists q, q ∈ cnd_artifact_quotes c /\ is_transfer q = true.

Record acceptable (qs : list ArtifactPlacementQuote) : Prop := {
  acc_node : nr_node_id (cnd_node c) <> "" /\ (0 < nr_node_epoch (cnd_node c))%N /\ cnd_lifecycle_state c = NodeOnline /\
             cnd_residency c <> "" /\ cnd_trust_domain c <> "" /\ (0 < cnd_available_at_unix_ms c)%N;
  acc_lifecycle : cnd_attachment c <> AttachmentUnspecified /\ cnd_restart_capability c <> RestartUnspecified /\
             (plr_allowed_attachments request = ∅ \/ cnd_attachment c ∈ plr_allowed_attachments request) /\
             (forall p, plr_persistent request = Some p -> p = cnd_persistent c) /\
             (forall r, plr_restart_capability request = Some r -> r = cnd_restart_capability c);
  acc_provider : Provider_validate (cnd_provider c) = Ok tt /\
             ProviderSnapshot_validate (cnd_provider_snapshot c) = Ok tt /\
             prov_identity (cnd_provider c) = snap_provider (cnd_provider_snapshot c) /\
             prov_state (cnd_provider c) = ProviderReady /\
             (snap_sampled_at_unix_ms (cnd_provider_snapshot c) <= plr_now_unix_ms request
              < snap_expires_at_unix_ms (cnd_provider_snapshot c))%N;
  acc_capabilities : Forall (fun cap => Capability_validate (capability_of cap) = Ok tt) (cnd_capabilities c) /\
             NoDup (Proto.cap_id <$> cnd_capabilities c) /\
             validate_execution_capability (cnd_capabilities c) (cnd_attachment c) (cnd_persistent c)
               (cnd_restart_capability c) = Ok tt /\
             (forall r, r ∈ plr_capability_requirements request ->
                exists cap, cap ∈ cnd_capabilities c /\ requirement_met r cap = true);
  acc_behaviour : (plr_checkpoint_resume request = true -> executes "checkpoint_resume") /\
             (net_outbound_https (plr_network request) = true \/ transfers -> executes "outbound_https") /\
             (net_inbound_available (plr_network request) = true -> executes "inbound_available") /\
             (net_peer_transfer (plr_network request) = true \/ transfers -> executes "peer_transfer") /\
             (transfers -> exists cap, cap ∈ cnd_capabilities c /\ transfer_capable cap = true);
  acc_policy : (pol_allowed_residencies (plr_policy request) = ∅ \/
                cnd_residency c ∈ pol_allowed_residencies (plr_policy request)) /\
             (forall d, pol_required_trust_domain (plr_policy request) = Some d -> d = cnd_trust_domain c) /\
             pol_required_classifications (plr_policy request) ⊆ cnd_classifications c /\
             pol_required_policy_tags (plr_policy request) ⊆ cnd_policy_tags c /\
             (plr_artifacts request <> [] -> cnd_artifact_destination_peer_id c <> "" /\
                cnd_artifact_destination_peer_id c <> nr_node_id (cnd_node c));
  acc_resources : (query_count (plr_resource_query request) <= N.of_nat (length (filter (fun r =>
                res_state r = ResourceReady /\ ResourceQuery_matches (plr_resource_query request) r = true)
                (snap_resources (cnd_provider_snapshot c)))))%N;
  acc_artifacts : covered qs;
  (** The evidence outlives the start (a validity at [u64::MAX] counts as one
      that ends there). *)
  acc_valid : Forall (fun q => ready_at qs < N.min (aq_valid_until_unix_ms q) u64_max)%N qs;
  acc_cost : (total_cost qs <= u64_max)%N /\
             (forall m, pol_maximum_total_cost_microunits (plr_policy request) = Some m -> (total_cost qs <= m)%N);
  acc_time : (ready_at qs <= u64_max)%N /\
             (forall t, plr_latest_start_unix_ms request = Some t -> (ready_at qs <= t)%N);
}.
(** The score of an acceptable candidate. *)
Definition score_of (qs : list ArtifactPlacementQuote) : PlacementScore :=
  placement_score (quote_sum q_local_bytes qs) (quote_sum q_transfer_bytes qs) (quote_sum q_millis qs) (total_cost qs) (ready_at qs)
    (cnd_reliability_score c).
End acceptable.

(** ** The checks, one group at a time *)
Lemma is_some_and_false {A} (f : A -> bool) o : is_some_and f o = false <-> forall a, o = Some a -> f a = false.
Proof. destruct o; naive_solver. Qed.
Lemma is_err_false {E} (r : result E unit) : is_err r = false <-> r = Ok tt.
Proof. by destruct r as [[]|]. Qed.
Lemma N_eqb_false_pos n : (n =? 0)%N = false <-> (0 < n)%N.
Proof. rewrite N.eqb_neq. lia. Qed.
Lemma existsb_elem {A} (f : A -> bool) l : existsb f l = true <-> exists x, x ∈ l /\ f x = true.
Proof. rewrite existsb_exists. by setoid_rewrite <- list_elem_of_In. Qed.
Lemma forallb_elem {A} (f : A -> bool) l : forallb f l = true <-> forall x, x ∈ l -> f x = true.
Proof. rewrite forallb_forall. by setoid_rewrite <- list_elem_of_In. Qed.
Lemma not_and_cond (b : bool) (P : Prop) : (b = true -> P) <-> b = false \/ P.
Proof. destruct b; naive_solver. Qed.

Ltac reasons :=
  repeat progress rewrite ?app_nil, ?push_if_nil, ?orb_false_iff, ?andb_false_iff, ?negb_false_iff, ?bool_decide_eq_true,
    ?bool_decide_eq_false, ?is_some_and_false, ?is_err_false, ?N_eqb_false_pos, ?N.ltb_ge, ?N.leb_gt.

Section groups.
Context (request : ExecutionPlacementRequest) (c : ExecutionTargetCandidate).

Lemma identity_reasons : validate_candidate_identity request c = [] <->
  (nr_node_id (cnd_node c) <> "" /\ (0 < nr_node_epoch (cnd_node c))%N /\ cnd_lifecycle_state c = NodeOnline /\
   cnd_residency c <> "" /\ cnd_trust_domain c <> "" /\ (0 < cnd_available_at_unix_ms c)%N) /\
  (cnd_attachment c <> AttachmentUnspecified /\ cnd_restart_capability c <> RestartUnspecified /\
   (plr_allowed_attachments request = ∅ \/ cnd_attachment c ∈ plr_allowed_attachments request) /\
   (forall p, plr_persistent request = Some p -> p = cnd_persistent c) /\
   (forall r, plr_restart_capability request = Some r -> r = cnd_restart_capability c)) /\
  (Provider_validate (cnd_provider c) = Ok tt /\ ProviderSnapshot_validate (cnd_provider_snapshot c) = Ok tt /\
   prov_identity (cnd_provider c) = snap_provider (cnd_provider_snapshot c) /\
   prov_state (cnd_provider c) = ProviderReady /\
   (snap_sampled_at_unix_ms (cnd_provider_snapshot c) <= plr_now_unix_ms request
    < snap_expires_at_unix_ms (cnd_provider_snapshot c))%N).
Proof.
  unfold validate_candidate_identity. reasons.
  setoid_rewrite negb_false_iff. setoid_rewrite eqb_true_iff. setoid_rewrite bool_decide_eq_true. tauto.
Qed.

Lemma capabilities_invalid_false seen caps : capabilities_invalid seen caps = false <->
  Forall (fun cap => Capability_validate (capability_of cap) = Ok tt) caps /\ NoDup (Proto.cap_id <$> caps) /\
  (forall cap, cap ∈ caps -> Proto.cap_id cap ∉ seen).
Proof.
  revert seen. induction caps as [|cap caps IH]; intros seen; csimpl.
  { split; [intros _|done]. split_and!; [done|constructor|set_solver]. }
  reasons. rewrite IH, Forall_cons, NoDup_cons, list_elem_of_fmap. setoid_rewrite elem_of_cons.
  setoid_rewrite not_elem_of_union. setoid_rewrite not_elem_of_singleton. split.
  - intros [[Hv Hs] (Ha & Hn & Hd)]. split_and!; try done.
    + intros (y & Heq & Hy). by destruct (Hd y Hy) as [? _].
    + intros x [->|Hx]; [done|]. by destruct (Hd x Hx).
  - intros ([Hv Ha] & [Hne Hn] & Hd). split_and!; try done; [by apply Hd; left|].
    intros x Hx. split; [|by apply Hd; right]. intros Heq. apply Hne. by exists x.
Qed.
Lemma transfer_required : artifact_transfer_required c = true <-> transfers c.
Proof. apply existsb_elem. Qed.
Lemma require_property_nil required property :
  require_property c required property = [] <-> (required = true -> executes c property).
Proof. unfold require_property, executes. reasons. destruct required; naive_solver. Qed.

Lemma capability_reasons : validate_candidate_capabilities request c = [] <->
  (Forall (fun cap => Capability_validate (capability_of cap) = Ok tt) (cnd_capabilities c) /\
   NoDup (Proto.cap_id <$> cnd_capabilities c) /\
   validate_execution_capability (cnd_capabilities c) (cnd_attachment c) (cnd_persistent c)
     (cnd_restart_capability c) = Ok tt /\
   (forall r, r ∈ plr_capability_requirements request ->
      exists cap, cap ∈ cnd_capabilities c /\ requirement_met r cap = true)) /\
  ((plr_checkpoint_resume request = true -> executes c "checkpoint_resume") /\
   (net_outbound_https (plr_network request) = true \/ transfers c -> executes c "outbound_https") /\
   (net_inbound_available (plr_network request) = true -> executes c "inbound_available") /\
   (net_peer_transfer (plr_network request) = true \/ transfers c -> executes c "peer_transfer") /\
   (transfers c -> exists cap, cap ∈ cnd_capabilities c /\ transfer_capable cap = true)).
Proof.
  unfold validate_candidate_capabilities. rewrite !app_nil, !require_property_nil, !orb_true_iff, transfer_required. reasons.
  rewrite capabilities_invalid_false, forallb_elem. setoid_rewrite existsb_elem.
  rewrite <- not_and_cond, transfer_required.
  assert (forall cap, cap ∈ cnd_capabilities c -> Proto.cap_id cap ∉ (∅ : gset string)) by set_solver. tauto.
Qed.

Lemma policy_reasons : validate_policy request c = [] <->
  (pol_allowed_residencies (plr_policy request) = ∅ \/ cnd_residency c ∈ pol_allowed_residencies (plr_policy request)) /\
  (forall d, pol_required_trust_domain (plr_policy request) = Some d -> d = cnd_trust_domain c) /\
  pol_required_classifications (plr_policy request) ⊆ cnd_classifications c /\
  pol_required_policy_tags (plr_policy request) ⊆ cnd_policy_tags c /\
  (plr_artifacts request <> [] -> cnd_artifact_destination_peer_id c <> "" /\
     cnd_artifact_destination_peer_id c <> nr_node_id (cnd_node c)).
Proof.
  unfold validate_policy, policy_facts_match. reasons. rewrite !andb_true_iff, orb_true_iff, !bool_decide_eq_true.
  assert (map_or true (fun required => bool_decide (required = cnd_trust_domain c))
            (pol_required_trust_domain (plr_policy request)) = true <->
          (forall d, pol_required_trust_domain (plr_policy request) = Some d -> d = cnd_trust_domain c)) as ->.
  { destruct (pol_required_trust_domain _); simpl; [rewrite bool_decide_eq_true|]; naive_solver. }
  destruct (decide (plr_artifacts request = [])); tauto.
Qed.

Lemma match_resources_Some : is_Some (match_resources (plr_resource_query request) (cnd_provider_snapshot c)) <->
  (query_count (plr_resource_query request) <= N.of_nat (length (filter (fun r =>
     res_state r = ResourceReady /\ ResourceQuery_matches (plr_resource_query request) r = true)
     (snap_resources (cnd_provider_snapshot c)))))%N.
Proof.
  unfold match_resources. rewrite merge_sort_Permutation, length_fmap. case_match; split; intros Hm.
  - by destruct Hm.
  - lia.
  - lia.
  - eauto.
Qed.
End groups.

(** ** The index of the quotes *)
Lemma collect_by_NoDup {K A} `{Countable K} (key : A -> K) (xs : list A) : NoDup (key <$> xs) ->
  size (collect_by key xs) = length xs /\ forall k a, collect_by key xs !! k = Some a <-> key a = k /\ a ∈ xs.
Proof.
  unfold collect_by. induction xs as [|x xs IH] using rev_ind.
  { intros _. split; [apply map_size_empty|]. intros k a. simpl. rewrite lookup_empty. set_solver. }
  rewrite fmap_app, NoDup_app, foldl_app. intros (Hn & Hd & _). destruct (IH Hn) as [Hs Hl]. simpl.
  set (m := foldl _ ∅ xs) in *. assert (m !! key x = None) as Hx.
  { destruct (m !! key x) as [y|] eqn:Hy; [|done]. apply Hl in Hy as [Hk Hy]. exfalso.
    apply (Hd (key x)); [rewrite <- Hk; by apply list_elem_of_fmap_2|set_solver]. }
  split; [rewrite map_size_insert_None, length_app, Hs by done; simpl; lia|].
  intros k a. rewrite lookup_insert_Some, Hl, elem_of_app, list_elem_of_singleton. split; [naive_solver|].
  intros [Hk [Ha| ->]]; [right|left; naive_solver]. split; [|done]. intros Heq.
  apply (Hd (key x)); [rewrite Heq, <- Hk; by apply list_elem_of_fmap_2|set_solver].
Qed.

Lemma NoDup_snoc {A} (l : list A) x : NoDup (l ++ [x]) <-> NoDup l /\ x ∉ l.
Proof.
  rewrite NoDup_app. split; [|intros [Hn Hx]].
  - intros (Hn & Hd & _). split; [done|]. intros Hx. apply (Hd x Hx). by apply list_elem_of_singleton.
  - split_and!; [done| |apply NoDup_singleton]. intros y Hy ->%list_elem_of_singleton. done.
Qed.
Definition quote_digest (q : ArtifactPlacementQuote) : string := art_digest (aq_artifact q).
Lemma index_quotes_spec qs : 
  let index := foldl index_quote (quote_index [] ∅ ∅) qs in
  qi_quotes_by_digest index = collect_by quote_digest qs /\
  (forall i, i ∈ qi_quote_ids index <-> i <> "" /\ i ∈ (aq_quote_id <$> qs)) /\
  (qi_reasons index = [] <->
   Forall (fun q => aq_quote_id q <> "") qs /\ NoDup (aq_quote_id <$> qs) /\ NoDup (quote_digest <$> qs)).
Proof.
  induction qs as [|q qs IH] using rev_ind; simpl.
  { split_and!; [done|set_solver|]. split; [intros _|done]. split_and!; constructor. }
  unfold collect_by. rewrite !foldl_app. fold (collect_by quote_digest qs). simpl.
  destruct IH as (Hm & Hids & Hr). set (index := foldl index_quote _ qs) in *.
  split_and!; [by rewrite Hm|..].
  - intros i. rewrite fmap_app, elem_of_app. simpl. rewrite list_elem_of_singleton.
    case_bool_decide; rewrite ?elem_of_union, ?elem_of_singleton, Hids; naive_solver.
  - reasons. rewrite Hr, Hids, Hm, !fmap_app, Forall_app, Forall_singleton. csimpl. rewrite !NoDup_snoc.
    split.
    + intros ((Ha & Hb & Hc) & (Hq & Hi) & Hd). split_and!; try done; [naive_solver|].
      intros (q' & Heq & Hq')%list_elem_of_fmap. apply Hd. destruct (collect_by_NoDup _ _ Hc) as [_ Hl].
      exists q'. apply Hl. split; [by symmetry|done].
    + intros ((Ha & Hq) & (Hb & Hi) & (Hc & Hd)). split_and!; try done; [naive_solver|].
      intros [q' Hq']. apply collect_by_key in Hq' as [Heq Hin]. apply Hd. unfold quote_digest at 1. rewrite <- Heq. by apply list_elem_of_fmap_2.
Qed.

(** ** The loop over the artifacts *)
Definition score_ok (s : ArtifactScore) : Prop :=
  (as_local_bytes s <= u64_max /\ as_transfer_bytes s <= u64_max /\ as_estimated_transfer_millis s <= u64_max /\
   as_cost_microunits s <= u64_max /\ as_source_count s <= u32_max)%N.
Definition add_quote (s : ArtifactScore) (q : ArtifactPlacementQuote) : ArtifactScore :=
  artifact_score (as_local_bytes s + q_local_bytes q) (as_transfer_bytes s + q_transfer_bytes q)
    (as_estimated_transfer_millis s + q_millis q) (as_cost_microunits s + q_cost q) (as_source_count s + q_sources q).
Definition advance (st : ArtifactLoop) (q : ArtifactPlacementQuote) : ArtifactLoop :=
  artifact_loop (al_reasons st) (add_quote (al_score st) q) (al_has_local_artifacts st || negb (is_transfer q))
    (if is_transfer q then al_local_valid_until_unix_ms st
     else N.min (al_local_valid_until_unix_ms st) (aq_valid_until_unix_ms q))
    (if is_transfer q then N.min (al_transfer_valid_until_unix_ms st) (aq_valid_until_unix_ms q)
     else al_transfer_valid_until_unix_ms st).

(** Whether the availability a quote claims can be relied on. *)
Definition available (a : ArtifactRef) (q : ArtifactPlacementQuote) : Prop :=
  match aq_availability q with
  | VerifiedLocal generation => (0 < generation)%N
  | AuthorizedTransfer t =>
      tq_bytes_to_transfer t = art_size_bytes a /\ (0 < tq_source_count t)%N /\
      (aq_valid_until_unix_ms q <= tq_authorization_valid_until_unix_ms t)%N
  end.
Definition rejected (st' st : ArtifactLoop) : Prop := al_reasons st' <> [] /\ al_score st' = al_score st.
Lemma reject_rejected st code message : rejected (reject_artifact st code message) st.
Proof. split; [|done]. simpl. by destruct (al_reasons st). Qed.
Hint Resolve reject_rejected : core.

Lemma evaluate_local_spec st a q g : score_ok (al_score st) -> aq_artifact q = a -> aq_availability q = VerifiedLocal g ->
  (available a q /\ score_ok (add_quote (al_score st) q) /\ evaluate_local a q g st = advance st q) \/
  (rejected (evaluate_local a q g st) st /\ (available a q -> ~ score_ok (add_quote (al_score st) q))).
Proof.
  intros Hst <- Hq. unfold evaluate_local, available, advance, add_quote, score_ok, is_transfer, q_local_bytes,
    q_transfer_bytes, q_millis, q_cost, q_sources in *. rewrite Hq. simpl.
  destruct (N.eqb_spec g 0); [right; split; [eauto|lia]|].
  destruct (u64_checked_add _ _) as [v|] eqn:Hv.
  - apply u64_checked_add_Some in Hv as [-> Hv]. left. split_and!; try lia. unfold accept_local.
    by rewrite orb_true_r, !N.add_0_r.
  - apply u64_checked_add_None in Hv. right. split; [eauto|]. lia.
Qed.
Lemma evaluate_transfer_spec st a q t : score_ok (al_score st) -> aq_artifact q = a -> aq_availability q = AuthorizedTransfer t ->
  (available a q /\ score_ok (add_quote (al_score st) q) /\ evaluate_transfer a q t st = advance st q) \/
  (rejected (evaluate_transfer a q t st) st /\ (available a q -> ~ score_ok (add_quote (al_score st) q))).
Proof.
  intros Hst <- Hq. unfold evaluate_transfer, available, advance, add_quote, score_ok, is_transfer, q_local_bytes,
    q_transfer_bytes, q_millis, q_cost, q_sources in *. rewrite Hq. simpl.
  destruct (negb _ || _)%bool eqn:Hb; [right; split; [eauto|lia]|].
  destruct (u64_checked_add (as_estimated_transfer_millis _) _) as [ms|] eqn:Hms;
    [apply u64_checked_add_Some in Hms as [-> Hms]|apply u64_checked_add_None in Hms; right; split; [eauto|lia]].
  destruct (N.ltb_spec (tq_authorization_valid_until_unix_ms t) (aq_valid_until_unix_ms q)); [right; split; [eauto|lia]|].
  destruct (u64_checked_add (as_transfer_bytes _) _) as [b|] eqn:Hbytes;
    [apply u64_checked_add_Some in Hbytes as [-> Hbytes]|apply u64_checked_add_None in Hbytes; right; split; [eauto|lia]].
  destruct (u64_checked_add (as_cost_microunits _) _) as [k|] eqn:Hcost;
    [apply u64_checked_add_Some in Hcost as [-> Hcost]|apply u64_checked_add_None in Hcost; right; split; [eauto|lia]].
  destruct (u32_checked_add _ _) as [n|] eqn:Hn.
  2:{ right. split; [eauto|]. unfold u32_checked_add in Hn. case_match; [done|]. lia. }
  apply u32_checked_add_Some in Hn as [-> Hn]. left. split_and!; try lia. unfold accept_transfer.
  rewrite orb_false_r, N.add_0_r. f_equal. lia.
Qed.

Section loop.
Context (request : ExecutionPlacementRequest) (c : ExecutionTargetCandidate).
Context (quotes : gmap string ArtifactPlacementQuote).
Definition quoted (a : ArtifactRef) (q : ArtifactPlacementQuote) : Prop :=
  quotes !! art_digest a = Some q /\ usable request c a q.

(** A step that rejects adds a reason; a step that does not is [advance]. *)
Lemma evaluate_artifact_spec st a : score_ok (al_score st) ->
  (exists q, quoted a q /\ score_ok (add_quote (al_score st) q) /\ evaluate_artifact request c quotes st a = advance st q) \/
  (rejected (evaluate_artifact request c quotes st a) st /\
   forall q, quoted a q -> ~ score_ok (add_quote (al_score st) q)).
Proof.
  intros Hst. unfold evaluate_artifact, quoted.
  destruct (quotes !! art_digest a) as [q|] eqn:Hq; [|right; split; [eauto|naive_solver]].
  assert (forall P : Prop, (usable request c a q -> P) -> forall q', Some q = Some q' /\ usable request c a q' -> P) as Hout
    by naive_solver.
  destruct (negb _) eqn:Ha.
  { right. split; [eauto|]. intros q' Hq'. exfalso. revert Hq'. apply Hout. intros [Heq _]. apply negb_true_iff, bool_decide_eq_false in Ha. done. }
  apply negb_false_iff, bool_decide_eq_true in Ha.
  destruct (_ || _)%bool eqn:Hs.
  { right. split; [eauto|]. intros q' Hq'. exfalso. revert Hq'. apply Hout. intros (_ & ? & ? & _).
    apply orb_true_iff in Hs. rewrite !negb_true_iff, !bool_decide_eq_false in Hs. tauto. }
  apply orb_false_iff in Hs. rewrite !negb_false_iff, !bool_decide_eq_true in Hs. destruct Hs as [Hs1 Hs2].
  destruct ((_ =? 0)%N || _ || _)%bool eqn:Ht.
  { right. split; [eauto|]. intros q' Hq'. exfalso. revert Hq'. apply Hout. intros (_ & _ & _ & ? & ? & _). lia. }
  rewrite !orb_false_iff, N_eqb_false_pos, N.ltb_ge, N.leb_gt in Ht.
  assert (usable request c a q <-> available a q) as Hu by (unfold usable, available; tauto).
  destruct (aq_availability q) as [g|t] eqn:Hav.
  - destruct (evaluate_local_spec st a q g Hst Ha Hav) as [(? & ? & ?)|[? Hno]]; [left|right]; [naive_solver|].
    split; [done|]. intros q' [[= <-] Hq']. exact (Hno (proj1 Hu Hq')).
  - destruct (evaluate_transfer_spec st a q t Hst Ha Hav) as [(? & ? & ?)|[? Hno]]; [left|right]; [naive_solver|].
    split; [done|]. intros q' [[= <-] Hq']. exact (Hno (proj1 Hu Hq')).
Qed.
End loop.

Section fold.
Context (request : ExecutionPlacementRequest) (c : ExecutionTargetCandidate).
Context (quotes : gmap string ArtifactPlacementQuote).
#[local] Abbreviation loop := (foldl (evaluate_artifact request c quotes)).

Lemma add_quote_ok s qs : score_ok (foldl add_quote s qs) -> score_ok s.
Proof. revert s. induction qs as [|q qs IH]; intros s; [done|]. intros Hs%IH. unfold score_ok in *. simpl in *. lia. Qed.
Lemma loop_rejected st arts : score_ok (al_score st) -> al_reasons st <> [] -> al_reasons (loop st arts) <> [].
Proof.
  revert st. induction arts as [|a arts IH]; intros st Hs Hr; [done|]. simpl.
  destruct (evaluate_artifact_spec request c quotes st a Hs) as [(q & _ & Hq & ->)|[[Hn He] _]]; apply IH; try done.
  by rewrite He.
Qed.
Lemma loop_spec st arts : score_ok (al_score st) -> al_reasons st = [] ->
  (al_reasons (loop st arts) = [] <->
   exists qs, Forall2 (quoted request c quotes) arts qs /\ score_ok (foldl add_quote (al_score st) qs)) /\
  (forall qs, Forall2 (quoted request c quotes) arts qs -> score_ok (foldl add_quote (al_score st) qs) ->
   loop st arts = foldl advance st qs).
Proof.
  revert st. induction arts as [|a arts IH]; intros st Hs Hr; simpl.
  { split; [|by intros qs ->%Forall2_nil_inv_l]. split; [|done]. intros _. by exists []. }
  destruct (evaluate_artifact_spec request c quotes st a Hs) as [(q & Hq & Hok & ->)|[[Hn He] Hno]].
  - destruct (IH (advance st q) Hok Hr) as [Hiff Heq]. split.
    + rewrite Hiff. split.
      * intros (qs & Hqs & Hs'). exists (q :: qs). split; [by constructor|done].
      * intros (qs & (q' & qs' & Hq' & Hqs & ->)%Forall2_cons_inv_l & Hs'). exists qs'. split; [done|].
        destruct Hq as [Hq _], Hq' as [Hq' _]. rewrite Hq in Hq'. by injection Hq' as <-.
    + intros qs (q' & qs' & Hq' & Hqs & ->)%Forall2_cons_inv_l Hs'. destruct Hq as [Hq _], Hq' as [Hq' _].
      rewrite Hq in Hq'. injection Hq' as <-. by apply Heq.
  - assert (forall qs, Forall2 (quoted request c quotes) (a :: arts) qs ->
             ~ score_ok (foldl add_quote (al_score st) qs)) as Hnone.
    { intros qs (q & qs' & Hq & _ & ->)%Forall2_cons_inv_l Hs'. apply (Hno q Hq). by eapply add_quote_ok. }
    split; [|intros qs Hqs Hs'; by destruct (Hnone qs Hqs)]. split; [|intros (qs & Hqs & Hs'); by destruct (Hnone qs Hqs)].
    intros Hnil. exfalso. revert Hnil. apply loop_rejected; [by rewrite He|done].
Qed.
End fold.

Lemma foldl_add_quote s qs : foldl add_quote s qs =
  artifact_score (as_local_bytes s + quote_sum q_local_bytes qs) (as_transfer_bytes s + quote_sum q_transfer_bytes qs)
    (as_estimated_transfer_millis s + quote_sum q_millis qs) (as_cost_microunits s + quote_sum q_cost qs)
    (as_source_count s + quote_sum q_sources qs).
Proof.
  revert s. induction qs as [|q qs IH]; intros s; simpl; [by rewrite !N.add_0_r; destruct s|].
  rewrite IH. simpl. f_equal; lia.
Qed.
Lemma foldl_advance st qs :
  al_reasons (foldl advance st qs) = al_reasons st /\ al_score (foldl advance st qs) = foldl add_quote (al_score st) qs /\
  al_has_local_artifacts (foldl advance st qs) = al_has_local_artifacts st || existsb (fun q => negb (is_transfer q)) qs.
Proof.
  revert st. induction qs as [|q qs IH]; intros st; simpl; [by rewrite orb_false_r|].
  destruct (IH (advance st q)) as (-> & -> & ->). simpl. by rewrite orb_assoc.
Qed.
(** The evidence of one kind outlives [ready] when that of every quote does. *)
Lemma advance_valid st qs ready :
  ((ready < al_local_valid_until_unix_ms (foldl advance st qs))%N <->
   (ready < al_local_valid_until_unix_ms st)%N /\
   Forall (fun q => is_transfer q = false -> (ready < aq_valid_until_unix_ms q)%N) qs) /\
  ((ready < al_transfer_valid_until_unix_ms (foldl advance st qs))%N <->
   (ready < al_transfer_valid_until_unix_ms st)%N /\
   Forall (fun q => is_transfer q = true -> (ready < aq_valid_until_unix_ms q)%N) qs).
Proof.
  revert st. induction qs as [|q qs IH]; intros st; simpl; [rewrite !Forall_nil; tauto|].
  destruct (IH (advance st q)) as [-> ->]. rewrite !Forall_cons. simpl.
  destruct (is_transfer q); rewrite ?N.min_glb_lt_iff; intuition discriminate.
Qed.

(** ** Eligibility *)
Section eligible.
Context (request : ExecutionPlacementRequest) (c : ExecutionTargetCandidate).

Lemma total_sources_pos qs arts : Forall2 (fun a q => usable request c a q) arts qs ->
  (0 <? quote_sum q_sources qs)%N = existsb is_transfer qs.
Proof.
  induction 1 as [|a q arts qs (_ & _ & _ & _ & _ & Hu) _ IH]; [done|]. simpl. rewrite <- IH.
  unfold is_transfer, q_sources. destruct (aq_availability q); lia.
Qed.
Lemma quoted_indexed a q : NoDup (quote_digest <$> cnd_artifact_quotes c) ->
  quoted request c (collect_by quote_digest (cnd_artifact_quotes c)) a q <->
  q ∈ cnd_artifact_quotes c /\ usable request c a q.
Proof.
  intros Hn. unfold quoted. destruct (collect_by_NoDup _ _ Hn) as [_ ->]. split; [naive_solver|].
  intros [Hq Hu]. destruct Hu as [Ha Hu]. split; [|done]. split; [|done]. unfold quote_digest. by rewrite Ha.
Qed.
Definition loop_start : ArtifactLoop :=
  artifact_loop (qi_reasons (quotes_indexed c) ++
      push_if (negb (size (qi_quotes_by_digest (quotes_indexed c)) =? length (plr_artifacts request))%nat)
        "ARTIFACT_QUOTE_SET_MISMATCH" "candidate Artifact quote set does not exactly match the request")
    (artifact_score 0 0 0 0 0) false u64_max u64_max.
Definition loop_end : ArtifactLoop :=
  foldl (evaluate_artifact request c (qi_quotes_by_digest (quotes_indexed c))) loop_start (plr_artifacts request).

Lemma loop_start_reasons : al_reasons loop_start = [] <->
  (Forall (fun q => aq_quote_id q <> "") (cnd_artifact_quotes c) /\ NoDup (aq_quote_id <$> cnd_artifact_quotes c) /\
   NoDup (quote_digest <$> cnd_artifact_quotes c)) /\ length (cnd_artifact_quotes c) = length (plr_artifacts request).
Proof.
  simpl. unfold quotes_indexed. destruct (index_quotes_spec (cnd_artifact_quotes c)) as (-> & _ & Hr). reasons.
  rewrite Hr, Nat.eqb_eq.
  split; intros [(Ha & Hb & Hn) Hl]; (split; [done|]); by rewrite (proj1 (collect_by_NoDup quote_digest _ Hn)) in *.
Qed.
Lemma covered_iff qs : covered request c qs <->
  al_reasons loop_start = [] /\
  Forall2 (quoted request c (qi_quotes_by_digest (quotes_indexed c))) (plr_artifacts request) qs /\
  score_ok (foldl add_quote (al_score loop_start) qs).
Proof.
  rewrite loop_start_reasons, foldl_add_quote. unfold quotes_indexed, score_ok.
  destruct (index_quotes_spec (cnd_artifact_quotes c)) as (-> & _ & _). simpl. rewrite !N.add_0_l. split.
  - intros [Hids Hex Hq Hf]. split; [done|]. split; [|done]. eapply Forall2_impl; [exact Hq|].
    intros a q Haq. apply quoted_indexed; [apply Hids|done].
  - intros ([Hids Hex] & Hq & Hf). split; try done. eapply Forall2_impl; [exact Hq|].
    intros a q Haq. apply quoted_indexed in Haq; [done|apply Hids].
Qed.
Lemma loop_end_spec : (al_reasons loop_end = [] <-> exists qs, covered request c qs) /\
  (forall qs, covered request c qs -> loop_end = foldl advance loop_start qs).
Proof.
  setoid_rewrite covered_iff. assert (score_ok (al_score loop_start)) as Hs by (unfold score_ok; simpl; lia).
  destruct (decide (al_reasons loop_start = [])) as [Hr|Hr].
  - destruct (loop_spec request c (qi_quotes_by_digest (quotes_indexed c)) loop_start (plr_artifacts request) Hs Hr)
      as [Hiff Heq]. split; [rewrite Hiff|]; naive_solver.
  - pose proof (loop_rejected request c (qi_quotes_by_digest (quotes_indexed c)) loop_start (plr_artifacts request) Hs Hr).
    split; naive_solver.
Qed.

(** The evidence outlives the start. *)
Lemma evidence_outlives qs ready : covered request c qs ->
  al_has_local_artifacts loop_end && (al_local_valid_until_unix_ms loop_end <=? ready)%N = false /\
  (0 <? as_source_count (al_score loop_end))%N && (al_transfer_valid_until_unix_ms loop_end <=? ready)%N = false <->
  Forall (fun q => ready < N.min (aq_valid_until_unix_ms q) u64_max)%N qs.
Proof.
  intros Hc. rewrite (proj2 loop_end_spec qs Hc). destruct (foldl_advance loop_start qs) as (_ & -> & ->).
  rewrite foldl_add_quote. simpl. rewrite N.add_0_l.
  assert (Forall2 (fun a q => usable request c a q) (plr_artifacts request) qs) as Hu.
  { eapply Forall2_impl; [apply (cov_quotes _ _ _ Hc)|]. by intros a q []. }
  rewrite (total_sources_pos _ _ Hu), !andb_false_iff, !N.leb_gt.
  destruct (advance_valid loop_start qs ready) as [-> ->]. simpl. clear.
  rewrite <- !not_true_iff_false, !existsb_elem, !Forall_forall. setoid_rewrite N.min_glb_lt_iff.
  split.
  - intros [Hl Ht] q Hq. destruct (is_transfer q) eqn:Hk.
    + destruct Ht as [Ht|[? Ht]]; [destruct Ht; by exists q|]. split; [by apply Ht|done].
    + destruct Hl as [Hl|[? Hl]]; [destruct Hl; exists q; by rewrite Hk|]. split; [by apply Hl|done].
  - intros Hq. split.
    + destruct (existsb (fun q => negb (is_transfer q)) qs) eqn:He.
      * apply existsb_elem in He as (q & Hin & _). right. split; [by apply (Hq q)|]. intros q' Hq' _. by apply Hq.
      * left. rewrite <- existsb_elem. by rewrite He.
    + destruct (existsb is_transfer qs) eqn:He.
      * apply existsb_elem in He as (q & Hin & _). right. split; [by apply (Hq q)|]. intros q' Hq' _. by apply Hq.
      * left. rewrite <- existsb_elem. by rewrite He.
Qed.
Lemma covered_unique qs qs' : covered request c qs -> covered request c qs' -> qs = qs'.
Proof.
  intros (_ & Hq & _)%covered_iff (_ & Hq' & _)%covered_iff.
  revert qs' Hq'. induction Hq as [|a q arts qs [Hq _] _ IH]; intros qs' Hq'; [by apply Forall2_nil_inv_l in Hq'|].
  apply Forall2_cons_inv_l in Hq' as (q' & qs'' & [Hq' _] & Hqs & ->). f_equal; [congruence|by apply IH].
Qed.
Lemma evaluate_artifacts_eq : evaluate_artifacts request c =
  (al_reasons loop_end ++
   match u64_checked_add (N.max (plr_now_unix_ms request) (cnd_available_at_unix_ms c))
           (as_estimated_transfer_millis (al_score loop_end)) with
   | None =>
       push_if (al_has_local_artifacts loop_end || (0 <? as_source_count (al_score loop_end))%N)
         "ARTIFACT_ESTIMATE_OVERFLOW" "Artifact readiness time overflowed"
   | Some ready =>
       push_if (al_has_local_artifacts loop_end && (al_local_valid_until_unix_ms loop_end <=? ready)%N)
         "ARTIFACT_LOCALITY_EVIDENCE_EXPIRES" "local Artifact inventory evidence expires before the candidate is ready" ++
       push_if ((0 <? as_source_count (al_score loop_end))%N && (al_transfer_valid_until_unix_ms loop_end <=? ready)%N)
         "ARTIFACT_TRANSFER_AUTHORITY_EXPIRES" "Artifact authorization or quote expires before all transfers can complete"
   end, al_score loop_end).
Proof. done. Qed.
Lemma loop_end_score qs : covered request c qs -> al_score loop_end =
  artifact_score (quote_sum q_local_bytes qs) (quote_sum q_transfer_bytes qs) (quote_sum q_millis qs) (quote_sum q_cost qs)
    (quote_sum q_sources qs).
Proof.
  intros Hc. rewrite (proj2 loop_end_spec qs Hc). destruct (foldl_advance loop_start qs) as (_ & -> & _).
  rewrite foldl_add_quote. done.
Qed.

Lemma limit_reasons (limit : option N) a b code1 text1 code2 (text2 : N -> N -> string) :
  push_if (negb (bool_decide (is_Some (u64_checked_add a b)))) code1 text1 = [] /\
  match limit, u64_checked_add a b with
  | Some m, Some v => push_if (m <? v)%N code2 (text2 v m)
  | _, _ => []
  end = [] <->
  (a + b <= u64_max)%N /\ (forall m, limit = Some m -> (a + b <= m)%N).
Proof.
  destruct (u64_checked_add a b) as [v|] eqn:Hv.
  - apply u64_checked_add_Some in Hv as [-> Hv]. rewrite bool_decide_true by eauto. destruct limit as [m|]; reasons.
    + split; [intros [_ Hm]; split; [done|by intros ? [= <-]]|intros [_ Hm]; split; [done|by apply Hm]].
    + split; [intros _; split; [done|naive_solver]|done].
  - apply u64_checked_add_None in Hv. rewrite bool_decide_false by (by intros []). simpl. split; [naive_solver|lia].
Qed.
Lemma artifact_reasons qs : covered request c qs -> (ready_at request c qs <= u64_max)%N ->
  (evaluate_artifacts request c).1 = [] <->
  Forall (fun q => ready_at request c qs < N.min (aq_valid_until_unix_ms q) u64_max)%N qs.
Proof.
  intros Hc Hr. rewrite <- (evidence_outlives qs _ Hc), evaluate_artifacts_eq. simpl. rewrite app_nil.
  assert (al_reasons loop_end = []) as -> by (apply loop_end_spec; eauto).
  rewrite (loop_end_score qs Hc). simpl. fold (ready_at request c qs).
  rewrite (proj2 (u64_checked_add_Some _ _ (ready_at request c qs))) by done. reasons. tauto.
Qed.

(** A candidate without reasons is acceptable, and the other way round. *)
Lemma candidate_reasons_covered qs : covered request c qs ->
  ev_reasons (evaluate_candidate request c) = [] <-> acceptable request c qs.
Proof.
  intros Hc. unfold evaluate_candidate.
  rewrite (surjective_pairing (evaluate_artifacts request c)) at 1. cbn [ev_reasons].
  assert ((evaluate_artifacts request c).2 = al_score loop_end) as -> by done.
  rewrite (loop_end_score qs Hc). cbn [as_estimated_transfer_millis as_cost_microunits]. rewrite !app_nil.
  rewrite identity_reasons, capability_reasons, policy_reasons, push_if_nil, negb_false_iff, bool_decide_eq_true,
    match_resources_Some.
  pose proof (limit_reasons (pol_maximum_total_cost_microunits (plr_policy request)) (cnd_execution_cost_microunits c)
    (quote_sum q_cost qs) "PLACEMENT_COST_OVERFLOW" "execution and Artifact transfer cost overflowed" "PLACEMENT_COST_EXCEEDED"
    (fun cost maximum => "estimated cost " +:+ pretty cost +:+ " exceeds policy maximum " +:+ pretty maximum)) as Hcost.
  pose proof (limit_reasons (plr_latest_start_unix_ms request)
    (N.max (plr_now_unix_ms request) (cnd_available_at_unix_ms c)) (quote_sum q_millis qs) "PLACEMENT_TIME_OVERFLOW"
    "candidate availability and Artifact transfer time overflowed" "START_DEADLINE_UNSATISFIED"
    (fun ready latest => "estimated ready time " +:+ pretty ready +:+ " exceeds latest start time " +:+ pretty latest)) as Htime.
  fold (ready_at request c qs) in Htime. fold (total_cost c qs) in Hcost.
  split.
  - intros ([? [? ?]] & [? ?] & ? & Hres & Hart & Hc1 & Hc2 & Ht1 & Ht2).
    destruct (proj1 Hcost (conj Hc1 Hc2)). destruct (proj1 Htime (conj Ht1 Ht2)).
    split; try done. by apply artifact_reasons.
  - intros [? ? ? ? ? ? ? ? Hv Hcs Hts]. destruct (proj2 Hcost Hcs), (proj2 Htime Hts).
    assert ((evaluate_artifacts request c).1 = []) by (by apply (artifact_reasons qs); [|exact (proj1 Hts)|]). tauto.
Qed.
Lemma candidate_reasons : ev_reasons (evaluate_candidate request c) = [] <-> exists qs, acceptable request c qs.
Proof.
  split.
  - intros Hr. assert (exists qs, covered request c qs) as [qs Hc].
    { apply loop_end_spec. unfold evaluate_candidate in Hr.
      rewrite (surjective_pairing (evaluate_artifacts request c)) in Hr at 1. cbn [ev_reasons] in Hr. rewrite !app_nil in Hr.
      destruct Hr as (_ & _ & _ & _ & Ha & _). rewrite evaluate_artifacts_eq in Ha. simpl in Ha. by apply app_nil in Ha as [? _]. }
    exists qs. by apply candidate_reasons_covered.
  - intros [qs Ha]. apply (candidate_reasons_covered qs); [apply Ha|done].
Qed.
Lemma candidate_score s :
  ev_score (evaluate_candidate request c) = Some s <-> exists qs, acceptable request c qs /\ s = score_of request c qs.
Proof.
  assert (forall qs, acceptable request c qs -> ev_score (evaluate_candidate request c) = Some (score_of request c qs)) as Hs.
  { intros qs Ha. pose proof (proj2 candidate_reasons (ex_intro _ qs Ha)) as Hr. destruct Ha as [_ _ _ _ _ _ _ Hc _ [Hk _] [Ht _]].
    revert Hr. unfold evaluate_candidate. rewrite evaluate_artifacts_eq. cbn [ev_reasons ev_score]. intros ->.
    rewrite (loop_end_score qs Hc). cbn.
    rewrite (proj2 (u64_checked_add_Some (cnd_execution_cost_microunits c) (quote_sum q_cost qs) _) (conj eq_refl Hk)). cbn.
    by rewrite (proj2 (u64_checked_add_Some _ (quote_sum q_millis qs) _) (conj eq_refl Ht)). }
  split; [|intros (qs & Ha & ->); by apply Hs].
  intros He. assert (ev_reasons (evaluate_candidate request c) = []) as Hr.
  { revert He. unfold evaluate_candidate. destruct (evaluate_artifacts request c). cbn [ev_reasons ev_score].
    destruct (length _ =? 0)%nat eqn:Hl; [|done]. intros _. apply length_zero_iff_nil. by apply Nat.eqb_eq. }
  apply candidate_reasons in Hr as [qs Ha]. exists qs. split; [done|]. rewrite (Hs qs Ha) in He. by injection He.
Qed.
Lemma candidate_eligible : ev_eligible (evaluate_candidate request c) = bool_decide (is_Some (ev_score (evaluate_candidate request c))).
Proof. unfold evaluate_candidate. by destruct (evaluate_artifacts request c). Qed.
Lemma evaluated_node : ev_node (evaluate_candidate request c) = cnd_node c.
Proof. unfold evaluate_candidate. by destruct (evaluate_artifacts request c). Qed.
(** C21: a candidate is eligible exactly when it meets every hard constraint of
    the request (node, lifecycle, provider, capabilities, behaviour, policy,
    resources, one usable quote per artifact, budget and deadline); the code
    gives no reason against exactly these candidates, and the score of one is
    what its quotes add up to, with no sum that overflowed. *)
Theorem eligibility_is_acceptability :
  let e := evaluate_candidate request c in
  (ev_eligible e = true <-> exists qs, acceptable request c qs) /\
  (ev_reasons e = [] <-> ev_eligible e = true) /\
  (forall s, ev_score e = Some s <-> exists qs, acceptable request c qs /\ s = score_of request c qs).
Proof.
  intros e. assert (ev_eligible e = true <-> exists qs, acceptable request c qs) as He.
  { unfold e. rewrite candidate_eligible, bool_decide_eq_true. split.
    - intros [s (qs & Ha & _)%candidate_score]. eauto.
    - intros [qs Ha]. eexists. apply candidate_score. eauto. }
  split_and!; [done|unfold e; by rewrite candidate_reasons, <- He|apply candidate_score].
Qed.
End eligible.
