(* ===== verification/PlacementChoice.v ===== *)
(** * The placement decision

    The sorted evaluations of [plan_execution_placement] and the target that
    [place_execution_target] returns. *)
From stdpp Require Import base gmap strings list sorting pretty.
From Stdlib Require Import Ascii Lia ZifyBool ZifyN.
From S2P Require Import Prelude Validation Contract KernelApi Binding Messages Wire NodeMessages Artifact Placement PlacementSpec.
Import NodeControl.

(** ** The preference order

    The comparison of two evaluations is the lexicographic one of their keys;
    [Desc] reverses the order of a component. *)
Record Desc := desc { desc_value : N }.
#[export] Program Instance Desc_ordered : Ordered Desc := {| compare x y := compare (desc_value y) (desc_value x) |}.
Next Obligation. intros [x] [y]. cbn [desc_value]. rewrite (compare_eq (K := N)). naive_solver. Qed.
Next Obligation. intros [] []. apply (compare_antisym (K := N)). Qed.
Next Obligation. intros [x] [y] [z] H1 H2. exact (compare_lt_trans _ _ _ H2 H1). Qed.

Definition EvaluationKey : Type := N * (Desc * (N * (N * (N * (N * (Desc * (string * N))))))).
Definition evaluation_key (e : CandidateEvaluation) : EvaluationKey :=
  let node := (nr_node_id (ev_node e), nr_node_epoch (ev_node e)) in
  match ev_score e with
  | Some s =>
      (0, (desc (sc_local_artifact_bytes s), (sc_estimated_transfer_millis s, (sc_transfer_bytes s,
        (sc_total_cost_microunits s, (sc_estimated_ready_at_unix_ms s, (desc (sc_reliability_score s), node)))))))%N
  | None => (1, (desc 0, (0, (0, (0, (0, (desc 0, node)))))))%N
  end.
Lemma compare_evaluations_key e e' : compare_evaluations e e' = compare (evaluation_key e) (evaluation_key e').
Proof.
  unfold compare_evaluations, evaluation_key, compare_nodes, then_with.
  destruct (ev_score e), (ev_score e'); simpl; repeat case_match; try done.
Qed.
Lemma evaluation_le_key e e' : evaluation_le e e' <-> key_le (evaluation_key e) (evaluation_key e').
Proof. unfold evaluation_le, key_le. by rewrite compare_evaluations_key. Qed.
#[export] Instance evaluation_le_trans : Transitive evaluation_le.
Proof. intros x y z. rewrite !evaluation_le_key. apply transitivity. Qed.
#[export] Instance evaluation_le_total : Total evaluation_le.
Proof. intros x y. rewrite !evaluation_le_key. apply (total key_le). Qed.

(** Evaluations that compare equal are of the same node. *)
Lemma evaluation_le_node e e' : evaluation_le e e' -> evaluation_le e' e -> ev_node e = ev_node e'.
Proof.
  rewrite !evaluation_le_key. intros H1 H2. pose proof (anti_symm key_le _ _ H1 H2) as Hk. revert Hk. unfold evaluation_key.
  destruct (ev_node e), (ev_node e'), (ev_score e), (ev_score e'); simpl; congruence.
Qed.
Lemma evaluation_lt e e' : compare_evaluations e e' = Lt <-> evaluation_le e e' /\ ~ evaluation_le e' e.
Proof.
  unfold evaluation_le. rewrite !compare_evaluations_key, (compare_antisym (evaluation_key e) (evaluation_key e')).
  destruct (compare _ _); simpl; naive_solver.
Qed.

(** ** The choice *)
Section choice.
Context (request : ExecutionPlacementRequest) (candidates : list ExecutionTargetCandidate).

(** [c] is the choice: acceptable, and preferred to every other acceptable
    candidate. *)
Definition best (c : ExecutionTargetCandidate) : Prop :=
  c ∈ candidates /\ (exists qs, acceptable request c qs) /\
  forall c' qs', c' ∈ candidates -> acceptable request c' qs' -> c' <> c ->
    compare_evaluations (evaluate_candidate request c) (evaluate_candidate request c') = Lt.

Definition sorted_evaluations : list CandidateEvaluation :=
  merge_sort evaluation_le (evaluate_candidate request <$> candidates).
Lemma elem_of_sorted e : e ∈ sorted_evaluations <-> exists c, c ∈ candidates /\ e = evaluate_candidate request c.
Proof. unfold sorted_evaluations. rewrite merge_sort_Permutation, list_elem_of_fmap. naive_solver. Qed.
Lemma eligible_acceptable c : ev_eligible (evaluate_candidate request c) = true <-> exists qs, acceptable request c qs.
Proof.
  rewrite candidate_eligible, bool_decide_eq_true. split.
  - intros [s (qs & Ha & _)%candidate_score]. eauto.
  - intros [qs Ha]. eexists. apply candidate_score. eauto.
Qed.

(** The first eligible evaluation of the sorted list is the least one. *)
Lemma sorted_find i e : list_find (fun e => ev_eligible e = true) sorted_evaluations = Some (i, e) ->
  e ∈ sorted_evaluations /\ ev_eligible e = true /\
  forall e', e' ∈ sorted_evaluations -> ev_eligible e' = true -> evaluation_le e e'.
Proof.
  intros (Hi & He & Hfirst)%list_find_Some. split; [by eapply list_elem_of_lookup_2|]. split; [done|].
  intros e' (j & Hj)%list_elem_of_lookup_1 He'.
  assert (i <= j)%nat as Hij by (destruct (le_lt_dec i j); [done|]; exfalso; by eapply Hfirst).
  destruct (decide (i = j)) as [->|Hne]; [assert (e = e') as -> by congruence; unfold evaluation_le;
    rewrite compare_evaluations_key; by rewrite (proj2 (compare_eq _ _) eq_refl)|].
  pose proof (StronglySorted_merge_sort evaluation_le (evaluate_candidate request <$> candidates)) as Hs.
  fold sorted_evaluations in Hs. clear -Hs Hi Hj Hij Hne. revert i j Hi Hj Hij Hne.
  induction Hs as [|x l _ IH Hx]; intros [|i] [|j] Hi Hj Hij Hne; simplify_eq/=; try done; try lia.
  - rewrite Forall_forall in Hx. apply Hx. by eapply list_elem_of_lookup_2.
  - eapply IH; [done..|lia|lia].
Qed.
Lemma sorted_find_None : list_find (fun e => ev_eligible e = true) sorted_evaluations = None <->
  forall c qs, c ∈ candidates -> ~ acceptable request c qs.
Proof.
  rewrite list_find_None, Forall_forall. setoid_rewrite elem_of_sorted. split.
  - intros Hn c qs Hc Ha. apply (Hn (evaluate_candidate request c)); [eauto|]. apply eligible_acceptable. eauto.
  - intros Hn e (c & Hc & ->) [qs Ha]%eligible_acceptable. by eapply Hn.
Qed.

Definition duplicate_target : FabricContractError :=
  fabric_error "EXECUTION_TARGET_DUPLICATE" "candidate set contains a duplicate NodeRef".
Definition waiting_for_target : FabricContractError :=
  fabric_error "WAITING_FOR_EXECUTION_TARGET"
    "no target satisfies the canonical resource, policy, lifecycle, and Artifact constraints".

Lemma node_key_inj c c' : NoDup (node_key <$> candidates) -> c ∈ candidates -> c' ∈ candidates ->
  cnd_node c = cnd_node c' -> c = c'.
Proof.
  intros Hn Hc Hc' Heq. assert (node_key c = node_key c') as Hk by (unfold node_key; by rewrite Heq). clear Heq.
  revert Hn Hc Hc'. induction candidates as [|x cs IH]; csimpl; [set_solver|].
  rewrite NoDup_cons, !elem_of_cons. intros [Hx Hn] [->|Hc] [->|Hc']; [done|..|by apply IH].
  - destruct Hx. rewrite Hk. by apply list_elem_of_fmap_2.
  - destruct Hx. rewrite <- Hk. by apply list_elem_of_fmap_2.
Qed.
Lemma duplicates_Ok u : for_unique (fun _ => Ok tt) node_key duplicate_target ∅ candidates = Ok u <-> NoDup (node_key <$> candidates).
Proof.
  rewrite for_unique_Ok. split; [by intros (_ & ? & _)|]. intros Hn. split_and!; [by apply Forall_true|done|set_solver].
Qed.
Lemma duplicates_Err e : for_unique (fun _ => Ok tt) node_key duplicate_target ∅ candidates = Err e ->
  ~ NoDup (node_key <$> candidates) /\ e = duplicate_target.
Proof.
  intros He. split; [intros Hn; by rewrite (proj2 (duplicates_Ok tt) Hn) in He|].
  revert He. generalize (∅ : gset (string * N)). induction candidates as [|x cs IH]; intros seen; simpl; [done|].
  case_decide; [by intros [= <-]|apply IH].
Qed.

(** What a valid request on distinct nodes returns. *)
Lemma place_valid : validate_request request = Ok tt -> NoDup (node_key <$> candidates) ->
  (exists c, best c /\ place_execution_target request candidates = Ok c) \/
  ((forall c qs, c ∈ candidates -> ~ acceptable request c qs) /\
   place_execution_target request candidates = Err waiting_for_target).
Proof.
  intros Hr Hn. unfold place_execution_target, plan_execution_placement. rewrite Hr. cbn [mbind result_bind].
  fold duplicate_target. rewrite (proj2 (duplicates_Ok tt) Hn). cbn [mbind result_bind dec_selected_node].
  fold sorted_evaluations.
  destruct (list_find (fun e => ev_eligible e = true) sorted_evaluations) as [[i e]|] eqn:Hf.
  2:{ right. split; [by apply sorted_find_None|done]. }
  left. apply sorted_find in Hf as ((c & Hc & ->)%elem_of_sorted & He & Hmin).
  cbn [fmap option_fmap option_map ok_or mbind result_bind snd]. rewrite evaluated_node.
  destruct (list_find (fun candidate => cnd_node candidate = cnd_node c) candidates) as [[j c']|] eqn:Hj.
  2:{ apply list_find_None in Hj. rewrite Forall_forall in Hj. by destruct (Hj c Hc). }
  apply list_find_Some in Hj as (Hj & Hnode & _). apply list_elem_of_lookup_2 in Hj.
  rewrite (node_key_inj c' c Hn Hj Hc Hnode). exists c. split; [|done]. split; [done|]. split; [by apply eligible_acceptable|].
  intros c2 qs2 Hc2 Ha2 Hne. apply evaluation_lt.
  assert (evaluation_le (evaluate_candidate request c) (evaluate_candidate request c2)) as Hle.
  { apply Hmin; [apply elem_of_sorted; eauto|apply eligible_acceptable; eauto]. }
  split; [done|]. intros Hge. apply Hne. apply (node_key_inj c2 c); [done..|].
  rewrite <- !(evaluated_node request). by apply evaluation_le_node.
Qed.
Lemma best_unique c c' : NoDup (node_key <$> candidates) -> best c -> best c' -> c = c'.
Proof.
  intros Hn (Hc & [qs Ha] & Hb) (Hc' & [qs' Ha'] & Hb'). destruct (decide (cnd_node c = cnd_node c')) as [Heq|Hne].
  { by apply node_key_inj. }
  assert (c <> c') by congruence. specialize (Hb c' qs' Hc' Ha' ltac:(done)). specialize (Hb' c qs Hc Ha ltac:(done)).
  rewrite !compare_evaluations_key in *. rewrite (compare_antisym (evaluation_key (evaluate_candidate request c))), Hb in Hb'.
  done.
Qed.
Lemma place_Ok c : place_execution_target request candidates = Ok c <->
  validate_request request = Ok tt /\ NoDup (node_key <$> candidates) /\ best c.
Proof.
  split.
  - intros Hp. assert (validate_request request = Ok tt) as Hr.
    { unfold place_execution_target, plan_execution_placement in Hp. by destruct (validate_request request) as [[]|]. }
    assert (NoDup (node_key <$> candidates)) as Hn.
    { unfold place_execution_target, plan_execution_placement in Hp. rewrite Hr in Hp. cbn [mbind result_bind] in Hp.
      fold duplicate_target in Hp. apply (duplicates_Ok tt).
      by destruct (for_unique (fun _ => Ok tt) node_key duplicate_target ∅ candidates) as [[]|]. }
    split_and!; [done..|]. destruct (place_valid Hr Hn) as [(c' & Hb & Hp')|[_ Hp']]; [|congruence].
    rewrite Hp in Hp'. by injection Hp' as ->.
  - intros (Hr & Hn & Hb). destruct (place_valid Hr Hn) as [(c' & Hb' & ->)|[Hno _]].
    + f_equal. by apply best_unique.
    + destruct Hb as (Hc & [qs Ha] & _). by destruct (Hno c qs).
Qed.
Lemma place_Err e : place_execution_target request candidates = Err e <->
  validate_request request = Err e \/
  (validate_request request = Ok tt /\ ~ NoDup (node_key <$> candidates) /\ e = duplicate_target) \/
  (validate_request request = Ok tt /\ NoDup (node_key <$> candidates) /\
   (forall c qs, c ∈ candidates -> ~ acceptable request c qs) /\ e = waiting_for_target).
Proof.
  destruct (validate_request request) as [[]|e'] eqn:Hr.
  2:{ unfold place_execution_target, plan_execution_placement. rewrite Hr. cbn [mbind result_bind]. naive_solver. }
  destruct (decide (NoDup (node_key <$> candidates))) as [Hn|Hn].
  - destruct (place_valid Hr Hn) as [(c' & Hb & ->)|[Hno ->]].
    + split; [done|]. intros [?|[(_ & ? & _)|(_ & _ & Hno & _)]]; [done..|].
      destruct Hb as (Hc & [qs Ha] & _). by destruct (Hno c' qs).
    + split; [intros [= <-]; auto 10|]. intros [?|[(_ & ? & _)|(_ & _ & _ & ->)]]; done.
  - assert (place_execution_target request candidates = Err duplicate_target) as ->.
    { unfold place_execution_target, plan_execution_placement. rewrite Hr. cbn [mbind result_bind]. fold duplicate_target.
      destruct (for_unique (fun _ => Ok tt) node_key duplicate_target ∅ candidates) as [[]|e'] eqn:Hd.
      - by apply duplicates_Ok in Hd.
      - by apply duplicates_Err in Hd as [_ ->]. }
    split; [intros [= <-]; auto 10|]. intros [?|[(_ & _ & ->)|(_ & ? & _)]]; done.
Qed.
End choice.

(** C22: the target of a placement is the acceptable candidate that is preferred
    to every other acceptable one; a request is refused exactly for its own
    defect, for a node listed twice, or because nobody is acceptable; and the
    order of the candidates never matters. *)
Theorem placement_picks_best request candidates :
  (forall c, place_execution_target request candidates = Ok c <->
     validate_request request = Ok tt /\ NoDup (node_key <$> candidates) /\ best request candidates c) /\
  (forall e, place_execution_target request candidates = Err e <->
     validate_request request = Err e \/
     (validate_request request = Ok tt /\ ~ NoDup (node_key <$> candidates) /\ e = duplicate_target) \/
     (validate_request request = Ok tt /\ NoDup (node_key <$> candidates) /\
      (forall c qs, c ∈ candidates -> ~ acceptable request c qs) /\ e = waiting_for_target)) /\
  (forall shuffled, shuffled ≡ₚ candidates ->
     place_execution_target request shuffled = place_execution_target request candidates).
Proof.
  split_and!; [intros; apply place_Ok|intros; apply place_Err|]. intros shuffled Hp.
  assert (NoDup (node_key <$> shuffled) <-> NoDup (node_key <$> candidates)) as Hn by (by rewrite Hp).
  destruct (place_execution_target request candidates) as [c|e] eqn:Hpl.
  - apply place_Ok in Hpl as (Hr & Hd & Hb). apply place_Ok. split_and!; [done|by apply Hn|].
    unfold best in *. by setoid_rewrite Hp.
  - apply place_Err in Hpl. apply place_Err. rewrite Hn. by setoid_rewrite Hp.
Qed.
