(* ===== verification/AdmissionSpec.v ===== *)
(** * Admission: the theorems

    The observation cursor, node lifecycles, enrollment tokens and the
    reconciliation of evidence. *)
From stdpp Require Import base gmap strings list sorting pretty.
From Stdlib Require Import Ascii Lia ZifyBool ZifyN.
From S2P Require Import Prelude Validation Contract KernelApi Binding Messages Wire NodeMessages Artifact Placement.
From S2P Require Import PlacementSpec Admission.
Import NodeControl.

(** ** The cursor *)
Definition admit_step (s : ObservationCursor * list (string * N)) (frame : string * N)
    : ObservationCursor * list (string * N) :=
  let '(cursor, accepted) := s in
  match admit_frame frame.1 frame.2 cursor with
  | (cursor, Ok Accepted) => (cursor, accepted ++ [frame])
  | (cursor, _) => (cursor, accepted)
  end.
Definition admit_all (frames : list (string * N)) : ObservationCursor * list (string * N) :=
  foldl admit_step (ObservationCursor_default, []) frames.

(** The ids the cursor remembers after these frames were accepted. *)
Definition window (ids : list string) : list string := drop (length ids - MAX_REPLAY_IDS) ids.

(** The cursor of a session that accepted these frames. *)
Record cursor_of (cursor : ObservationCursor) (accepted : list (string * N)) : Prop := {
  co_last : oc_last_sequence cursor = N.of_nat (length accepted);
  co_range : (N.of_nat (length accepted) <= u64_max)%N;
  co_order : oc_order cursor = window accepted.*1;
  co_recent : oc_recent_ids cursor = list_to_set (oc_order cursor);
  co_distinct : NoDup (oc_order cursor);
  co_sequence : forall i id s, accepted !! i = Some (id, s) -> s = N.of_nat (S i);
  co_window : forall i j id s s', accepted !! i = Some (id, s) -> accepted !! j = Some (id, s') ->
    (i < j)%nat -> (i + MAX_REPLAY_IDS < j)%nat;
}.

Lemma window_snoc ids id : window (ids ++ [id]) =
  if (MAX_REPLAY_IDS <? length (window ids ++ [id]))%nat then drop 1 (window ids ++ [id]) else window ids ++ [id].
Proof.
  unfold window. rewrite !length_app, length_drop. simpl. destruct (Nat.ltb_spec MAX_REPLAY_IDS
    (length ids - (length ids - MAX_REPLAY_IDS) + 1)) as [Hl|Hl].
  - rewrite !drop_app_le by (rewrite ?length_drop; unfold MAX_REPLAY_IDS in *; lia). rewrite drop_drop.
    f_equal. f_equal. lia.
  - rewrite drop_app_le by lia. f_equal. f_equal. lia.
Qed.

(** The eviction keeps the set equal to the list. *)
Lemma evict_spec (order : list string) id : NoDup (order ++ [id]) ->
  (if (MAX_REPLAY_IDS <? length (order ++ [id]))%nat then
     match order ++ [id] with
     | evicted :: rest => (({[id]} ∪ list_to_set order) ∖ {[evicted]}, rest)
     | [] => ({[id]} ∪ list_to_set order, order ++ [id])
     end
   else ({[id]} ∪ list_to_set order, order ++ [id])) =
  (let kept := if (MAX_REPLAY_IDS <? length (order ++ [id]))%nat then drop 1 (order ++ [id]) else order ++ [id] in
   (list_to_set kept : gset string, kept)).
Proof.
  intros Hn. assert (({[id]} ∪ list_to_set order : gset string) = list_to_set (order ++ [id])) as ->
    by (apply leibniz_equiv; set_solver).
  destruct (_ <? _)%nat; [|done]. destruct (order ++ [id]) as [|evicted rest]; [done|]. simpl. rewrite drop_0. f_equal.
  apply leibniz_equiv. apply NoDup_cons in Hn as [Hn _]. set_solver.
Qed.
Lemma window_lookup (ids : list string) i id : ids !! i = Some id -> (length ids <= i + MAX_REPLAY_IDS)%nat -> id ∈ window ids.
Proof.
  intros Hi Hl. apply list_elem_of_lookup. exists (i - (length ids - MAX_REPLAY_IDS))%nat. unfold window.
  rewrite lookup_drop. rewrite <- Hi. f_equal. lia.
Qed.

(** What [admit_frame] does in such a session, on every branch. *)
Lemma admit_spec cursor accepted id s : cursor_of cursor accepted ->
  match admit_frame id s cursor with
  | (cursor', Ok Accepted) =>
      id <> "" /\ (id ∉ window accepted.*1) /\ s = N.of_nat (S (length accepted)) /\ cursor_of cursor' (accepted ++ [(id, s)])
  | (cursor', Ok Duplicate) => id ∈ window accepted.*1 /\ cursor' = cursor
  | (cursor', Err _) => (id = "" \/ s <> N.of_nat (S (length accepted)) \/ (u64_max < s)%N) /\ cursor' = cursor
  end.
Proof.
  intros [Hlast Hrange Horder Hrecent Hnd Hseq Hwin]. unfold admit_frame.
  case_bool_decide as Hid; simpl; [auto|]. destruct (N.eqb_spec s 0) as [->|Hs]; simpl; [split; [lia|done]|].
  rewrite Hrecent. rewrite Horder in *. case_bool_decide as Hin; [by rewrite elem_of_list_to_set in Hin|].
  rewrite elem_of_list_to_set in Hin. unfold u64_wrapping_add. rewrite Hlast.
  destruct (N.eqb_spec s ((N.of_nat (length accepted) + 1) mod (u64_max + 1))) as [Heq|Hne]; simpl.
  2:{ split; [|done]. right. destruct (N.le_gt_cases s u64_max) as [?|?]; [left|by right]. intros ->. apply Hne.
      rewrite N.mod_small by lia. lia. }
  assert (s = N.of_nat (S (length accepted))) as Hs'.
  { destruct (decide (N.of_nat (length accepted) = u64_max)) as [Hm|Hm]; [exfalso; apply Hs; by rewrite Heq, Hm|].
    rewrite Heq, N.mod_small by lia. lia. }
  assert (N.of_nat (S (length accepted)) <= u64_max)%N as Hmax.
  { rewrite <- Hs', Heq. pose proof (N.mod_lt (N.of_nat (length accepted) + 1) (u64_max + 1)). lia. }
  rewrite evict_spec by (apply NoDup_snoc; done). simpl. split_and!; [done..|].
  assert (forall i, (accepted ++ [(id, s)]) !! i = accepted !! i \/ (i = length accepted /\ (accepted ++ [(id, s)]) !! i = Some (id, s)) ) as Hlk.
  { intros i. destruct (decide (i < length accepted)%nat); [left; by apply lookup_app_l|].
    rewrite lookup_app_r by lia. destruct (decide (i = length accepted)) as [->|]; [right; by rewrite Nat.sub_diag|].
    left. rewrite (lookup_ge_None_2 accepted) by lia. apply lookup_ge_None_2. simpl. lia. }
  split; simpl; try done.
  - by rewrite Hs', length_app, Nat.add_1_r.
  - by rewrite length_app, Nat.add_1_r.
  - rewrite fmap_app. csimpl. by rewrite window_snoc.
  - assert (NoDup (window accepted.*1 ++ [id])) as Hn by (by apply NoDup_snoc).
    destruct (_ <? _)%nat; [|done].
    destruct (window accepted.*1 ++ [id]); [done|]. simpl. rewrite drop_0. by apply NoDup_cons in Hn as [_ ?].
  - intros i id' s2 Hi. destruct (Hlk i) as [He|[-> He]]; rewrite He in Hi; [by eapply Hseq|]. by injection Hi as -> ->.
  - intros i j id' s1 s2 Hi Hj Hij. destruct (Hlk j) as [Hej|[-> Hej]]; rewrite Hej in Hj.
    + assert (j < length accepted)%nat by (by eapply lookup_lt_Some). destruct (Hlk i) as [Hei|[-> _]]; [|lia].
      rewrite Hei in Hi. by eapply Hwin.
    + injection Hj as -> ->. destruct (Hlk i) as [Hei|[-> _]]; [|lia]. rewrite Hei in Hi.
      destruct (le_lt_dec (length accepted) (i + MAX_REPLAY_IDS)); [|done]. destruct Hin.
      apply (window_lookup _ i); [by rewrite list_lookup_fmap, Hi|by rewrite length_fmap].
Qed.


(** C25: a session accepts every frame exactly once and in order, whatever frames
    arrive: the accepted ones are numbered 1, 2, ... without a gap, an id is not
    accepted twice within 1024 accepted frames, and a frame is accepted,
    recognised as a duplicate or refused exactly by these rules; a frame that is
    not accepted changes nothing, and the memory stays bounded. *)
Theorem frames_accepted_exactly_once frames :
  let '(cursor, accepted) := admit_all frames in
  (forall i id s, accepted !! i = Some (id, s) -> s = N.of_nat (S i)) /\
  (forall i j id s s', accepted !! i = Some (id, s) -> accepted !! j = Some (id, s') -> (i < j)%nat ->
     (i + MAX_REPLAY_IDS < j)%nat) /\
  (length (oc_order cursor) <= MAX_REPLAY_IDS)%nat /\
  forall id s, id <> "" -> (0 < s <= u64_max)%N ->
    (id ∈ window accepted.*1 -> admit_frame id s cursor = (cursor, Ok Duplicate)) /\
    (id ∉ window accepted.*1 ->
       (s = N.of_nat (S (length accepted)) <-> (admit_frame id s cursor).2 = Ok Accepted) /\
       (s <> N.of_nat (S (length accepted)) -> (admit_frame id s cursor).1 = cursor)).
Proof.
  assert (cursor_of (admit_all frames).1 (admit_all frames).2) as Hc.
  { unfold admit_all. assert (cursor_of ObservationCursor_default []) as H0.
    { split; simpl; try done; [constructor|..]; intros i; by rewrite lookup_nil. }
    revert H0. generalize ObservationCursor_default ([] : list (string * N)).
    induction frames as [|[id s] frames IH]; intros cursor accepted Hc; [done|]. simpl.
    pose proof (admit_spec cursor accepted id s Hc) as Ha.
    destruct (admit_frame id s cursor) as [cursor' [[]|e]]; apply IH; [apply Ha|destruct Ha as [_ ->]; done..]. }
  destruct (admit_all frames) as [cursor accepted]. simpl in Hc. split_and!; [apply Hc|apply Hc|..].
  - rewrite (co_order _ _ Hc). unfold window. rewrite length_drop. lia.
  - intros id s Hid Hs. pose proof (admit_spec cursor accepted id s Hc) as Ha. split.
    + intros Hin. unfold admit_frame. rewrite bool_decide_false by done. destruct (N.eqb_spec s 0); [lia|]. simpl.
      rewrite bool_decide_true; [done|]. by rewrite (co_recent _ _ Hc), (co_order _ _ Hc), elem_of_list_to_set.
    + intros Hin. destruct (admit_frame id s cursor) as [cursor' [[]|e]]; simpl.
      * destruct Ha as (_ & _ & -> & _). split; [done|by intros []].
      * by destruct Ha.
      * destruct Ha as [[?|[?|?]] ->]; [done|split; [by split|done]|lia].
Qed.

(** ** Node lifecycles *)
Inductive node_op :=
| Reconnect (descriptor : ExecutionNodeDescriptor) (session_id : string)
| Disconnect (canonical_lease_active : bool)
| LeaseExpiry
| Terminate.
Definition node_exec (op : node_op) (p : NodeLifecycleProjection) : may_panic NodeLifecycleProjection :=
  match op with
  | Reconnect descriptor session_id =>
      match reconnect descriptor session_id p with Returned (p, _) => Returned p | Panicked => Panicked end
  | Disconnect active => Returned (disconnect active p)
  | LeaseExpiry => Returned (node_lease_expired p)
  | Terminate => Returned (terminate p).1
  end.
Fixpoint node_run (ops : list node_op) (p : NodeLifecycleProjection) : may_panic NodeLifecycleProjection :=
  match ops with
  | [] => Returned p
  | op :: ops => match node_exec op p with Returned p => node_run ops p | Panicked => Panicked end
  end.

Lemma descriptor_Ok d u : validate_node_descriptor d = Ok u <->
  exists node, nd_node d = Some node /\ nr_node_id node <> "" /\ (0 < nr_node_epoch node)%N /\ nd_node_type d <> "" /\
    is_Some (nd_persistent d).
Proof.
  destruct u. unfold validate_node_descriptor. rewrite result_bind_Ok. destruct (nd_node d) as [node|]; simpl; [|naive_solver].
  split.
  - intros (a & [= <-] & Hk). apply result_bind_unit in Hk as [H1 H2]. rewrite ensure_Ok in H1, H2.
    rewrite negb_true_iff in H1. revert H1. reasons. apply bool_decide_eq_true in H2. intros [[? ?] ?]. eauto 10.
  - intros (a & [= <-] & ? & ? & ? & ?). exists node. split; [done|]. rewrite result_bind_unit, !ensure_Ok, negb_true_iff.
    reasons. auto.
Qed.
(** A node keeps its name, type and persistence; its epoch only grows; it has a
    session exactly while it is online; a persistent node is never closed. *)
Record node_ok (p p' : NodeLifecycleProjection) : Prop := {
  no_descriptor : exists n n', nd_node (np_descriptor p) = Some n /\ nd_node (np_descriptor p') = Some n' /\
    nr_node_id n' = nr_node_id n /\ (nr_node_epoch n <= nr_node_epoch n')%N;
  no_type : nd_node_type (np_descriptor p') = nd_node_type (np_descriptor p);
  no_persistent : nd_persistent (np_descriptor p') = nd_persistent (np_descriptor p);
  no_session : np_state p' = NodeOnline <-> is_Some (np_session_id p');
  no_state : np_state p' = NodeOnline \/ np_state p' = NodeOffline \/
    (np_persistent p' = false /\ (np_state p' = NodeLost \/ np_state p' = NodeTerminated));
}.
Lemma node_exec_ok p p' op : node_ok p p' -> exists p'', node_exec op p' = Returned p'' /\ node_ok p p''.
Proof.
  intros Hkeep. destruct Hkeep as [(n & n' & Hn & Hn' & Hid & Hep) Ht Hp Hs Hst] eqn:Hk. clear Hk. destruct op as [d sid|active| |]; simpl.
  - unfold reconnect. destruct (validate_node_descriptor d) as [u|e] eqn:Hd.
    2:{ eauto. }
    apply descriptor_Ok in Hd as (n2 & Hn2 & _). rewrite Hn', Hn2.
    destruct (negb (bool_decide (nr_node_id n2 = nr_node_id n')) || _ || _ || _) eqn:Hm; [eauto|].
    destruct ((bool_decide (np_state p' = NodeLost) || _) && _); [eauto|].
    destruct (bool_decide (sid = "") || _); [eauto|].
    apply orb_false_iff in Hm as [[[H1 H2]%orb_false_iff H3]%orb_false_iff H4].
    rewrite negb_false_iff in H1, H3, H4. apply bool_decide_eq_true in H1, H3, H4.
    eexists. split; [done|]. split; simpl; [|congruence|congruence|split; eauto|auto].
    exists n, n2. split_and!; try done; [congruence|lia].
  - eexists. split; [done|]. split; simpl; eauto 10.
    + destruct (np_persistent p' || active); (split; [done|by intros []]).
    + unfold np_persistent in *. simpl. destruct (bool_decide _), active; simpl; auto.
  - eexists. split; [done|]. split; simpl; eauto 10.
    + destruct (np_persistent p'); (split; [done|by intros []]).
    + unfold np_persistent in *. simpl. destruct (bool_decide _); simpl; auto.
  - eexists. split; [done|]. unfold terminate. destruct (np_persistent p') eqn:Hpp; simpl; [done|].
    split; simpl; eauto 10. split; [done|by intros []].
Qed.
Lemma node_run_ok p ops p' : node_ok p p' -> exists p'', node_run ops p' = Returned p'' /\ node_ok p p''.
Proof.
  revert p'. induction ops as [|op ops IH]; intros p' Hok; simpl; [eauto|].
  destruct (node_exec_ok p p' op Hok) as (p'' & -> & Hok'). by apply IH.
Qed.
(** C26: an enrolled node never panics the projection and keeps its identity:
    after any reconnects, disconnects, lease expiries and terminations its name,
    type and persistence are those it enrolled with, its epoch has not gone
    back, it has a session exactly while it is online, and a persistent node is
    never lost or terminated. *)
Theorem node_identity_is_stable hello session_id p ops :
  node_enroll hello session_id = Ok p -> exists p', node_run ops p = Returned p' /\ node_ok p p'.
Proof.
  intros He. apply node_run_ok. unfold node_enroll in He. apply result_bind_Ok in He as (d & Hd & He).
  apply result_bind_Ok in He as (u & (n & Hn & _ & _ & _ & Hp)%descriptor_Ok & He).
  apply result_bind_Ok in He as (u' & _ & [= <-]). split; simpl; [by exists n, n|done|done|split; eauto|auto].
Qed.

(** A closed ephemeral node is open again after a late disconnect that finds an
    active lease. *)
Lemma closed_node_reopens p d n session_id : np_state p = NodeTerminated ->
  nd_node (np_descriptor p) = Some n -> d = np_descriptor p -> validate_node_descriptor d = Ok tt -> session_id <> "" ->
  np_persistent p = false ->
  (exists e, reconnect d session_id p = Returned (p, Err e)) /\
  reconnect d session_id (disconnect true p) = Returned (node_projection d NodeOnline (Some session_id), Ok tt).
Proof.
  intros Hst Hn -> Hd Hs Hp. unfold reconnect, disconnect. rewrite Hd. simpl. rewrite Hn, Hst, !bool_decide_true, N.ltb_irrefl by done.
  simpl. rewrite Hp, orb_true_r. simpl. split; [eauto|]. rewrite bool_decide_false by done. done.
Qed.
(** After a disconnect the session id that was just closed is accepted again. *)
Lemma old_session_is_accepted p n session_id active : np_session_id p = Some session_id -> session_id <> "" ->
  nd_node (np_descriptor p) = Some n -> validate_node_descriptor (np_descriptor p) = Ok tt ->
  np_persistent p || active = true ->
  reconnect (np_descriptor p) session_id (disconnect active p) =
  Returned (node_projection (np_descriptor p) NodeOnline (Some session_id), Ok tt).
Proof.
  intros _ Hs Hn Hd Ha. unfold reconnect, disconnect. rewrite Hd. simpl. rewrite Hn, Ha, !bool_decide_true, N.ltb_irrefl by done.
  simpl. by rewrite bool_decide_false.
Qed.

(** ** Enrollment tokens and evidence *)

(** A token grants at most once. *)
Lemma enroll_consumes proof scope now p p' r : enroll proof scope now p = (p', r) ->
  (dep_tokens p' ⊆ dep_tokens p /\ dep_lifetime_ms p' = dep_lifetime_ms p) /\
  (is_ok r = true -> proof ∈ dep_tokens p /\ (proof ∉ dep_tokens p') /\
     forall scope' now', exists e, (enroll proof scope' now' p').2 = Err e).
Proof.
  unfold enroll. case_bool_decide; [by intros [= <- <-]; split; [split|]|]. destruct (bool_decide (proof ∈ dep_tokens p)) eqn:Hin; simpl;
    [|by intros [= <- <-]; split; [split|]]. apply bool_decide_eq_true in Hin.
  destruct (u64_checked_add _ _); intros [= <- <-]; simpl; (split; [split; [set_solver|done]|]); [|done]. intros _.
  split_and!; [done|set_solver|]. intros scope' now'.
  rewrite (bool_decide_false (proof ∈ _)) by set_solver. simpl. eauto.
Qed.
(** Connection loss alone is never terminal: a runtime leaves [Active] only on a
    graceful stop the agent reported, a provider that says it is gone, or a lease
    that is not active; and a provider that says so is an external termination
    exactly when nobody asked for a stop. *)
Lemma reconcile_needs_evidence e : reconcile_runtime e <> DispositionActive ->
  (re_agent_state e = Some ObservedStopped /\ re_agent_termination e = Some TerminationGraceful) \/
  re_provider e = SeenPreempted \/ re_provider e = SeenTerminated \/ re_lease e <> LeaseSeenActive.
Proof.
  unfold reconcile_runtime. destruct (bool_decide _ && bool_decide _) eqn:Hg.
  { apply andb_true_iff in Hg as [?%bool_decide_eq_true ?%bool_decide_eq_true]. auto. }
  destruct (re_provider e), (re_lease e); auto; intros Hne; first [right; right; by right|exfalso; by apply Hne].
Qed.
