(* ===== verification/AssignmentSpec.v ===== *)
(** * Assignments: the theorems

    The controller that builds an assignment and the agent that admits it agree:
    on the lease, on how long the assignment is good for, and on the artifacts it
    carries. *)
From stdpp Require Import base gmap strings list sorting pretty.
From Stdlib Require Import Ascii Lia ZifyBool ZifyN.
From S2P Require Import Prelude Validation Contract KernelApi Binding Messages Wire NodeMessages Artifact Placement.
From S2P Require Import PlacementSpec Admission Assignment.
Import NodeControl.

(** A check that passed in [H] passes in the goal. *)
Ltac passed H :=
  let x := fresh "x" in let Hx := fresh "Hx" in
  apply result_bind_Ok in H as (x & Hx & H); try destruct x as []; rewrite Hx; cbn [mbind result_bind].
Lemma result_then_Ok {E A} (m : result E unit) (k : result E A) a : (_ ← m; k) = Ok a <-> m = Ok tt /\ k = Ok a.
Proof. destruct m as [[]|]; simpl; naive_solver. Qed.

(** ** Leases across the wire *)
Lemma mapped_err_Ok {E E' A} (f : E -> E') (r : result E A) a : map_err f r = Ok a <-> r = Ok a.
Proof. destruct r; naive_solver. Qed.
Lemma validate_identity_proto i name j :
  validate_identity (Some (identity_to_proto i)) name = Ok j <-> i = j /\ Identity_validate i = Ok tt.
Proof.
  unfold validate_identity. cbn [ok_or mbind result_bind identity_to_proto Proto.id_id Proto.id_generation].
  destruct i as [id g]. cbn [ident_id ident_generation]. rewrite result_bind_Ok. setoid_rewrite mapped_err_Ok. split.
  - by intros ([] & Hv & [= <-]).
  - intros [<- Hv]. by exists tt.
Qed.
Lemma collect_identities l name :
  Forall (fun i => Identity_validate i = Ok tt) l ->
  collect (fun i => validate_identity (Some i) name) (identity_to_proto <$> l) = Ok l.
Proof.
  induction 1 as [|i l Hi _ IH]; [done|]. csimpl.
  rewrite (proj2 (validate_identity_proto i name i) (conj eq_refl Hi)). cbn [mbind result_bind]. by rewrite IH.
Qed.
Lemma agent_timestamp e : (1000 <= e)%N -> (e <= MAX_TIMESTAMP_UNIX_MS)%N ->
  timestamp_ms (Some (agent_timestamp_from_unix_ms e)) = Ok (Some e).
Proof.
  intros Hlo Hhi. unfold timestamp_ms, agent_timestamp_from_unix_ms, MAX_TIMESTAMP_UNIX_MS in *.
  pose proof (N.mod_lt e 1000 ltac:(lia)) as Hm. pose proof (N.div_mod e 1000 ltac:(lia)) as Hd.
  assert ((Z.of_N (e / 1000) <=? 9223372036854775807) = true)%Z as -> by lia.
  assert ((Z.of_N (e mod 1000 * 1000000) <=? 2147483647) = true)%Z as -> by lia.
  cbn [Proto.ts_seconds Proto.ts_nanos].
  assert (Z.of_N (e mod 1000 * 1000000) = Z.of_N (e mod 1000) * 1000000)%Z as -> by lia.
  rewrite Z.rem_mul, Z.quot_mul, N2Z.id by lia.
  destruct (_ || _)%bool eqn:Hb; [exfalso; lia|].
  unfold u64_checked_mul. destruct (N.leb_spec (Z.to_N (Z.of_N (e / 1000)) * 1000) u64_max) as [?|Hx];
    [|exfalso; unfold u64_max in Hx; lia]. cbn [mbind option_bind].
  rewrite (proj2 (u64_checked_add_Some _ _ e)); [done|]. unfold u64_max. lia.
Qed.
Lemma agent_timestamp_small e : (e < 1000)%N -> exists err, timestamp_ms (Some (agent_timestamp_from_unix_ms e)) = Err err.
Proof.
  intros He. unfold timestamp_ms, agent_timestamp_from_unix_ms. rewrite N.div_small by done. cbn. eauto.
Qed.
Lemma lease_state_proto s : lease_state_from_proto (Proto.LeaseState_as_i32 (lease_state_to_proto s)) = Some s.
Proof. by destruct s. Qed.

Lemma lease_valid_parts l : Lease_validate l = Ok tt ->
  Identity_validate (lease_identity l) = Ok tt /\ Identity_validate (lease_holder l) = Ok tt /\
  Forall (fun i => Identity_validate i = Ok tt) (lease_resources l) /\
  exists e, lease_expires_at_unix_ms l = Some e /\ (0 < e <= MAX_TIMESTAMP_UNIX_MS)%N.
Proof.
  unfold Lease_validate. intros H.
  apply result_bind_Ok in H as ([] & Hi & H). apply result_bind_Ok in H as ([] & Hh & H).
  apply result_bind_Ok in H as ([] & _ & H). apply result_bind_Ok in H as ([] & Hr & H).
  apply result_bind_Ok in H as ([] & _ & H). apply result_bind_Ok in H as (e & He & Ht).
  split_and!; try done; [by apply for_unique_Ok in Hr as [? _]|]. exists e. split.
  - by destruct (lease_expires_at_unix_ms l) as [?|]; [injection He as ->|].
  - unfold validate_timestamp in Ht. revert Ht. case_match; [done|]. intros _. lia.
Qed.
(** What the agent decodes is the lease the Kernel granted. *)
Lemma lease_roundtrip l : Lease_validate l = Ok tt -> (forall e, lease_expires_at_unix_ms l = Some e -> (1000 <= e)%N) ->
  lease_from_proto (Some (semantic_lease_to_proto l)) = Ok l.
Proof.
  intros Hv He. destruct (lease_valid_parts l Hv) as (Hi & Hh & Hr & e & Hx & Hrange). unfold lease_from_proto, semantic_lease_to_proto.
  cbn [ok_or mbind result_bind Proto.le_state Proto.le_identity Proto.le_holder Proto.le_resources Proto.le_expires_at
       Proto.le_fence_token].
  rewrite lease_state_proto. cbn [ok_or mbind result_bind].
  rewrite (proj2 (validate_identity_proto (lease_identity l) "Lease" _) (conj eq_refl Hi)). cbn [mbind result_bind].
  rewrite (proj2 (validate_identity_proto (lease_holder l) "Lease holder" _) (conj eq_refl Hh)). cbn [mbind result_bind].
  rewrite collect_identities by done. cbn [mbind result_bind]. rewrite Hx. cbn [fmap option_fmap option_map].
  rewrite agent_timestamp by (by apply He || apply Hrange). cbn [mbind result_bind]. destruct l; simpl in *. by subst.
Qed.

(** ** How long an assignment is good for *)

(** The expiries of the object-store locators and of the workload identity. *)
Definition locator_expiries (spec : ArtifactTransferSpec) : list N :=
  tsrc_locator_expires_at_unix_ms <$>
    filter (fun source => ArtifactTransferPath_try_from (tsrc_path source) = Some UserProvidedObjectStore) (sp_sources spec).
Definition workload_expiry (identity : WorkloadIdentity) : list N :=
  match timestamp_ms (wi_expires_at identity) with Ok (Some expiry) => [expiry] | _ => [] end.
Definition payload_expiries (b : RuntimeAssignmentBuilder) : list N :=
  workload_expiry (rab_workload_identity b) ++ concat (locator_expiries <$> rab_artifacts b).
Definition alive (now : N) (expiries : list N) : Prop := Forall (fun expiry => now < expiry)%N expiries.

(** Two moments agree on a check when both are before the expiries involved. *)
Lemma check_source_time now now' source : check_source now source = Ok tt ->
  check_source now' source = Ok tt <->
  (ArtifactTransferPath_try_from (tsrc_path source) = Some UserProvidedObjectStore ->
   (now' < tsrc_locator_expires_at_unix_ms source)%N).
Proof.
  unfold check_source. destruct (ArtifactTransferPath_try_from _) as [[]|]; try done.
  rewrite !ensure_Ok, !negb_true_iff, !N.leb_gt. naive_solver.
Qed.
Lemma check_spec_time now now' spec : check_transfer_spec now spec = Ok tt ->
  check_transfer_spec now' spec = Ok tt <-> alive now' (locator_expiries spec).
Proof.
  unfold check_transfer_spec. intros H. do 4 passed H.
  apply result_bind_Ok in H as ([] & Hs & H). rewrite result_bind_unit. rewrite try_for_each_Ok in Hs. rewrite try_for_each_Ok.
  transitivity (Forall (fun x => check_source now' x = Ok tt) (sp_sources spec)); [tauto|]. clear -Hs.
  unfold alive, locator_expiries. induction Hs as [|source sources Hs _ IH]; csimpl; [by rewrite !Forall_nil|].
  rewrite Forall_cons, IH, filter_cons, (check_source_time now now' source Hs). case_decide; csimpl; rewrite ?Forall_cons; tauto.
Qed.
Lemma check_transfers_time now now' digests specs digests' : check_transfers now digests specs = Ok digests' ->
  check_transfers now' digests specs = Ok digests' <-> alive now' (concat (locator_expiries <$> specs)).
Proof.
  revert digests. induction specs as [|spec specs IH]; intros digests; csimpl; [intros ->; unfold alive; rewrite Forall_nil; tauto|].
  destruct (validate_sha256 _ _) as [[]|]; [|done]. cbn [mbind result_bind]. case_bool_decide; [done|].
  intros ([] & Hs & Ht)%result_bind_Ok. unfold alive. rewrite Forall_app, <- (IH _ Ht), result_bind_Ok.
  fold (alive now' (locator_expiries spec)). rewrite <- (check_spec_time now now' spec Hs). split.
  - by intros ([] & ? & ?).
  - intros [? ?]. by exists tt.
Qed.

(** The digests the transfers leave do not depend on the clock. *)
Lemma check_transfers_set now now' digests specs r r' :
  check_transfers now digests specs = Ok r -> check_transfers now' digests specs = Ok r' -> r = r'.
Proof.
  revert digests. induction specs as [|spec specs IH]; intros digests; csimpl; [congruence|].
  destruct (validate_sha256 _ _) as [[]|]; [|done]. cbn [mbind result_bind]. case_bool_decide; [done|].
  intros (? & _ & ?)%result_bind_Ok (? & _ & ?)%result_bind_Ok. eauto.
Qed.
Lemma check_workload_time rt b lease now now' : check_workload rt (assignment_of b lease) now = Ok tt ->
  check_workload rt (assignment_of b lease) now' = Ok tt <-> alive now' (workload_expiry (rab_workload_identity b)).
Proof.
  unfold check_workload, workload_expiry, assignment_of. cbn [as_workload_identity ok_or mbind result_bind]. intros H.
  do 3 passed H. apply result_bind_Ok in H as (e & He & H). rewrite He. cbn [mbind result_bind].
  rewrite ensure_Ok in H |- *. destruct e as [e|]; [|done]. simpl.
  unfold alive. rewrite Forall_singleton. lia.
Qed.
Lemma payload_runtime rt a now r : validate_assignment_payload rt a now = Ok r -> r = rt.
Proof.
  unfold validate_assignment_payload. intros H.
  apply result_bind_Ok in H as (? & _ & H). apply result_bind_Ok in H as (r' & _ & H).
  apply result_bind_Ok in H as (? & _ & H). apply result_bind_Ok in H as ([] & Hr & H). rewrite ensure_Ok in Hr.
  apply bool_decide_eq_true in Hr. repeat apply result_bind_Ok in H as (? & _ & H). injection H as <-. done.
Qed.
Lemma payload_time rt b lease lease' now now' r : validate_assignment_payload rt (assignment_of b lease) now = Ok r ->
  validate_assignment_payload rt (assignment_of b lease') now' = Ok r <-> alive now' (payload_expiries b).
Proof.
  change (validate_assignment_payload rt (assignment_of b lease') now')
    with (validate_assignment_payload rt (assignment_of b lease) now').
  unfold validate_assignment_payload. intros H. do 6 passed H.
  apply result_bind_Ok in H as ([] & H7 & H). rewrite result_then_Ok, (check_workload_time _ _ _ _ now' H7). do 3 passed H.
  apply result_bind_Ok in H as (digests & H11 & H). cbn [as_artifacts assignment_of] in *.
  unfold payload_expiries, alive. rewrite Forall_app. fold (alive now' (workload_expiry (rab_workload_identity b))).
  fold (alive now' (concat (locator_expiries <$> rab_artifacts b))). rewrite <- (check_transfers_time _ now' _ _ _ H11).
  rewrite result_bind_Ok. split; [|naive_solver]. intros (Hw & digests' & Ht & Hl). split; [done|].
  by rewrite (check_transfers_set _ _ _ _ _ _ H11 Ht).
Qed.

(** ** The agent and the controller agree *)
Definition lease_expiry (lease : Lease) : list N := option_list (lease_expires_at_unix_ms lease).
Lemma lease_decodes_iff l r : Lease_validate l = Ok tt ->
  lease_from_proto (Some (semantic_lease_to_proto l)) = Ok r <-> r = l /\ Forall (fun e => 1000 <= e)%N (lease_expiry l).
Proof.
  intros Hv. destruct (lease_valid_parts l Hv) as (Hi & Hh & Hr & e & He & Hrange). unfold lease_expiry. rewrite He. simpl.
  rewrite Forall_singleton. split.
  - intros H. assert (1000 <= e)%N as Hlo.
    { apply N.le_ngt. intros Hsmall. destruct (agent_timestamp_small e Hsmall) as [err Herr].
      unfold lease_from_proto in H. cbn [ok_or mbind result_bind] in H. do 4 apply result_bind_Ok in H as (? & _ & H).
      unfold semantic_lease_to_proto in H. cbn [Proto.le_expires_at] in H. rewrite He in H. cbn [fmap option_fmap option_map] in H.
      by rewrite Herr in H. }
    rewrite (lease_roundtrip l Hv) in H by naive_solver. by injection H as <-.
  - intros [-> Hlo]. apply lease_roundtrip; naive_solver.
Qed.
Lemma assignment_admitted_iff b l now rt r : Lease_validate l = Ok tt ->
  validate_assignment rt (assignment_of b (Some (semantic_lease_to_proto l))) now = Ok r <->
  r = l /\ lease_state l = LActive /\ lease_holder l = rt /\
  validate_assignment_payload rt (assignment_of b None) now = Ok rt /\
  Forall (fun e => 1000 <= e)%N (lease_expiry l) /\ alive now (lease_expiry l).
Proof.
  intros Hv. unfold validate_assignment.
  change (validate_assignment_payload rt (assignment_of b (Some (semantic_lease_to_proto l))) now)
    with (validate_assignment_payload rt (assignment_of b None) now).
  assert (alive now (lease_expiry l) <->
          is_some_and (fun expiry => now <? expiry)%N (lease_expires_at_unix_ms l) = true) as ->.
  { unfold alive, lease_expiry. destruct (lease_valid_parts l Hv) as (_ & _ & _ & e & -> & _). simpl.
    rewrite Forall_singleton. lia. }
  rewrite result_bind_Ok. split.
  - intros (rt' & Hp & H). pose proof (payload_runtime _ _ _ _ Hp) as ->. apply result_bind_Ok in H as (l' & Hl & H).
    apply (lease_decodes_iff l l' Hv) in Hl as [-> Hlo]. do 4 (apply result_bind_Ok in H as ([] & ? & H)).
    rewrite !ensure_Ok in *. rewrite !bool_decide_eq_true in *. injection H as <-. done.
  - intros (-> & Hs & Hh & Hp & Hlo & Ha). exists rt. split; [done|].
    cbn [as_lease assignment_of]. rewrite (proj2 (lease_decodes_iff l l Hv) (conj eq_refl Hlo)). cbn [mbind result_bind].
    rewrite Hv. cbn [map_err mbind result_bind]. rewrite !bool_decide_eq_true_2 by done. simpl. by rewrite Ha.
Qed.
Lemma builder_validate_Ok b now :
  builder_validate b now = Ok tt <-> validate_assignment_payload (rab_runtime b) (assignment_of b None) now = Ok (rab_runtime b).
Proof.
  unfold builder_validate. destruct (validate_assignment_payload _ _ _) as [r|e] eqn:H; [|done].
  rewrite (payload_runtime _ _ _ _ H). by split.
Qed.
Lemma payload_other_runtime rt b lease now : validate_assignment_payload rt (assignment_of b lease) now = Ok rt -> rt = rab_runtime b.
Proof.
  unfold validate_assignment_payload. intros H. apply result_bind_Ok in H as (? & _ & H).
  apply result_bind_Ok in H as (r & Hr & H). unfold runtime_identity in Hr. cbn [as_runtime assignment_of ok_or mbind result_bind rr_identity] in Hr.
  apply validate_identity_proto in Hr as [<- _]. apply result_bind_Ok in H as (? & _ & H). apply result_bind_Ok in H as ([] & He & _).
  rewrite ensure_Ok, bool_decide_eq_true in He. done.
Qed.
Lemma build_Ok b l now a : build b l now = Ok a <->
  builder_validate b now = Ok tt /\ a = assignment_of b (Some (semantic_lease_to_proto l)) /\
  exists r, validate_assignment (rab_runtime b) a now = Ok r.
Proof.
  unfold build. rewrite result_then_Ok. split.
  - intros [Hb H]. apply result_bind_Ok in H as (r & Hr & H). injection H as <-. eauto.
  - intros (Hb & -> & r & Hr). split; [done|]. by rewrite Hr.
Qed.

(** C24: For a valid lease of the Kernel, the controller builds an assignment
    exactly when its payload is valid, the lease is active, held by the
    assignment's runtime, unexpired and expires no earlier than one second into
    the epoch.  An assignment that was built is admitted by the agent of that
    runtime generation and by no other agent, which recovers the Kernel's lease
    from the wire unchanged; it is admitted at precisely the moments before the
    first of its expiries: that of the lease, of the workload identity and of
    each object-store locator of its artifacts. *)
Theorem built_assignment_admitted_until_expiry b l now : Lease_validate l = Ok tt ->
  ((exists a, build b l now = Ok a) <->
   builder_validate b now = Ok tt /\ lease_state l = LActive /\ lease_holder l = rab_runtime b /\
   Forall (fun e => 1000 <= e)%N (lease_expiry l) /\ alive now (lease_expiry l)) /\
  (forall a, build b l now = Ok a -> forall rt now' r,
     validate_assignment rt a now' = Ok r <->
     rt = rab_runtime b /\ r = l /\ alive now' (lease_expiry l ++ payload_expiries b)).
Proof.
  intros Hv. split.
  - split.
    + intros (a & (Hb & -> & r & Hr)%build_Ok). apply (assignment_admitted_iff b l now _ _ Hv) in Hr. tauto.
    + intros (Hb & Hs & Hh & Hlo & Hx). eexists. apply build_Ok. split; [done|]. split; [done|]. exists l.
      apply (assignment_admitted_iff b l now _ _ Hv). apply builder_validate_Ok in Hb. done.
  - intros a (Hb & -> & l' & Ha)%build_Ok. apply builder_validate_Ok in Hb.
    apply (assignment_admitted_iff b l now _ _ Hv) in Ha as (-> & Hs & Hh & _ & Hlo & _). intros rt now' r. rewrite (assignment_admitted_iff b l now' rt r Hv).
    unfold alive. rewrite Forall_app. fold (alive now' (payload_expiries b)).
    rewrite <- (payload_time _ b None None now now' _ Hb). split.
    + intros (-> & _ & _ & Hp & _ & Hx). pose proof (payload_other_runtime _ _ _ _ Hp) as ->. done.
    + intros (-> & -> & Hx & Hp). done.
Qed.
