(* ===== verification/ProjectionSpec.v ===== *)
(** * The artifacts of an assignment: the theorem

    [validate_artifact_projection] compares four collections by digest: the
    artifacts of the placement, the quotes of the chosen target, and the transfers
    and local inputs of the assignment.  It accepts exactly the assignments that
    carry each artifact of the placement once, the way its quote says. *)
From stdpp Require Import base gmap strings list sorting pretty.
From Stdlib Require Import Ascii Lia ZifyBool ZifyN.
From S2P Require Import Prelude Validation Contract KernelApi Binding Messages Wire NodeMessages Artifact Placement.
From S2P Require Import ArtifactSpec PlacementSpec Admission Assignment AssignmentSpec.
Import NodeControl.

(** ** Indices *)
Section by_digest.
Context {A : Type} (dg : A -> string).
Definition by_digest (items : list A) : gmap string A := list_to_map ((fun item => (dg item, item)) <$> items).
Lemma by_digest_fst items : ((fun item => (dg item, item)) <$> items).*1 = dg <$> items.
Proof. rewrite <- list_fmap_compose. by apply list_fmap_ext. Qed.
Lemma by_digest_lookup items d item : NoDup (dg <$> items) ->
  by_digest items !! d = Some item <-> item ∈ items /\ dg item = d.
Proof.
  intros Hn. unfold by_digest. rewrite <- elem_of_list_to_map by (by rewrite by_digest_fst).
  rewrite list_elem_of_fmap. naive_solver.
Qed.
Lemma by_digest_dom items : dom (by_digest items) = list_to_set (dg <$> items).
Proof. unfold by_digest. by rewrite dom_list_to_map_L, by_digest_fst. Qed.
Lemma by_digest_size items : NoDup (dg <$> items) -> size (by_digest items) = length items.
Proof.
  intros Hn. unfold by_digest. rewrite <- size_dom, dom_list_to_map_L, by_digest_fst.
  rewrite size_list_to_set by done. by rewrite length_fmap.
Qed.
Lemma by_digest_snoc_l (indexed : gmap string A) items d item :
  dg item = d -> (d ∉ dg <$> items) ->
  by_digest items ∪ <[d := item]> indexed = by_digest (item :: items) ∪ indexed.
Proof.
  intros <- Hn. unfold by_digest. csimpl. rewrite <- insert_union_l, <- insert_union_r; [done|].
  apply not_elem_of_list_to_map_1. by rewrite by_digest_fst.
Qed.

Lemma index_by_digest_Ok (check : A -> result FabricContractError string) duplicate :
  (forall item d, check item = Ok d -> d = dg item) -> forall items indexed r,
  index_by_digest check duplicate indexed items = Ok r <->
  Forall (fun item => check item = Ok (dg item)) items /\ NoDup (dg <$> items) /\
  (forall item, item ∈ items -> indexed !! dg item = None) /\ r = by_digest items ∪ indexed.
Proof.
  intros Hc. induction items as [|item items IH]; intros indexed r; csimpl.
  { rewrite Forall_nil. unfold by_digest. csimpl. rewrite (left_id_L ∅ (∪)). split; [|naive_solver].
    intros [= ->]. split_and!; [done|constructor|set_solver|done]. }
  rewrite Forall_cons, NoDup_cons, result_bind_Ok. split.
  - intros (d & Hd & H). pose proof (Hc _ _ Hd) as ->. case_bool_decide as Hi; [done|]. apply IH in H as (Hf & Hn & Hs & ->).
    rewrite <- eq_None_not_Some in Hi.
    assert ((dg item ∉ dg <$> items)) as Hx.
    { intros (i & Heq & Hin)%list_elem_of_fmap. specialize (Hs _ Hin). rewrite <- Heq, lookup_insert_eq in Hs. done. }
    split_and!; try done.
    + intros i [->|Hin]%elem_of_cons; [done|]. specialize (Hs _ Hin). by apply lookup_insert_None in Hs as [? _].
    + by apply by_digest_snoc_l.
  - intros ([Hd Hf] & [Hx Hn] & Hs & ->). exists (dg item). split; [done|].
    rewrite bool_decide_eq_false_2 by (rewrite (Hs item) by set_solver; by intros []). apply IH. split_and!; try done.
    + intros i Hin. rewrite lookup_insert_None. split; [apply Hs; set_solver|]. intros Heq. apply Hx.
      rewrite Heq. by apply list_elem_of_fmap_2.
    + symmetry. by apply by_digest_snoc_l.
Qed.
Lemma index_by_digest_new (check : A -> result FabricContractError string) duplicate items r :
  (forall item d, check item = Ok d -> d = dg item) ->
  index_by_digest check duplicate ∅ items = Ok r <->
  Forall (fun item => check item = Ok (dg item)) items /\ NoDup (dg <$> items) /\ r = by_digest items.
Proof.
  intros Hc. rewrite (index_by_digest_Ok check duplicate Hc), (right_id_L ∅ (∪)). setoid_rewrite lookup_empty. naive_solver.
Qed.
End by_digest.

#[local] Abbreviation quote_digest := (fun quote => art_digest (aq_artifact quote)).
Lemma index_quotes_Ok quotes indexed ids r :
  index_quotes indexed ids quotes = Ok r <->
  Forall (fun quote => ArtifactRef_validate (aq_artifact quote) = Ok tt /\ aq_quote_id quote <> "") quotes /\
  NoDup (aq_quote_id <$> quotes) /\ (forall quote, quote ∈ quotes -> (aq_quote_id quote ∉ ids)) /\
  NoDup (quote_digest <$> quotes) /\
  (forall quote, quote ∈ quotes -> indexed !! quote_digest quote = None) /\ r = by_digest quote_digest quotes ∪ indexed.
Proof.
  revert indexed ids. induction quotes as [|q quotes IH]; intros indexed ids; csimpl.
  { rewrite Forall_nil. unfold by_digest. csimpl. rewrite (left_id_L ∅ (∪)). split; [|naive_solver].
    intros [= ->]. split_and!; try done; try constructor; set_solver. }
  rewrite Forall_cons, !NoDup_cons. rewrite result_then_Ok, mapped_err_Ok, result_then_Ok, ensure_Ok.
  rewrite negb_true_iff, orb_false_iff, !bool_decide_eq_false. split.
  - intros (Hv & [He Hid] & H). case_bool_decide as Hi; [done|]. apply IH in H as (Hf & Hn & Hids & Hd & Hs & ->).
    rewrite <- eq_None_not_Some in Hi.
    assert ((quote_digest q ∉ quote_digest <$> quotes)) as Hx.
    { intros (i & Heq & Hin)%list_elem_of_fmap. specialize (Hs _ Hin). simpl in *. by rewrite <- Heq, lookup_insert_eq in Hs. }
    split_and!; try done.
    + intros (i & Heq & Hin)%list_elem_of_fmap. apply (Hids _ Hin). set_solver.
    + intros i [->|Hin]%elem_of_cons; [done|]. specialize (Hids _ Hin). set_solver.
    + intros i [->|Hin]%elem_of_cons; [done|]. specialize (Hs _ Hin). by apply lookup_insert_None in Hs as [? _].
    + by apply (by_digest_snoc_l quote_digest).
  - intros ([[Hv He] Hf] & [Hid Hn] & Hids & [Hx Hd] & Hs & ->). split; [done|]. split; [split; [done|apply Hids; set_solver]|].
    rewrite bool_decide_eq_false_2 by (rewrite (Hs q) by set_solver; by intros []). apply IH. split_and!; try done.
    + intros i Hin [Heq%elem_of_singleton|Hin']%elem_of_union.
      * apply Hid. rewrite <- Heq. by apply list_elem_of_fmap_2.
      * eapply Hids; [|done]. set_solver.
    + intros i Hin. rewrite lookup_insert_None. split; [apply Hs; set_solver|]. intros Heq. apply Hx.
      simpl. rewrite Heq. by apply (list_elem_of_fmap_2 quote_digest).
    + symmetry. by apply (by_digest_snoc_l quote_digest).
Qed.
Lemma index_artifact_quotes_Ok quotes r :
  index_artifact_quotes quotes = Ok r <->
  Forall (fun quote => ArtifactRef_validate (aq_artifact quote) = Ok tt /\ aq_quote_id quote <> "") quotes /\
  NoDup (aq_quote_id <$> quotes) /\ NoDup (quote_digest <$> quotes) /\ r = by_digest quote_digest quotes.
Proof.
  unfold index_artifact_quotes. rewrite index_quotes_Ok, (right_id_L ∅ (∪)). setoid_rewrite lookup_empty. set_solver.
Qed.

(** ** References of the assignment's items *)
Lemma transfer_ref_digest spec r : artifact_ref_from_transfer_spec spec = Ok r ->
  art_digest r = sp_digest spec /\ ArtifactRef_validate r = Ok tt.
Proof.
  unfold artifact_ref_from_transfer_spec. intros (kind & _ & H)%result_bind_Ok. apply result_then_Ok in H as [Hv H].
  apply mapped_err_Ok in Hv. injection H as <-. done.
Qed.
Lemma local_ref_digest input r : artifact_ref_from_local_input input = Ok r ->
  art_digest r = li_digest input /\ ArtifactRef_validate r = Ok tt.
Proof.
  unfold artifact_ref_from_local_input. intros (kind & _ & H)%result_bind_Ok. apply result_then_Ok in H as [Hv H].
  apply mapped_err_Ok in Hv. injection H as <-. done.
Qed.
Lemma index_requested_Ok artifacts r : index_requested_artifacts artifacts = Ok r <->
  Forall (fun a => ArtifactRef_validate a = Ok tt) artifacts /\ NoDup (art_digest <$> artifacts) /\
  r = by_digest art_digest artifacts.
Proof.
  unfold index_requested_artifacts. rewrite (index_by_digest_new art_digest).
  - rewrite (Forall_iff _ artifacts (fun a => ArtifactRef_validate a = Ok tt)); [done|].
    intros a. rewrite result_then_Ok, mapped_err_Ok. naive_solver.
  - intros item d [_ H]%result_then_Ok. by injection H.
Qed.

(** The transfers and the local inputs of an assignment are indexed alike. *)
Section items.
Context {A : Type} (dg : A -> string) (projection : A -> result FabricContractError ArtifactRef).
Context (Hproj : forall item r, projection item = Ok r -> art_digest r = dg item /\ ArtifactRef_validate r = Ok tt).
Definition refs_of (items : list A) (refs : list ArtifactRef) : Prop := Forall2 (fun item r => projection item = Ok r) items refs.
Lemma index_items_Ok duplicate items r :
  index_by_digest (fun item => projected ← projection item; Ok (art_digest projected)) duplicate ∅ items = Ok r <->
  (exists refs, refs_of items refs) /\ NoDup (dg <$> items) /\ r = by_digest dg items.
Proof.
  rewrite (index_by_digest_new dg).
  - assert (Forall (fun item => (projected ← projection item; Ok (art_digest projected)) = Ok (dg item)) items <->
            exists refs, refs_of items refs) as ->; [|done].
    unfold refs_of. induction items as [|item items IH]; csimpl.
    { rewrite Forall_nil. split; [by exists []|done]. }
    rewrite Forall_cons, IH, result_bind_Ok. split.
    + intros [(r' & Hr & _) [refs Hrefs]]. exists (r' :: refs). by constructor.
    + intros [refs (r' & refs' & Hr & Hrefs & ->)%Forall2_cons_inv_l]. split; [|eauto].
      exists r'. split; [done|]. by rewrite (proj1 (Hproj _ _ Hr)).
  - intros item d (r' & Hr & H)%result_bind_Ok. injection H as <-. apply (proj1 (Hproj _ _ Hr)).
Qed.
Lemma refs_of_digests items refs : refs_of items refs -> art_digest <$> refs = dg <$> items.
Proof. induction 1 as [|item r items refs Hr _ IH]; csimpl; [done|]. by rewrite IH, (proj1 (Hproj _ _ Hr)). Qed.
Lemma refs_of_valid items refs : refs_of items refs -> Forall (fun r => ArtifactRef_validate r = Ok tt) refs.
Proof. induction 1 as [|item r items refs Hr _ IH]; constructor; [|done]. apply (proj2 (Hproj _ _ Hr)). Qed.
Lemma refs_of_elem items refs r : refs_of items refs -> r ∈ refs <-> exists item, item ∈ items /\ projection item = Ok r.
Proof.
  clear dg Hproj. induction 1 as [|item r' items refs Hr _ IH]; [set_solver|]. rewrite elem_of_cons, IH. setoid_rewrite elem_of_cons. split.
  - intros [->|(i & ? & ?)]; eauto.
  - intros (i & [->|?] & Hi); [left; congruence|eauto].
Qed.
Lemma refs_of_item items refs item : refs_of items refs -> item ∈ items -> exists r, projection item = Ok r /\ r ∈ refs.
Proof.
  clear dg Hproj. induction 1 as [|item' r' items refs Hr _ IH]; [by intros ?%elem_of_nil|]. intros [->|Hin]%elem_of_cons.
  - exists r'. split; [done|left].
  - destruct (IH Hin) as (r & ? & ?). exists r. split; [done|by right].
Qed.
(** An artifact that the index maps its digest to an item of is a reference of
    the items. *)
Lemma refs_of_lookup items refs a : refs_of items refs -> NoDup (dg <$> items) ->
  (exists item, by_digest dg items !! art_digest a = Some item /\ projection item = Ok a) <-> a ∈ refs.
Proof.
  intros Hr Hn. rewrite (refs_of_elem _ _ _ Hr). setoid_rewrite (by_digest_lookup dg _ _ _ Hn).
  split; intros (item & Hi & Hp); exists item; [tauto|]. split; [|done]. split; [done|]. by rewrite (proj1 (Hproj _ _ Hp)).
Qed.
End items.

(** ** The comparison *)
Section comparison.
Context (b : RuntimeAssignmentBuilder) (placement : ExecutionPlacementRequest) (selected : ExecutionTargetCandidate).
#[local] Abbreviation requested := (plr_artifacts placement).
#[local] Abbreviation specs := (rab_artifacts b).
#[local] Abbreviation locals := (rab_local_artifacts b).
#[local] Abbreviation quotes := (cnd_artifact_quotes selected).
#[local] Abbreviation destination := (cnd_artifact_destination_peer_id selected).
#[local] Abbreviation remote_of := (refs_of artifact_ref_from_transfer_spec).
#[local] Abbreviation local_of := (refs_of artifact_ref_from_local_input).

(** The quote is for this destination and scope, and the assignment carries its
    artifact the way the quote says. *)
Definition quote_fits (remote near : list ArtifactRef) (quote : ArtifactPlacementQuote) : Prop :=
  aq_destination_peer_id quote = destination /\ aq_policy_scope quote = plr_artifact_policy_scope placement /\
  match aq_availability quote with
  | VerifiedLocal _ => aq_artifact quote ∈ near
  | AuthorizedTransfer _ => aq_artifact quote ∈ remote /\ art_size_bytes (aq_artifact quote) <> 0%N
  end.
Definition destination_valid : Prop := requested <> [] -> destination <> "" /\ destination <> nr_node_id (cnd_node selected).
Definition carries_exactly : Prop :=
  exists remote near, remote_of specs remote /\ local_of locals near /\
    NoDup (art_digest <$> requested) /\ remote ++ near ≡ₚ requested /\ (aq_artifact <$> quotes) ≡ₚ requested /\
    NoDup (aq_quote_id <$> quotes) /\ Forall (fun quote => aq_quote_id quote <> "") quotes /\
    destination_valid /\ Forall (quote_fits remote near) quotes /\
    Forall (fun spec => sp_destination_peer_id spec = destination) specs.

Lemma bset_iter_nil (s : gset string) : bset_iter s = [] <-> s ⊆ ∅.
Proof.
  split; intros Hs.
  - intros x Hx%elem_of_bset_iter. rewrite Hs in Hx. by apply elem_of_nil in Hx.
  - destruct (bset_iter s) as [|x l] eqn:Hb; [done|]. exfalso.
    assert (x ∈ s) as Hx by (apply elem_of_bset_iter; rewrite Hb; set_solver). set_solver.
Qed.
Lemma minus_nil (X Y : gset string) : X ∖ Y ⊆ ∅ -> X ⊆ Y.
Proof. intros H x Hx. destruct (decide (x ∈ Y)); set_solver. Qed.
Lemma indices_Ok requested' assignments' locals' quotes' :
  index_requested_artifacts requested = Ok requested' -> index_assignment_artifacts specs = Ok assignments' ->
  index_local_artifacts locals = Ok locals' -> index_artifact_quotes quotes = Ok quotes' ->
  validate_artifact_projection b placement selected = Ok tt <->
  (forall d, d ∈ dom assignments' -> (d ∉ dom locals')) /\ dom assignments' ∪ dom locals' = dom requested' /\
  size quotes' = size requested' /\
  (size requested' <> 0 -> destination <> "" /\ destination <> nr_node_id (cnd_node selected)) /\
  forall d a, requested' !! d = Some a -> check_projection placement selected assignments' locals' quotes' (d, a) = Ok tt.
Proof.
  intros H1 H2 H3 H4. unfold validate_artifact_projection. rewrite H1, H2, H3, H4. cbn [mbind result_bind].
  destruct (list_find _ _) as [[i d]|] eqn:Hf.
  { apply list_find_Some in Hf as (Hd & Hl & _). apply list_elem_of_lookup_2, elem_of_btree_keys in Hd.
    split; [done|]. intros [Hdisj _]. exfalso. apply (Hdisj d); by apply elem_of_dom. }
  apply list_find_None in Hf. rewrite Forall_forall in Hf.
  destruct (bset_iter (_ ∖ dom requested')) as [|d l] eqn:Hd1.
  2:{ split; [done|]. intros (_ & Heq & _). exfalso. assert (d ∈ (dom assignments' ∪ dom locals') ∖ dom requested'); [|set_solver].
      apply elem_of_bset_iter. rewrite Hd1. set_solver. }
  apply bset_iter_nil in Hd1. rewrite !result_then_Ok, !ensure_Ok, Nat.eqb_eq.
  rewrite negb_true_iff, andb_false_iff, negb_false_iff, Nat.eqb_eq, orb_false_iff, !bool_decide_eq_false.
  destruct (bset_iter (dom requested' ∖ _)) as [|d l] eqn:Hd2.
  2:{ split; [intros (_ & _ & ?); done|]. intros (_ & Heq & _). exfalso.
      assert (d ∈ dom requested' ∖ (dom assignments' ∪ dom locals')); [|set_solver].
      apply elem_of_bset_iter. rewrite Hd2. set_solver. }
  apply bset_iter_nil in Hd2. rewrite try_for_each_Ok, Forall_forall. split.
  - intros (Hs & Hdst & Hc). split_and!; try done.
    + intros d Hx%elem_of_dom Hy%elem_of_dom. apply (Hf d); [|done]. by apply elem_of_btree_keys.
    + apply leibniz_equiv, set_equiv_subseteq; split; by apply minus_nil.
    + destruct Hdst; [done|tauto].
    + intros d a Ha. apply Hc. by apply elem_of_btree_iter.
  - intros (_ & _ & Hs & Hdst & Hc). split_and!; try done.
    + destruct (decide (size requested' = 0)); tauto.
    + intros [d a] Ha%elem_of_btree_iter. by apply Hc.
Qed.

Section indexed.
Context (remote near : list ArtifactRef) (Hremote : remote_of specs remote) (Hnear : local_of locals near).
Context (Hspecs : NoDup (sp_digest <$> specs)) (Hlocals : NoDup (li_digest <$> locals)).
Context (Hquotes : NoDup (quote_digest <$> quotes)).
Definition delivered (quote : ArtifactPlacementQuote) (a : ArtifactRef) : Prop :=
  match aq_availability quote with
  | VerifiedLocal _ => a ∈ near
  | AuthorizedTransfer _ =>
      art_size_bytes a <> 0%N /\
      exists spec, spec ∈ specs /\ artifact_ref_from_transfer_spec spec = Ok a /\ sp_destination_peer_id spec = destination
  end.
Lemma check_local_Ok a :
  check_local_projection (by_digest li_digest locals) (art_digest a) a = Ok tt <-> a ∈ near.
Proof.
  rewrite <- (refs_of_lookup li_digest _ local_ref_digest _ _ _ Hnear Hlocals). unfold check_local_projection.
  destruct (by_digest _ _ !! _) as [local|]; cbn [ok_or mbind result_bind]; [|naive_solver].
  rewrite result_bind_Ok. setoid_rewrite ensure_Ok. setoid_rewrite bool_decide_eq_true. naive_solver.
Qed.
Lemma check_transfer_Ok a :
  check_transfer_projection selected (by_digest sp_digest specs) (art_digest a) a = Ok tt <->
  art_size_bytes a <> 0%N /\
  exists spec, spec ∈ specs /\ artifact_ref_from_transfer_spec spec = Ok a /\ sp_destination_peer_id spec = destination.
Proof.
  unfold check_transfer_projection. rewrite result_then_Ok, ensure_Ok, negb_true_iff, N.eqb_neq.
  apply and_iff_compat_l. split.
  - intros (spec & Hl & H)%result_bind_Ok. apply result_bind_Ok in H as (r & Hr & H).
    apply result_then_Ok in H as [He Hd]. rewrite ensure_Ok, bool_decide_eq_true in He, Hd. subst r. exists spec. split; [|done].
    destruct (by_digest _ _ !! _) as [spec'|] eqn:Hs; [|done]. injection Hl as ->.
    apply (by_digest_lookup sp_digest _ _ _ Hspecs) in Hs as [? _]. done.
  - intros (spec & Hin & Hr & Hd).
    rewrite (proj2 (by_digest_lookup sp_digest specs (art_digest a) spec Hspecs)); last first.
    { split; [done|]. by rewrite (proj1 (transfer_ref_digest _ _ Hr)). }
    cbn [ok_or mbind result_bind]. rewrite Hr. cbn [mbind result_bind]. by rewrite !bool_decide_eq_true_2.
Qed.
Lemma check_projection_Ok a :
  check_projection placement selected (by_digest sp_digest specs) (by_digest li_digest locals)
    (by_digest quote_digest quotes) (art_digest a, a) = Ok tt <->
  exists quote, quote ∈ quotes /\ aq_artifact quote = a /\ aq_destination_peer_id quote = destination /\
    aq_policy_scope quote = plr_artifact_policy_scope placement /\ delivered quote a.
Proof.
  unfold check_projection, delivered. split.
  - intros (q & Hq & H)%result_bind_Ok. apply result_then_Ok in H as [He H]. apply result_then_Ok in H as [Hs H].
    rewrite ensure_Ok, bool_decide_eq_true in He. rewrite ensure_Ok, andb_true_iff, !bool_decide_eq_true in Hs. exists q.
    destruct (by_digest _ _ !! _) as [q'|] eqn:Hl; [|done]. injection Hq as ->.
    apply (by_digest_lookup quote_digest _ _ _ Hquotes) in Hl as [? _]. split_and!; try tauto.
    destruct (aq_availability q); [by apply check_local_Ok|by apply check_transfer_Ok].
  - intros (q & Hin & <- & Hd & Hs & H).
    rewrite (proj2 (by_digest_lookup quote_digest quotes _ q Hquotes) (conj Hin eq_refl)). cbn [ok_or mbind result_bind].
    rewrite !bool_decide_eq_true_2 by done. cbn [ensure andb mbind result_bind].
    destruct (aq_availability q); [by apply check_local_Ok|by apply check_transfer_Ok].
Qed.
End indexed.

Lemma covering_permutation {A} (l k : list A) : NoDup l -> (forall x, x ∈ l -> x ∈ k) -> length k <= length l -> k ≡ₚ l.
Proof. intros Hn Hs Hl. symmetry. apply submseteq_length_Permutation; [by apply NoDup_submseteq|done]. Qed.

Section accepted.
Context (remote near : list ArtifactRef) (Hremote : remote_of specs remote) (Hnear : local_of locals near).
Context (Hdigests : NoDup (sp_digest <$> specs)).
Lemma item_digests : art_digest <$> remote ++ near = (sp_digest <$> specs) ++ (li_digest <$> locals).
Proof.
  rewrite fmap_app, (refs_of_digests sp_digest _ transfer_ref_digest _ _ Hremote).
  by rewrite (refs_of_digests li_digest _ local_ref_digest _ _ Hnear).
Qed.
Context (Hrequested : NoDup (art_digest <$> requested)) (Hquotes : NoDup (quote_digest <$> quotes)).
Context (Hitems : NoDup (art_digest <$> remote ++ near)).
Context (Hdom : list_to_set (art_digest <$> remote ++ near) =@{gset string} list_to_set (art_digest <$> requested)).
Context (Hlength : length quotes = length requested).
Context (Hall : forall a, a ∈ requested -> exists quote, quote ∈ quotes /\ aq_artifact quote = a /\
    aq_destination_peer_id quote = destination /\ aq_policy_scope quote = plr_artifact_policy_scope placement /\
    delivered near quote a).

Lemma items_are_requested : remote ++ near ≡ₚ requested.
Proof.
  apply covering_permutation; [by eapply NoDup_fmap_1| |].
  - intros a (q & _ & _ & _ & _ & Hd)%Hall. apply elem_of_app. unfold delivered in Hd.
    destruct (aq_availability q); [by right|left]. destruct Hd as (_ & spec & Hin & Hd & _).
    apply (refs_of_elem _ _ _ _ Hremote). eauto.
  - rewrite <- (length_fmap art_digest (remote ++ near)), <- (length_fmap art_digest requested).
    rewrite <- (size_list_to_set (C:=gset string) _ Hitems), <- (size_list_to_set (C:=gset string) _ Hrequested).
    by rewrite Hdom.
Qed.
Lemma quotes_are_requested : (aq_artifact <$> quotes) ≡ₚ requested.
Proof.
  apply covering_permutation; [by eapply NoDup_fmap_1| |rewrite length_fmap; lia].
  intros a (q & Hin & <- & _)%Hall. by apply list_elem_of_fmap_2.
Qed.
Lemma quotes_fit : Forall (quote_fits remote near) quotes.
Proof.
  apply Forall_forall. intros q Hin.
  destruct (Hall (aq_artifact q)) as (q' & Hin' & Heq & Hd & Hs & H).
  { rewrite <- quotes_are_requested. by apply list_elem_of_fmap_2. }
  assert (q' = q) as -> by (eapply (NoDup_fmap_elem quote_digest); [done..|by rewrite Heq]).
  split; [done|]. split; [done|]. unfold delivered in H. destruct (aq_availability q); [done|].
  destruct H as (Hz & spec & Hsp & Hr & _). split; [|done]. apply (refs_of_elem _ _ _ _ Hremote). eauto.
Qed.
Lemma specs_fit : Forall (fun spec => sp_destination_peer_id spec = destination) specs.
Proof.
  apply Forall_forall. intros spec Hin.
  destruct (refs_of_item _ _ _ _ Hremote Hin) as (r & Hr & Hrin).
  destruct (Hall r) as (q & _ & _ & _ & _ & H). { rewrite <- items_are_requested. set_solver. }
  unfold delivered in H. destruct (aq_availability q).
  - exfalso. rewrite fmap_app in Hitems. apply NoDup_app in Hitems as (_ & Hd & _).
    apply (Hd (art_digest r)); by apply list_elem_of_fmap_2.
  - destruct H as (_ & spec' & Hin' & Hr' & <-). f_equal. eapply (NoDup_fmap_elem sp_digest); [done..|].
    by rewrite <- (proj1 (transfer_ref_digest _ _ Hr)), <- (proj1 (transfer_ref_digest _ _ Hr')).
Qed.
End accepted.

Lemma accepted_is_exact : validate_artifact_projection b placement selected = Ok tt -> carries_exactly.
Proof.
  intros Hv. pose proof Hv as H0. unfold validate_artifact_projection in H0.
  apply result_bind_Ok in H0 as (requested' & H1 & H0). apply result_bind_Ok in H0 as (assignments' & H2 & H0).
  apply result_bind_Ok in H0 as (locals' & H3 & H0). apply result_bind_Ok in H0 as (quotes' & H4 & _).
  destruct (proj1 (indices_Ok _ _ _ _ H1 H2 H3 H4) Hv) as (Hdisj & Hdom & Hsize & Hdst & Hc). clear Hv.
  apply index_requested_Ok in H1 as (_ & Hr & ->).
  apply (index_items_Ok sp_digest _ transfer_ref_digest) in H2 as ([remote Hremote] & Hs & ->).
  apply (index_items_Ok li_digest _ local_ref_digest) in H3 as ([near Hnear] & Hl & ->).
  apply index_artifact_quotes_Ok in H4 as (Hqv & Hqid & Hq & ->).
  rewrite !by_digest_size in Hsize by done. rewrite !by_digest_size in Hdst by done. rewrite !by_digest_dom in Hdisj.
  rewrite (by_digest_dom sp_digest), (by_digest_dom li_digest), (by_digest_dom art_digest) in Hdom.
  assert (forall a, a ∈ requested -> exists quote, quote ∈ quotes /\ aq_artifact quote = a /\
    aq_destination_peer_id quote = destination /\ aq_policy_scope quote = plr_artifact_policy_scope placement /\
    delivered near quote a) as Hall.
  { intros a Ha. apply (check_projection_Ok near Hnear Hs Hl Hq), Hc. by apply by_digest_lookup. }
  pose proof (item_digests remote near Hremote Hnear) as Hd.
  assert (NoDup (art_digest <$> remote ++ near)) as Hitems.
  { rewrite Hd. apply NoDup_app. split_and!; try done. intros d ? ?. by apply (Hdisj d); apply elem_of_list_to_set. }
  rewrite <- list_to_set_app_L, <- Hd in Hdom.
  exists remote, near. split_and!; try done.
  - by apply items_are_requested.
  - by eapply quotes_are_requested.
  - by eapply Forall_impl; [exact Hqv|intros ? [_ ?]].
  - intros Hne. apply Hdst. by destruct requested.
  - by apply quotes_fit.
  - by eapply specs_fit.
Qed.
Lemma exact_is_accepted : carries_exactly -> validate_artifact_projection b placement selected = Ok tt.
Proof.
  intros (remote & near & Hremote & Hnear & Hr & Hperm & Hqperm & Hqid & Hqne & Hdst & Hfit & Hsp).
  pose proof (item_digests remote near Hremote Hnear) as Hd.
  assert (art_digest <$> remote ++ near ≡ₚ art_digest <$> requested) as Hdp by (by rewrite Hperm).
  assert (NoDup ((sp_digest <$> specs) ++ (li_digest <$> locals))) as Hn by (by rewrite <- Hd, Hdp).
  apply NoDup_app in Hn as (Hs & Hdisj & Hl).
  assert (quote_digest <$> quotes ≡ₚ art_digest <$> requested) as Hqd.
  { rewrite <- Hqperm, <- list_fmap_compose. done. }
  assert (NoDup (quote_digest <$> quotes)) as Hq by (by rewrite Hqd).
  assert (forall a, a ∈ requested -> ArtifactRef_validate a = Ok tt) as Hvalid.
  { intros a. rewrite <- Hperm. revert a. rewrite <- Forall_forall, Forall_app. split.
    - by eapply (refs_of_valid sp_digest _ transfer_ref_digest).
    - by eapply (refs_of_valid li_digest _ local_ref_digest). }
  eapply indices_Ok.
  - apply index_requested_Ok. split_and!; [by apply Forall_forall|done..].
  - apply (index_items_Ok sp_digest _ transfer_ref_digest). eauto.
  - apply (index_items_Ok li_digest _ local_ref_digest). eauto.
  - apply index_artifact_quotes_Ok. split_and!; try done. apply Forall_forall. intros q Hin.
    rewrite Forall_forall in Hqne. split; [|by apply Hqne]. apply Hvalid. rewrite <- Hqperm. by apply list_elem_of_fmap_2.
  - rewrite (by_digest_size quote_digest), (by_digest_size art_digest) by done.
    rewrite (by_digest_dom sp_digest), (by_digest_dom li_digest), (by_digest_dom art_digest). split_and!.
    + intros d. rewrite !elem_of_list_to_set. apply Hdisj.
    + rewrite <- list_to_set_app_L, <- Hd. by rewrite Hdp.
    + rewrite <- (Permutation_length Hqperm), length_fmap. done.
    + intros Hne. apply Hdst. intros Hnil. apply Hne. by rewrite Hnil.
    + intros d a [Hin <-]%(by_digest_lookup art_digest); [|done]. apply (check_projection_Ok near Hnear Hs Hl Hq).
      rewrite <- Hqperm in Hin. apply list_elem_of_fmap in Hin as (q & -> & Hin). exists q.
      rewrite Forall_forall in Hfit. destruct (Hfit q Hin) as (? & ? & H). split_and!; try done.
      unfold delivered. destruct (aq_availability q); [done|]. destruct H as [Hx Hz]. split; [done|].
      apply (refs_of_elem _ _ _ _ Hremote) in Hx as (spec & Hspec & Href). exists spec. split_and!; try done.
      rewrite Forall_forall in Hsp. by apply Hsp.
Qed.
End comparison.

(** C23: A controller accepts the artifacts of an assignment exactly when they
    are those of the placement: the references of its transfers and of its local
    inputs are together the requested artifacts, each once; the quotes of the
    chosen target are for those artifacts, each once, under distinct non-empty
    identities and for the chosen destination and scope; an artifact travels by
    transfer, to the chosen destination and with at least one byte, when its quote
    is a transfer and is a local input when its quote is local; and a destination
    that differs from the node is named when there is an artifact. *)
Theorem projection_carries_exactly b placement selected :
  validate_artifact_projection b placement selected = Ok tt <-> carries_exactly b placement selected.
Proof. split; [apply accepted_is_exact|apply exact_is_accepted]. Qed.
