(* ===== verification/FabricExamples.v ===== *)
(** * The execution fabric: concrete runs

    A node, an assignment and a directory on which the theorems of the fabric
    apply, and a placement between two targets. *)
From stdpp Require Import base gmap strings list sorting pretty.
From Stdlib Require Import Ascii Lia ZifyBool ZifyN.
From S2P Require Import Prelude Validation Contract KernelApi Binding Messages Wire NodeMessages Artifact Placement.
From S2P Require Import ArtifactSpec PlacementSpec PlacementChoice Admission AdmissionSpec Assignment AssignmentSpec ProjectionSpec.
Import NodeControl.

(** ** A node *)
Definition example_descriptor : ExecutionNodeDescriptor :=
  node_descriptor (Some (node_ref "node-1" 3)) "container" (Some false).
Definition example_hello : ExecutionAgentHello :=
  agent_hello (Some (runtime_ref (Some (Proto.identity "runtime-1" 1)))) None 2 2 "test" 2 2 "resume" [] ""
    (Some example_descriptor) 1.
Lemma node_identity_is_stable_witness :
  exists p, node_enroll example_hello "session-1" = Ok p /\
    exists p', node_run [Disconnect true; Reconnect example_descriptor "session-2"; Terminate] p = Returned p' /\ node_ok p p'.
Proof.
  eexists. split; [vm_compute; reflexivity|].
  apply (node_identity_is_stable example_hello "session-1"). vm_compute. reflexivity.
Defined.

(** ** An assignment *)
Definition example_digest (c : ascii) : string := of_bytes (bytes "sha256:" ++ repeat c 64).
Definition example_artifact (c : ascii) (size : N) : ArtifactRef :=
  artifact_ref_of (artifact_uri_of (example_digest c)) (example_digest c) size ArtifactKind_generic None.
Definition example_source : ArtifactTransferSource :=
  transfer_source "peer-source" "replica-1" "https://store.example/object" "ticket" 2 7000.
Definition example_spec : ArtifactTransferSpec :=
  transfer_spec (artifact_uri_of (example_digest "a")) (example_digest "a") 10 "" 10 [example_digest "a"] [example_source]
    [part_source 0 "peer-source" "replica-1"] "peer-destination" "generic".
Definition example_input : ArtifactLocalInput :=
  local_input (artifact_uri_of (example_digest "b")) (example_digest "b") 0 "generic" "".
Definition example_runtime : Identity := mk_identity "runtime-1" 1.
Definition example_builder : RuntimeAssignmentBuilder :=
  with_local_artifacts
    (RuntimeAssignmentBuilder_new "assignment-1" example_runtime (mk_identity "operation-1" 1) "attempt-1"
       (workload_identity_of (Some (Proto.identity "workload-1" 1)) None
          (Some (runtime_ref (Some (Proto.identity "runtime-1" 1)))) ["run"] (Some (Proto.timestamp 8 0)))
       (runtime_profile (example_digest "c") (example_digest "d")) [example_spec])
    [example_input].
Definition fabric_lease : Lease :=
  mk_lease (mk_identity "lease-1" 1) example_runtime [mk_identity "gpu-0" 1] LActive 5 (Some 9000%N).

Lemma fabric_lease_valid : Lease_validate fabric_lease = Ok tt.
Proof. vm_compute. reflexivity. Qed.
(** The locator expires first, at 7000. *)
Lemma built_assignment_admitted_until_expiry_witness :
  exists a, build example_builder fabric_lease 6000 = Ok a /\
    validate_assignment example_runtime a 6999 = Ok fabric_lease /\
    validate_assignment example_runtime a 7000 <> Ok fabric_lease /\
    validate_assignment (mk_identity "runtime-1" 2) a 6000 <> Ok fabric_lease.
Proof.
  destruct (built_assignment_admitted_until_expiry example_builder fabric_lease 6000 fabric_lease_valid) as [[_ Hb] Ha].
  destruct Hb as [a Hbuilt].
  { split; [vm_compute; reflexivity|]. split; [done|]. split; [done|]. unfold alive, lease_expiry. simpl. split; constructor; (done || lia). }
  assert (lease_expiry fabric_lease ++ payload_expiries example_builder = [9000; 8000; 7000]%N) as Hx by (vm_compute; reflexivity).
  exists a. split; [done|]. split; [|split].
  - apply (Ha a Hbuilt). rewrite Hx. split; [done|]. split; [done|]. repeat constructor; lia.
  - intros H. apply (Ha a Hbuilt) in H as (_ & _ & H). rewrite Hx in H. unfold alive in H. rewrite !Forall_cons in H. lia.
  - intros H. apply (Ha a Hbuilt) in H as (H & _). discriminate.
Defined.

(** ** A placement

    Two targets hold the artifact [b] and can be sent [a]; the second one also
    takes longer.  The first is chosen, the assignment carries its artifacts, and
    with the second target's quotes it does not. *)
Definition example_provider : Identity := mk_identity "provider-1" 1.
Definition fabric_resource : Resource :=
  mk_resource (mk_identity "gpu-0" 1) example_provider "accelerator" [] ∅ ∅ ResourceReady "resource.ready" "ready" [].
Definition example_candidate (node peer : string) (millis : N) : ExecutionTargetCandidate :=
  target_candidate (node_ref node 1) NodeOnline ContainerAgent false RestartNone
    [execution_capability ContainerAgent false RestartNone; artifact_transfer_capability]
    (mk_provider example_provider ProviderReady [])
    (mk_snapshot example_provider 1 [fabric_resource] [] [] 5000 20000)
    "eu" "trusted" ∅ ∅ peer
    [placement_quote "quote-a" (example_artifact "a" 10) peer "scope-1" 5500 18000
       (AuthorizedTransfer (transfer_quote 10 millis 3 1 18000));
     placement_quote "quote-b" (example_artifact "b" 0) peer "scope-1" 5500 19000 (VerifiedLocal 1)]
    7 6000 90.
Definition example_request : ExecutionPlacementRequest :=
  placement_request [] (mk_query "accelerator" 1 [] ∅) ∅ (Some false) None false
    (network_requirements true false false) [example_artifact "a" 10; example_artifact "b" 0] "scope-1"
    (placement_policy {["eu"]} (Some "trusted") ∅ ∅ (Some 100%N)) (Some 12000%N) 6000.
Definition near_target : ExecutionTargetCandidate := example_candidate "node-1" "peer-destination" 400.
Definition far_target : ExecutionTargetCandidate := example_candidate "node-2" "peer-far" 900.

Example placement_run :
  cnd_node <$> place_execution_target example_request [far_target; near_target] = Ok (node_ref "node-1" 1) /\
  place_execution_target example_request [] =
    Err (fabric_error "WAITING_FOR_EXECUTION_TARGET"
           "no target satisfies the canonical resource, policy, lifecycle, and Artifact constraints") /\
  validate_artifact_projection example_builder example_request near_target = Ok tt /\
  is_err (validate_artifact_projection example_builder example_request far_target) = true.
Proof. split; [|split; [|split]]; vm_compute; reflexivity. Qed.

(** ** A directory *)
#[local] Instance example_hash : ManifestHash.
Proof. refine {| canonical_sha256 := fun m => repeat (ascii_of_N (dir_size_bytes m)) 32 |}. intros m. apply repeat_length. Defined.
Definition example_directory : PortableDirectoryManifest :=
  portable_directory 2 [directory_entry "a/x" (example_digest "a") 3; directory_entry "a/y" (example_digest "b") 4;
                        directory_entry "b" (example_digest "c") 0] 7.
Lemma directory_is_a_tree_witness :
  well_laid example_directory /\
  ~ well_laid (portable_directory 2 [directory_entry "A/x" (example_digest "a") 3; directory_entry "a/y" (example_digest "b") 4] 7) /\
  exists r, artifact_ref example_directory ArtifactKind_generic = Ok r /\ ArtifactRef_validate r = Ok tt.
Proof.
  assert (well_laid example_directory) as Hw by (apply directory_is_a_tree; vm_compute; reflexivity).
  split; [exact Hw|]. split.
  - intros H. apply directory_is_a_tree in H. vm_compute in H. discriminate.
  - apply (proj2 (proj2 (directory_is_a_tree example_directory))); [|exact Hw].
    exists ArtifactKind_generic. vm_compute. reflexivity.
Defined.
